(** * NDIS Driver Library: NBL chains, NBL queues and the NBL classifiers

    A shallow embedding of [nblchain.h] / [nblclassify.h] and the properties
    of the classification routines.

    An NBL (NET_BUFFER_LIST) is identified by its address.  The only field of
    an NBL the classifiers touch is [Next], so the memory is a finite map from
    the address of every live NBL to the contents of its [Next] field.  A
    pointer is [None] for NULL and [Some a] for the NBL at address [a].
    Dereferencing an address that is not in the map is a fault; every routine
    returns in the option monad, [None] standing for a fault or for a loop
    that ran out of fuel.  The loops walk the memory, so they take fuel; the
    theorems give the fuel that suffices.

    Left out of the routines: [PreFetchCacheLine], a hint without effect on
    the memory, and the [NDIS_ASSERT]s, compiled only in debug builds. *)

From stdpp Require Import base option list gmap.
From Stdlib Require Import ZArith NArith Lia.

Open Scope nat_scope.
Set Warnings "-clear-no-such-hyp".

(** ** Memory *)

Definition NET_BUFFER_LIST := nat.
Definition PNBL := option NET_BUFFER_LIST.
Abbreviation NULL := (@None NET_BUFFER_LIST).
Abbreviation heap := (gmap nat (option nat)).

(** [Nbl->Next] *)
Definition load (h : heap) (a : NET_BUFFER_LIST) : option PNBL := h !! a.

(** [Nbl->Next = v] *)
Definition store (h : heap) (a : NET_BUFFER_LIST) (v : PNBL) : option heap :=
  match h !! a with
  | Some _ => Some (<[a := v]> h)
  | None => None
  end.

(** [ULONG_PTR] and [SIZE_T]: 64-bit unsigned values. Classification values
    are only ever compared for equality; queue indices are only compared and
    used to index arrays. *)
Definition ULONG_PTR := N.
Definition SIZE_T_MAX : N := 18446744073709551615%N.
Definition SIZE_T_add (a b : N) : N := ((a + b) mod (SIZE_T_MAX + 1))%N.

(** ** nblchain.h *)

(** [NdisNumNblsInNblChain]: the [while (NblChain)] loop; [Count] is a ULONG. *)
Definition ULONG_MAX : N := 4294967295%N.

Fixpoint NdisNumNblsInNblChain_loop (fuel : nat) (h : heap) (NblChain : PNBL)
    (Count : N) : option N :=
  match fuel with
  | O => None
  | S fuel =>
    match NblChain with
    | None => Some Count
    | Some a =>
      Next ← load h a;
      NdisNumNblsInNblChain_loop fuel h Next ((Count + 1) mod (ULONG_MAX + 1))%N
    end
  end.

Definition NdisNumNblsInNblChain (fuel : nat) (h : heap) (NblChain : PNBL) : option N :=
  NdisNumNblsInNblChain_loop fuel h NblChain 0%N.

(** ** nblqueue.h *)

(** Modelled from the spec: the header nblqueue.h is not part of the sources.
    A Packet Queue is [{ head, tail }] over a chain; [First] is the name the
    callers in nblclassify.h use for the head ([queue.First]). *)
Record NBL_QUEUE := mkQ { First : PNBL; Last : PNBL }.

(** Modelled from the spec: [init()] sets head = tail = null. *)
Definition NdisInitializeNblQueue : NBL_QUEUE := mkQ NULL NULL.

(** Modelled from the spec: [append_chain(head, tail)] of nblqueue.h.  It sets
    the sub-chain's terminal [Next] to null and rewires the previous tail's
    [Next] (or the head of an empty queue) to the sub-chain's head. *)
Definition NdisAppendNblChainToNblQueueFast (h : heap) (Q : NBL_QUEUE)
    (NblChainFirst NblChainLast : NET_BUFFER_LIST) : option (heap * NBL_QUEUE) :=
  h1 ← store h NblChainLast NULL;
  match First Q with
  | None => Some (h1, mkQ (Some NblChainFirst) (Some NblChainLast))
  | Some _ =>
    t ← Last Q;
    h2 ← store h1 t (Some NblChainFirst);
    Some (h2, mkQ (First Q) (Some NblChainLast))
  end.

(** Modelled from the spec: the Counted Packet Queue is a Packet Queue plus an
    integer Count. *)
Record NBL_COUNTED_QUEUE := mkCQ { Queue : NBL_QUEUE; NblCount : N }.

Definition NdisInitializeNblCountedQueue : NBL_COUNTED_QUEUE :=
  mkCQ NdisInitializeNblQueue 0%N.

(** Modelled from the spec: the counted append takes the number of NBLs of the
    sub-chain and adds it to the queue's count. *)
Definition NdisAppendNblChainToNblCountedQueueFast (h : heap) (Q : NBL_COUNTED_QUEUE)
    (NblChainFirst NblChainLast : NET_BUFFER_LIST) (Count : N)
    : option (heap * NBL_COUNTED_QUEUE) :=
  '(h', q') ← NdisAppendNblChainToNblQueueFast h (Queue Q) NblChainFirst NblChainLast;
  Some (h', mkCQ q' (SIZE_T_add (NblCount Q) Count)).

(** ** nblclassify.h *)

(** A call of the flush callback [FlushCallback(FlushContext,
    ClassificationResult, &Queue)]: the callback sees the classification
    result and the queue in the memory at the moment of the call.  It is
    recorded, not interpreted: the callback must not change the linkage. *)
Record FlushCall := FlushCallback {
  ClassificationResult : ULONG_PTR;
  FlushQueue : NBL_QUEUE;
  FlushMemory : heap }.

Section Classify.

(** The classification callback together with its context: a function of the
    NBL that does not touch the chain linkage. *)
Variable ClassificationCallback : NET_BUFFER_LIST → N.

(** [Q = (CurrentIndex == 0) ? Queue0 : Queue1;
     NdisAppendNblChainToNblQueueFast(Q, First, Previous)] *)
Definition NdisClassifyNblChain2_append (h : heap) (CurrentIndex : N)
    (Queue0 Queue1 : NBL_QUEUE) (First Previous : NET_BUFFER_LIST)
    : option (heap * NBL_QUEUE * NBL_QUEUE) :=
  if decide (CurrentIndex = 0%N) then
    '(h', Q) ← NdisAppendNblChainToNblQueueFast h Queue0 First Previous;
    Some (h', Q, Queue1)
  else
    '(h', Q) ← NdisAppendNblChainToNblQueueFast h Queue1 First Previous;
    Some (h', Queue0, Q).

(** [NdisClassifyNblChain2]: the [while (Nbl != NULL)] loop followed by the
    final append. *)
Fixpoint NdisClassifyNblChain2_loop (fuel : nat) (h : heap) (Nbl : PNBL)
    (First Previous : NET_BUFFER_LIST) (CurrentIndex : N)
    (Queue0 Queue1 : NBL_QUEUE) : option (heap * NBL_QUEUE * NBL_QUEUE) :=
  match fuel with
  | O => None
  | S fuel =>
    match Nbl with
    | Some n =>
      let ThisIndex := ClassificationCallback n in
      if decide (ThisIndex ≠ CurrentIndex) then
        h1 ← store h Previous NULL;
        '(h2, Queue0, Queue1) ←
          NdisClassifyNblChain2_append h1 CurrentIndex Queue0 Queue1 First Previous;
        Next ← load h2 n;
        NdisClassifyNblChain2_loop fuel h2 Next n n ThisIndex Queue0 Queue1
      else
        Next ← load h n;
        NdisClassifyNblChain2_loop fuel h Next First n CurrentIndex Queue0 Queue1
    | None =>
      NdisClassifyNblChain2_append h CurrentIndex Queue0 Queue1 First Previous
    end
  end.

Definition NdisClassifyNblChain2 (fuel : nat) (h : heap) (NblChain : NET_BUFFER_LIST)
    (Queue0 Queue1 : NBL_QUEUE) : option (heap * NBL_QUEUE * NBL_QUEUE) :=
  let Nbl := NblChain in
  let First := Nbl in
  let ThisIndex := ClassificationCallback Nbl in
  let CurrentIndex := ThisIndex in
  let Previous := Nbl in
  Next ← load h Nbl;
  NdisClassifyNblChain2_loop fuel h Next First Previous CurrentIndex Queue0 Queue1.

(** [NdisAppendNblChainToNblQueueFast(&Queues[Index], First, Previous)]:
    [Queues] is the caller's array; an index outside the array is a fault. *)
Definition NdisClassifyNblChainByIndex_append (h : heap) (Queues : list NBL_QUEUE)
    (Index : N) (First Previous : NET_BUFFER_LIST) : option (heap * list NBL_QUEUE) :=
  Q ← Queues !! N.to_nat Index;
  '(h', Q') ← NdisAppendNblChainToNblQueueFast h Q First Previous;
  Some (h', <[N.to_nat Index := Q']> Queues).

(** [NdisClassifyNblChainByIndex].  [NumberOfQueues] is only referenced by the
    debug assertions; it is the length of [Queues]. *)
Fixpoint NdisClassifyNblChainByIndex_loop (fuel : nat) (h : heap) (Nbl : PNBL)
    (First Previous : NET_BUFFER_LIST) (CurrentIndex : N)
    (Queues : list NBL_QUEUE) : option (heap * list NBL_QUEUE) :=
  match fuel with
  | O => None
  | S fuel =>
    match Nbl with
    | Some n =>
      let ThisIndex := ClassificationCallback n in
      if decide (ThisIndex ≠ CurrentIndex) then
        h1 ← store h Previous NULL;
        '(h2, Queues) ←
          NdisClassifyNblChainByIndex_append h1 Queues CurrentIndex First Previous;
        Next ← load h2 n;
        NdisClassifyNblChainByIndex_loop fuel h2 Next n n ThisIndex Queues
      else
        Next ← load h n;
        NdisClassifyNblChainByIndex_loop fuel h Next First n CurrentIndex Queues
    | None =>
      NdisClassifyNblChainByIndex_append h Queues CurrentIndex First Previous
    end
  end.

Definition NdisClassifyNblChainByIndex (fuel : nat) (h : heap)
    (NblChain : NET_BUFFER_LIST) (Queues : list NBL_QUEUE)
    : option (heap * list NBL_QUEUE) :=
  let Nbl := NblChain in
  let First := Nbl in
  let ThisIndex := ClassificationCallback Nbl in
  let CurrentIndex := ThisIndex in
  let Previous := Nbl in
  Next ← load h Nbl;
  NdisClassifyNblChainByIndex_loop fuel h Next First Previous CurrentIndex Queues.

(** [NdisAppendNblChainToNblCountedQueueFast(&Queues[Index], First, Previous, Count)] *)
Definition NdisClassifyNblChainByIndexWithCount_append (h : heap)
    (Queues : list NBL_COUNTED_QUEUE) (Index : N)
    (First Previous : NET_BUFFER_LIST) (Count : N)
    : option (heap * list NBL_COUNTED_QUEUE) :=
  Q ← Queues !! N.to_nat Index;
  '(h', Q') ← NdisAppendNblChainToNblCountedQueueFast h Q First Previous Count;
  Some (h', <[N.to_nat Index := Q']> Queues).

(** [NdisClassifyNblChainByIndexWithCount].  The final append indexes the
    array with [ThisIndex], the value last assigned from the callback, so
    [ThisIndex] is part of the loop state. *)
Fixpoint NdisClassifyNblChainByIndexWithCount_loop (fuel : nat) (h : heap) (Nbl : PNBL)
    (First Previous : NET_BUFFER_LIST) (CurrentIndex ThisIndex : N) (Count : N)
    (Queues : list NBL_COUNTED_QUEUE) : option (heap * list NBL_COUNTED_QUEUE) :=
  match fuel with
  | O => None
  | S fuel =>
    match Nbl with
    | Some n =>
      let ThisIndex := ClassificationCallback n in
      if decide (ThisIndex ≠ CurrentIndex) then
        h1 ← store h Previous NULL;
        '(h2, Queues) ←
          NdisClassifyNblChainByIndexWithCount_append h1 Queues CurrentIndex
            First Previous Count;
        Next ← load h2 n;
        NdisClassifyNblChainByIndexWithCount_loop fuel h2 Next n n ThisIndex ThisIndex
          1%N Queues
      else
        Next ← load h n;
        NdisClassifyNblChainByIndexWithCount_loop fuel h Next First n CurrentIndex
          ThisIndex (SIZE_T_add Count 1) Queues
    | None =>
      NdisClassifyNblChainByIndexWithCount_append h Queues ThisIndex First Previous Count
    end
  end.

Definition NdisClassifyNblChainByIndexWithCount (fuel : nat) (h : heap)
    (NblChain : NET_BUFFER_LIST) (Queues : list NBL_COUNTED_QUEUE)
    : option (heap * list NBL_COUNTED_QUEUE) :=
  let Nbl := NblChain in
  let First := Nbl in
  let Count := 1%N in
  let ThisIndex := ClassificationCallback Nbl in
  let CurrentIndex := ThisIndex in
  let Previous := Nbl in
  Next ← load h Nbl;
  NdisClassifyNblChainByIndexWithCount_loop fuel h Next First Previous CurrentIndex
    ThisIndex Count Queues.

(** [NdisClassifyNblChainByValue]: the [while (TRUE)] loop.  The result is the
    final memory and the flush calls made, in call order. *)
Fixpoint NdisClassifyNblChainByValue_loop (fuel : nat) (h : heap) (Queue : NBL_QUEUE)
    (FirstNbl PreviousNbl Nbl : NET_BUFFER_LIST) (TargetClassification : ULONG_PTR)
    : option (heap * list FlushCall) :=
  match fuel with
  | O => None
  | S fuel =>
    Nbl ← load h Nbl;
    match Nbl with
    | None =>
      '(h1, Queue) ← NdisAppendNblChainToNblQueueFast h Queue FirstNbl PreviousNbl;
      Some (h1, [FlushCallback TargetClassification Queue h1])
    | Some n =>
      let NextClassification := ClassificationCallback n in
      if decide (NextClassification ≠ TargetClassification) then
        h1 ← store h PreviousNbl NULL;
        '(h2, Queue) ← NdisAppendNblChainToNblQueueFast h1 Queue FirstNbl PreviousNbl;
        let call := FlushCallback TargetClassification Queue h2 in
        '(h3, calls) ←
          NdisClassifyNblChainByValue_loop fuel h2 NdisInitializeNblQueue n n n
            NextClassification;
        Some (h3, call :: calls)
      else
        NdisClassifyNblChainByValue_loop fuel h Queue FirstNbl n n TargetClassification
    end
  end.

Definition NdisClassifyNblChainByValue (fuel : nat) (h : heap)
    (NblChain : NET_BUFFER_LIST) : option (heap * list FlushCall) :=
  let Queue := NdisInitializeNblQueue in
  let FirstNbl := NblChain in
  let PreviousNbl := FirstNbl in
  let Nbl := FirstNbl in
  let TargetClassification := ClassificationCallback Nbl in
  NdisClassifyNblChainByValue_loop fuel h Queue FirstNbl PreviousNbl Nbl
    TargetClassification.

(** [NdisPartialClassifyNblChainByValue]: the [while (TRUE)] loop returns the
    memory, the new value of [*NblChain] and [PreviousNbl]. *)
Fixpoint NdisPartialClassifyNblChainByValue_loop (fuel : nat) (h : heap)
    (PreviousNbl Nbl : NET_BUFFER_LIST) (TargetClassification : ULONG_PTR)
    : option (heap * PNBL * NET_BUFFER_LIST) :=
  match fuel with
  | O => None
  | S fuel =>
    Nbl ← load h Nbl;
    match Nbl with
    | None => Some (h, NULL, PreviousNbl)
    | Some n =>
      let NextClassification := ClassificationCallback n in
      if decide (NextClassification ≠ TargetClassification) then
        h1 ← store h PreviousNbl NULL;
        Some (h1, Some n, PreviousNbl)
      else
        NdisPartialClassifyNblChainByValue_loop fuel h n n TargetClassification
    end
  end.

(** The result is the memory, the new [*NblChain], [*HomogenousQueue] and
    [*ClassificationResult]. *)
Definition NdisPartialClassifyNblChainByValue (fuel : nat) (h : heap) (NblChain : PNBL)
    : option (heap * PNBL * NBL_QUEUE * ULONG_PTR) :=
  let HomogenousQueue := NdisInitializeNblQueue in
  FirstNbl ← NblChain;
  let PreviousNbl := FirstNbl in
  let Nbl := FirstNbl in
  let TargetClassification := ClassificationCallback Nbl in
  '(h1, NblChain, PreviousNbl) ←
    NdisPartialClassifyNblChainByValue_loop fuel h PreviousNbl Nbl TargetClassification;
  '(h2, HomogenousQueue) ←
    NdisAppendNblChainToNblQueueFast h1 HomogenousQueue FirstNbl PreviousNbl;
  Some (h2, NblChain, HomogenousQueue, TargetClassification).

(** [NdisPartialClassifyNblChainByValueWithCount]: the loop is the one of the
    uncounted routine; [Count] is set to 1 before it and not assigned in it. *)
Definition NdisPartialClassifyNblChainByValueWithCount (fuel : nat) (h : heap)
    (NblChain : PNBL) : option (heap * PNBL * NBL_COUNTED_QUEUE * ULONG_PTR) :=
  let HomogenousQueue := NdisInitializeNblCountedQueue in
  FirstNbl ← NblChain;
  let PreviousNbl := FirstNbl in
  let Nbl := FirstNbl in
  let TargetClassification := ClassificationCallback Nbl in
  let Count := 1%N in
  '(h1, NblChain, PreviousNbl) ←
    NdisPartialClassifyNblChainByValue_loop fuel h PreviousNbl Nbl TargetClassification;
  '(h2, HomogenousQueue) ←
    NdisAppendNblChainToNblCountedQueueFast h1 HomogenousQueue FirstNbl PreviousNbl Count;
  Some (h2, NblChain, HomogenousQueue, TargetClassification).

(** The caller's loop of the header's usage example:
    [do { NdisInitializeNblQueue(&queue);
          NdisPartialClassifyNblChainByValue(&incomingNbls, ..., &queue, &vlan);
          DispatchInputForVlan(queue.First, vlan);
     } while (incomingNbls != NULL);]
    Each dispatch is recorded like a flush call. *)
Fixpoint ReceivePackets_loop (fuel : nat) (h : heap) (incomingNbls : PNBL)
    : option (heap * list FlushCall) :=
  match fuel with
  | O => None
  | S fuel =>
    '(h1, incomingNbls, queue, vlan) ←
      NdisPartialClassifyNblChainByValue fuel h incomingNbls;
    let call := FlushCallback vlan queue h1 in
    match incomingNbls with
    | None => Some (h1, [call])
    | Some _ =>
      '(h2, calls) ← ReceivePackets_loop fuel h1 incomingNbls;
      Some (h2, call :: calls)
    end
  end.

End Classify.

(** *** NdisClassifyNblChainByValueLookahead *)

(** Local arrays.  An element of [Queue] or [TargetClassification] that has
    not been assigned yet is uninitialized ([None]); reading it is a fault, as
    is an access outside the array. *)
Definition array_read {A : Type} (a : list (option A)) (i : nat) : option A :=
  match a !! i with
  | Some (Some x) => Some x
  | _ => None
  end.

Definition array_write {A : Type} (a : list A) (i : nat) (x : A) : option (list A) :=
  if decide (i < length a) then Some (<[i := x]> a) else None.

Module Lookahead.

(** The local variables of the routine that live across loop iterations. *)
Record locals := Locals {
  Queue : list (option NBL_QUEUE);
  TargetClassification : list (option ULONG_PTR);
  Valid : list bool;
  FirstNbl : NET_BUFFER_LIST;
  PreviousNbl : NET_BUFFER_LIST;
  PreviousIndex : nat }.

(** How one iteration of the [while (TRUE)] loop ends: with [break], or at the
    end of the body (after label [Found]) with the flush calls it made. *)
Inductive outcome :=
  | Break (h : heap) (s : locals)
  | Continue (h : heap) (s : locals) (Nbl : NET_BUFFER_LIST) (calls : list FlushCall).

Section Body.

Variable NDIS_CLASSIFY_NBL_LOOKHEAD_DEPTH : nat.
Variable ClassificationCallback : NET_BUFFER_LIST → ULONG_PTR.

(** [for (SIZE_T i = 0; i < ARRAYSIZE(Queue); i++)] with [n] iterations left.
    [Some s'] is [goto Found] with the updated locals; [None] is the loop
    running to its end. *)
Fixpoint scan (n i : nat) (s : locals) (Nbl : NET_BUFFER_LIST)
    (NextClassification : ULONG_PTR) : option (option locals) :=
  match n with
  | O => Some None
  | S n =>
    v ← Valid s !! i;
    if (v : bool) then
      t ← array_read (TargetClassification s) i;
      if decide (t = NextClassification) then
        Some (Some (Locals (Queue s) (TargetClassification s) (Valid s)
                      Nbl (PreviousNbl s) i))
      else
        scan n (S i) s Nbl NextClassification
    else
      V ← array_write (Valid s) i true;
      T ← array_write (TargetClassification s) i (Some NextClassification);
      Q ← array_write (Queue s) i (Some NdisInitializeNblQueue);
      Some (Some (Locals Q T V Nbl (PreviousNbl s) i))
  end.

(** [NdisAppendNblChainToNblQueueFast(&Queue[PreviousIndex], FirstNbl, PreviousNbl)] *)
Definition append (h : heap) (s : locals) : option (heap * locals) :=
  q ← array_read (Queue s) (PreviousIndex s);
  '(h', q') ← NdisAppendNblChainToNblQueueFast h q (FirstNbl s) (PreviousNbl s);
  Q ← array_write (Queue s) (PreviousIndex s) (Some q');
  Some (h', Locals Q (TargetClassification s) (Valid s) (FirstNbl s) (PreviousNbl s)
              (PreviousIndex s)).

(** The body of the [while (TRUE)] loop. *)
Definition body (h : heap) (s : locals) (Nbl : NET_BUFFER_LIST) : option outcome :=
  Nbl ← load h Nbl;
  match Nbl with
  | None =>
    '(h1, s1) ← append h s;
    Some (Break h1 s1)
  | Some n =>
    let NextClassification := ClassificationCallback n in
    t ← array_read (TargetClassification s) (PreviousIndex s);
    if decide (t ≠ NextClassification) then
      h1 ← store h (PreviousNbl s) NULL;
      '(h2, s1) ← append h1 s;
      found ← scan NDIS_CLASSIFY_NBL_LOOKHEAD_DEPTH 0 s1 n NextClassification;
      match found with
      | Some s2 =>
        Some (Continue h2
                (Locals (Queue s2) (TargetClassification s2) (Valid s2) (FirstNbl s2)
                   n (PreviousIndex s2))
                n [])
      | None =>
        let EvictionIndex := (PreviousIndex s1 + 1) mod NDIS_CLASSIFY_NBL_LOOKHEAD_DEPTH in
        te ← array_read (TargetClassification s1) EvictionIndex;
        qe ← array_read (Queue s1) EvictionIndex;
        let call := FlushCallback te qe h2 in
        T ← array_write (TargetClassification s1) EvictionIndex (Some NextClassification);
        Q ← array_write (Queue s1) EvictionIndex (Some NdisInitializeNblQueue);
        Some (Continue h2 (Locals Q T (Valid s1) n n EvictionIndex) n [call])
      end
    else
      Some (Continue h
              (Locals (Queue s) (TargetClassification s) (Valid s) (FirstNbl s)
                 n (PreviousIndex s))
              n [])
  end.

(** [while (TRUE)] *)
Fixpoint loop (fuel : nat) (h : heap) (s : locals) (Nbl : NET_BUFFER_LIST)
    : option (heap * locals * list FlushCall) :=
  match fuel with
  | O => None
  | S fuel =>
    o ← body h s Nbl;
    match o with
    | Break h1 s1 => Some (h1, s1, [])
    | Continue h1 s1 Nbl1 calls =>
      '(h2, s2, calls') ← loop fuel h1 s1 Nbl1;
      Some (h2, s2, calls ++ calls')
    end
  end.

(** The final [for] loop: flush the slots in index order up to the first one
    that is not valid. *)
Fixpoint flush_all (n i : nat) (h : heap) (s : locals) : option (list FlushCall) :=
  match n with
  | O => Some []
  | S n =>
    v ← Valid s !! i;
    if (v : bool) then
      t ← array_read (TargetClassification s) i;
      q ← array_read (Queue s) i;
      calls ← flush_all n (S i) h s;
      Some (FlushCallback t q h :: calls)
    else
      Some []
  end.

(** The declarations and the statements before the loop.  [Valid] is
    initialized by [= { TRUE }]; the other two arrays are not initialized. *)
Definition init (NblChain : NET_BUFFER_LIST) : option locals :=
  let K := NDIS_CLASSIFY_NBL_LOOKHEAD_DEPTH in
  Valid ← array_write (replicate K false) 0 true;
  let FirstNbl := NblChain in
  let PreviousNbl := FirstNbl in
  let Nbl := FirstNbl in
  let PreviousIndex := 0 in
  Queue ← array_write (replicate K None) PreviousIndex (Some NdisInitializeNblQueue);
  TargetClassification ←
    array_write (replicate K None) PreviousIndex (Some (ClassificationCallback Nbl));
  Some (Locals Queue TargetClassification Valid FirstNbl PreviousNbl PreviousIndex).

End Body.

End Lookahead.

(** [NdisClassifyNblChainByValueLookahead], for a lookahead depth
    [NDIS_CLASSIFY_NBL_LOOKHEAD_DEPTH] (a macro the includer may define; 4 by
    default). *)
Definition NdisClassifyNblChainByValueLookahead (NDIS_CLASSIFY_NBL_LOOKHEAD_DEPTH : nat)
    (ClassificationCallback : NET_BUFFER_LIST → ULONG_PTR)
    (fuel : nat) (h : heap) (NblChain : NET_BUFFER_LIST)
    : option (heap * list FlushCall) :=
  let K := NDIS_CLASSIFY_NBL_LOOKHEAD_DEPTH in
  s ← Lookahead.init K ClassificationCallback NblChain;
  '(h1, s, calls) ← Lookahead.loop K ClassificationCallback fuel h s NblChain;
  calls' ← Lookahead.flush_all K 0 h1 s;
  Some (h1, calls ++ calls').

Definition NDIS_CLASSIFY_NBL_LOOKHEAD_DEPTH_default : nat := 4.

(** ** Chains and queues in memory *)

(** [lseg h p l q]: following [Next] from [p] visits exactly the NBLs [l], in
    order, and the [Next] of the last one is [q] ([p = q] when [l] is empty). *)
Fixpoint lseg (h : heap) (p : PNBL) (l : list NET_BUFFER_LIST) (q : PNBL) : Prop :=
  match l with
  | [] => p = q
  | a :: l' =>
    p = Some a ∧
    match h !! a with
    | Some nx => lseg h nx l' q
    | None => False
    end
  end.

(** An NBL chain: a NULL-terminated list of NBLs. *)
Definition is_chain (h : heap) (p : PNBL) (l : list NET_BUFFER_LIST) : Prop :=
  lseg h p l NULL.

(** The queue [Q] holds the NBLs [l]: its head starts the chain [l] and, when
    the queue is not empty, its tail is the last NBL of the chain. *)
Definition is_queue (h : heap) (Q : NBL_QUEUE) (l : list NET_BUFFER_LIST) : Prop :=
  is_chain h (First Q) l ∧
  match last l with
  | Some t => Last Q = Some t
  | None => True
  end.

(** The flush call [c] hands the batch [b] with classification result [k] to
    the callback. *)
Definition delivers (c : FlushCall) (kb : ULONG_PTR * list NET_BUFFER_LIST) : Prop :=
  ClassificationResult c = kb.1 ∧ is_queue (FlushMemory c) (FlushQueue c) kb.2.

(** ** Descriptions on lists *)

(** The result of a counted routine with the counts forgotten. *)
Definition uncounted (r : option (heap * list NBL_COUNTED_QUEUE))
    : option (heap * list NBL_QUEUE) :=
  match r with
  | Some (h, Qs) => Some (h, Queue <$> Qs)
  | None => None
  end.

(** The batches of a chain: [runs_from cb T run rest] are the maximal runs of
    equal classification of [run ++ rest], when [run] is the run in progress
    and [T] its classification. *)
Fixpoint runs_from (cb : NET_BUFFER_LIST → ULONG_PTR) (T : ULONG_PTR)
    (run rest : list NET_BUFFER_LIST) : list (ULONG_PTR * list NET_BUFFER_LIST) :=
  match rest with
  | [] => [(T, run)]
  | n :: rest' =>
    if decide (cb n ≠ T) then (T, run) :: runs_from cb (cb n) [n] rest'
    else runs_from cb T (run ++ [n]) rest'
  end.

(** The first maximal run and what follows it. *)
Fixpoint first_run (cb : NET_BUFFER_LIST → ULONG_PTR) (T : ULONG_PTR)
    (run rest : list NET_BUFFER_LIST) : list NET_BUFFER_LIST * list NET_BUFFER_LIST :=
  match rest with
  | [] => (run, [])
  | n :: rest' =>
    if decide (cb n ≠ T) then (run, rest)
    else first_run cb T (run ++ [n]) rest'
  end.

(** Adjacent batches have different classification results. *)
Fixpoint adjacent_differ (ks : list ULONG_PTR) : Prop :=
  match ks with
  | k1 :: ks' =>
    match ks' with
    | k2 :: _ => k1 ≠ k2 ∧ adjacent_differ ks'
    | [] => True
    end
  | [] => True
  end.

(** The in-flight runs: for every valid slot, in index order, its target
    classification and the NBLs its queue holds. *)
Abbreviation slot_list := (list (ULONG_PTR * list NET_BUFFER_LIST)).

(** The run in progress is appended to the queue of the current slot. *)
Definition slots_append (slots : slot_list) (pi : nat) (run : list NET_BUFFER_LIST)
    : slot_list :=
  alter (λ s, (s.1, s.2 ++ run)) pi slots.

(** One iteration of the loop on the NBL [n]: the new slots, current slot and
    run in progress, and the batches flushed. *)
Definition lookahead_step (K : nat) (cb : NET_BUFFER_LIST → ULONG_PTR)
    (slots : slot_list) (pi : nat) (run : list NET_BUFFER_LIST) (n : NET_BUFFER_LIST)
    : slot_list * nat * list NET_BUFFER_LIST * slot_list :=
  match slots !! pi with
  | Some (T, _) =>
    if decide (T ≠ cb n) then
      let slots1 := slots_append slots pi run in
      match list_find (λ s, s.1 = cb n) slots1 with
      | Some (i, _) => (slots1, i, [n], [])
      | None =>
        if decide (length slots1 < K) then
          (slots1 ++ [(cb n, [])], length slots1, [n], [])
        else
          let e := (pi + 1) mod K in
          (<[e := (cb n, [])]> slots1, e, [n], option_list (slots1 !! e))
      end
    else (slots, pi, run ++ [n], [])
  | None => (slots, pi, run, [])
  end.

(** The batches flushed for the rest of the chain. *)
Fixpoint lookahead_batches (K : nat) (cb : NET_BUFFER_LIST → ULONG_PTR)
    (slots : slot_list) (pi : nat) (run rest : list NET_BUFFER_LIST) : slot_list :=
  match rest with
  | [] => slots_append slots pi run
  | n :: rest' =>
    let '(slots', pi', run', flushed) := lookahead_step K cb slots pi run n in
    flushed ++ lookahead_batches K cb slots' pi' run' rest'
  end.

(** The arrays of the routine hold the in-flight runs [slots]. *)
Definition slots_rep (K : nat) (h : heap) (s : Lookahead.locals) (slots : slot_list)
    : Prop :=
  length (Lookahead.Queue s) = K ∧
  length (Lookahead.TargetClassification s) = K ∧
  length (Lookahead.Valid s) = K ∧
  length slots ≤ K ∧
  (∀ i, i < length slots → Lookahead.Valid s !! i = Some true) ∧
  (∀ i, length slots ≤ i → i < K → Lookahead.Valid s !! i = Some false) ∧
  (∀ i k l, slots !! i = Some (k, l) →
     array_read (Lookahead.TargetClassification s) i = Some k ∧
     ∃ Q, array_read (Lookahead.Queue s) i = Some Q ∧ is_queue h Q l).

(** Stability: what every slot holds, followed by the run in progress for the
    current slot, is a subsequence of the NBLs scanned so far, and is
    classified as the slot. *)
Definition slots_stable (cb : NET_BUFFER_LIST → ULONG_PTR)
    (pre : list NET_BUFFER_LIST) (slots : slot_list) (pi : nat)
    (run : list NET_BUFFER_LIST) : Prop :=
  ∀ i k l, slots !! i = Some (k, l) →
    Forall (λ n, cb n = k) l ∧
    if decide (i = pi) then l ++ run `sublist_of` pre ∧ Forall (λ n, cb n = k) run
    else l `sublist_of` pre.

Definition batch_stable (cb : NET_BUFFER_LIST → ULONG_PTR)
    (pre : list NET_BUFFER_LIST) (kb : ULONG_PTR * list NET_BUFFER_LIST) : Prop :=
  kb.2 `sublist_of` pre ∧ Forall (λ n, cb n = kb.1) kb.2.

(** ** Example inputs *)

Definition example_chain5 : heap :=
  <[10 := Some 20]> (<[20 := Some 30]> (<[30 := Some 40]> (<[40 := Some 50]>
    (<[50 := NULL]> ∅)))).

Definition example_selector (n : NET_BUFFER_LIST) : N :=
  if decide (n = 30 ∨ n = 40) then 1%N else 0%N.

(** The memory holding exactly the chain [l]. *)
Fixpoint chain_heap (l : list NET_BUFFER_LIST) : heap :=
  match l with
  | [] => ∅
  | a :: l' => <[a := head l']> (chain_heap l')
  end.

Definition example_same_key (n : NET_BUFFER_LIST) : ULONG_PTR := 7%N.

(** Classification A,B,A,B,... by position: A = 1, B = 2. *)
Definition example_alternate (n : NET_BUFFER_LIST) : ULONG_PTR :=
  if decide (n = 20 ∨ n = 40 ∨ n = 60) then 2%N else 1%N.

(** Classification A,B,C,A: A = 1, B = 2, C = 3. *)
Definition example_ABCA (n : NET_BUFFER_LIST) : ULONG_PTR :=
  if decide (n = 20) then 2%N else if decide (n = 30) then 3%N else 1%N.

(** Queue index 0,1,2,0,1,2. *)
Definition example_index (n : NET_BUFFER_LIST) : N :=
  if decide (n = 20 ∨ n = 50) then 1%N
  else if decide (n = 30 ∨ n = 60) then 2%N else 0%N.

(** The state of the lookahead classifier after two NBLs, 10 classified 1 and
    20 classified 2, for a lookahead depth of 2 and of 4: the chain is cut
    after 10, which is in the queue of slot 0; 20 is the run in progress of
    slot 1. *)
Definition example_heap_after_two : heap :=
  <[10 := NULL]> (chain_heap [10; 20; 30; 40]).

Definition example_slots_after_two : slot_list := [(1%N, [10]); (2%N, [])].

Definition example_locals_depth2 : Lookahead.locals :=
  Lookahead.Locals
    [Some (mkQ (Some 10) (Some 10)); Some NdisInitializeNblQueue]
    [Some 1%N; Some 2%N]
    [true; true]
    20 20 1.

Definition example_locals_depth4 : Lookahead.locals :=
  Lookahead.Locals
    [Some (mkQ (Some 10) (Some 10)); Some NdisInitializeNblQueue; None; None]
    [Some 1%N; Some 2%N; None; None]
    [true; true; false; false]
    20 20 1.

(** ** More of nblchain.h *)

(** [NdisLastNblInNblChain]: [while (NULL != (Next = Nbl->Next))].  The chain
    must have at least one NBL. *)
Fixpoint NdisLastNblInNblChain_loop (fuel : nat) (h : heap) (Nbl : NET_BUFFER_LIST)
    : option NET_BUFFER_LIST :=
  match fuel with
  | O => None
  | S fuel =>
    Next ← load h Nbl;
    match Next with
    | None => Some Nbl
    | Some n => NdisLastNblInNblChain_loop fuel h n
    end
  end.

Definition NdisLastNblInNblChain (fuel : nat) (h : heap) (NblChain : NET_BUFFER_LIST)
    : option NET_BUFFER_LIST :=
  let Nbl := NblChain in
  NdisLastNblInNblChain_loop fuel h Nbl.

(** [NdisLastNblInNblChainWithCount]: the result is the last NBL and
    [*NblCount]; [Count] is a SIZE_T. *)
Fixpoint NdisLastNblInNblChainWithCount_loop (fuel : nat) (h : heap)
    (Nbl : NET_BUFFER_LIST) (Count : N) : option (NET_BUFFER_LIST * N) :=
  match fuel with
  | O => None
  | S fuel =>
    Next ← load h Nbl;
    match Next with
    | None => Some (Nbl, Count)
    | Some n => NdisLastNblInNblChainWithCount_loop fuel h n (SIZE_T_add Count 1)
    end
  end.

Definition NdisLastNblInNblChainWithCount (fuel : nat) (h : heap)
    (NblChain : NET_BUFFER_LIST) : option (NET_BUFFER_LIST * N) :=
  let Nbl := NblChain in
  let Count := 1%N in
  NdisLastNblInNblChainWithCount_loop fuel h Nbl Count.

(** [NDIS_ASSERT_NBL_CHAINS_DO_NOT_OVERLAP] in a debug build ([#if DBG]): the
    result tells whether the assertion holds.  In other builds the routine
    does nothing. *)
Definition NDIS_ASSERT_NBL_CHAINS_DO_NOT_OVERLAP (fuel : nat) (h : heap)
    (Chain1 Chain2 : PNBL) : option bool :=
  match Chain1, Chain2 with
  | Some c1, Some c2 =>
    l1 ← NdisLastNblInNblChain fuel h c1;
    l2 ← NdisLastNblInNblChain fuel h c2;
    Some (bool_decide (l1 ≠ l2))
  | _, _ => Some true
  end.

(** The [Status] field of the NBLs: a second map over the same addresses. *)
Definition NDIS_STATUS := N.

(** [NdisSetStatusInNblChain]: [NblChain->Status = NdisStatus] for every NBL
    of the chain; the result is the new contents of the [Status] fields. *)
Fixpoint NdisSetStatusInNblChain (fuel : nat) (h : heap) (Status : gmap nat NDIS_STATUS)
    (NblChain : PNBL) (NdisStatus : NDIS_STATUS) : option (gmap nat NDIS_STATUS) :=
  match fuel with
  | O => None
  | S fuel =>
    match NblChain with
    | None => Some Status
    | Some a =>
      _ ← Status !! a;
      let Status := <[a := NdisStatus]> Status in
      Next ← load h a;
      NdisSetStatusInNblChain fuel h Status Next NdisStatus
    end
  end.

(** A NET_BUFFER: its [Next] and [DataLength] (a ULONG) fields. *)
Record NET_BUFFER := mkNB { NbNext : option nat; DataLength : N }.

Definition ULONG64_MAX : N := 18446744073709551615%N.

(** [NdisNumNbsInNbChain]; [Count] is a ULONG. *)
Fixpoint NdisNumNbsInNbChain_loop (fuel : nat) (nbs : gmap nat NET_BUFFER)
    (NbChain : option nat) (Count : N) : option N :=
  match fuel with
  | O => None
  | S fuel =>
    match NbChain with
    | None => Some Count
    | Some a =>
      nb ← nbs !! a;
      NdisNumNbsInNbChain_loop fuel nbs (NbNext nb) ((Count + 1) mod (ULONG_MAX + 1))%N
    end
  end.

Definition NdisNumNbsInNbChain (fuel : nat) (nbs : gmap nat NET_BUFFER)
    (NbChain : option nat) : option N :=
  NdisNumNbsInNbChain_loop fuel nbs NbChain 0%N.

(** [NdisNumNbsInNblChain]: [FirstNetBuffer] maps every NBL to the contents of
    its [FirstNetBuffer] field. *)
Fixpoint NdisNumNbsInNblChain_loop (fuel : nat) (h : heap)
    (FirstNetBuffer : gmap nat (option nat)) (nbs : gmap nat NET_BUFFER)
    (NblChain : PNBL) (Count : N) : option N :=
  match fuel with
  | O => None
  | S fuel =>
    match NblChain with
    | None => Some Count
    | Some a =>
      first ← FirstNetBuffer !! a;
      n ← NdisNumNbsInNbChain fuel nbs first;
      Next ← load h a;
      NdisNumNbsInNblChain_loop fuel h FirstNetBuffer nbs Next
        ((Count + n) mod (ULONG_MAX + 1))%N
    end
  end.

Definition NdisNumNbsInNblChain (fuel : nat) (h : heap)
    (FirstNetBuffer : gmap nat (option nat)) (nbs : gmap nat NET_BUFFER)
    (NblChain : PNBL) : option N :=
  NdisNumNbsInNblChain_loop fuel h FirstNetBuffer nbs NblChain 0%N.

(** [NdisNumDataBytesInNbChain]; [ByteCount] is a ULONG64. *)
Fixpoint NdisNumDataBytesInNbChain_loop (fuel : nat) (nbs : gmap nat NET_BUFFER)
    (NbChain : option nat) (ByteCount : N) : option N :=
  match fuel with
  | O => None
  | S fuel =>
    match NbChain with
    | None => Some ByteCount
    | Some a =>
      nb ← nbs !! a;
      NdisNumDataBytesInNbChain_loop fuel nbs (NbNext nb)
        ((ByteCount + DataLength nb) mod (ULONG64_MAX + 1))%N
    end
  end.

Definition NdisNumDataBytesInNbChain (fuel : nat) (nbs : gmap nat NET_BUFFER)
    (NbChain : option nat) : option N :=
  NdisNumDataBytesInNbChain_loop fuel nbs NbChain 0%N.

(** [NdisNumDataBytesInNblChain] *)
Fixpoint NdisNumDataBytesInNblChain_loop (fuel : nat) (h : heap)
    (FirstNetBuffer : gmap nat (option nat)) (nbs : gmap nat NET_BUFFER)
    (NblChain : PNBL) (ByteCount : N) : option N :=
  match fuel with
  | O => None
  | S fuel =>
    match NblChain with
    | None => Some ByteCount
    | Some a =>
      first ← FirstNetBuffer !! a;
      n ← NdisNumDataBytesInNbChain fuel nbs first;
      Next ← load h a;
      NdisNumDataBytesInNblChain_loop fuel h FirstNetBuffer nbs Next
        ((ByteCount + n) mod (ULONG64_MAX + 1))%N
    end
  end.

Definition NdisNumDataBytesInNblChain (fuel : nat) (h : heap)
    (FirstNetBuffer : gmap nat (option nat)) (nbs : gmap nat NET_BUFFER)
    (NblChain : PNBL) : option N :=
  NdisNumDataBytesInNblChain_loop fuel h FirstNetBuffer nbs NblChain 0%N.

(** The NBs of a chain of NET_BUFFERs: the chain of their [Next] fields. *)
Definition is_nb_chain (nbs : gmap nat NET_BUFFER) (p : option nat) (l : list nat)
    : Prop :=
  is_chain (NbNext <$> nbs) p l.

(** Every NBL of [nbls] has the NB chain of the same position in [nbss]. *)
Definition nbl_nb_chains (FirstNetBuffer : gmap nat (option nat))
    (nbs : gmap nat NET_BUFFER) (nbls : list NET_BUFFER_LIST) (nbss : list (list nat))
    : Prop :=
  Forall2 (λ a l, ∃ first, FirstNetBuffer !! a = Some first ∧ is_nb_chain nbs first l)
    nbls nbss.

(** The sum of the [DataLength] of the NBs at the addresses [l]. *)
Definition data_bytes (nbs : gmap nat NET_BUFFER) (l : list nat) : N :=
  foldr (λ a acc, (from_option DataLength 0 (nbs !! a) + acc)%N) 0%N l.

Definition example_status : gmap nat NDIS_STATUS :=
  <[10 := 0%N]> (<[20 := 0%N]> (<[30 := 0%N]> ∅)).

(** Three NBLs: the first with two NBs, the second with none, the third with
    one. *)
Definition example_FirstNetBuffer : gmap nat (option nat) :=
  <[10 := Some 100]> (<[20 := None]> (<[30 := Some 200]> ∅)).

Definition example_nbss : list (list nat) := [[100; 101]; []; [200]].

Definition example_nbs : gmap nat NET_BUFFER :=
  <[100 := mkNB (Some 101) 60]> (<[101 := mkNB None 1500]>
    (<[200 := mkNB None 40]> ∅)).

(** ** More of nblclassify.h *)

(** The fields of an NBL the predefined classifiers read:
    [NetBufferListInfo[NetBufferListCancelId]], [SourceHandle] and
    [NdisPoolHandle], each a pointer-sized value. *)
Definition PVOID := N.

Record NBL_FIELDS := mkFields {
  NetBufferListCancelId : NET_BUFFER_LIST → PVOID;
  SourceHandle : NET_BUFFER_LIST → PVOID;
  NdisPoolHandle : NET_BUFFER_LIST → PVOID }.

Definition NdisNblClassifierForCancelId (nbl : NBL_FIELDS)
    (ClassificationContext : PVOID) (Nbl : NET_BUFFER_LIST) : N :=
  if decide (NetBufferListCancelId nbl Nbl = ClassificationContext) then 1%N else 0%N.

Definition NdisClassifyNblChainByCancelId (nbl : NBL_FIELDS) (fuel : nat) (h : heap)
    (NblChain : NET_BUFFER_LIST) (CancelId : PVOID) (KeepQueue CancelQueue : NBL_QUEUE)
    : option (heap * NBL_QUEUE * NBL_QUEUE) :=
  NdisClassifyNblChain2 (NdisNblClassifierForCancelId nbl CancelId) fuel h NblChain
    KeepQueue CancelQueue.

Definition NdisNblClassifierForSourceHandle (nbl : NBL_FIELDS)
    (ClassificationContext : PVOID) (Nbl : NET_BUFFER_LIST) : N :=
  if decide (SourceHandle nbl Nbl = ClassificationContext) then 1%N else 0%N.

Definition NdisClassifyNblChainBySourceHandle (nbl : NBL_FIELDS) (fuel : nat) (h : heap)
    (NblChain : NET_BUFFER_LIST) (MySourceHandle : PVOID) (TheirQueue MyQueue : NBL_QUEUE)
    : option (heap * NBL_QUEUE * NBL_QUEUE) :=
  NdisClassifyNblChain2 (NdisNblClassifierForSourceHandle nbl MySourceHandle) fuel h
    NblChain TheirQueue MyQueue.

Definition NdisNblClassifierForPoolHandle (nbl : NBL_FIELDS)
    (ClassificationContext : PVOID) (Nbl : NET_BUFFER_LIST) : N :=
  if decide (NdisPoolHandle nbl Nbl = ClassificationContext) then 1%N else 0%N.

Definition NdisClassifyNblChainByPoolHandle (nbl : NBL_FIELDS) (fuel : nat) (h : heap)
    (NblChain : NET_BUFFER_LIST) (MyPoolHandle : PVOID) (TheirQueue MyQueue : NBL_QUEUE)
    : option (heap * NBL_QUEUE * NBL_QUEUE) :=
  NdisClassifyNblChain2 (NdisNblClassifierForPoolHandle nbl MyPoolHandle) fuel h
    NblChain TheirQueue MyQueue.

(** NBLs 30 and 40 carry the cancel id, source handle and pool handle 7. *)
Definition example_fields : NBL_FIELDS :=
  mkFields (λ n, if decide (n = 30 ∨ n = 40) then 7%N else 0%N)
           (λ n, if decide (n = 30 ∨ n = 40) then 7%N else 1%N)
           (λ n, if decide (n = 30 ∨ n = 40) then 7%N else 2%N).

(** A selector that returns values outside {0, 1}. *)
Definition example_selector3 (n : NET_BUFFER_LIST) : N :=
  if decide (n = 30) then 2%N else if decide (n = 40) then 1%N else 0%N.


(** The classification values of [ks] that are not in [seen], each once, in
    the order of their first appearance. *)
Fixpoint new_keys (seen ks : list ULONG_PTR) : list ULONG_PTR :=
  match ks with
  | [] => []
  | k :: ks' =>
    if decide (k ∈ seen) then new_keys seen ks'
    else k :: new_keys (seen ++ [k]) ks'
  end.

Definition first_seen (ks : list ULONG_PTR) : list ULONG_PTR := new_keys [] ks.

(** Every slot receives the NBLs of [r] with its classification. *)
Definition slots_extend (cb : NET_BUFFER_LIST → ULONG_PTR) (r : list NET_BUFFER_LIST)
    (slots : slot_list) : slot_list :=
  (λ kb, (kb.1, kb.2 ++ filter (λ n, cb n = kb.1) r)) <$> slots.

(** One batch per classification value, in the order of first appearance,
    holding all the NBLs of that classification. *)
Definition coalesced (cb : NET_BUFFER_LIST → ULONG_PTR) (l : list NET_BUFFER_LIST)
    : slot_list :=
  (λ k, (k, filter (λ n, cb n = k) l)) <$> first_seen (cb <$> l).

(** *** The counted classifiers *)

Section ClassifyWithCount.

Variable ClassificationCallback : NET_BUFFER_LIST → N.

(** [Q = (CurrentIndex == 0) ? Queue0 : Queue1;
     NdisAppendNblChainToNblCountedQueueFast(Q, First, Previous, Count)] *)
Definition NdisClassifyNblChain2WithCount_append (h : heap) (CurrentIndex : N)
    (Queue0 Queue1 : NBL_COUNTED_QUEUE) (First Previous : NET_BUFFER_LIST) (Count : N)
    : option (heap * NBL_COUNTED_QUEUE * NBL_COUNTED_QUEUE) :=
  if decide (CurrentIndex = 0%N) then
    '(h', Q) ← NdisAppendNblChainToNblCountedQueueFast h Queue0 First Previous Count;
    Some (h', Q, Queue1)
  else
    '(h', Q) ← NdisAppendNblChainToNblCountedQueueFast h Queue1 First Previous Count;
    Some (h', Queue0, Q).

(** [NdisClassifyNblChain2WithCount]: [Count] is a SIZE_T. *)
Fixpoint NdisClassifyNblChain2WithCount_loop (fuel : nat) (h : heap) (Nbl : PNBL)
    (First Previous : NET_BUFFER_LIST) (CurrentIndex : N) (Count : N)
    (Queue0 Queue1 : NBL_COUNTED_QUEUE)
    : option (heap * NBL_COUNTED_QUEUE * NBL_COUNTED_QUEUE) :=
  match fuel with
  | O => None
  | S fuel =>
    match Nbl with
    | Some n =>
      let ThisIndex := ClassificationCallback n in
      if decide (ThisIndex ≠ CurrentIndex) then
        h1 ← store h Previous NULL;
        '(h2, Queue0, Queue1) ←
          NdisClassifyNblChain2WithCount_append h1 CurrentIndex Queue0 Queue1
            First Previous Count;
        Next ← load h2 n;
        NdisClassifyNblChain2WithCount_loop fuel h2 Next n n ThisIndex 1%N Queue0 Queue1
      else
        Next ← load h n;
        NdisClassifyNblChain2WithCount_loop fuel h Next First n CurrentIndex
          (SIZE_T_add Count 1) Queue0 Queue1
    | None =>
      NdisClassifyNblChain2WithCount_append h CurrentIndex Queue0 Queue1
        First Previous Count
    end
  end.

Definition NdisClassifyNblChain2WithCount (fuel : nat) (h : heap)
    (NblChain : NET_BUFFER_LIST) (Queue0 Queue1 : NBL_COUNTED_QUEUE)
    : option (heap * NBL_COUNTED_QUEUE * NBL_COUNTED_QUEUE) :=
  let Nbl := NblChain in
  let First := Nbl in
  let Count := 1%N in
  let ThisIndex := ClassificationCallback Nbl in
  let CurrentIndex := ThisIndex in
  let Previous := Nbl in
  Next ← load h Nbl;
  NdisClassifyNblChain2WithCount_loop fuel h Next First Previous CurrentIndex Count
    Queue0 Queue1.

End ClassifyWithCount.

(** The counted queue [Q] held [l0] with the count [c0], and has received the
    NBLs [b] since, each counted once. *)
Definition is_counted_queue (h : heap) (Q : NBL_COUNTED_QUEUE)
    (l0 : list NET_BUFFER_LIST) (c0 : N) (b : list NET_BUFFER_LIST) : Prop :=
  is_queue h (Queue Q) (l0 ++ b) ∧
  NblCount Q = ((c0 + N.of_nat (length b)) mod (SIZE_T_MAX + 1))%N.

(** A call of the flush callback of the counted routines:
    [FlushCallback(FlushContext, ClassificationResult, &Queue)] with a counted
    queue. *)
Record FlushWithCountCall := FlushWithCountCallback {
  CountedClassificationResult : ULONG_PTR;
  CountedFlushQueue : NBL_COUNTED_QUEUE;
  CountedFlushMemory : heap }.

(** [NdisClassifyNblChainByValueWithCount]: the [while (TRUE)] loop. *)
Fixpoint NdisClassifyNblChainByValueWithCount_loop
    (ClassificationCallback : NET_BUFFER_LIST → ULONG_PTR) (fuel : nat) (h : heap)
    (Queue : NBL_COUNTED_QUEUE) (FirstNbl PreviousNbl Nbl : NET_BUFFER_LIST)
    (TargetClassification : ULONG_PTR) (Count : N)
    : option (heap * list FlushWithCountCall) :=
  match fuel with
  | O => None
  | S fuel =>
    Nbl ← load h Nbl;
    match Nbl with
    | None =>
      '(h1, Queue) ←
        NdisAppendNblChainToNblCountedQueueFast h Queue FirstNbl PreviousNbl Count;
      Some (h1, [FlushWithCountCallback TargetClassification Queue h1])
    | Some n =>
      let NextClassification := ClassificationCallback n in
      if decide (NextClassification = TargetClassification) then
        NdisClassifyNblChainByValueWithCount_loop ClassificationCallback fuel h Queue
          FirstNbl n n TargetClassification (SIZE_T_add Count 1)
      else
        h1 ← store h PreviousNbl NULL;
        '(h2, Queue) ←
          NdisAppendNblChainToNblCountedQueueFast h1 Queue FirstNbl PreviousNbl Count;
        let call := FlushWithCountCallback TargetClassification Queue h2 in
        '(h3, calls) ←
          NdisClassifyNblChainByValueWithCount_loop ClassificationCallback fuel h2
            NdisInitializeNblCountedQueue n n n NextClassification 1%N;
        Some (h3, call :: calls)
    end
  end.

Definition NdisClassifyNblChainByValueWithCount
    (ClassificationCallback : NET_BUFFER_LIST → ULONG_PTR) (fuel : nat) (h : heap)
    (NblChain : NET_BUFFER_LIST) : option (heap * list FlushWithCountCall) :=
  let Queue := NdisInitializeNblCountedQueue in
  let FirstNbl := NblChain in
  let PreviousNbl := FirstNbl in
  let Nbl := FirstNbl in
  let TargetClassification := ClassificationCallback Nbl in
  let Count := 1%N in
  NdisClassifyNblChainByValueWithCount_loop ClassificationCallback fuel h Queue
    FirstNbl PreviousNbl Nbl TargetClassification Count.

(** The counted flush call [c] hands the batch [b] with classification result
    [k] to the callback, with the number of NBLs of [b] as the count. *)
Definition delivers_counted (c : FlushWithCountCall)
    (kb : ULONG_PTR * list NET_BUFFER_LIST) : Prop :=
  CountedClassificationResult c = kb.1 ∧
  is_queue (CountedFlushMemory c) (Queue (CountedFlushQueue c)) kb.2 ∧
  NblCount (CountedFlushQueue c) = (N.of_nat (length kb.2) mod (SIZE_T_MAX + 1))%N.

(** [NdisLastNbInNbChain] and [NdisLastNbInNbChainWithCount]: the loops of the
    NBL routines, on NET_BUFFERs. *)
Fixpoint NdisLastNbInNbChain_loop (fuel : nat) (nbs : gmap nat NET_BUFFER) (Nb : nat)
    : option nat :=
  match fuel with
  | O => None
  | S fuel =>
    nb ← nbs !! Nb;
    match NbNext nb with
    | None => Some Nb
    | Some n => NdisLastNbInNbChain_loop fuel nbs n
    end
  end.

Definition NdisLastNbInNbChain (fuel : nat) (nbs : gmap nat NET_BUFFER) (NbChain : nat)
    : option nat :=
  let Nb := NbChain in
  NdisLastNbInNbChain_loop fuel nbs Nb.

Fixpoint NdisLastNbInNbChainWithCount_loop (fuel : nat) (nbs : gmap nat NET_BUFFER)
    (Nb : nat) (Count : N) : option (nat * N) :=
  match fuel with
  | O => None
  | S fuel =>
    nb ← nbs !! Nb;
    match NbNext nb with
    | None => Some (Nb, Count)
    | Some n => NdisLastNbInNbChainWithCount_loop fuel nbs n (SIZE_T_add Count 1)
    end
  end.

Definition NdisLastNbInNbChainWithCount (fuel : nat) (nbs : gmap nat NET_BUFFER)
    (NbChain : nat) : option (nat * N) :=
  let Nb := NbChain in
  let Count := 1%N in
  NdisLastNbInNbChainWithCount_loop fuel nbs Nb Count.

(** The counted queue [Q] holds the NBLs [g.1], and its count is [g.2] as a
    SIZE_T. *)
Definition holds_counted (h : heap) (Q : NBL_COUNTED_QUEUE)
    (g : list NET_BUFFER_LIST * N) : Prop :=
  is_queue h (Queue Q) g.1 ∧ NblCount Q = (g.2 mod (SIZE_T_MAX + 1))%N.

(** Queue [i] receives the NBLs of [l] classified [i], each counted once. *)
Definition grow_counted (cb : NET_BUFFER_LIST → N) (l : list NET_BUFFER_LIST)
    (i : nat) (g : list NET_BUFFER_LIST * N) : list NET_BUFFER_LIST * N :=
  (g.1 ++ filter (λ n, N.to_nat (cb n) = i) l,
   (g.2 + N.of_nat (length (filter (λ n, N.to_nat (cb n) = i) l)))%N).

(** Three empty counted queues. *)
Definition example_counted_queues : list NBL_COUNTED_QUEUE :=
  replicate 3 NdisInitializeNblCountedQueue.

(** *** NdisClassifyNblChainByValueLookaheadWithCount *)

Module LookaheadWithCount.

(** The local variables of the routine that live across loop iterations.
    [Count] is initialized by [= { 1 }]; an element of [Count] that is 0 marks
    a slot that is not in use. *)
Record locals := Locals {
  Queue : list (option NBL_COUNTED_QUEUE);
  TargetClassification : list (option ULONG_PTR);
  Count : list N;
  FirstNbl : NET_BUFFER_LIST;
  PreviousNbl : NET_BUFFER_LIST;
  PreviousIndex : nat }.

Inductive outcome :=
  | Break (h : heap) (s : locals)
  | Continue (h : heap) (s : locals) (Nbl : NET_BUFFER_LIST)
      (calls : list FlushWithCountCall).

Section Body.

Variable NDIS_CLASSIFY_NBL_LOOKHEAD_DEPTH : nat.
Variable ClassificationCallback : NET_BUFFER_LIST → ULONG_PTR.

(** [for (SIZE_T i = 0; i < ARRAYSIZE(Queue); i++)] with [n] iterations left.
    [Some s'] is [goto Found] with the updated locals; [None] is the loop
    running to its end. *)
Fixpoint scan (n i : nat) (s : locals) (Nbl : NET_BUFFER_LIST)
    (NextClassification : ULONG_PTR) : option (option locals) :=
  match n with
  | O => Some None
  | S n =>
    c ← Count s !! i;
    if decide (c = 0%N) then
      C ← array_write (Count s) i 1%N;
      T ← array_write (TargetClassification s) i (Some NextClassification);
      Q ← array_write (Queue s) i (Some NdisInitializeNblCountedQueue);
      Some (Some (Locals Q T C Nbl (PreviousNbl s) i))
    else
      t ← array_read (TargetClassification s) i;
      if decide (t = NextClassification) then
        C ← array_write (Count s) i 1%N;
        Some (Some (Locals (Queue s) (TargetClassification s) C
                      Nbl (PreviousNbl s) i))
      else
        scan n (S i) s Nbl NextClassification
  end.

(** [NdisAppendNblChainToNblCountedQueueFast(&Queue[PreviousIndex], FirstNbl,
     PreviousNbl, Count[PreviousIndex])] *)
Definition append (h : heap) (s : locals) : option (heap * locals) :=
  q ← array_read (Queue s) (PreviousIndex s);
  c ← Count s !! PreviousIndex s;
  '(h', q') ← NdisAppendNblChainToNblCountedQueueFast h q (FirstNbl s) (PreviousNbl s) c;
  Q ← array_write (Queue s) (PreviousIndex s) (Some q');
  Some (h', Locals Q (TargetClassification s) (Count s) (FirstNbl s) (PreviousNbl s)
              (PreviousIndex s)).

(** The body of the [while (TRUE)] loop. *)
Definition body (h : heap) (s : locals) (Nbl : NET_BUFFER_LIST) : option outcome :=
  Nbl ← load h Nbl;
  match Nbl with
  | None =>
    '(h1, s1) ← append h s;
    Some (Break h1 s1)
  | Some n =>
    let NextClassification := ClassificationCallback n in
    t ← array_read (TargetClassification s) (PreviousIndex s);
    if decide (t = NextClassification) then
      c ← Count s !! PreviousIndex s;
      C ← array_write (Count s) (PreviousIndex s) (SIZE_T_add c 1);
      Some (Continue h
              (Locals (Queue s) (TargetClassification s) C (FirstNbl s)
                 n (PreviousIndex s))
              n [])
    else
      h1 ← store h (PreviousNbl s) NULL;
      '(h2, s1) ← append h1 s;
      found ← scan NDIS_CLASSIFY_NBL_LOOKHEAD_DEPTH 0 s1 n NextClassification;
      match found with
      | Some s2 =>
        Some (Continue h2
                (Locals (Queue s2) (TargetClassification s2) (Count s2) (FirstNbl s2)
                   n (PreviousIndex s2))
                n [])
      | None =>
        let EvictionIndex := (PreviousIndex s1 + 1) mod NDIS_CLASSIFY_NBL_LOOKHEAD_DEPTH in
        te ← array_read (TargetClassification s1) EvictionIndex;
        qe ← array_read (Queue s1) EvictionIndex;
        let call := FlushWithCountCallback te qe h2 in
        C ← array_write (Count s1) EvictionIndex 1%N;
        T ← array_write (TargetClassification s1) EvictionIndex (Some NextClassification);
        Q ← array_write (Queue s1) EvictionIndex (Some NdisInitializeNblCountedQueue);
        Some (Continue h2 (Locals Q T C n n EvictionIndex) n [call])
      end
  end.

(** [while (TRUE)] *)
Fixpoint loop (fuel : nat) (h : heap) (s : locals) (Nbl : NET_BUFFER_LIST)
    : option (heap * locals * list FlushWithCountCall) :=
  match fuel with
  | O => None
  | S fuel =>
    o ← body h s Nbl;
    match o with
    | Break h1 s1 => Some (h1, s1, [])
    | Continue h1 s1 Nbl1 calls =>
      '(h2, s2, calls') ← loop fuel h1 s1 Nbl1;
      Some (h2, s2, calls ++ calls')
    end
  end.

(** The final [for] loop: flush the slots in index order up to the first one
    whose count is 0. *)
Fixpoint flush_all (n i : nat) (h : heap) (s : locals)
    : option (list FlushWithCountCall) :=
  match n with
  | O => Some []
  | S n =>
    c ← Count s !! i;
    if decide (c = 0%N) then Some []
    else
      t ← array_read (TargetClassification s) i;
      q ← array_read (Queue s) i;
      calls ← flush_all n (S i) h s;
      Some (FlushWithCountCallback t q h :: calls)
  end.

(** The declarations and the statements before the loop. *)
Definition init (NblChain : NET_BUFFER_LIST) : option locals :=
  let K := NDIS_CLASSIFY_NBL_LOOKHEAD_DEPTH in
  Count ← array_write (replicate K 0%N) 0 1%N;
  let FirstNbl := NblChain in
  let PreviousNbl := FirstNbl in
  let Nbl := FirstNbl in
  let PreviousIndex := 0 in
  Queue ← array_write (replicate K None) PreviousIndex
             (Some NdisInitializeNblCountedQueue);
  TargetClassification ←
    array_write (replicate K None) PreviousIndex (Some (ClassificationCallback Nbl));
  Some (Locals Queue TargetClassification Count FirstNbl PreviousNbl PreviousIndex).

End Body.

End LookaheadWithCount.

Definition NdisClassifyNblChainByValueLookaheadWithCount
    (NDIS_CLASSIFY_NBL_LOOKHEAD_DEPTH : nat)
    (ClassificationCallback : NET_BUFFER_LIST → ULONG_PTR)
    (fuel : nat) (h : heap) (NblChain : NET_BUFFER_LIST)
    : option (heap * list FlushWithCountCall) :=
  let K := NDIS_CLASSIFY_NBL_LOOKHEAD_DEPTH in
  s ← LookaheadWithCount.init K ClassificationCallback NblChain;
  '(h1, s, calls) ← LookaheadWithCount.loop K ClassificationCallback fuel h s NblChain;
  calls' ← LookaheadWithCount.flush_all K 0 h1 s;
  Some (h1, calls ++ calls').

(** The arrays of the counted routine hold the in-flight runs [slots]: the
    slots in use are those with a count other than 0, and the count of every
    queue is the number of NBLs it holds. *)
Definition counted_slots_rep (K : nat) (h : heap) (s : LookaheadWithCount.locals)
    (slots : slot_list) : Prop :=
  length (LookaheadWithCount.Queue s) = K ∧
  length (LookaheadWithCount.TargetClassification s) = K ∧
  length (LookaheadWithCount.Count s) = K ∧
  length slots ≤ K ∧
  (∀ i, i < length slots →
     ∃ c, LookaheadWithCount.Count s !! i = Some c ∧ c ≠ 0%N) ∧
  (∀ i, length slots ≤ i → i < K → LookaheadWithCount.Count s !! i = Some 0%N) ∧
  (∀ i k l, slots !! i = Some (k, l) →
     array_read (LookaheadWithCount.TargetClassification s) i = Some k ∧
     ∃ Q, array_read (LookaheadWithCount.Queue s) i = Some Q ∧
          holds_counted h Q (l, N.of_nat (length l))).

(** The results of the counted routines with the counts forgotten. *)
Definition uncounted2 (r : option (heap * NBL_COUNTED_QUEUE * NBL_COUNTED_QUEUE))
    : option (heap * NBL_QUEUE * NBL_QUEUE) :=
  match r with
  | Some (h, Q0, Q1) => Some (h, Queue Q0, Queue Q1)
  | None => None
  end.

Definition uncounted_call (c : FlushWithCountCall) : FlushCall :=
  FlushCallback (CountedClassificationResult c) (Queue (CountedFlushQueue c))
    (CountedFlushMemory c).

Definition uncounted_calls (r : option (heap * list FlushWithCountCall))
    : option (heap * list FlushCall) :=
  match r with
  | Some (h, calls) => Some (h, uncounted_call <$> calls)
  | None => None
  end.

(** * mdl.h *)

(** An MDL: the link to the next MDL of the chain and the length of its
    buffer.  [MmGetMdlByteCount(Mdl)] is the macro of the WDK that reads the
    [ByteCount] field. *)
Record MDL := mkMDL { MdlNext : option nat; ByteCount : N }.

Definition MmGetMdlByteCount (m : MDL) : N := ByteCount m.

Definition NTSTATUS := Z.
Definition STATUS_SUCCESS : NTSTATUS := 0%Z.
Definition STATUS_STOP_ITERATION : NTSTATUS := 1%Z.

Record MDL_POINTER := mkPointer { Mdl : option nat; Offset : N }.
Record MDL_SPAN := mkSpan { Start : MDL_POINTER; Length : N }.

(** A routine of mdl.h either returns or ends in [ReportFatalOverflow], which
    does not return. *)
Inductive mdl_result (A : Type) :=
  | Returns (a : A)
  | FatalOverflow.
Arguments Returns {A} a.
Arguments FatalOverflow {A}.

Definition MinSizeT (a b : N) : N := if decide (a < b)%N then a else b.

(** SIZE_T subtraction *)
Definition SIZE_T_sub (a b : N) : N := ((a + (SIZE_T_MAX + 1) - b) mod (SIZE_T_MAX + 1))%N.

Section MdlIterate.

(** The operator with its context: the callback may change the state behind
    [OperatorContext]. *)
Context {OperatorContext : Type}.
Variable Operator : OperatorContext → MDL_SPAN → NTSTATUS * OperatorContext.

(** [MdlChainIterateBuffers]:
    [for (MDL* Mdl = MdlChain; Mdl; Mdl = Mdl->Next)] *)
Fixpoint MdlChainIterateBuffers (fuel : nat) (mdls : gmap nat MDL) (Mdl : option nat)
    (ctx : OperatorContext) : option (NTSTATUS * OperatorContext) :=
  match fuel with
  | O => None
  | S fuel =>
    match Mdl with
    | None => Some (STATUS_SUCCESS, ctx)
    | Some a =>
      m ← mdls !! a;
      if decide (0 < MmGetMdlByteCount m)%N then
        let Span := mkSpan (mkPointer (Some a) 0) (MmGetMdlByteCount m) in
        let '(NtStatus, ctx') := Operator ctx Span in
        if decide (STATUS_SUCCESS ≠ NtStatus) then Some (NtStatus, ctx')
        else MdlChainIterateBuffers fuel mdls (MdlNext m) ctx'
      else MdlChainIterateBuffers fuel mdls (MdlNext m) ctx
    end
  end.

(** The [for] loop of [MdlSpanIterateBuffers] and the statements after it. *)
Fixpoint MdlSpanIterateBuffers_loop (fuel : nat) (mdls : gmap nat MDL) (Mdl : option nat)
    (OffsetRemaining BytesRemaining : N) (ctx : OperatorContext)
    : option (mdl_result (NTSTATUS * OperatorContext)) :=
  match fuel with
  | O => None
  | S fuel =>
    match Mdl with
    | None =>
      if decide (0 < BytesRemaining)%N then Some FatalOverflow
      else Some (Returns (STATUS_SUCCESS, ctx))
    | Some a =>
      m ← mdls !! a;
      let MdlOffset := MinSizeT OffsetRemaining (MmGetMdlByteCount m) in
      let OffsetRemaining := SIZE_T_sub OffsetRemaining MdlOffset in
      if decide (MdlOffset < MmGetMdlByteCount m)%N then
        let BufferLength :=
          MinSizeT (SIZE_T_sub (MmGetMdlByteCount m) MdlOffset) BytesRemaining in
        let Subspan := mkSpan (mkPointer (Some a) MdlOffset) BufferLength in
        let '(NtStatus, ctx') := Operator ctx Subspan in
        if decide (STATUS_SUCCESS ≠ NtStatus) then Some (Returns (NtStatus, ctx'))
        else
          let BytesRemaining := SIZE_T_sub BytesRemaining BufferLength in
          if decide (0 = BytesRemaining)%N then Some (Returns (STATUS_SUCCESS, ctx'))
          else MdlSpanIterateBuffers_loop fuel mdls (MdlNext m) OffsetRemaining
                 BytesRemaining ctx'
      else
        MdlSpanIterateBuffers_loop fuel mdls (MdlNext m) OffsetRemaining
          BytesRemaining ctx
    end
  end.

Definition MdlSpanIterateBuffers (fuel : nat) (mdls : gmap nat MDL) (Span : MDL_SPAN)
    (ctx : OperatorContext) : option (mdl_result (NTSTATUS * OperatorContext)) :=
  let BytesRemaining := Length Span in
  if decide (0 = BytesRemaining)%N then Some (Returns (STATUS_SUCCESS, ctx))
  else
    let OffsetRemaining := Offset (Start Span) in
    MdlSpanIterateBuffers_loop fuel mdls (Mdl (Start Span)) OffsetRemaining
      BytesRemaining ctx.

(** The operator is called on the spans in order, until it returns a status
    other than [STATUS_SUCCESS]. *)
Fixpoint run_operator (ctx : OperatorContext) (spans : list MDL_SPAN)
    : NTSTATUS * OperatorContext :=
  match spans with
  | [] => (STATUS_SUCCESS, ctx)
  | s :: spans' =>
    let '(NtStatus, ctx') := Operator ctx s in
    if decide (STATUS_SUCCESS ≠ NtStatus) then (NtStatus, ctx')
    else run_operator ctx' spans'
  end.

End MdlIterate.

Record SEEK_OPERATOR_CONTEXT := mkSeek {
  SeekBytesRemaining : N;
  FoundMdl : option nat }.

Definition SeekOperator (Context : SEEK_OPERATOR_CONTEXT) (Span : MDL_SPAN)
    : NTSTATUS * SEEK_OPERATOR_CONTEXT :=
  if decide (Length Span ≤ SeekBytesRemaining Context)%N then
    (STATUS_SUCCESS,
     mkSeek (SIZE_T_sub (SeekBytesRemaining Context) (Length Span)) (FoundMdl Context))
  else
    (STATUS_STOP_ITERATION,
     mkSeek (SeekBytesRemaining Context) (Mdl (Start Span))).

(** [MdlChainAdvanceBytes]: the result is [*FoundMdl] and [*FoundMdlOffset]. *)
Definition MdlChainAdvanceBytes (fuel : nat) (mdls : gmap nat MDL)
    (MdlChain : option nat) (AdvanceOffset : N) : option (mdl_result MDL_POINTER) :=
  let Context := mkSeek AdvanceOffset None in
  '(NtStatus, Context) ← MdlChainIterateBuffers SeekOperator fuel mdls MdlChain Context;
  if decide (STATUS_STOP_ITERATION = NtStatus) then
    Some (Returns (mkPointer (FoundMdl Context) (SeekBytesRemaining Context)))
  else if decide (STATUS_SUCCESS = NtStatus ∧ 0%N = SeekBytesRemaining Context) then
    Some (Returns (mkPointer None 0))
  else Some FatalOverflow.

(** [MdlPointerNormalize]: the result is the new [*Pointer].  The routine reads
    [Pointer->Mdl->ByteCount]; a NULL [Pointer->Mdl] is a fault. *)
Definition MdlPointerNormalize (fuel : nat) (mdls : gmap nat MDL) (Pointer : MDL_POINTER)
    : option (mdl_result MDL_POINTER) :=
  a ← Mdl Pointer;
  m ← mdls !! a;
  if decide (MmGetMdlByteCount m ≤ Offset Pointer)%N then
    MdlChainAdvanceBytes fuel mdls (Mdl Pointer) (Offset Pointer)
  else Some (Returns Pointer).

(** [MdlPointerAdvanceBytes] *)
Definition MdlPointerAdvanceBytes (fuel : nat) (mdls : gmap nat MDL)
    (Pointer : MDL_POINTER) (Delta : N) : option (mdl_result MDL_POINTER) :=
  a ← Mdl Pointer;
  m ← mdls !! a;
  if decide (SIZE_T_add Delta (Offset Pointer) < MmGetMdlByteCount m)%N then
    Some (Returns (mkPointer (Mdl Pointer) (SIZE_T_add (Offset Pointer) Delta)))
  else
    MdlChainAdvanceBytes fuel mdls (Mdl Pointer) (SIZE_T_add Delta (Offset Pointer)).

(** ** MDL chains as lists *)

(** An MDL chain: the NULL-terminated list of the MDLs reached by [Next]. *)
Definition is_mdl_chain (mdls : gmap nat MDL) (p : option nat) (l : list nat) : Prop :=
  is_chain (MdlNext <$> mdls) p l.

Definition mdl_byte_count (mdls : gmap nat MDL) (a : nat) : N :=
  from_option ByteCount 0%N (mdls !! a).

(** The bytes [Offset, Offset + Length) of the buffer of an MDL, each given
    by the MDL and the offset into its buffer. *)
Definition buffer_bytes (a : nat) (Offset Length : N) : list (nat * N) :=
  (λ k, (a, (Offset + N.of_nat k)%N)) <$> seq 0 (N.to_nat Length).

(** The conceptual payload of an MDL chain: the concatenation of its
    buffers. *)
Definition chain_bytes (mdls : gmap nat MDL) (l : list nat) : list (nat * N) :=
  a ← l; buffer_bytes a 0 (mdl_byte_count mdls a).

Definition span_bytes (s : MDL_SPAN) : list (nat * N) :=
  match Mdl (Start s) with
  | Some a => buffer_bytes a (Offset (Start s)) (Length s)
  | None => []
  end.

(** The whole buffers of the MDLs of a chain that are not empty. *)
Definition whole_spans (mdls : gmap nat MDL) (l : list nat) : list MDL_SPAN :=
  (λ a, mkSpan (mkPointer (Some a) 0) (mdl_byte_count mdls a)) <$>
    filter (λ a, (0 < mdl_byte_count mdls a)%N) l.

(** The parts of the buffers of a chain that hold the [len] bytes at offset
    [off] of its payload. *)
Fixpoint subspans (mdls : gmap nat MDL) (l : list nat) (off len : N) : list MDL_SPAN :=
  match l with
  | [] => []
  | a :: l' =>
    let b := mdl_byte_count mdls a in
    if decide (off < b)%N then
      let n := N.min (b - off) len in
      mkSpan (mkPointer (Some a) off) n ::
        (if decide (len - n = 0)%N then [] else subspans mdls l' 0 (len - n))
    else subspans mdls l' (off - b) len
  end.

(** A span that lies in the buffer of its MDL and is not empty. *)
Definition span_in_buffer (mdls : gmap nat MDL) (s : MDL_SPAN) : Prop :=
  ∃ a, Mdl (Start s) = Some a ∧ (0 < Length s)%N ∧
       (Offset (Start s) + Length s ≤ mdl_byte_count mdls a)%N.

(** Three MDLs with buffers of 4, 0 and 6 bytes. *)
Definition example_mdls : gmap nat MDL :=
  <[1 := mkMDL (Some 2) 4]> (<[2 := mkMDL (Some 3) 0]> (<[3 := mkMDL None 6]> ∅)).

Definition example_mdl_chain : list nat := [1; 2; 3].

(** An operator that records the spans it is given and stops at a span of
    the MDL [stop]. *)
Definition example_operator (stop : nat) (ctx : list MDL_SPAN) (s : MDL_SPAN)
    : NTSTATUS * list MDL_SPAN :=
  (if decide (Mdl (Start s) = Some stop) then 5%Z else STATUS_SUCCESS, ctx ++ [s]).

(** The byte at offset [off] of the payload of a chain, as a normalized
    pointer; the end of the payload is the NULL pointer, and there is
    nothing beyond it. *)
Definition byte_position (mdls : gmap nat MDL) (l : list nat) (off : N)
    : mdl_result MDL_POINTER :=
  match chain_bytes mdls l !! N.to_nat off with
  | Some (a, k) => Returns (mkPointer (Some a) k)
  | None =>
    if decide (off = N.of_nat (length (chain_bytes mdls l))) then
      Returns (mkPointer None 0)
    else FatalOverflow
  end.

(** The normal form of mdl.h:
    [(Pointer->Mdl == NULL && Pointer->Offset == 0) ||
     (Pointer->Offset < MmGetMdlByteCount(Pointer->Mdl))]. *)
Definition is_normal (mdls : gmap nat MDL) (Pointer : MDL_POINTER) : Prop :=
  (Mdl Pointer = None ∧ Offset Pointer = 0%N) ∨
  (∃ a m, Mdl Pointer = Some a ∧ mdls !! a = Some m ∧
          (Offset Pointer < MmGetMdlByteCount m)%N).

(** ** The buffers of the MDLs *)

Definition STATUS_INSUFFICIENT_RESOURCES : NTSTATUS := (-1073741670)%Z.

(** The memory: the byte at each address.  Addresses are added without
    wrap-around. *)
Definition MEMORY := N → N.

(** [RtlFillMemory(Destination, Length, Fill)] *)
Definition RtlFillMemory (mem : MEMORY) (Destination Length Fill : N) : MEMORY :=
  λ x, if decide (Destination ≤ x < Destination + Length)%N then Fill else mem x.

(** [RtlZeroMemory(Destination, Length)] *)
Definition RtlZeroMemory (mem : MEMORY) (Destination Length : N) : MEMORY :=
  RtlFillMemory mem Destination Length 0.

(** [RtlCopyMemory(Destination, Source, Length)]: every byte is read before
    any is written, as it is for regions that do not overlap. *)
Definition RtlCopyMemory (mem : MEMORY) (Destination Source Length : N) : MEMORY :=
  λ x, if decide (Destination ≤ x < Destination + Length)%N
       then mem (Source + (x - Destination))%N else mem x.

(** The routine's local variable behind [OperatorContext] of the copy
    operators, [*Source] or [*Destination], with the memory. *)
Record COPY_CONTEXT := mkCopy { FlatBuffer : N; CopyMemory : MEMORY }.

Section MdlBuffers.

(** [MDL_MAP_BUFFER(Mdl)] and [MDL_MAP_CONST_BUFFER(Mdl)]: the system address
    of the buffer of the MDL, 0 (NULL) when the MDL cannot be mapped.  The
    header lets its user replace both macros. *)
Variable MDL_MAP_BUFFER : option nat → N.
Variable MDL_MAP_CONST_BUFFER : option nat → N.

(** The operators below change the memory, which is the state passed from
    call to call; [OperatorContext] is the [PVOID] they are given. *)
Definition MapOperator (OperatorContext : PVOID) (mem : MEMORY) (Span : MDL_SPAN)
    : NTSTATUS * MEMORY :=
  if decide (0 < Length Span)%N then
    let Buffer := MDL_MAP_BUFFER (Mdl (Start Span)) in
    if decide (Buffer = 0%N) then (STATUS_INSUFFICIENT_RESOURCES, mem)
    else (STATUS_SUCCESS, mem)
  else (STATUS_SUCCESS, mem).

Definition MdlChainEnsureMappedSystemAddress (fuel : nat) (mdls : gmap nat MDL)
    (MdlChain : option nat) (mem : MEMORY) : option (NTSTATUS * MEMORY) :=
  MdlChainIterateBuffers (MapOperator 0%N) fuel mdls MdlChain mem.

Definition ZeroOperator (OperatorContext : PVOID) (mem : MEMORY) (Span : MDL_SPAN)
    : NTSTATUS * MEMORY :=
  let Buffer := MDL_MAP_BUFFER (Mdl (Start Span)) in
  if decide (Buffer = 0%N) then (STATUS_INSUFFICIENT_RESOURCES, mem)
  else (STATUS_SUCCESS,
        RtlZeroMemory mem (Buffer + Offset (Start Span)) (Length Span)).

Definition MdlChainZeroBuffers (fuel : nat) (mdls : gmap nat MDL)
    (MdlChain : option nat) (mem : MEMORY) : option (NTSTATUS * MEMORY) :=
  MdlChainIterateBuffers (ZeroOperator 0%N) fuel mdls MdlChain mem.

Definition MdlSpanZeroBuffers (fuel : nat) (mdls : gmap nat MDL) (Span : MDL_SPAN)
    (mem : MEMORY) : option (mdl_result (NTSTATUS * MEMORY)) :=
  MdlSpanIterateBuffers (ZeroOperator 0%N) fuel mdls Span mem.

Definition MdlChainZeroBuffersAtOffset (fuel : nat) (mdls : gmap nat MDL)
    (MdlChain : option nat) (Offset ZeroLength : N) (mem : MEMORY)
    : option (mdl_result (NTSTATUS * MEMORY)) :=
  let Span := mkSpan (mkPointer MdlChain Offset) ZeroLength in
  MdlSpanZeroBuffers fuel mdls Span mem.

(** [FillOperator]: the byte is [(UCHAR)PtrToUlong(OperatorContext)]. *)
Definition FillOperator (OperatorContext : PVOID) (mem : MEMORY) (Span : MDL_SPAN)
    : NTSTATUS * MEMORY :=
  let Buffer := MDL_MAP_BUFFER (Mdl (Start Span)) in
  if decide (Buffer = 0%N) then (STATUS_INSUFFICIENT_RESOURCES, mem)
  else (STATUS_SUCCESS,
        RtlFillMemory mem (Buffer + Offset (Start Span)) (Length Span)
          (OperatorContext mod 256)%N).

(** [FillByte] is a [UCHAR]; [ULongToPtr(FillByte)] is its value. *)
Definition MdlChainFillBuffers (fuel : nat) (mdls : gmap nat MDL)
    (MdlChain : option nat) (FillByte : N) (mem : MEMORY)
    : option (NTSTATUS * MEMORY) :=
  MdlChainIterateBuffers (FillOperator FillByte) fuel mdls MdlChain mem.

Definition MdlSpanFillBuffers (fuel : nat) (mdls : gmap nat MDL) (Span : MDL_SPAN)
    (FillByte : N) (mem : MEMORY) : option (mdl_result (NTSTATUS * MEMORY)) :=
  MdlSpanIterateBuffers (FillOperator FillByte) fuel mdls Span mem.

Definition MdlChainFillBuffersAtOffset (fuel : nat) (mdls : gmap nat MDL)
    (MdlChain : option nat) (Offset FillLength FillByte : N) (mem : MEMORY)
    : option (mdl_result (NTSTATUS * MEMORY)) :=
  let Span := mkSpan (mkPointer MdlChain Offset) FillLength in
  MdlSpanFillBuffers fuel mdls Span FillByte mem.

(** [WriteOperator]: [FlatBuffer] of the context is [*Source]. *)
Definition WriteOperator (Context : COPY_CONTEXT) (Span : MDL_SPAN)
    : NTSTATUS * COPY_CONTEXT :=
  let Source := FlatBuffer Context in
  let Buffer := MDL_MAP_BUFFER (Mdl (Start Span)) in
  if decide (Buffer = 0%N) then (STATUS_INSUFFICIENT_RESOURCES, Context)
  else (STATUS_SUCCESS,
        mkCopy (Source + Length Span)
          (RtlCopyMemory (CopyMemory Context) (Buffer + Offset (Start Span)) Source
             (Length Span))).

Definition MdlCopyFlatBufferToMdlSpan (fuel : nat) (mdls : gmap nat MDL)
    (DestinationSpan : MDL_SPAN) (SourceBuffer : N) (mem : MEMORY)
    : option (mdl_result (NTSTATUS * COPY_CONTEXT)) :=
  MdlSpanIterateBuffers WriteOperator fuel mdls DestinationSpan
    (mkCopy SourceBuffer mem).

Definition MdlCopyFlatBufferToMdlChainAtOffset (fuel : nat) (mdls : gmap nat MDL)
    (DestinationMdlChain : option nat) (DestinationOffset : N) (SourceBuffer : N)
    (CopyLength : N) (mem : MEMORY) : option (mdl_result (NTSTATUS * COPY_CONTEXT)) :=
  let Destination := mkSpan (mkPointer DestinationMdlChain DestinationOffset) CopyLength in
  MdlCopyFlatBufferToMdlSpan fuel mdls Destination SourceBuffer mem.

(** [ReadOperator]: [FlatBuffer] of the context is [*Destination]. *)
Definition ReadOperator (Context : COPY_CONTEXT) (Span : MDL_SPAN)
    : NTSTATUS * COPY_CONTEXT :=
  let Destination := FlatBuffer Context in
  let Buffer := MDL_MAP_CONST_BUFFER (Mdl (Start Span)) in
  if decide (Buffer = 0%N) then (STATUS_INSUFFICIENT_RESOURCES, Context)
  else (STATUS_SUCCESS,
        mkCopy (Destination + Length Span)
          (RtlCopyMemory (CopyMemory Context) Destination (Buffer + Offset (Start Span))
             (Length Span))).

Definition MdlCopyMdlSpanToFlatBuffer (fuel : nat) (mdls : gmap nat MDL)
    (DestinationBuffer : N) (Source : MDL_SPAN) (mem : MEMORY)
    : option (mdl_result (NTSTATUS * COPY_CONTEXT)) :=
  MdlSpanIterateBuffers ReadOperator fuel mdls Source (mkCopy DestinationBuffer mem).

Definition MdlCopyMdlChainAtOffsetToFlatBuffer (fuel : nat) (mdls : gmap nat MDL)
    (DestinationBuffer : N) (SourceMdlChain : option nat) (SourceOffset CopyLength : N)
    (mem : MEMORY) : option (mdl_result (NTSTATUS * COPY_CONTEXT)) :=
  let Source := mkSpan (mkPointer SourceMdlChain SourceOffset) CopyLength in
  MdlCopyMdlSpanToFlatBuffer fuel mdls DestinationBuffer Source mem.

End MdlBuffers.

(** The address of a byte of the payload, for MDLs mapped by [buffer_of]. *)
Definition byte_address (buffer_of : option nat → N) (b : nat * N) : N :=
  (buffer_of (Some b.1) + b.2)%N.

(** The addresses of the [len] bytes at offset [off] of the payload of a
    chain, in order. *)
Definition span_addresses (buffer_of : option nat → N) (mdls : gmap nat MDL)
    (l : list nat) (off len : N) : list N :=
  byte_address buffer_of <$>
    take (N.to_nat len) (drop (N.to_nat off) (chain_bytes mdls l)).

(** The MDLs of a chain before the first one that has a buffer that is not
    empty and cannot be mapped. *)
Fixpoint mapped_prefix (buffer_of : option nat → N) (mdls : gmap nat MDL)
    (l : list nat) : list nat :=
  match l with
  | [] => []
  | a :: l' =>
    if decide ((0 < mdl_byte_count mdls a)%N ∧ buffer_of (Some a) = 0%N) then []
    else a :: mapped_prefix buffer_of mdls l'
  end.

(** The buffers of the MDLs 1, 2 and 3 at the addresses 1000, 2000 and 3000;
    in the second mapping the MDL 3 cannot be mapped. *)
Definition example_buffer_of (p : option nat) : N :=
  match p with
  | Some a => (1000 * N.of_nat a)%N
  | None => 0%N
  end.

Definition example_buffer_of' (p : option nat) : N :=
  match p with
  | Some 3 => 0%N
  | Some a => (1000 * N.of_nat a)%N
  | None => 0%N
  end.

Definition example_memory : MEMORY := λ x, (x mod 251 + 1)%N.

(** ** Iteration over two chains *)

(** A routine that ends in [ReportFatalOverflow], or faults, ends the routine
    that called it. *)
Definition mdl_bind {A B : Type} (x : option (mdl_result A))
    (f : A → option (mdl_result B)) : option (mdl_result B) :=
  match x with
  | Some (Returns a) => f a
  | Some FatalOverflow => Some FatalOverflow
  | None => None
  end.

Section MdlPairwise.

Context {OperatorContext : Type}.
Variable Operator :
  OperatorContext → MDL_POINTER → MDL_POINTER → N → NTSTATUS * OperatorContext.

(** The [while] loop of [MdlPairwiseIterateBuffersUpdateInputs]; the result is
    the status with [*MdlPointer1], [*MdlPointer2] and the context.  The loop
    reads [MdlPointer1->Mdl->ByteCount] and [MdlPointer2->Mdl->ByteCount]; a
    NULL [Mdl] is a fault. *)
Fixpoint MdlPairwiseIterateBuffersUpdateInputs_loop (fuel : nat) (mdls : gmap nat MDL)
    (MdlPointer1 MdlPointer2 : MDL_POINTER) (BytesRemaining : N) (ctx : OperatorContext)
    : option (mdl_result (NTSTATUS * MDL_POINTER * MDL_POINTER * OperatorContext)) :=
  match fuel with
  | O => None
  | S fuel =>
    if decide (0 < BytesRemaining)%N then
      a1 ← Mdl MdlPointer1; m1 ← mdls !! a1;
      a2 ← Mdl MdlPointer2; m2 ← mdls !! a2;
      let CommonLength :=
        MinSizeT BytesRemaining
          (MinSizeT (SIZE_T_sub (MmGetMdlByteCount m1) (Offset MdlPointer1))
                    (SIZE_T_sub (MmGetMdlByteCount m2) (Offset MdlPointer2))) in
      let '(NtStatus, ctx') := Operator ctx MdlPointer1 MdlPointer2 CommonLength in
      if decide (STATUS_SUCCESS ≠ NtStatus) then
        Some (Returns (NtStatus, MdlPointer1, MdlPointer2, ctx'))
      else
        mdl_bind (MdlPointerAdvanceBytes fuel mdls MdlPointer1 CommonLength)
          (λ MdlPointer1,
             mdl_bind (MdlPointerAdvanceBytes fuel mdls MdlPointer2 CommonLength)
               (λ MdlPointer2,
                  MdlPairwiseIterateBuffersUpdateInputs_loop fuel mdls MdlPointer1
                    MdlPointer2 (SIZE_T_sub BytesRemaining CommonLength) ctx'))
    else Some (Returns (STATUS_SUCCESS, MdlPointer1, MdlPointer2, ctx))
  end.

Definition MdlPairwiseIterateBuffersUpdateInputs (fuel : nat) (mdls : gmap nat MDL)
    (MdlPointer1 MdlPointer2 : MDL_POINTER) (TotalLength : N) (ctx : OperatorContext)
    : option (mdl_result (NTSTATUS * MDL_POINTER * MDL_POINTER * OperatorContext)) :=
  let BytesRemaining := TotalLength in
  mdl_bind (MdlPointerNormalize fuel mdls MdlPointer1)
    (λ MdlPointer1,
       mdl_bind (MdlPointerNormalize fuel mdls MdlPointer2)
         (λ MdlPointer2,
            MdlPairwiseIterateBuffersUpdateInputs_loop fuel mdls MdlPointer1 MdlPointer2
              BytesRemaining ctx)).

(** [MdlPairwiseIterateBuffers] works on copies of the two pointers. *)
Definition MdlPairwiseIterateBuffers (fuel : nat) (mdls : gmap nat MDL)
    (MdlPointer1 MdlPointer2 : MDL_POINTER) (TotalLength : N) (ctx : OperatorContext)
    : option (mdl_result (NTSTATUS * OperatorContext)) :=
  if decide (0 = TotalLength)%N then Some (Returns (STATUS_SUCCESS, ctx))
  else
    let LocalPointer1 := MdlPointer1 in
    let LocalPointer2 := MdlPointer2 in
    mdl_bind
      (MdlPairwiseIterateBuffersUpdateInputs fuel mdls LocalPointer1 LocalPointer2
         TotalLength ctx)
      (λ r, Some (Returns (r.1.1.1, r.2))).

(** The operator is called on the pairs in order, until it returns a status
    other than [STATUS_SUCCESS]. *)
Fixpoint run_pairwise_operator (ctx : OperatorContext)
    (calls : list (MDL_POINTER * MDL_POINTER * N)) : NTSTATUS * OperatorContext :=
  match calls with
  | [] => (STATUS_SUCCESS, ctx)
  | c :: calls' =>
    let '(NtStatus, ctx') := Operator ctx c.1.1 c.1.2 c.2 in
    if decide (STATUS_SUCCESS ≠ NtStatus) then (NtStatus, ctx')
    else run_pairwise_operator ctx' calls'
  end.

End MdlPairwise.

(** The pairs of parts of buffers, of the same length, that hold the [len]
    bytes at offset [o1] of the payload of the chain [l1] and the [len] bytes
    at offset [o2] of the payload of the chain [l2]: a pair ends where a
    buffer of either chain ends. *)
Fixpoint pair_spans (mdls : gmap nat MDL) (l1 : list nat)
    : N → list nat → N → N → list (MDL_POINTER * MDL_POINTER * N) :=
  match l1 with
  | [] => λ _ _ _ _, []
  | a1 :: t1 =>
    let b1 := mdl_byte_count mdls a1 in
    fix inner (o1 : N) (l2 : list nat) (o2 len : N) {struct l2} :=
      if decide (len = 0%N) then []
      else if decide (b1 ≤ o1)%N then pair_spans mdls t1 (o1 - b1)%N l2 o2 len
      else
        match l2 with
        | [] => []
        | a2 :: t2 =>
          let b2 := mdl_byte_count mdls a2 in
          if decide (b2 ≤ o2)%N then inner o1 t2 (o2 - b2)%N len
          else
            let c := N.min len (N.min (b1 - o1) (b2 - o2)) in
            (mkPointer (Some a1) o1, mkPointer (Some a2) o2, c) ::
              (if decide (o1 + c = b1)%N
               then pair_spans mdls t1 0%N l2 (o2 + c)%N (len - c)%N
               else inner (o1 + c)%N t2 0%N (len - c)%N)
        end
  end.

Definition pair_bytes1 (c : MDL_POINTER * MDL_POINTER * N) : list (nat * N) :=
  span_bytes (mkSpan c.1.1 c.2).

Definition pair_bytes2 (c : MDL_POINTER * MDL_POINTER * N) : list (nat * N) :=
  span_bytes (mkSpan c.1.2 c.2).

(** Both parts of a pair lie in the buffer of their MDL and are not empty. *)
Definition pair_in_buffers (mdls : gmap nat MDL) (c : MDL_POINTER * MDL_POINTER * N)
    : Prop :=
  span_in_buffer mdls (mkSpan c.1.1 c.2) ∧ span_in_buffer mdls (mkSpan c.1.2 c.2).

(** The chain of [example_mdls] and a second chain, of the MDLs 4 and 5 with
    buffers of 3 and 9 bytes. *)
Definition example_mdls_pair : gmap nat MDL :=
  <[4 := mkMDL (Some 5) 3]> (<[5 := mkMDL None 9]> example_mdls).

Definition example_mdl_chain2 : list nat := [4; 5].

(** An operator that records the pairs it is given. *)
Definition example_pairwise_operator (ctx : list (MDL_POINTER * MDL_POINTER * N))
    (P1 P2 : MDL_POINTER) (n : N) : NTSTATUS * list (MDL_POINTER * MDL_POINTER * N) :=
  (STATUS_SUCCESS, ctx ++ [(P1, P2, n)]).

(** * Proofs *)

(** ** Properties of chains *)

Lemma lseg_cons h p a l q :
  lseg h p (a :: l) q ↔ p = Some a ∧ ∃ nx, h !! a = Some nx ∧ lseg h nx l q.
Proof.
  simpl. split.
  - intros [-> H]. split; [done|]. destruct (h !! a) as [nx|]; [eauto | done].
  - intros [-> (nx & -> & H)]. done.
Qed.

Lemma lseg_app h p l1 l2 q :
  lseg h p (l1 ++ l2) q ↔ ∃ m, lseg h p l1 m ∧ lseg h m l2 q.
Proof.
  revert p. induction l1 as [|a l1 IH]; intros p.
  - simpl. split; [intros H; exists p; done | intros (m & -> & H); done].
  - rewrite <- app_comm_cons, lseg_cons. split.
    + intros [-> (nx & Hnx & H)]. apply IH in H as (m & H1 & H2).
      exists m. split; [|done]. apply lseg_cons. eauto.
    + intros (m & H1 & H2). apply lseg_cons in H1 as [-> (nx & Hnx & H1)].
      split; [done|]. exists nx. split; [done|]. apply IH. eauto.
Qed.

Lemma lseg_snoc h p l t q :
  lseg h p (l ++ [t]) q ↔ lseg h p l (Some t) ∧ h !! t = Some q.
Proof.
  rewrite lseg_app. split.
  - intros (m & H1 & H2). apply lseg_cons in H2 as [-> (nx & Hnx & H2)].
    simpl in H2. subst. done.
  - intros [H1 H2]. exists (Some t). split; [done|]. apply lseg_cons.
    split; [done|]. by exists q.
Qed.

(** Memories that agree on the NBLs of a segment agree on the segment. *)
Lemma lseg_agree h h' p l q :
  (∀ a, a ∈ l → h' !! a = h !! a) → lseg h p l q → lseg h' p l q.
Proof.
  revert p. induction l as [|a l IH]; intros p Hag; [done|].
  rewrite !lseg_cons. intros [-> (nx & Hnx & H)]. split; [done|].
  exists nx. split.
  - rewrite Hag; [done | left].
  - apply IH; [|done]. intros b Hb. apply Hag. by right.
Qed.

Lemma lseg_allocated h p l q a : lseg h p l q → a ∈ l → is_Some (h !! a).
Proof.
  revert p. induction l as [|b l IH]; intros p H Ha.
  - by apply elem_of_nil in Ha.
  - apply lseg_cons in H as [-> (nx & Hnx & H)].
    apply elem_of_cons in Ha as [->|Ha]; [eauto | by eapply IH].
Qed.

Lemma lseg_head h p l q : lseg h p l q → l ≠ [] → p = head l.
Proof. destruct l; [done|]. by intros [-> _] _. Qed.

(** A chain is determined by its head. *)
Lemma is_chain_inj h p l1 l2 : is_chain h p l1 → is_chain h p l2 → l1 = l2.
Proof.
  unfold is_chain. revert p l2. induction l1 as [|a l1 IH]; intros p [|b l2]; simpl.
  - done.
  - by intros -> [? _].
  - by intros [-> _] ?.
  - intros [-> H1] [[= <-] H2]. destruct (h !! a); [|done].
    f_equal. by eapply IH.
Qed.

(** A NULL-terminated chain visits no NBL twice. *)
Lemma is_chain_NoDup h p l : is_chain h p l → NoDup l.
Proof.
  unfold is_chain. revert p. induction l as [|a l IH]; intros p H.
  - constructor.
  - pose proof H as H'. apply lseg_cons in H as [-> (nx & Hnx & H)].
    constructor; [|by eapply IH].
    intros Ha. apply list_elem_of_split in Ha as (l1 & l2 & ->).
    apply lseg_app in H as (m & H1 & H2).
    pose proof H2 as H3. apply lseg_cons in H3 as [-> _].
    assert (Heq : a :: l1 ++ a :: l2 = a :: l2).
    { eapply is_chain_inj; [exact H' | exact H2]. }
    apply (f_equal length) in Heq. simpl in Heq. rewrite length_app in Heq.
    simpl in Heq. lia.
Qed.

(** Redirecting the [Next] of the last NBL of a segment. *)
Lemma lseg_retarget h p l q t v :
  lseg h p l q → last l = Some t → NoDup l → lseg (<[t := v]> h) p l v.
Proof.
  intros H Hl Hnd.
  destruct (last_Some l t) as [[l' ->] _]; [done|].
  apply lseg_snoc in H as [H _]. apply lseg_snoc. split.
  - eapply lseg_agree; [|done]. intros a Ha. apply lookup_insert_ne.
    intros ->. apply NoDup_app in Hnd as (_ & Hnd & _). apply (Hnd a); [done | left].
  - apply lookup_insert_eq.
Qed.

Lemma store_Some h a v : is_Some (h !! a) → store h a v = Some (<[a := v]> h).
Proof. intros [x Hx]. unfold store. by rewrite Hx. Qed.

Lemma store_inv h a v h' : store h a v = Some h' → h' = <[a := v]> h ∧ is_Some (h !! a).
Proof. unfold store. destruct (h !! a) eqn:E; [|done]. intros [= <-]. eauto. Qed.

Lemma last_elem_of {A} (l : list A) t : last l = Some t → t ∈ l.
Proof.
  intros H. destruct (last_Some l t) as [[l' ->] _]; [done|].
  apply elem_of_app. right. left.
Qed.

(** The append of nblqueue.h on a queue holding [lq] and a segment [run]
    disjoint from it: the queue then holds [lq ++ run], and only the [Next]
    fields of NBLs of [lq] and [run] are written. *)
Lemma NdisAppendNblChainToNblQueueFast_spec h Q lq f t run q :
  is_queue h Q lq → lseg h (Some f) run q → last run = Some t →
  NoDup (lq ++ run) →
  ∃ h' Q', NdisAppendNblChainToNblQueueFast h Q f t = Some (h', Q') ∧
    is_queue h' Q' (lq ++ run) ∧
    (∀ a, a ∉ lq → a ∉ run → h' !! a = h !! a) ∧
    (∀ a, is_Some (h !! a) → is_Some (h' !! a)).
Proof.
  intros [HQ HL] Hrun Hlast Hnd.
  pose proof (last_elem_of _ _ Hlast) as Ht.
  apply NoDup_app in Hnd as (Hndq & Hdisj & Hndr).
  unfold NdisAppendNblChainToNblQueueFast.
  rewrite store_Some by (by eapply lseg_allocated). simpl.
  assert (Hrun1 : lseg (<[t := NULL]> h) (Some f) run NULL) by by eapply lseg_retarget.
  assert (HQ1 : is_chain (<[t := NULL]> h) (First Q) lq).
  { eapply lseg_agree; [|exact HQ]. intros a Ha. apply lookup_insert_ne.
    intros ->. by apply (Hdisj a). }
  destruct lq as [|a0 lq0] using rev_ind.
  - unfold is_chain in HQ. simpl in HQ. rewrite HQ. simpl.
    eexists _, _. split; [done|]. split; [|split].
    + split; simpl; [done | by rewrite Hlast].
    + intros a _ Ha. apply lookup_insert_ne. by intros ->.
    + intros a Ha. rewrite lookup_insert. case_decide; eauto.
  - clear IHlq0. rewrite last_snoc in HL.
    assert (Hf : ∃ b, First Q = Some b).
    { destruct lq0; apply lseg_cons in HQ as [-> _]; eauto. }
    destruct Hf as [b Hb]. rewrite Hb, HL. simpl.
    rewrite store_Some; last first.
    { eapply lseg_allocated; [exact HQ1|]. apply elem_of_app. right. left. }
    simpl. eexists _, _. split; [done|]. split; [|split].
    + split; simpl.
      * unfold is_chain. apply lseg_app. exists (Some f). split.
        -- rewrite <- Hb. eapply lseg_retarget; [exact HQ1 | apply last_snoc | done].
        -- eapply lseg_agree; [|exact Hrun1]. intros a Ha. apply lookup_insert_ne.
           intros ->. apply (Hdisj a); [|done]. apply elem_of_app. right. left.
      * rewrite last_app, Hlast. done.
    + intros a Haq Har. rewrite !lookup_insert_ne; [done | | ].
      * intros ->. by apply Har.
      * intros ->. apply Haq. apply elem_of_app. right. left.
    + intros a Ha. rewrite !lookup_insert. repeat case_decide; eauto.
Qed.

(** Cutting the chain after [Previous] and then appending is the same as
    appending: the append sets the terminal [Next] to NULL itself. *)
Lemma NdisAppendNblChainToNblQueueFast_after_cut h h1 Q f t :
  store h t NULL = Some h1 →
  NdisAppendNblChainToNblQueueFast h1 Q f t = NdisAppendNblChainToNblQueueFast h Q f t.
Proof.
  intros H. apply store_inv in H as [-> Hs].
  unfold NdisAppendNblChainToNblQueueFast.
  rewrite !store_Some; [|done|by rewrite lookup_insert_eq].
  by rewrite insert_insert_eq.
Qed.

Lemma is_queue_agree h h' Q l :
  (∀ a, a ∈ l → h' !! a = h !! a) → is_queue h Q l → is_queue h' Q l.
Proof. intros Hag [H1 H2]. split; [by eapply lseg_agree | done]. Qed.

Lemma is_queue_init h : is_queue h NdisInitializeNblQueue [].
Proof. done. Qed.

Lemma filter_all {A} (P : A → Prop) `{!∀ x, Decision (P x)} (l : list A) :
  Forall P l → filter P l = l.
Proof.
  induction 1 as [|x l Hx _ IH]; [done|]. rewrite filter_cons_True by done. by f_equal.
Qed.

Lemma filter_none {A} (P : A → Prop) `{!∀ x, Decision (P x)} (l : list A) :
  Forall (λ x, ¬ P x) l → filter P l = [].
Proof.
  induction 1 as [|x l Hx _ IH]; [done|]. by rewrite filter_cons_False.
Qed.

(** Disjointness side conditions from a [NoDup] hypothesis. *)
Ltac nodup_solver :=
  repeat match goal with
         | H : NoDup _ |- _ => rewrite ?NoDup_app, ?NoDup_cons in H; revert H
         end;
  rewrite ?NoDup_app, ?NoDup_cons; intros;
  repeat split; try (by apply NoDup_nil_2); set_solver.

Section Classify2_correct.

Variable cb : NET_BUFFER_LIST → N.

Lemma NdisClassifyNblChain2_append_spec h cur Q0 Q1 l0 l1 f t run q :
  is_queue h Q0 l0 → is_queue h Q1 l1 →
  lseg h (Some f) run q → last run = Some t →
  NoDup (l0 ++ l1 ++ run) →
  ∃ h' Q0' Q1',
    NdisClassifyNblChain2_append h cur Q0 Q1 f t = Some (h', Q0', Q1') ∧
    is_queue h' Q0' (if decide (cur = 0%N) then l0 ++ run else l0) ∧
    is_queue h' Q1' (if decide (cur = 0%N) then l1 else l1 ++ run) ∧
    (∀ a, a ∉ l0 → a ∉ l1 → a ∉ run → h' !! a = h !! a).
Proof.
  intros HQ0 HQ1 Hrun Hlast Hnd.
  unfold NdisClassifyNblChain2_append. case_decide.
  - destruct (NdisAppendNblChainToNblQueueFast_spec h Q0 l0 f t run q)
      as (h' & Q' & -> & HQ' & Hfr & _); [done..| |].
    { nodup_solver. }
    simpl. eexists _, _, _. split; [done|]. split; [done|]. split; [|by auto].
    eapply is_queue_agree; [|exact HQ1]. intros a Ha. apply Hfr.
    all: nodup_solver.
  - destruct (NdisAppendNblChainToNblQueueFast_spec h Q1 l1 f t run q)
      as (h' & Q' & -> & HQ' & Hfr & _); [done..| |].
    { nodup_solver. }
    simpl. eexists _, _, _. split; [done|]. split; [|split; [done | by auto]].
    eapply is_queue_agree; [|exact HQ0]. intros a Ha. apply Hfr.
    all: nodup_solver.
Qed.

Lemma NdisClassifyNblChain2_loop_spec rest :
  ∀ fuel h Nbl F P cur Q0 Q1 l0 l1 run,
  length rest < fuel →
  lseg h (Some F) run Nbl → last run = Some P → is_chain h Nbl rest →
  is_queue h Q0 l0 → is_queue h Q1 l1 →
  NoDup (l0 ++ l1 ++ run ++ rest) →
  Forall (λ n, cb n = cur) run →
  ∃ h' Q0' Q1',
    NdisClassifyNblChain2_loop cb fuel h Nbl F P cur Q0 Q1 = Some (h', Q0', Q1') ∧
    is_queue h' Q0' (l0 ++ filter (λ n, cb n = 0%N) (run ++ rest)) ∧
    is_queue h' Q1' (l1 ++ filter (λ n, cb n ≠ 0%N) (run ++ rest)).
Proof.
  induction rest as [|n rest IH]; intros fuel h Nbl F P cur Q0 Q1 l0 l1 run
    Hfuel Hrun Hlast Hrest HQ0 HQ1 Hnd Hcur.
  - destruct fuel as [|fuel]; [simpl in Hfuel; lia|].
    unfold is_chain in Hrest. simpl in Hrest. subst Nbl. simpl.
    rewrite app_nil_r in *.
    destruct (NdisClassifyNblChain2_append_spec h cur Q0 Q1 l0 l1 F P run NULL)
      as (h' & Q0' & Q1' & -> & H0 & H1 & _); [done..|].
    eexists _, _, _. split; [done|].
    case_decide; subst.
    + rewrite filter_all by done. rewrite filter_none, app_nil_r; [done|].
      eapply Forall_impl; [exact Hcur|]. naive_solver.
    + rewrite (filter_all (λ n, cb n ≠ 0%N)).
      * rewrite filter_none, app_nil_r; [done|].
        eapply Forall_impl; [exact Hcur|]. naive_solver.
      * eapply Forall_impl; [exact Hcur|]. naive_solver.
  - destruct fuel as [|fuel]; [simpl in Hfuel; lia|]. simpl in Hfuel.
    apply lseg_cons in Hrest as [-> (nx & Hnx & Hrest)]. simpl.
    assert (HP : P ∈ run) by by apply last_elem_of.
    assert (HPa : is_Some (h !! P)) by (eapply lseg_allocated; [exact Hrun | exact HP]).
    case_decide as Hne.
    + rewrite store_Some by done. simpl.
      unfold NdisClassifyNblChain2_append.
      rewrite !(NdisAppendNblChainToNblQueueFast_after_cut h (<[P:=NULL]> h))
        by (by apply store_Some).
      fold (NdisClassifyNblChain2_append h cur Q0 Q1 F P).
      destruct (NdisClassifyNblChain2_append_spec h cur Q0 Q1 l0 l1 F P run (Some n))
        as (h' & Q0' & Q1' & -> & H0 & H1 & Hfr); [done..| |].
      { nodup_solver. }
      simpl. unfold load.
      assert (Hn : h' !! n = Some nx).
      { rewrite Hfr; [done|..]; nodup_solver. }
      rewrite Hn. simpl.
      odestruct (IH fuel h' nx n n (cb n) Q0' Q1' _ _ [n])
        as (h'' & Q0'' & Q1'' & -> & H0' & H1');
        [lia | | done | | exact H0 | exact H1 | | | ].
      * apply lseg_cons. split; [done|]. by exists nx.
      * eapply lseg_agree; [|exact Hrest]. intros a Ha. apply Hfr.
        all: nodup_solver.
      * eapply NoDup_Permutation_proper; [|exact Hnd].
        case_decide; solve_Permutation.
      * by constructor.
      * eexists _, _, _. split; [done|].
        rewrite (cons_middle n run rest). rewrite !filter_app in *.
        case_decide; subst.
        -- rewrite (filter_all (λ n, cb n = 0%N) run) by done.
           rewrite (filter_none (λ n, cb n ≠ 0%N) run).
           ++ rewrite <- !app_assoc in H0'. done.
           ++ eapply Forall_impl; [exact Hcur|]. naive_solver.
        -- rewrite (filter_all (λ n, cb n ≠ 0%N) run).
           ++ rewrite (filter_none (λ n, cb n = 0%N) run).
              ** rewrite <- !app_assoc in H1'. done.
              ** eapply Forall_impl; [exact Hcur|]. naive_solver.
           ++ eapply Forall_impl; [exact Hcur|]. naive_solver.
    + unfold load. rewrite Hnx. simpl.
      edestruct (IH fuel h nx F n cur Q0 Q1 l0 l1 (run ++ [n]))
        as (h'' & Q0'' & Q1'' & -> & H0' & H1');
        [lia | | apply last_snoc | done | done | done | | | ].
      * apply lseg_snoc. done.
      * eapply NoDup_Permutation_proper; [|exact Hnd]. solve_Permutation.
      * apply Forall_app. split; [done|]. by constructor.
      * eexists _, _, _. split; [done|]. rewrite <- !app_assoc in *. done.
Qed.

End Classify2_correct.

(** [NdisClassifyNblChain2] appends to [Queue0] the NBLs of the chain
    classified 0 and to [Queue1] all the others, each in chain order. *)
Lemma NdisClassifyNblChain2_spec cb fuel h NblChain l Q0 Q1 l0 l1 :
  is_chain h (Some NblChain) l → length l ≤ fuel →
  is_queue h Q0 l0 → is_queue h Q1 l1 → NoDup (l0 ++ l1 ++ l) →
  ∃ h' Q0' Q1',
    NdisClassifyNblChain2 cb fuel h NblChain Q0 Q1 = Some (h', Q0', Q1') ∧
    is_queue h' Q0' (l0 ++ filter (λ n, cb n = 0%N) l) ∧
    is_queue h' Q1' (l1 ++ filter (λ n, cb n ≠ 0%N) l).
Proof.
  intros Hl Hfuel HQ0 HQ1 Hnd.
  destruct l as [|a rest]; [done|].
  apply lseg_cons in Hl as [[= <-] (nx & Hnx & Hrest)]. simpl in Hfuel.
  unfold NdisClassifyNblChain2, load. rewrite Hnx. simpl.
  apply (NdisClassifyNblChain2_loop_spec cb rest fuel h nx NblChain NblChain
           (cb NblChain) Q0 Q1 l0 l1 [NblChain]); try done.
  - apply lseg_cons. split; [done|]. by exists nx.
  - by constructor.
Qed.

(** C9: for a chain of five NBLs that the selector classifies 0,0,1,1,0,
    [NdisClassifyNblChain2] started on two empty queues leaves [Queue0] holding
    the first, second and fifth NBL and [Queue1] holding the third and fourth,
    each in chain order. *)
Theorem C9_two_way_split_example cb fuel h p1 p2 p3 p4 p5 :
  is_chain h (Some p1) [p1; p2; p3; p4; p5] →
  cb p1 = 0%N → cb p2 = 0%N → cb p3 = 1%N → cb p4 = 1%N → cb p5 = 0%N →
  5 ≤ fuel →
  ∃ h' Queue0 Queue1,
    NdisClassifyNblChain2 cb fuel h p1 NdisInitializeNblQueue NdisInitializeNblQueue
      = Some (h', Queue0, Queue1) ∧
    is_queue h' Queue0 [p1; p2; p5] ∧
    is_queue h' Queue1 [p3; p4].
Proof.
  intros Hl H1 H2 H3 H4 H5 Hfuel.
  destruct (NdisClassifyNblChain2_spec cb fuel h p1 [p1; p2; p3; p4; p5]
              NdisInitializeNblQueue NdisInitializeNblQueue [] [])
    as (h' & Q0 & Q1 & Heq & HQ0 & HQ1); try done.
  { simpl. by eapply is_chain_NoDup. }
  exists h', Q0, Q1. split; [done|].
  rewrite !filter_cons, !filter_nil in HQ0, HQ1.
  rewrite H1, H2, H3, H4, H5 in HQ0, HQ1. simpl in HQ0, HQ1. done.
Qed.

Lemma C9_two_way_split_example_witness :
  ∃ h' Queue0 Queue1,
    NdisClassifyNblChain2 example_selector 5 example_chain5 10
      NdisInitializeNblQueue NdisInitializeNblQueue = Some (h', Queue0, Queue1) ∧
    is_queue h' Queue0 [10; 20; 50] ∧
    is_queue h' Queue1 [30; 40].
Proof.
  apply (C9_two_way_split_example example_selector 5 example_chain5 10 20 30 40 50).
  - vm_compute. repeat split.
  - reflexivity.
  - reflexivity.
  - reflexivity.
  - reflexivity.
  - reflexivity.
  - lia.
Defined.

(** ** Arrays of queues *)

Lemma join_insert_snoc {A} (Ls : list (list A)) i l r :
  Ls !! i = Some l → mjoin (<[i := l ++ r]> Ls) ≡ₚ mjoin Ls ++ r.
Proof.
  revert i. induction Ls as [|x Ls IH]; intros [|i] H; simplify_eq/=.
  - solve_Permutation.
  - rewrite (IH i) by done. solve_Permutation.
Qed.

Lemma join_lookup_elem_of {A} (Ls : list (list A)) i l a :
  Ls !! i = Some l → a ∈ l → a ∈ mjoin Ls.
Proof.
  intros H Ha. apply list_elem_of_join. exists l. split; [done|].
  by eapply list_elem_of_lookup_2.
Qed.

Lemma join_lookup_disjoint {A} (Ls : list (list A)) i j li lj a :
  NoDup (mjoin Ls) → i ≠ j → Ls !! i = Some li → Ls !! j = Some lj →
  a ∈ li → a ∉ lj.
Proof.
  revert i j. induction Ls as [|x Ls IH]; intros [|i] [|j] Hnd Hij Hi Hj Ha;
    simplify_eq/=; apply NoDup_app in Hnd as (Hx & Hd & Hnd).
  - intros Hb. apply (Hd a); [done|]. by eapply join_lookup_elem_of.
  - intros Hb. apply (Hd a); [done|]. by eapply join_lookup_elem_of.
  - eapply (IH i j); eauto.
Qed.

Section ByIndex_correct.

Variable cb : NET_BUFFER_LIST → N.

Lemma NdisClassifyNblChainByIndex_append_spec h Qs Ls c lc f t run q :
  Forall2 (is_queue h) Qs Ls → Ls !! N.to_nat c = Some lc →
  lseg h (Some f) run q → last run = Some t →
  NoDup (mjoin Ls ++ run) →
  ∃ h' Qs',
    NdisClassifyNblChainByIndex_append h Qs c f t = Some (h', Qs') ∧
    Forall2 (is_queue h') Qs' (<[N.to_nat c := lc ++ run]> Ls) ∧
    (∀ a, a ∉ mjoin Ls → a ∉ run → h' !! a = h !! a).
Proof.
  intros HQs Hc Hrun Hlast Hnd.
  destruct (Forall2_lookup_r _ _ _ _ _ HQs Hc) as (Q & HQ & HQl).
  unfold NdisClassifyNblChainByIndex_append. rewrite HQ. simpl.
  apply NoDup_app in Hnd as (HndL & Hdisj & Hndr).
  destruct (NdisAppendNblChainToNblQueueFast_spec h Q lc f t run q)
    as (h' & Q' & -> & HQ' & Hfr & _); [done..| |].
  { apply NoDup_app. split; [|split; [|done]].
    - eapply is_chain_NoDup, HQl.
    - intros a Ha. apply Hdisj. by eapply join_lookup_elem_of. }
  simpl. eexists _, _. split; [done|]. split.
  - apply Forall2_lookup. intros i.
    destruct (decide (i = N.to_nat c)) as [->|Hi].
    + rewrite !list_lookup_insert_eq.
      * by constructor.
      * by eapply lookup_lt_Some.
      * by eapply lookup_lt_Some.
    + rewrite !list_lookup_insert_ne by done.
      pose proof (proj1 (Forall2_lookup _ _ _) HQs i) as Hi'.
      destruct (Qs !! i) as [Qi|] eqn:EQ, (Ls !! i) as [li|] eqn:EL;
        inversion Hi' as [? ? Hi''|]; subst; constructor.
      eapply is_queue_agree; [|exact Hi'']. intros a Ha.
      apply Hfr.
      * eapply join_lookup_disjoint; [exact HndL | exact Hi | exact EL | exact Hc | done].
      * apply Hdisj. by eapply join_lookup_elem_of.
  - intros a Ha Har. apply Hfr; [|done]. intros Hl. apply Ha.
    by eapply join_lookup_elem_of.
Qed.

Lemma filter_index_run (run : list NET_BUFFER_LIST) cur i :
  Forall (λ n, cb n = cur) run →
  filter (λ n, N.to_nat (cb n) = i) run = if decide (i = N.to_nat cur) then run else [].
Proof.
  intros H. case_decide as Hi.
  - apply filter_all. eapply Forall_impl; [exact H|]. naive_solver.
  - apply filter_none. eapply Forall_impl; [exact H|]. naive_solver.
Qed.

Lemma NdisClassifyNblChainByIndex_loop_spec rest :
  ∀ fuel h Nbl F P cur Qs Ls run,
  length rest < fuel →
  lseg h (Some F) run Nbl → last run = Some P → is_chain h Nbl rest →
  Forall2 (is_queue h) Qs Ls →
  NoDup (mjoin Ls ++ run ++ rest) →
  Forall (λ n, cb n = cur) run →
  Forall (λ n, N.to_nat (cb n) < length Qs) (run ++ rest) →
  ∃ h' Qs',
    NdisClassifyNblChainByIndex_loop cb fuel h Nbl F P cur Qs = Some (h', Qs') ∧
    Forall2 (is_queue h') Qs'
      (imap (λ i l, l ++ filter (λ n, N.to_nat (cb n) = i) (run ++ rest)) Ls).
Proof.
  induction rest as [|n rest IH]; intros fuel h Nbl F P cur Qs Ls run
    Hfuel Hrun Hlast Hrest HQs Hnd Hcur Hrange.
  all: destruct fuel as [|fuel]; [simpl in Hfuel; lia|].
  all: assert (HP : P ∈ run) by by apply last_elem_of.
  all: assert (Hc : N.to_nat cur < length Ls).
  1,3: (rewrite <- (Forall2_length _ _ _ HQs);
        apply Forall_app in Hrange as [Hrange _];
        rewrite Forall_forall in Hrange, Hcur;
        rewrite <- (Hcur P HP); by apply Hrange).
  all: destruct (lookup_lt_is_Some_2 _ _ Hc) as [lc Hlc].
  all: assert (Hstep : ∀ tail,
         imap (λ i l, l ++ filter (λ n, N.to_nat (cb n) = i) tail)
           (<[N.to_nat cur := lc ++ run]> Ls)
         = imap (λ i l, l ++ filter (λ n, N.to_nat (cb n) = i) (run ++ tail)) Ls).
  1,3: (intros tail; apply list_eq; intros i; rewrite !list_lookup_imap;
        destruct (decide (i = N.to_nat cur)) as [->|Hi];
        [ rewrite list_lookup_insert_eq by done; rewrite Hlc; simpl;
          rewrite filter_app, (filter_index_run run cur) by done;
          rewrite decide_True by done; by rewrite app_assoc
        | rewrite list_lookup_insert_ne by done;
          destruct (Ls !! i) as [li|]; [|done]; simpl;
          rewrite filter_app, (filter_index_run run cur) by done;
          by rewrite decide_False by done ]).
  - unfold is_chain in Hrest. simpl in Hrest. subst Nbl. simpl.
    rewrite app_nil_r in Hnd.
    destruct (NdisClassifyNblChainByIndex_append_spec h Qs Ls cur lc F P run NULL)
      as (h' & Qs' & -> & HQs' & _); [done..|].
    eexists _, _. split; [done|].
    rewrite <- (Hstep []).
    replace (imap _ (<[N.to_nat cur:=lc ++ run]> Ls))
      with (<[N.to_nat cur:=lc ++ run]> Ls); [done|].
    apply list_eq. intros i. rewrite list_lookup_imap.
    destruct (_ !! i); simpl; [|done]. by rewrite filter_nil, app_nil_r.
  - simpl in Hfuel.
    apply lseg_cons in Hrest as [-> (nx & Hnx & Hrest)]. simpl.
    assert (HPa : is_Some (h !! P)) by (eapply lseg_allocated; [exact Hrun | exact HP]).
    case_decide as Hne.
    + rewrite store_Some by done. simpl.
      unfold NdisClassifyNblChainByIndex_append.
      destruct (Qs !! N.to_nat cur) as [Qc|] eqn:HQc; last first.
      { apply lookup_ge_None in HQc. rewrite (Forall2_length _ _ _ HQs) in HQc. lia. }
      simpl.
      rewrite (NdisAppendNblChainToNblQueueFast_after_cut h (<[P:=NULL]> h))
        by (by apply store_Some).
      destruct (NdisClassifyNblChainByIndex_append_spec h Qs Ls cur lc F P run (Some n))
        as (h' & Qs' & Happ & HQs' & Hfr); [done..| |].
      { nodup_solver. }
      unfold NdisClassifyNblChainByIndex_append in Happ. rewrite HQc in Happ.
      simpl in Happ.
      destruct (NdisAppendNblChainToNblQueueFast h Qc F P) as [[h2 Q2]|]; [|done].
      simpl in Happ. injection Happ as -> <-. simpl. unfold load.
      assert (Hn : h' !! n = Some nx).
      { rewrite Hfr; [done|..]; nodup_solver. }
      rewrite Hn. simpl.
      odestruct (IH fuel h' nx n n (cb n) _ _ [n])
        as (h'' & Qs'' & -> & HQs''); [lia | | done | | exact HQs' | | | | ].
      * apply lseg_cons. split; [done|]. by exists nx.
      * eapply lseg_agree; [|exact Hrest]. intros a Ha. apply Hfr; nodup_solver.
      * eapply NoDup_Permutation_proper; [|exact Hnd].
        rewrite join_insert_snoc by done. solve_Permutation.
      * by constructor.
      * rewrite length_insert. apply Forall_app in Hrange as [_ Hrange]. done.
      * eexists _, _. split; [done|]. by rewrite Hstep in HQs''.
    + unfold load. rewrite Hnx. simpl.
      odestruct (IH fuel h nx F n cur Qs Ls (run ++ [n]))
        as (h'' & Qs'' & -> & HQs'');
        [lia | | apply last_snoc | done | done | | | | ].
      * apply lseg_snoc. done.
      * eapply NoDup_Permutation_proper; [|exact Hnd]. solve_Permutation.
      * apply Forall_app. split; [done|]. by constructor.
      * by rewrite <- app_assoc.
      * eexists _, _. split; [done|]. by rewrite <- app_assoc in HQs''.
Qed.

End ByIndex_correct.

(** [NdisClassifyNblChainByIndex] appends to [Queues[i]] the NBLs of the chain
    classified [i], in chain order. *)
Lemma NdisClassifyNblChainByIndex_spec cb fuel h NblChain l Qs Ls :
  is_chain h (Some NblChain) l → length l ≤ fuel →
  Forall2 (is_queue h) Qs Ls → NoDup (mjoin Ls ++ l) →
  Forall (λ n, N.to_nat (cb n) < length Qs) l →
  ∃ h' Qs',
    NdisClassifyNblChainByIndex cb fuel h NblChain Qs = Some (h', Qs') ∧
    Forall2 (is_queue h') Qs'
      (imap (λ i l0, l0 ++ filter (λ n, N.to_nat (cb n) = i) l) Ls).
Proof.
  intros Hl Hfuel HQs Hnd Hrange.
  destruct l as [|a rest]; [done|].
  apply lseg_cons in Hl as [[= <-] (nx & Hnx & Hrest)]. simpl in Hfuel.
  unfold NdisClassifyNblChainByIndex, load. rewrite Hnx. simpl.
  apply (NdisClassifyNblChainByIndex_loop_spec cb rest fuel h nx NblChain NblChain
           (cb NblChain) Qs Ls [NblChain]); try done.
  - apply lseg_cons. split; [done|]. by exists nx.
  - by constructor.
Qed.

(** The distribution by index is a rearrangement of the queues' contents and
    the chain. *)
Lemma join_imap_filter_index (idx : NET_BUFFER_LIST → nat) (l : list NET_BUFFER_LIST)
    (Ls : list (list NET_BUFFER_LIST)) :
  Forall (λ n, idx n < length Ls) l →
  mjoin (imap (λ i l0, l0 ++ filter (λ n, idx n = i) l) Ls) ≡ₚ mjoin Ls ++ l.
Proof.
  induction l as [|n l IH] using rev_ind; intros Hr.
  - rewrite app_nil_r. replace (imap _ Ls) with Ls; [done|].
    apply list_eq. intros i. rewrite list_lookup_imap.
    destruct (Ls !! i); simpl; [|done]. by rewrite filter_nil, app_nil_r.
  - apply Forall_app in Hr as [Hr Hn]. rewrite Forall_singleton in Hn.
    set (Ms := imap (λ i l0, l0 ++ filter (λ n, idx n = i) l) Ls).
    assert (HMs : length Ms = length Ls) by apply length_imap.
    destruct (lookup_lt_is_Some_2 Ms (idx n)) as [m Hm]; [lia|].
    replace (imap _ Ls) with (<[idx n := m ++ [n]]> Ms).
    + rewrite join_insert_snoc by done. unfold Ms. rewrite IH by done.
      solve_Permutation.
    + apply list_eq. intros i. unfold Ms in *. rewrite list_lookup_imap.
      destruct (decide (i = idx n)) as [->|Hi].
      * rewrite list_lookup_insert_eq by (by rewrite length_imap).
        rewrite list_lookup_imap in Hm. destruct (Ls !! idx n); simplify_eq/=.
        rewrite filter_app, filter_cons_True, filter_nil by done.
        by rewrite app_assoc.
      * rewrite list_lookup_insert_ne by done. rewrite list_lookup_imap.
        destruct (Ls !! i); simpl; [|done].
        rewrite filter_app, filter_cons_False, filter_nil, app_nil_r by done. done.
Qed.

(** The counted routine runs in lockstep with the uncounted one: at the final
    append [ThisIndex] and [CurrentIndex] hold the same value. *)
Section Counted_by_index.

Variable cb : NET_BUFFER_LIST → N.

Lemma NdisClassifyNblChainByIndexWithCount_append_sim h Qs i f t Count :
  uncounted (NdisClassifyNblChainByIndexWithCount_append h Qs i f t Count)
  = NdisClassifyNblChainByIndex_append h (Queue <$> Qs) i f t.
Proof.
  unfold NdisClassifyNblChainByIndexWithCount_append,
    NdisClassifyNblChainByIndex_append, NdisAppendNblChainToNblCountedQueueFast.
  rewrite list_lookup_fmap. destruct (Qs !! N.to_nat i) as [Q|]; simpl; [|done].
  destruct (NdisAppendNblChainToNblQueueFast h (Queue Q) f t) as [[h' q']|]; simpl;
    [|done].
  by rewrite list_fmap_insert.
Qed.

Lemma NdisClassifyNblChainByIndexWithCount_loop_sim fuel :
  ∀ h Nbl F P cur Count Qs,
  uncounted (NdisClassifyNblChainByIndexWithCount_loop cb fuel h Nbl F P cur cur Count Qs)
  = NdisClassifyNblChainByIndex_loop cb fuel h Nbl F P cur (Queue <$> Qs).
Proof.
  induction fuel as [|fuel IH]; intros h Nbl F P cur Count Qs; [done|].
  simpl. destruct Nbl as [n|].
  - case_decide as Hne.
    + destruct (store h P NULL) as [h1|]; simpl; [|done].
      rewrite <- (NdisClassifyNblChainByIndexWithCount_append_sim h1 Qs cur F P Count).
      destruct (NdisClassifyNblChainByIndexWithCount_append h1 Qs cur F P Count)
        as [[h2 Qs2]|]; simpl; [|done].
      destruct (load h2 n) as [nx|]; simpl; [|done]. apply IH.
    + rewrite Hne. destruct (load h n) as [nx|]; simpl; [|done]. apply IH.
  - apply NdisClassifyNblChainByIndexWithCount_append_sim.
Qed.

Lemma NdisClassifyNblChainByIndexWithCount_sim fuel h NblChain Qs :
  uncounted (NdisClassifyNblChainByIndexWithCount cb fuel h NblChain Qs)
  = NdisClassifyNblChainByIndex cb fuel h NblChain (Queue <$> Qs).
Proof.
  unfold NdisClassifyNblChainByIndexWithCount, NdisClassifyNblChainByIndex.
  destruct (load h NblChain) as [nx|]; simpl; [|done].
  apply NdisClassifyNblChainByIndexWithCount_loop_sim.
Qed.

End Counted_by_index.

(** C10: on a chain whose NBLs are all classified below [NumberOfQueues],
    [NdisClassifyNblChainByIndexWithCount] and [NdisClassifyNblChainByIndex]
    both return, leave the same memory and the same head and tail in every
    queue, and queue [i] holds its previous NBLs followed by the NBLs of the
    chain classified [i], in chain order.  The final append of the counted
    routine, indexed by [ThisIndex], goes to the queue of the last run. *)
Theorem C10_counted_by_index_refines_uncounted cb fuel h NblChain l
    (Queues : list NBL_COUNTED_QUEUE) Ls :
  is_chain h (Some NblChain) l → length l ≤ fuel →
  Forall2 (is_queue h) (Queue <$> Queues) Ls → NoDup (mjoin Ls ++ l) →
  Forall (λ n, N.to_nat (cb n) < length Queues) l →
  ∃ h' Queues',
    NdisClassifyNblChainByIndexWithCount cb fuel h NblChain Queues
      = Some (h', Queues') ∧
    NdisClassifyNblChainByIndex cb fuel h NblChain (Queue <$> Queues)
      = Some (h', Queue <$> Queues') ∧
    Forall2 (is_queue h') (Queue <$> Queues')
      (imap (λ i l0, l0 ++ filter (λ n, N.to_nat (cb n) = i) l) Ls).
Proof.
  intros Hl Hfuel HQs Hnd Hrange.
  destruct (NdisClassifyNblChainByIndex_spec cb fuel h NblChain l (Queue <$> Queues) Ls)
    as (h' & Qs' & Heq & HQs'); try done.
  { by rewrite length_fmap. }
  pose proof (NdisClassifyNblChainByIndexWithCount_sim cb fuel h NblChain Queues) as Hsim.
  rewrite Heq in Hsim.
  destruct (NdisClassifyNblChainByIndexWithCount cb fuel h NblChain Queues)
    as [[h2 Qs2]|]; simpl in Hsim; [|done].
  injection Hsim as -> <-. eauto.
Qed.

(** ** Classification by value *)

Lemma lseg_last h p l q t : lseg h p l q → last l = Some t → h !! t = Some q.
Proof.
  intros H Hl. destruct (last_Some l t) as [[l' ->] _]; [done|].
  by apply lseg_snoc in H as [_ H].
Qed.

Section ByValue_correct.

Variable cb : NET_BUFFER_LIST → ULONG_PTR.

Lemma NdisClassifyNblChainByValue_loop_spec rest :
  ∀ fuel h F P T run nx,
  length rest < fuel →
  lseg h (Some F) run nx → last run = Some P → is_chain h nx rest →
  NoDup (run ++ rest) →
  ∃ h' calls,
    NdisClassifyNblChainByValue_loop cb fuel h NdisInitializeNblQueue F P P T
      = Some (h', calls) ∧
    Forall2 delivers calls (runs_from cb T run rest).
Proof.
  induction rest as [|n rest IH]; intros fuel h F P T run nx
    Hfuel Hrun Hlast Hrest Hnd.
  all: destruct fuel as [|fuel]; [simpl in Hfuel; lia|].
  all: assert (HP : P ∈ run) by by apply last_elem_of.
  all: pose proof (lseg_last _ _ _ _ _ Hrun Hlast) as HPn.
  all: simpl; unfold load; rewrite HPn; simpl.
  - unfold is_chain in Hrest. simpl in Hrest. subst nx.
    destruct (NdisAppendNblChainToNblQueueFast_spec h NdisInitializeNblQueue [] F P
                run NULL) as (h' & Q' & -> & HQ' & _); try done.
    { simpl. by rewrite app_nil_r in Hnd. }
    simpl. eexists _, _. split; [done|]. constructor; [done | constructor].
  - simpl in Hfuel.
    apply lseg_cons in Hrest as [-> (nx' & Hnx & Hrest)].
    case_decide as Hne.
    + rewrite store_Some by eauto. simpl.
      rewrite (NdisAppendNblChainToNblQueueFast_after_cut h (<[P:=NULL]> h))
        by (apply store_Some; eauto).
      destruct (NdisAppendNblChainToNblQueueFast_spec h NdisInitializeNblQueue [] F P
                  run (Some n)) as (h' & Q' & -> & HQ' & Hfr & _); try done.
      { simpl. nodup_solver. }
      simpl.
      odestruct (IH fuel h' n n (cb n) [n] nx') as (h'' & calls & -> & Hcalls);
        [lia | | done | | | ].
      * apply lseg_cons. split; [done|]. exists nx'. split; [|done].
        rewrite Hfr; [done | set_solver | nodup_solver].
      * eapply lseg_agree; [|exact Hrest]. intros a Ha.
        apply Hfr; [set_solver | nodup_solver].
      * nodup_solver.
      * simpl. rewrite decide_True by done.
        eexists _, _. split; [done|]. constructor; [|done]. done.
    + odestruct (IH fuel h F n T (run ++ [n]) nx') as (h'' & calls & -> & Hcalls);
        [lia | | apply last_snoc | done | | ].
      * by apply lseg_snoc.
      * eapply NoDup_Permutation_proper; [|exact Hnd]. solve_Permutation.
      * simpl. rewrite decide_False by (by intros ?). eauto.
Qed.

(** [NdisClassifyNblChainByValue] flushes the maximal runs of the chain, one
    flush call per run, in chain order. *)
Lemma NdisClassifyNblChainByValue_spec fuel h NblChain l :
  is_chain h (Some NblChain) l → length l ≤ fuel →
  ∃ h' calls,
    NdisClassifyNblChainByValue cb fuel h NblChain = Some (h', calls) ∧
    Forall2 delivers calls (runs_from cb (cb NblChain) [NblChain] (tail l)).
Proof.
  intros Hl Hfuel. pose proof (is_chain_NoDup _ _ _ Hl) as Hnd.
  destruct l as [|a rest]; [done|].
  apply lseg_cons in Hl as [[= <-] (nx & Hnx & Hrest)]. simpl in Hfuel.
  apply (NdisClassifyNblChainByValue_loop_spec rest fuel h NblChain NblChain
           (cb NblChain) [NblChain] nx); try done.
  - apply lseg_cons. split; [done|]. by exists nx.
Qed.

End ByValue_correct.

Section Runs.

Variable cb : NET_BUFFER_LIST → ULONG_PTR.

Lemma runs_from_head T run rest : head (runs_from cb T run rest).*1 = Some T.
Proof.
  revert T run. induction rest as [|n rest IH]; intros T run; simpl; [done|].
  case_decide; [done | apply IH].
Qed.

Lemma runs_from_join T run rest : mjoin (runs_from cb T run rest).*2 = run ++ rest.
Proof.
  revert T run. induction rest as [|n rest IH]; intros T run; simpl.
  - done.
  - case_decide; simpl.
    + by rewrite IH.
    + rewrite IH. by rewrite <- app_assoc.
Qed.

Lemma runs_from_homogeneous T run rest :
  run ≠ [] → Forall (λ n, cb n = T) run →
  Forall (λ kb, kb.2 ≠ [] ∧ Forall (λ n, cb n = kb.1) kb.2) (runs_from cb T run rest).
Proof.
  revert T run. induction rest as [|n rest IH]; intros T run Hne HT; simpl.
  - by repeat constructor.
  - case_decide.
    + constructor; [done|]. apply IH; [done | by constructor].
    + apply IH.
      * by destruct run.
      * apply Forall_app. split; [done|]. constructor; [|done]. first [done | by apply dec_stable].
Qed.

Lemma runs_from_adjacent T run rest : adjacent_differ (runs_from cb T run rest).*1.
Proof.
  revert T run. induction rest as [|n rest IH]; intros T run; simpl; [done|].
  case_decide as Hne; [|apply IH].
  pose proof (runs_from_head (cb n) [n] rest) as Hh.
  pose proof (IH (cb n) [n]) as Ha.
  rewrite fmap_cons. simpl.
  destruct ((runs_from cb (cb n) [n] rest).*1) as [|k ks]; [done|].
  simpl in Hh. injection Hh as ->. split; [congruence | done].
Qed.

Lemma first_run_app T run rest :
  (first_run cb T run rest).1 ++ (first_run cb T run rest).2 = run ++ rest.
Proof.
  revert run. induction rest as [|n rest IH]; intros run; simpl; [done|].
  case_decide; simpl; [done|]. rewrite IH. by rewrite <- app_assoc.
Qed.

Lemma first_run_homogeneous T run rest :
  Forall (λ n, cb n = T) run → Forall (λ n, cb n = T) (first_run cb T run rest).1.
Proof.
  revert run. induction rest as [|n rest IH]; intros run HT; simpl; [done|].
  case_decide; simpl; [done|]. apply IH.
  apply Forall_app. split; [done|]. constructor; [|done]. first [done | by apply dec_stable].
Qed.

Lemma first_run_nonempty T run rest : run ≠ [] → (first_run cb T run rest).1 ≠ [].
Proof.
  revert run. induction rest as [|n rest IH]; intros run Hne; simpl; [done|].
  case_decide; simpl; [done|]. apply IH. by destruct run.
Qed.

Lemma first_run_maximal T run rest n :
  head (first_run cb T run rest).2 = Some n → cb n ≠ T.
Proof.
  revert run. induction rest as [|m rest IH]; intros run; simpl; [done|].
  case_decide; simpl; [by intros [= ->] | apply IH].
Qed.

Lemma runs_from_first_run T run rest :
  runs_from cb T run rest =
  (T, (first_run cb T run rest).1) ::
    match (first_run cb T run rest).2 with
    | [] => []
    | n :: tl => runs_from cb (cb n) [n] tl
    end.
Proof.
  revert run. induction rest as [|n rest IH]; intros run; simpl; [done|].
  case_decide; simpl; [done | apply IH].
Qed.

Lemma NdisPartialClassifyNblChainByValue_loop_spec rest :
  ∀ fuel h F P T run nx,
  length rest < fuel →
  lseg h (Some F) run nx → last run = Some P → is_chain h nx rest →
  NoDup (run ++ rest) →
  ∃ h' rem P',
    NdisPartialClassifyNblChainByValue_loop cb fuel h P P T = Some (h', rem, P') ∧
    is_chain h' (Some F) (first_run cb T run rest).1 ∧
    last (first_run cb T run rest).1 = Some P' ∧
    is_chain h' rem (first_run cb T run rest).2.
Proof.
  induction rest as [|n rest IH]; intros fuel h F P T run nx
    Hfuel Hrun Hlast Hrest Hnd.
  all: destruct fuel as [|fuel]; [simpl in Hfuel; lia|].
  all: assert (HP : P ∈ run) by by apply last_elem_of.
  all: pose proof (lseg_last _ _ _ _ _ Hrun Hlast) as HPn.
  all: simpl; unfold load; rewrite HPn; simpl.
  - unfold is_chain in Hrest. simpl in Hrest. subst nx.
    eexists _, _, _. split; [done|]. done.
  - simpl in Hfuel.
    apply lseg_cons in Hrest as [-> (nx' & Hnx & Hrest)].
    case_decide as Hne.
    + rewrite store_Some by eauto. simpl. rewrite decide_True by done. simpl.
      eexists _, _, _. split; [done|]. split; [|split; [done|]].
      * eapply lseg_retarget; [exact Hrun | done | nodup_solver].
      * apply lseg_cons. split; [done|]. exists nx'. split.
        -- rewrite lookup_insert_ne; [done|]. intros ->. nodup_solver.
        -- eapply lseg_agree; [|exact Hrest]. intros a Ha.
           apply lookup_insert_ne. intros ->. nodup_solver.
    + odestruct (IH fuel h F n T (run ++ [n]) nx') as (h'' & rem & P' & -> & H1 & H2 & H3);
        [lia | | apply last_snoc | done | | ].
      * by apply lseg_snoc.
      * eapply NoDup_Permutation_proper; [|exact Hnd]. solve_Permutation.
      * rewrite decide_False by (by intros ?). eauto 10.
Qed.

(** One call of [NdisPartialClassifyNblChainByValue] on a non-empty chain:
    the queue receives the first maximal run and [*NblChain] the rest. *)
Lemma NdisPartialClassifyNblChainByValue_spec fuel h a l :
  is_chain h (Some a) l → length l ≤ fuel →
  ∃ h' rem Q,
    NdisPartialClassifyNblChainByValue cb fuel h (Some a) = Some (h', rem, Q, cb a) ∧
    is_queue h' Q (first_run cb (cb a) [a] (tail l)).1 ∧
    is_chain h' rem (first_run cb (cb a) [a] (tail l)).2.
Proof.
  intros Hl Hfuel. pose proof (is_chain_NoDup _ _ _ Hl) as Hnd.
  destruct l as [|a' rest]; [done|].
  apply lseg_cons in Hl as [[= <-] (nx & Hnx & Hrest)]. simpl in Hfuel.
  unfold NdisPartialClassifyNblChainByValue. simpl.
  destruct (NdisPartialClassifyNblChainByValue_loop_spec rest fuel h a a (cb a) [a] nx)
    as (h1 & rem & P' & -> & H1 & H2 & H3); try done.
  { apply lseg_cons. split; [done|]. by exists nx. }
  simpl.
  pose proof (first_run_app (cb a) [a] rest) as Happ.
  destruct (first_run cb (cb a) [a] rest) as [r tl]. simpl in *.
  assert (Hnd' : NoDup (r ++ tl)) by (by rewrite Happ).
  destruct (NdisAppendNblChainToNblQueueFast_spec h1 NdisInitializeNblQueue [] a P' r NULL)
    as (h2 & Q & -> & HQ & Hfr & _); try done.
  { simpl. nodup_solver. }
  simpl. eexists _, _, _. split; [done|]. split; [done|].
  eapply lseg_agree; [|exact H3]. intros b Hb. apply Hfr; [set_solver | nodup_solver].
Qed.

(** The caller's loop around [NdisPartialClassifyNblChainByValue] dispatches
    the maximal runs of the chain, in chain order. *)
Lemma ReceivePackets_loop_spec fuel :
  ∀ h a l,
  is_chain h (Some a) l → length l < fuel →
  ∃ h' calls,
    ReceivePackets_loop cb fuel h (Some a) = Some (h', calls) ∧
    Forall2 delivers calls (runs_from cb (cb a) [a] (tail l)).
Proof.
  induction fuel as [|fuel IH]; intros h a l Hl Hfuel; [lia|].
  cbn [ReceivePackets_loop].
  destruct (NdisPartialClassifyNblChainByValue_spec fuel h a l)
    as (h1 & rem & Q & -> & HQ & Hrem); [done | lia |].
  simpl. rewrite runs_from_first_run.
  pose proof (first_run_app (cb a) [a] (tail l)) as Happ.
  pose proof (first_run_nonempty (cb a) [a] (tail l)) as Hne.
  destruct (first_run cb (cb a) [a] (tail l)) as [r tl]. simpl in *.
  assert (Hlen : length r + length tl = length l).
  { rewrite <- length_app, Happ. destruct l; [done|]. done. }
  assert (0 < length r) by (destruct r; [by destruct Hne | simpl; lia]).
  destruct tl as [|n tl].
  - unfold is_chain in Hrem. simpl in Hrem. subst rem.
    eexists _, _. split; [done|]. constructor; [done | constructor].
  - pose proof Hrem as Hrem'. apply lseg_cons in Hrem' as [-> _].
    destruct (IH h1 n (n :: tl)) as (h2 & calls & -> & Hcalls); [done | simpl in *; lia |].
    simpl. eexists _, _. split; [done|]. constructor; [done | done].
Qed.

End Runs.

(** C3: on a non-empty chain, the caller's loop around
    [NdisPartialClassifyNblChainByValue] dispatches, call by call, the same
    (classification result, batch) pairs as [NdisClassifyNblChainByValue]
    flushes, and the batches together are the chain; one call detaches the
    first maximal run of equally classified NBLs into the queue and leaves the
    remainder in [*NblChain] (NULL when nothing remains). *)
Theorem C3_partial_loop_reconstructs_eager cb fuel h a l :
  is_chain h (Some a) l → length l < fuel →
  (∃ batches h1 calls1 h2 calls2,
    NdisClassifyNblChainByValue cb fuel h a = Some (h1, calls1) ∧
    ReceivePackets_loop cb fuel h (Some a) = Some (h2, calls2) ∧
    Forall2 delivers calls1 batches ∧
    Forall2 delivers calls2 batches ∧
    mjoin batches.*2 = l) ∧
  (∃ h' rem Q run rest,
    NdisPartialClassifyNblChainByValue cb fuel h (Some a) = Some (h', rem, Q, cb a) ∧
    l = run ++ rest ∧ run ≠ [] ∧
    Forall (λ n, cb n = cb a) run ∧
    (∀ n, head rest = Some n → cb n ≠ cb a) ∧
    is_queue h' Q run ∧
    is_chain h' rem rest ∧
    (rem = NULL ↔ rest = [])).
Proof.
  intros Hl Hfuel.
  assert (Hl' : l = a :: tail l).
  { destruct l; [done|]. by apply lseg_cons in Hl as [[= <-] _]. }
  split.
  - destruct (NdisClassifyNblChainByValue_spec cb fuel h a l)
      as (h1 & calls1 & -> & H1); [done | lia |].
    destruct (ReceivePackets_loop_spec cb fuel h a l)
      as (h2 & calls2 & -> & H2); [done | lia |].
    eexists _, _, _, _, _. split; [done|]. split; [done|]. split; [done|].
    split; [done|]. rewrite runs_from_join. by rewrite Hl' at 2.
  - destruct (NdisPartialClassifyNblChainByValue_spec cb fuel h a l)
      as (h' & rem & Q & -> & HQ & Hrem); [done | lia |].
    exists h', rem, Q, (first_run cb (cb a) [a] (tail l)).1,
      (first_run cb (cb a) [a] (tail l)).2.
    split; [done|]. split; [|split; [|split; [|split]]].
    + rewrite first_run_app. exact Hl'.
    + by apply first_run_nonempty.
    + apply first_run_homogeneous. by constructor.
    + apply first_run_maximal.
    + split; [done|]. split; [done|].
      destruct (first_run cb (cb a) [a] (tail l)).2 as [|n tl].
      * unfold is_chain in Hrem. simpl in Hrem. by subst.
      * apply lseg_cons in Hrem as [-> _]. done.
Qed.

(** C7: on a non-empty chain [NdisClassifyNblChainByValue] makes one flush
    call per maximal run of equally classified NBLs: the batches are not
    empty, each holds NBLs of its classification result only, laid end to end
    they are the chain (so the last run is flushed, once), and adjacent
    batches differ in classification result.  Runs of the same result that
    are not adjacent are not merged: the results A,B,A,B,A,B give six batches
    of one NBL. *)
Theorem C7_eager_one_flush_per_run cb fuel h a l :
  is_chain h (Some a) l → length l ≤ fuel →
  ∃ h' calls batches,
    NdisClassifyNblChainByValue cb fuel h a = Some (h', calls) ∧
    Forall2 delivers calls batches ∧
    mjoin batches.*2 = l ∧
    Forall (λ kb, kb.2 ≠ [] ∧ Forall (λ n, cb n = kb.1) kb.2) batches ∧
    adjacent_differ batches.*1 ∧
    (∀ A B n1 n2 n3 n4 n5 n6,
       A ≠ B → l = [n1; n2; n3; n4; n5; n6] → cb <$> l = [A; B; A; B; A; B] →
       batches = [(A, [n1]); (B, [n2]); (A, [n3]); (B, [n4]); (A, [n5]); (B, [n6])]).
Proof.
  intros Hl Hfuel.
  assert (Hl' : l = a :: tail l).
  { destruct l; [done|]. by apply lseg_cons in Hl as [[= <-] _]. }
  destruct (NdisClassifyNblChainByValue_spec cb fuel h a l)
    as (h' & calls & -> & Hcalls); [done..|].
  eexists _, _, _. split; [done|]. split; [exact Hcalls|].
  split; [|split; [|split]].
  - rewrite runs_from_join. by rewrite Hl' at 2.
  - apply runs_from_homogeneous; [done | by constructor].
  - apply runs_from_adjacent.
  - intros A B n1 n2 n3 n4 n5 n6 HAB -> [= H1 H2 H3 H4 H5 H6].
    injection Hl' as ->. simpl.
    rewrite H1, H2, H3, H4, H5, H6.
    repeat (rewrite decide_True by congruence). done.
Qed.

(** ** The lookahead classifier on lists *)

(** ** The lookahead classifier in memory *)

Lemma array_write_Some {A} (a : list A) i x :
  i < length a → array_write a i x = Some (<[i := x]> a).
Proof. intros H. unfold array_write. by rewrite decide_True. Qed.

Lemma array_read_insert_eq {A} (a : list (option A)) i x :
  i < length a → array_read (<[i := Some x]> a) i = Some x.
Proof. intros H. unfold array_read. by rewrite list_lookup_insert_eq. Qed.

Lemma array_read_insert_ne {A} (a : list (option A)) i j x :
  i ≠ j → array_read (<[i := x]> a) j = array_read a j.
Proof. intros H. unfold array_read. by rewrite list_lookup_insert_ne. Qed.

Lemma array_read_lt {A} (a : list (option A)) i x :
  array_read a i = Some x → i < length a.
Proof.
  unfold array_read. destruct (a !! i) eqn:E; [|done]. intros _.
  by eapply lookup_lt_Some.
Qed.

Lemma slots_append_lookup_eq slots pi run k l :
  slots !! pi = Some (k, l) → slots_append slots pi run !! pi = Some (k, l ++ run).
Proof. intros H. unfold slots_append. by rewrite list_lookup_alter_eq, H. Qed.

Lemma slots_append_lookup_ne slots pi run i :
  pi ≠ i → slots_append slots pi run !! i = slots !! i.
Proof. intros H. unfold slots_append. by rewrite list_lookup_alter_ne. Qed.

Lemma slots_append_length slots pi run :
  length (slots_append slots pi run) = length slots.
Proof. apply length_alter. Qed.

Lemma slots_append_join slots pi run k l :
  slots !! pi = Some (k, l) →
  mjoin (slots_append slots pi run).*2 ≡ₚ mjoin slots.*2 ++ run.
Proof.
  unfold slots_append. revert pi.
  induction slots as [|[k0 l0] slots IH]; intros [|pi] H; simplify_eq/=.
  - solve_Permutation.
  - rewrite (IH pi) by done. solve_Permutation.
Qed.

Lemma slots_lookup_elem_of (slots : slot_list) i k l a :
  slots !! i = Some (k, l) → a ∈ l → a ∈ mjoin slots.*2.
Proof.
  intros H Ha. eapply (join_lookup_elem_of _ i); [|done].
  by rewrite list_lookup_fmap, H.
Qed.

(** ** Properties of the lookahead classifier on lists *)

Lemma slots_insert_join (slots : slot_list) e ke le k :
  slots !! e = Some (ke, le) →
  le ++ mjoin (<[e := (k, [])]> slots).*2 ≡ₚ mjoin slots.*2.
Proof.
  revert e. induction slots as [|[k0 l0] slots IH]; intros [|e] H; simplify_eq/=.
  - done.
  - rewrite <- (IH e) by done. solve_Permutation.
Qed.

(** A step keeps the current slot among the valid slots, at most [K] of them,
    and moves every NBL of the slots and of the run, and the new NBL, to the
    flushed batches, the slots, or the new run. *)
Lemma lookahead_step_wf K cb slots pi run n slots' pi' run' fl :
  pi < length slots → length slots ≤ K →
  lookahead_step K cb slots pi run n = (slots', pi', run', fl) →
  pi' < length slots' ∧ length slots' ≤ K ∧
  mjoin fl.*2 ++ mjoin slots'.*2 ++ run' ≡ₚ mjoin slots.*2 ++ run ++ [n].
Proof.
  intros Hpi HK. unfold lookahead_step.
  destruct (lookup_lt_is_Some_2 slots pi Hpi) as [[T l] HT]. rewrite HT.
  pose proof (slots_append_join slots pi run T l HT) as Hj.
  pose proof (slots_append_length slots pi run) as Hlen.
  case_decide as Hne.
  - destruct (list_find _ (slots_append slots pi run)) as [[i x]|] eqn:E.
    + intros [= <- <- <- <-]. apply list_find_Some in E as (Hi & _).
      apply lookup_lt_Some in Hi. split; [done|]. split; [lia|].
      simpl. rewrite Hj. solve_Permutation.
    + case_decide as HlK.
      * intros [= <- <- <- <-]. rewrite length_app. simpl.
        split; [lia|]. split; [lia|].
        rewrite fmap_app, join_app. simpl. rewrite Hj. solve_Permutation.
      * intros [= <- <- <- <-]. rewrite length_insert.
        assert (He : (pi + 1) mod K < length (slots_append slots pi run)).
        { rewrite Hlen. assert (length slots = K) as -> by lia.
          apply Nat.mod_upper_bound. lia. }
        split; [done|]. split; [lia|].
        destruct (lookup_lt_is_Some_2 _ _ He) as [[ke le] Hke]. rewrite Hke. simpl.
        rewrite app_nil_r, app_assoc, (slots_insert_join _ _ _ _ _ Hke), Hj.
        solve_Permutation.
  - intros [= <- <- <- <-]. split; [done|]. split; [done|]. simpl. solve_Permutation.
Qed.

(** All the NBLs end up in the flushed batches. *)
Lemma lookahead_batches_perm K cb rest :
  ∀ slots pi run,
  pi < length slots → length slots ≤ K →
  mjoin (lookahead_batches K cb slots pi run rest).*2 ≡ₚ mjoin slots.*2 ++ run ++ rest.
Proof.
  induction rest as [|n rest IH]; intros slots pi run Hpi HK; simpl.
  - destruct (lookup_lt_is_Some_2 slots pi Hpi) as [[T l] HT].
    rewrite (slots_append_join _ _ _ _ _ HT). by rewrite app_nil_r.
  - destruct (lookahead_step K cb slots pi run n) as [[[slots' pi'] run'] fl] eqn:E.
    destruct (lookahead_step_wf _ _ _ _ _ _ _ _ _ _ Hpi HK E) as (Hpi' & HK' & Hperm).
    rewrite fmap_app, join_app, IH by done.
    rewrite !app_assoc. rewrite <- (app_assoc (mjoin fl.*2)), Hperm.
    solve_Permutation.
Qed.

Lemma slots_append_stable cb pre slots pi run :
  slots_stable cb pre slots pi run →
  Forall (batch_stable cb pre) (slots_append slots pi run).
Proof.
  intros H. apply Forall_forall. intros [k l] Hkl.
  apply list_elem_of_lookup in Hkl as [i Hi].
  destruct (decide (pi = i)) as [<-|Hne].
  - unfold slots_append in Hi. rewrite list_lookup_alter_eq in Hi.
    destruct (slots !! pi) as [[k0 l0]|] eqn:E; simplify_eq/=.
    destruct (H pi k l0 E) as [H1 H2]. rewrite decide_True in H2 by done.
    split; simpl; [tauto|]. apply Forall_app. tauto.
  - rewrite slots_append_lookup_ne in Hi by done.
    destruct (H i k l Hi) as [H1 H2]. rewrite decide_False in H2 by done. done.
Qed.

Lemma lookahead_step_stable K cb pre slots pi run n slots' pi' run' fl :
  pi < length slots → length slots ≤ K →
  slots_stable cb pre slots pi run →
  lookahead_step K cb slots pi run n = (slots', pi', run', fl) →
  slots_stable cb (pre ++ [n]) slots' pi' run' ∧
  Forall (batch_stable cb pre) fl.
Proof.
  intros Hpi HK Hst. unfold lookahead_step.
  destruct (lookup_lt_is_Some_2 slots pi Hpi) as [[T l] HT]. rewrite HT.
  pose proof (slots_append_stable _ _ _ _ _ Hst) as Hst1.
  rewrite Forall_forall in Hst1.
  assert (Hst1' : ∀ i k l, slots_append slots pi run !! i = Some (k, l) →
            Forall (λ n, cb n = k) l ∧ l `sublist_of` pre).
  { intros i k0 l0 Hi. destruct (Hst1 (k0, l0)) as [H1 H2]; [|done].
    by eapply list_elem_of_lookup_2. }
  case_decide as Hne.
  - destruct (list_find _ (slots_append slots pi run)) as [[j x]|] eqn:E.
    + intros [= <- <- <- <-]. split; [|constructor].
      apply list_find_Some in E as (Hj & Hx & _).
      intros i k0 l0 Hi. destruct (Hst1' i k0 l0 Hi) as [H1 H2]. split; [done|].
      case_decide as Hij.
      * subst i. rewrite Hj in Hi. injection Hi as ->. simpl in Hx. subst k0.
        split; [by apply sublist_app | by constructor].
      * by apply sublist_inserts_r.
    + case_decide as HlK.
      * intros [= <- <- <- <-]. split; [|constructor].
        intros i k0 l0 Hi.
        destruct (decide (i = length (slots_append slots pi run))) as [->|Hil].
        -- rewrite lookup_app_r, Nat.sub_diag in Hi by lia. injection Hi as <- <-.
           split; [constructor|]. rewrite ?decide_True by done. simpl.
           split; [by apply sublist_inserts_l | by constructor].
        -- assert (i < length (slots_append slots pi run)).
           { apply lookup_lt_Some in Hi. rewrite length_app in Hi. simpl in Hi. lia. }
           rewrite lookup_app_l in Hi by done.
           destruct (Hst1' i k0 l0 Hi) as [H1 H2]. split; [done|].
           by apply sublist_inserts_r.
      * intros [= <- <- <- <-]. split.
        -- intros i k0 l0 Hi.
           destruct (decide (i = (pi + 1) mod K)) as [->|Hie].
           ++ assert (He : (pi + 1) mod K < length (slots_append slots pi run)).
              { by eapply lookup_lt_Some, (lookup_lt_Some _ _ _ Hi) ||
                   (apply lookup_lt_Some in Hi; by rewrite length_insert in Hi). }
              rewrite list_lookup_insert_eq in Hi by done. injection Hi as <- <-.
              split; [constructor|]. simpl.
              split; [by apply sublist_inserts_l | by constructor].
           ++ rewrite list_lookup_insert_ne in Hi by done.
              destruct (Hst1' i k0 l0 Hi) as [H1 H2]. split; [done|].
              by apply sublist_inserts_r.
        -- destruct (slots_append slots pi run !! ((pi + 1) mod K)) as [[ke le]|] eqn:E';
             simpl; [|constructor].
           constructor; [|constructor]. destruct (Hst1' _ ke le E'). by split.
  - intros [= <- <- <- <-]. split; [|constructor].
    assert (cb n = T) by done.
    intros i k0 l0 Hi. destruct (Hst i k0 l0 Hi) as [H1 H2]. split; [done|].
    case_decide as Hip.
    + subst i. rewrite HT in Hi. injection Hi as <- <-. destruct H2 as [H2 H3].
      split.
      * rewrite app_assoc. by apply sublist_app.
      * apply Forall_app. split; [done|]. by constructor.
    + by apply sublist_inserts_r.
Qed.

(** Every flushed batch is a subsequence of the chain and is classified as
    its slot. *)
Lemma lookahead_batches_stable K cb rest :
  ∀ pre slots pi run,
  pi < length slots → length slots ≤ K →
  slots_stable cb pre slots pi run →
  Forall (batch_stable cb (pre ++ rest)) (lookahead_batches K cb slots pi run rest).
Proof.
  induction rest as [|n rest IH]; intros pre slots pi run Hpi HK Hst; simpl.
  - rewrite app_nil_r. by apply slots_append_stable.
  - destruct (lookahead_step K cb slots pi run n) as [[[slots' pi'] run'] fl] eqn:E.
    destruct (lookahead_step_wf _ _ _ _ _ _ _ _ _ _ Hpi HK E) as (Hpi' & HK' & _).
    destruct (lookahead_step_stable _ _ _ _ _ _ _ _ _ _ _ Hpi HK Hst E) as [Hst' Hfl].
    apply Forall_app. split.
    + eapply Forall_impl; [exact Hfl|]. intros [k l] [H1 H2]. split; [|done].
      by apply sublist_inserts_r.
    + rewrite (cons_middle n pre rest), app_assoc. by apply IH.
Qed.

Section Lookahead_correct.

Variable K : nat.
Variable cb : NET_BUFFER_LIST → ULONG_PTR.

Lemma Lookahead_append_spec h s slots k l run q :
  slots_rep K h s slots → slots !! Lookahead.PreviousIndex s = Some (k, l) →
  lseg h (Some (Lookahead.FirstNbl s)) run q →
  last run = Some (Lookahead.PreviousNbl s) →
  NoDup (mjoin slots.*2 ++ run) →
  ∃ h' Q',
    Lookahead.append h s =
      Some (h', Lookahead.Locals
                  (<[Lookahead.PreviousIndex s := Some Q']> (Lookahead.Queue s))
                  (Lookahead.TargetClassification s) (Lookahead.Valid s)
                  (Lookahead.FirstNbl s) (Lookahead.PreviousNbl s)
                  (Lookahead.PreviousIndex s)) ∧
    slots_rep K h'
      (Lookahead.Locals
         (<[Lookahead.PreviousIndex s := Some Q']> (Lookahead.Queue s))
         (Lookahead.TargetClassification s) (Lookahead.Valid s)
         (Lookahead.FirstNbl s) (Lookahead.PreviousNbl s)
         (Lookahead.PreviousIndex s))
      (slots_append slots (Lookahead.PreviousIndex s) run) ∧
    (∀ a, a ∉ mjoin slots.*2 → a ∉ run → h' !! a = h !! a).
Proof.
  intros (HlQ & HlT & HlV & HlS & HVt & HVf & Hslots) Hpi Hrun Hlast Hnd.
  destruct s as [Qa Ta Va F P pi]. simpl in *.
  destruct (Hslots pi k l Hpi) as (HT & Q & HQ & HQl).
  apply NoDup_app in Hnd as (HndL & Hdisj & Hndr).
  unfold Lookahead.append. simpl. rewrite HQ. simpl.
  destruct (NdisAppendNblChainToNblQueueFast_spec h Q l F P run q)
    as (h' & Q' & -> & HQ' & Hfr & _); [done..| |].
  { apply NoDup_app. split; [|split; [|done]].
    - eapply is_chain_NoDup, HQl.
    - intros a Ha. apply Hdisj. by eapply slots_lookup_elem_of. }
  simpl. rewrite array_write_Some by (by eapply array_read_lt). simpl.
  exists h', Q'. split; [done|]. split.
  - unfold slots_rep. simpl. rewrite length_insert, slots_append_length.
    repeat (split; [done|]).
    intros i k' l' Hi.
    destruct (decide (pi = i)) as [<-|Hne].
    + rewrite (slots_append_lookup_eq _ _ _ _ _ Hpi) in Hi. injection Hi as <- <-.
      split; [done|]. exists Q'. split; [|done].
      apply array_read_insert_eq. by eapply array_read_lt.
    + rewrite slots_append_lookup_ne in Hi by done.
      destruct (Hslots i k' l' Hi) as (HT' & Qi & HQi & HQil).
      split; [done|]. exists Qi. split; [by rewrite array_read_insert_ne|].
      eapply is_queue_agree; [|exact HQil]. intros a Ha. apply Hfr.
      * eapply (join_lookup_disjoint slots.*2 i pi); [done | done | | | done].
        -- by rewrite list_lookup_fmap, Hi.
        -- by rewrite list_lookup_fmap, Hpi.
      * apply Hdisj. by eapply slots_lookup_elem_of.
  - intros a Ha Har. apply Hfr; [|done]. intros Hal. apply Ha.
    by eapply slots_lookup_elem_of.
Qed.

(** The final loop flushes the valid slots in index order. *)
Lemma Lookahead_flush_all_spec h s slots :
  slots_rep K h s slots →
  ∀ n i, n + i = K → i ≤ length slots →
  ∃ calls, Lookahead.flush_all n i h s = Some calls ∧
    Forall2 delivers calls (drop i slots).
Proof.
  intros (HlQ & HlT & HlV & HlS & HVt & HVf & Hslots).
  induction n as [|n IH]; intros i Hni Hi.
  - exists []. split; [done|]. rewrite drop_ge by lia. constructor.
  - simpl. destruct (decide (i < length slots)) as [Hlt|Hge].
    + rewrite HVt by done. simpl.
      destruct (lookup_lt_is_Some_2 slots i Hlt) as [[k l] Hkl].
      destruct (Hslots i k l Hkl) as (-> & Q & -> & HQl). simpl.
      destruct (IH (S i)) as (calls & -> & Hcalls); [lia | lia |].
      simpl. eexists. split; [done|].
      rewrite (drop_S _ _ _ Hkl). constructor; [done | done].
    + rewrite HVf by lia. simpl. exists []. split; [done|].
      rewrite drop_ge by lia. constructor.
Qed.

(** The scan of the slots in index order: it stops at the first valid slot
    holding the classification, else takes the first slot that is not valid,
    else runs to its end. *)
Lemma Lookahead_scan_spec h s slots n key :
  slots_rep K h s slots →
  ∀ m i, m + i = K → i ≤ length slots →
  (∀ j x, j < i → slots !! j = Some x → x.1 ≠ key) →
  match list_find (λ x, x.1 = key) slots with
  | Some (j, _) =>
    Lookahead.scan m i s n key =
      Some (Some (Lookahead.Locals (Lookahead.Queue s) (Lookahead.TargetClassification s)
                    (Lookahead.Valid s) n (Lookahead.PreviousNbl s) j))
  | None =>
    if decide (length slots < K) then
      ∃ s', Lookahead.scan m i s n key = Some (Some s') ∧
        slots_rep K h s' (slots ++ [(key, [])]) ∧
        Lookahead.FirstNbl s' = n ∧
        Lookahead.PreviousNbl s' = Lookahead.PreviousNbl s ∧
        Lookahead.PreviousIndex s' = length slots
    else Lookahead.scan m i s n key = Some None
  end.
Proof.
  intros (HlQ & HlT & HlV & HlS & HVt & HVf & Hslots).
  induction m as [|m IH]; intros i Hmi Hi Hprev.
  - destruct (list_find _ slots) as [[j x]|] eqn:E.
    + apply list_find_Some in E as (Hj & Hx & _).
      exfalso. eapply (Hprev j x); [|done..].
      apply lookup_lt_Some in Hj. lia.
    + rewrite decide_False by lia. done.
  - simpl. destruct (decide (i < length slots)) as [Hlt|Hge].
    + rewrite HVt by done. simpl.
      destruct (lookup_lt_is_Some_2 slots i Hlt) as [[k l] Hkl].
      destruct (Hslots i k l Hkl) as (-> & _). simpl.
      destruct (decide (k = key)) as [Hk|Hk].
      * assert (E : list_find (λ x, x.1 = key) slots = Some (i, (k, l))).
        { apply list_find_Some. split; [done|]. split; [done|].
          intros j y Hj Hji. by eapply Hprev. }
        rewrite E. done.
      * apply IH; [lia | lia |].
        intros j x Hj Hx. destruct (decide (j = i)) as [->|Hne].
        -- rewrite Hkl in Hx. by injection Hx as <-.
        -- eapply Hprev; [|done]. lia.
    + assert (i = length slots) as -> by lia.
      rewrite HVf by lia. simpl.
      assert (E : list_find (λ x, x.1 = key) slots = None).
      { apply list_find_None. apply Forall_forall. intros x Hx.
        apply list_elem_of_lookup in Hx as [j Hj].
        eapply Hprev; [|done]. by eapply lookup_lt_Some. }
      rewrite E. rewrite decide_True by lia.
      rewrite !array_write_Some by lia. simpl.
      eexists. split; [done|]. split; [|done].
      unfold slots_rep. simpl. rewrite !length_insert, length_app. simpl.
      split; [done|]. split; [done|]. split; [done|]. split; [lia|].
      split; [|split].
      * intros j Hj. destruct (decide (j = length slots)) as [->|Hne].
        -- apply list_lookup_insert_eq. lia.
        -- rewrite list_lookup_insert_ne by done. apply HVt. lia.
      * intros j Hj1 Hj2. rewrite list_lookup_insert_ne by lia. apply HVf; lia.
      * intros j k l Hj. destruct (decide (j = length slots)) as [->|Hne].
        -- rewrite lookup_app_r, Nat.sub_diag in Hj by lia. injection Hj as <- <-.
           rewrite !array_read_insert_eq by lia. split; [done|].
           eexists. split; [done|]. apply is_queue_init.
        -- assert (j < length slots).
           { apply lookup_lt_Some in Hj. rewrite length_app in Hj. simpl in Hj. lia. }
           rewrite lookup_app_l in Hj by done.
           rewrite !array_read_insert_ne by done. by apply Hslots.
Qed.

Lemma Lookahead_append_after_cut h h1 s :
  store h (Lookahead.PreviousNbl s) NULL = Some h1 →
  Lookahead.append h1 s = Lookahead.append h s.
Proof.
  intros H. unfold Lookahead.append.
  destruct (array_read (Lookahead.Queue s) (Lookahead.PreviousIndex s)); simpl; [|done].
  by rewrite (NdisAppendNblChainToNblQueueFast_after_cut h h1).
Qed.

(** One iteration on a next NBL [n] does what [lookahead_step] does. *)
Lemma Lookahead_body_spec h s slots run n nx :
  slots_rep K h s slots → Lookahead.PreviousIndex s < length slots →
  lseg h (Some (Lookahead.FirstNbl s)) run (Some n) →
  last run = Some (Lookahead.PreviousNbl s) →
  h !! n = Some nx →
  NoDup (mjoin slots.*2 ++ run ++ [n]) →
  ∃ h' s' calls slots' run' fl,
    lookahead_step K cb slots (Lookahead.PreviousIndex s) run n
      = (slots', Lookahead.PreviousIndex s', run', fl) ∧
    Lookahead.body K cb h s (Lookahead.PreviousNbl s)
      = Some (Lookahead.Continue h' s' n calls) ∧
    slots_rep K h' s' slots' ∧
    lseg h' (Some (Lookahead.FirstNbl s')) run' nx ∧
    last run' = Some n ∧
    Lookahead.PreviousNbl s' = n ∧
    Forall2 delivers calls fl ∧
    (∀ a, a ∉ mjoin slots.*2 → a ∉ run → a ≠ n → h' !! a = h !! a).
Proof.
  intros Hrep Hpi Hrun Hlast Hn Hnd.
  pose proof Hrep as (HlQ & HlT & HlV & HlS & HVt & HVf & Hslots).
  destruct (lookup_lt_is_Some_2 slots _ Hpi) as [[T l] HT].
  destruct (Hslots _ T l HT) as (HTr & Q & HQ & HQl).
  pose proof (lseg_last _ _ _ _ _ Hrun Hlast) as HPn.
  assert (HP : Lookahead.PreviousNbl s ∈ run) by by apply last_elem_of.
  unfold Lookahead.body, load, lookahead_step. rewrite HPn, HT. simpl.
  rewrite HTr. simpl.
  destruct (decide (T ≠ cb n)) as [Hne|Heq].
  - rewrite store_Some by eauto. simpl.
    rewrite (Lookahead_append_after_cut h) by (apply store_Some; eauto).
    destruct (Lookahead_append_spec h s slots T l run (Some n))
      as (h' & Q' & -> & Hrep1 & Hfr); [done..| nodup_solver |].
    simpl.
    set (s1 := Lookahead.Locals _ _ _ _ _ _) in *.
    assert (Hn' : h' !! n = Some nx).
    { rewrite Hfr; [done|..]; nodup_solver. }
    assert (Hseg : lseg h' (Some n) [n] nx).
    { apply lseg_cons. split; [done|]. by exists nx. }
    pose proof (Lookahead_scan_spec h' s1 _ n (cb n) Hrep1 K 0) as Hscan.
    ospecialize (Hscan _ _ _); [lia | lia | intros; lia |].
    pose proof Hrep1 as (HlQ1 & HlT1 & HlV1 & HlS1 & HVt1 & HVf1 & Hslots1).
    destruct (list_find _ (slots_append _ _ run)) as [[j x]|] eqn:E.
    + rewrite Hscan. simpl.
      eexists h', (Lookahead.Locals _ _ _ _ _ _), [], _, _, _.
      split; [simpl; reflexivity|]. split; [done|]. split; [exact Hrep1|].
      split; [exact Hseg|]. split; [done|]. split; [done|]. split; [constructor|].
      intros a Ha1 Ha2 _. by apply Hfr.
    + destruct (decide (length (slots_append slots (Lookahead.PreviousIndex s) run) < K))
        as [HlK|HlK].
      * destruct Hscan as (s2 & -> & Hrep2 & HF2 & HP2 & HI2). simpl.
        eexists h', (Lookahead.Locals _ _ _ _ _ _), [], _, _, _. simpl.
        split; [reflexivity|]. split; [by rewrite HI2|]. split; [exact Hrep2|].
        rewrite HF2. split; [exact Hseg|]. split; [done|]. split; [done|].
        split; [constructor|]. intros a Ha1 Ha2 _. by apply Hfr.
      * rewrite Hscan. simpl.
        rewrite slots_append_length in HlK, HlS1.
        assert (He : (Lookahead.PreviousIndex s + 1) mod K
                     < length (slots_append slots (Lookahead.PreviousIndex s) run)).
        { rewrite slots_append_length. assert (length slots = K) as -> by lia.
          apply Nat.mod_upper_bound. lia. }
        destruct (lookup_lt_is_Some_2 _ _ He) as [[ke le] Hke].
        destruct (Hslots1 _ ke le Hke) as (HTe & Qe & HQe & HQel).
        simpl in HTe, HQe. rewrite HTe, HQe. simpl.
        rewrite slots_append_length in He.
        rewrite !array_write_Some by (simpl in *; lia). simpl.
        eexists h', (Lookahead.Locals _ _ _ _ _ _), [_], _, _, _. simpl.
        split; [reflexivity|]. split; [done|]. rewrite Hke. simpl.
        split; [|split; [exact Hseg|]; split; [done|]; split; [done|]; split].
        -- unfold slots_rep. simpl. rewrite !length_insert, slots_append_length.
           repeat (split; [done|]).
           intros i k' l' Hi.
           destruct (decide (i = (Lookahead.PreviousIndex s + 1) mod K)) as [->|Hie].
           ++ rewrite list_lookup_insert_eq in Hi by (rewrite slots_append_length; lia).
              injection Hi as <- <-.
              rewrite !array_read_insert_eq by (simpl in *; rewrite ?length_insert; lia).
              split; [done|]. eexists. split; [done|]. apply is_queue_init.
           ++ rewrite list_lookup_insert_ne in Hi by done.
              rewrite !array_read_insert_ne by done. by apply Hslots1.
        -- constructor; [|constructor]. split; [done|]. done.
        -- intros a Ha1 Ha2 _. by apply Hfr.
  - apply dec_stable in Heq.
    eexists h, (Lookahead.Locals _ _ _ _ _ _), [], _, _, _. simpl.
    split; [reflexivity|]. split; [done|]. split; [exact Hrep|].
    split; [by apply lseg_snoc|]. split; [apply last_snoc|]. split; [done|].
    split; [constructor|]. done.
Qed.

(** The last iteration: the run in progress joins its slot. *)
Lemma Lookahead_body_break_spec h s slots run :
  slots_rep K h s slots → Lookahead.PreviousIndex s < length slots →
  lseg h (Some (Lookahead.FirstNbl s)) run NULL →
  last run = Some (Lookahead.PreviousNbl s) →
  NoDup (mjoin slots.*2 ++ run) →
  ∃ h' s',
    Lookahead.body K cb h s (Lookahead.PreviousNbl s) = Some (Lookahead.Break h' s') ∧
    slots_rep K h' s' (slots_append slots (Lookahead.PreviousIndex s) run).
Proof.
  intros Hrep Hpi Hrun Hlast Hnd.
  destruct (lookup_lt_is_Some_2 slots _ Hpi) as [[T l] HT].
  pose proof (lseg_last _ _ _ _ _ Hrun Hlast) as HPn.
  unfold Lookahead.body, load. rewrite HPn. simpl.
  destruct (Lookahead_append_spec h s slots T l run NULL)
    as (h' & Q' & -> & Hrep1 & Hfr); [done..|].
  simpl. eauto.
Qed.

Lemma Lookahead_loop_spec rest :
  ∀ fuel h s slots run nx,
  length rest < fuel →
  slots_rep K h s slots → Lookahead.PreviousIndex s < length slots →
  lseg h (Some (Lookahead.FirstNbl s)) run nx →
  last run = Some (Lookahead.PreviousNbl s) →
  is_chain h nx rest →
  NoDup (mjoin slots.*2 ++ run ++ rest) →
  ∃ h' s' calls calls',
    Lookahead.loop K cb fuel h s (Lookahead.PreviousNbl s) = Some (h', s', calls) ∧
    Lookahead.flush_all K 0 h' s' = Some calls' ∧
    Forall2 delivers (calls ++ calls')
      (lookahead_batches K cb slots (Lookahead.PreviousIndex s) run rest).
Proof.
  induction rest as [|n rest IH]; intros fuel h s slots run nx
    Hfuel Hrep Hpi Hrun Hlast Hrest Hnd.
  all: destruct fuel as [|fuel]; [simpl in Hfuel; lia|].
  all: cbn [Lookahead.loop lookahead_batches].
  - unfold is_chain in Hrest. simpl in Hrest. subst nx. rewrite app_nil_r in Hnd.
    destruct (Lookahead_body_break_spec h s slots run) as (h' & s' & -> & Hrep');
      [done..|].
    simpl.
    destruct (Lookahead_flush_all_spec h' s' _ Hrep' K 0) as (calls' & Hfl & Hcalls);
      [lia | lia |].
    exists h', s', [], calls'. split; [done|]. split; [done|]. done.
  - simpl in Hfuel.
    apply lseg_cons in Hrest as [-> (nx' & Hnx & Hrest)].
    destruct (Lookahead_body_spec h s slots run n nx')
      as (h1 & s1 & calls1 & slots' & run' & fl & Hstep & -> & Hrep1 & Hrun1 & Hlast1
          & HP1 & Hfl & Hfr); [done..| nodup_solver |].
    rewrite Hstep.
    pose proof Hrep as (_ & _ & _ & HlS & _).
    destruct (lookahead_step_wf _ _ _ _ _ _ _ _ _ _ Hpi HlS Hstep) as (Hpi1 & _ & Hperm).
    simpl. rewrite <- HP1.
    odestruct (IH fuel h1 s1 slots' run' nx') as (h2 & s2 & calls2 & calls' & -> & Hfl2 & Hd);
      [lia | done | done | done | by rewrite HP1 | | | ].
    + eapply lseg_agree; [|exact Hrest]. intros a Ha. apply Hfr; nodup_solver.
    + assert (Hnd' : NoDup (mjoin fl.*2 ++ (mjoin slots'.*2 ++ run') ++ rest)).
      { eapply NoDup_Permutation_proper; [|exact Hnd].
        rewrite !app_assoc. rewrite <- (app_assoc (mjoin fl.*2)), Hperm.
        solve_Permutation. }
      apply NoDup_app in Hnd' as (_ & _ & Hnd'). by rewrite <- app_assoc in Hnd'.
    + simpl. eexists _, _, _, _. split; [done|]. split; [done|].
      rewrite <- app_assoc. by apply Forall2_app.
Qed.

(** [NdisClassifyNblChainByValueLookahead] flushes the batches of
    [lookahead_batches] started with the first NBL alone in slot 0. *)
Lemma NdisClassifyNblChainByValueLookahead_spec fuel h NblChain l :
  0 < K → is_chain h (Some NblChain) l → length l ≤ fuel →
  ∃ h' calls,
    NdisClassifyNblChainByValueLookahead K cb fuel h NblChain = Some (h', calls) ∧
    Forall2 delivers calls
      (lookahead_batches K cb [(cb NblChain, [])] 0 [NblChain] (tail l)).
Proof.
  intros HK Hl Hfuel. pose proof (is_chain_NoDup _ _ _ Hl) as Hnd.
  destruct l as [|a rest]; [done|].
  apply lseg_cons in Hl as [[= <-] (nx & Hnx & Hrest)]. simpl in Hfuel.
  unfold NdisClassifyNblChainByValueLookahead, Lookahead.init.
  rewrite !array_write_Some by (rewrite length_replicate; lia). simpl.
  set (s := Lookahead.Locals _ _ _ _ _ _).
  destruct (Lookahead_loop_spec rest fuel h s [(cb NblChain, [])] [NblChain] nx)
    as (h' & s' & calls & calls' & Hloop & Hfl & Hd); try done.
  - unfold slots_rep, s. simpl. rewrite !length_insert, !length_replicate.
    repeat (split; [done || lia|]). split; [|split].
    + intros i Hi. assert (i = 0) as -> by lia.
      apply list_lookup_insert_eq. rewrite length_replicate. lia.
    + intros i Hi1 Hi2. rewrite list_lookup_insert_ne by lia.
      by apply lookup_replicate_2.
    + intros [|i] k l' Hi; [|done]. injection Hi as <- <-.
      rewrite !array_read_insert_eq by (rewrite length_replicate; lia).
      split; [done|]. eexists. split; [done|]. apply is_queue_init.
  - simpl. lia.
  - apply lseg_cons. split; [done|]. by exists nx.
  - simpl in Hloop. rewrite Hloop. simpl. rewrite Hfl. simpl. eauto.
Qed.

End Lookahead_correct.

Lemma chain_cons_tail h a l : is_chain h (Some a) l → l = a :: tail l.
Proof. destruct l; [done|]. by intros [[= <-] _]%lseg_cons. Qed.

(** C2: on a non-empty chain every classifier routine delivers each NBL of
    the chain exactly once.  Two-way and by index: the queues afterwards hold a
    rearrangement of what they held before together with the chain.  By
    value, eager and lookahead, and the caller's loop around the partial
    routine: the batches flushed are together a rearrangement of the chain.
    One call of the partial routine: the batch and the remainder are the
    chain. *)
Theorem C2_no_nbl_duplicated_or_dropped (K : nat) (cb : NET_BUFFER_LIST → N) fuel h a l :
  is_chain h (Some a) l → length l < fuel → 0 < K →
  (∀ Q0 Q1 l0 l1,
     is_queue h Q0 l0 → is_queue h Q1 l1 → NoDup (l0 ++ l1 ++ l) →
     ∃ h' Q0' Q1' l0' l1',
       NdisClassifyNblChain2 cb fuel h a Q0 Q1 = Some (h', Q0', Q1') ∧
       is_queue h' Q0' l0' ∧ is_queue h' Q1' l1' ∧
       l0' ++ l1' ≡ₚ (l0 ++ l1) ++ l) ∧
  (∀ Qs Ls,
     Forall2 (is_queue h) Qs Ls → NoDup (mjoin Ls ++ l) →
     Forall (λ n, N.to_nat (cb n) < length Qs) l →
     ∃ h' Qs' Ls',
       NdisClassifyNblChainByIndex cb fuel h a Qs = Some (h', Qs') ∧
       Forall2 (is_queue h') Qs' Ls' ∧
       mjoin Ls' ≡ₚ mjoin Ls ++ l) ∧
  (∃ h' calls batches,
     NdisClassifyNblChainByValue cb fuel h a = Some (h', calls) ∧
     Forall2 delivers calls batches ∧ mjoin batches.*2 ≡ₚ l) ∧
  (∃ h' calls batches,
     NdisClassifyNblChainByValueLookahead K cb fuel h a = Some (h', calls) ∧
     Forall2 delivers calls batches ∧ mjoin batches.*2 ≡ₚ l) ∧
  (∃ h' rem Q key batch rest,
     NdisPartialClassifyNblChainByValue cb fuel h (Some a) = Some (h', rem, Q, key) ∧
     is_queue h' Q batch ∧ is_chain h' rem rest ∧ batch ++ rest ≡ₚ l) ∧
  (∃ h' calls batches,
     ReceivePackets_loop cb fuel h (Some a) = Some (h', calls) ∧
     Forall2 delivers calls batches ∧ mjoin batches.*2 ≡ₚ l).
Proof.
  intros Hl Hfuel HK. pose proof (chain_cons_tail _ _ _ Hl) as Hl'.
  split; [|split; [|split; [|split; [|split]]]].
  - intros Q0 Q1 l0 l1 HQ0 HQ1 Hnd.
    destruct (NdisClassifyNblChain2_spec cb fuel h a l Q0 Q1 l0 l1)
      as (h' & Q0' & Q1' & -> & H0 & H1); [done | lia | done..|].
    eexists _, _, _, _, _. split; [done|]. split; [exact H0|]. split; [exact H1|].
    rewrite <- (filter_app_complement (λ n, cb n = 0%N) l) at 3. solve_Permutation.
  - intros Qs Ls HQs Hnd Hr.
    destruct (NdisClassifyNblChainByIndex_spec cb fuel h a l Qs Ls)
      as (h' & Qs' & -> & HQs'); [done | lia | done..|].
    eexists _, _, _. split; [done|]. split; [exact HQs'|].
    apply (join_imap_filter_index (λ n, N.to_nat (cb n))).
    by rewrite <- (Forall2_length _ _ _ HQs).
  - destruct (NdisClassifyNblChainByValue_spec cb fuel h a l)
      as (h' & calls & -> & Hc); [done | lia |].
    eexists _, _, _. split; [done|]. split; [exact Hc|].
    rewrite runs_from_join. by rewrite Hl' at 2.
  - destruct (NdisClassifyNblChainByValueLookahead_spec K cb fuel h a l)
      as (h' & calls & -> & Hc); [done | done | lia |].
    eexists _, _, _. split; [done|]. split; [exact Hc|].
    rewrite lookahead_batches_perm by (simpl; lia). simpl. by rewrite Hl' at 2.
  - destruct (NdisPartialClassifyNblChainByValue_spec cb fuel h a l)
      as (h' & rem & Q & -> & HQ & Hrem); [done | lia |].
    eexists _, _, _, _, _, _. split; [done|]. split; [exact HQ|]. split; [exact Hrem|].
    rewrite first_run_app. by rewrite Hl' at 2.
  - destruct (ReceivePackets_loop_spec cb fuel h a l)
      as (h' & calls & -> & Hc); [done | lia |].
    eexists _, _, _. split; [done|]. split; [exact Hc|].
    rewrite runs_from_join. by rewrite Hl' at 2.
Qed.

Lemma runs_from_sublist cb T run rest :
  Forall (λ kb, kb.2 `sublist_of` run ++ rest) (runs_from cb T run rest).
Proof.
  revert T run. induction rest as [|n rest IH]; intros T run; simpl.
  - constructor; [|constructor]. simpl. by rewrite app_nil_r.
  - case_decide.
    + constructor; [simpl; by apply sublist_inserts_r|].
      rewrite (cons_middle n run rest).
      eapply Forall_impl; [apply IH|]. intros kb Hkb. simpl in Hkb.
      by apply sublist_inserts_l.
    + rewrite (cons_middle n run rest), app_assoc. apply IH.
Qed.

(** C8: every classifier routine is a stable partition of the chain: in each
    queue the appended NBLs, and in each flushed batch all the NBLs, are a
    subsequence of the chain (they keep the relative order they have in the
    chain, whatever the number of changes of classification). *)
Theorem C8_stable_partition (K : nat) (cb : NET_BUFFER_LIST → N) fuel h a l :
  is_chain h (Some a) l → length l < fuel → 0 < K →
  (∀ Q0 Q1 l0 l1,
     is_queue h Q0 l0 → is_queue h Q1 l1 → NoDup (l0 ++ l1 ++ l) →
     ∃ h' Q0' Q1' b0 b1,
       NdisClassifyNblChain2 cb fuel h a Q0 Q1 = Some (h', Q0', Q1') ∧
       is_queue h' Q0' (l0 ++ b0) ∧ is_queue h' Q1' (l1 ++ b1) ∧
       b0 `sublist_of` l ∧ b1 `sublist_of` l) ∧
  (∀ Qs Ls,
     Forall2 (is_queue h) Qs Ls → NoDup (mjoin Ls ++ l) →
     Forall (λ n, N.to_nat (cb n) < length Qs) l →
     ∃ h' Qs' Ls',
       NdisClassifyNblChainByIndex cb fuel h a Qs = Some (h', Qs') ∧
       Forall2 (is_queue h') Qs' Ls' ∧
       Forall2 (λ l0' l0, ∃ b, l0' = l0 ++ b ∧ b `sublist_of` l) Ls' Ls) ∧
  (∃ h' calls batches,
     NdisClassifyNblChainByValue cb fuel h a = Some (h', calls) ∧
     Forall2 delivers calls batches ∧
     Forall (λ kb, kb.2 `sublist_of` l) batches) ∧
  (∃ h' calls batches,
     NdisClassifyNblChainByValueLookahead K cb fuel h a = Some (h', calls) ∧
     Forall2 delivers calls batches ∧
     Forall (λ kb, kb.2 `sublist_of` l) batches) ∧
  (∃ h' rem Q key batch,
     NdisPartialClassifyNblChainByValue cb fuel h (Some a) = Some (h', rem, Q, key) ∧
     is_queue h' Q batch ∧ batch `sublist_of` l) ∧
  (∃ h' calls batches,
     ReceivePackets_loop cb fuel h (Some a) = Some (h', calls) ∧
     Forall2 delivers calls batches ∧
     Forall (λ kb, kb.2 `sublist_of` l) batches).
Proof.
  intros Hl Hfuel HK. pose proof (chain_cons_tail _ _ _ Hl) as Hl'.
  assert (Hruns : Forall (λ kb : ULONG_PTR * list NET_BUFFER_LIST, kb.2 `sublist_of` l)
                    (runs_from cb (cb a) [a] (tail l))).
  { eapply Forall_impl; [apply runs_from_sublist|].
    intros kb Hkb. simpl in Hkb. by rewrite <- Hl' in Hkb. }
  split; [|split; [|split; [|split; [|split]]]].
  - intros Q0 Q1 l0 l1 HQ0 HQ1 Hnd.
    destruct (NdisClassifyNblChain2_spec cb fuel h a l Q0 Q1 l0 l1)
      as (h' & Q0' & Q1' & -> & H0 & H1); [done | lia | done..|].
    eexists _, _, _, _, _. split; [done|]. split; [exact H0|]. split; [exact H1|].
    split; apply sublist_filter.
  - intros Qs Ls HQs Hnd Hr.
    destruct (NdisClassifyNblChainByIndex_spec cb fuel h a l Qs Ls)
      as (h' & Qs' & -> & HQs'); [done | lia | done..|].
    eexists _, _, _. split; [done|]. split; [exact HQs'|].
    apply Forall2_lookup. intros i. rewrite list_lookup_imap.
    destruct (Ls !! i) as [l0|]; simpl; constructor.
    eexists. split; [done|]. apply sublist_filter.
  - destruct (NdisClassifyNblChainByValue_spec cb fuel h a l)
      as (h' & calls & -> & Hc); [done | lia |].
    eexists _, _, _. split; [done|]. split; [exact Hc|]. exact Hruns.
  - destruct (NdisClassifyNblChainByValueLookahead_spec K cb fuel h a l)
      as (h' & calls & -> & Hc); [done | done | lia |].
    eexists _, _, _. split; [done|]. split; [exact Hc|].
    eapply Forall_impl.
    + apply (lookahead_batches_stable K cb (tail l) [a] [(cb a, [])] 0 [a]);
        [simpl; lia | simpl; lia |].
      intros [|i] k l0 Hi; [|done]. injection Hi as <- <-.
      split; [constructor|]. simpl. split; [done | by constructor].
    + intros kb [Hkb _]. simpl in Hkb. by rewrite <- Hl' in Hkb.
  - destruct (NdisPartialClassifyNblChainByValue_spec cb fuel h a l)
      as (h' & rem & Q & -> & HQ & Hrem); [done | lia |].
    eexists _, _, _, _, _. split; [done|]. split; [exact HQ|].
    rewrite Hl' at 2. change (a :: tail l) with ([a] ++ tail l).
    rewrite <- (first_run_app cb (cb a) [a] (tail l)). by apply sublist_inserts_r.
  - destruct (ReceivePackets_loop_spec cb fuel h a l)
      as (h' & calls & -> & Hc); [done | lia |].
    eexists _, _, _. split; [done|]. split; [exact Hc|]. exact Hruns.
Qed.

(** Evaluation of [lookahead_step] on slots given explicitly. *)
Ltac lookahead_eval :=
  repeat first
    [ progress cbn [lookahead_batches lookahead_step slots_append lookup list_lookup
                    alter list_alter list_find fst snd fmap option_fmap option_map
                    prod_map app length option_list insert list_insert
                    Nat.modulo Nat.divmod Nat.add Nat.sub]
    | rewrite decide_True by (cbn [length]; first [congruence | lia])
    | rewrite decide_False by (cbn [length]; first [congruence | lia]) ].

Lemma lookahead_batches_interleaved K cb n1 n2 n3 n4 n5 n6 A B :
  2 ≤ K → A ≠ B →
  cb n2 = B → cb n3 = A → cb n4 = B → cb n5 = A → cb n6 = B →
  lookahead_batches K cb [(A, [])] 0 [n1] [n2; n3; n4; n5; n6]
  = [(A, [n1; n3; n5]); (B, [n2; n4; n6])].
Proof.
  intros HK HAB H2 H3 H4 H5 H6.
  cbn [lookahead_batches]. unfold lookahead_step.
  rewrite H2, H3, H4, H5, H6.
  lookahead_eval. done.
Qed.

Lemma lookahead_batches_eviction cb n1 n2 n3 n4 A B C :
  A ≠ B → A ≠ C → B ≠ C →
  cb n2 = B → cb n3 = C → cb n4 = A →
  lookahead_batches 2 cb [(A, [])] 0 [n1] [n2; n3; n4]
  = [(A, [n1]); (B, [n2]); (C, [n3]); (A, [n4])].
Proof.
  intros HAB HAC HBC H2 H3 H4.
  cbn [lookahead_batches]. unfold lookahead_step.
  rewrite H2, H3, H4.
  lookahead_eval. done.
Qed.

(** C4: for six NBLs classified A,B,A,B,A,B with A different from B, and a
    lookahead depth of at least 2, [NdisClassifyNblChainByValueLookahead] makes
    two flush calls: the first with the three NBLs classified A, the second
    with the three classified B, each in chain order. *)
Theorem C4_lookahead_coalesces_interleaved K cb fuel h n1 n2 n3 n4 n5 n6 A B :
  2 ≤ K → A ≠ B →
  is_chain h (Some n1) [n1; n2; n3; n4; n5; n6] →
  cb <$> [n1; n2; n3; n4; n5; n6] = [A; B; A; B; A; B] →
  6 ≤ fuel →
  ∃ h' call1 call2,
    NdisClassifyNblChainByValueLookahead K cb fuel h n1 = Some (h', [call1; call2]) ∧
    delivers call1 (A, [n1; n3; n5]) ∧
    delivers call2 (B, [n2; n4; n6]).
Proof.
  intros HK HAB Hl [= H1 H2 H3 H4 H5 H6] Hfuel.
  destruct (NdisClassifyNblChainByValueLookahead_spec K cb fuel h n1 _ ltac:(lia) Hl)
    as (h' & calls & -> & Hc); [done|].
  cbn [tail] in Hc. rewrite H1 in Hc.
  rewrite (lookahead_batches_interleaved K cb n1 n2 n3 n4 n5 n6 A B) in Hc by done.
  apply Forall2_cons_inv_r in Hc as (c1 & calls1 & Hc1 & Hc & ->).
  apply Forall2_cons_inv_r in Hc as (c2 & calls2 & Hc2 & Hc & ->).
  apply Forall2_nil_inv_r in Hc as ->.
  eauto 10.
Qed.

Lemma slots_append_keys slots pi run : (slots_append slots pi run).*1 = slots.*1.
Proof.
  unfold slots_append. apply list_eq. intros i. rewrite !list_lookup_fmap.
  destruct (decide (pi = i)) as [<-|Hne].
  - rewrite list_lookup_alter_eq. by destruct (slots !! pi).
  - by rewrite list_lookup_alter_ne.
Qed.

Lemma list_find_key_None (slots : slot_list) k :
  k ∉ slots.*1 → list_find (λ x, x.1 = k) slots = None.
Proof.
  intros H. apply list_find_None, Forall_forall. intros x Hx Hk. apply H.
  rewrite <- Hk. by apply list_elem_of_fmap_2.
Qed.

Lemma list_find_key_Some (slots : slot_list) k j :
  slots.*1 !! j = Some k → (∀ i, i < j → slots.*1 !! i ≠ Some k) →
  ∃ x, list_find (λ x, x.1 = k) slots = Some (j, x).
Proof.
  intros Hj Hmin. rewrite list_lookup_fmap in Hj.
  destruct (slots !! j) as [x|] eqn:E; [|done]. injection Hj as Hk.
  exists x. apply list_find_Some. split; [done|]. split; [done|].
  intros i y Hy Hij Hyk. apply (Hmin i Hij). by rewrite list_lookup_fmap, Hy, <- Hyk.
Qed.

Lemma slots_rep_Valid K h s slots :
  slots_rep K h s slots →
  Lookahead.Valid s = replicate (length slots) true ++ replicate (K - length slots) false.
Proof.
  intros (_ & _ & HlV & HlS & HVt & HVf & _). apply list_eq. intros i.
  destruct (decide (i < length slots)) as [Hlt|Hge].
  - rewrite HVt by done. rewrite lookup_app_l by (by rewrite length_replicate).
    symmetry. by apply lookup_replicate_2.
  - destruct (decide (i < K)) as [HiK|HiK].
    + rewrite HVf by lia. rewrite lookup_app_r by (rewrite length_replicate; lia).
      symmetry. apply lookup_replicate_2. rewrite length_replicate. lia.
    + rewrite !lookup_ge_None_2; [done|..].
      * rewrite length_app, !length_replicate. lia.
      * lia.
Qed.

(** C5: when the classification of the next NBL differs from that of every
    slot and all [K] slots are valid, the iteration flushes the slot at index
    [(PreviousIndex + 1) mod K] with the run it holds, and that slot becomes
    the current slot with the new classification and an empty queue.  With
    [K = 2] and NBLs classified A,B,C,A (pairwise different) the flush calls
    are: A's NBL (evicted by C from the slot after B's), B's NBL (evicted by
    the second A), then C's NBL and the last NBL, which is a run of its own. *)
Theorem C5_eviction_is_round_robin :
  (∀ K cb h s slots run n nx,
     slots_rep K h s slots → Lookahead.PreviousIndex s < length slots →
     lseg h (Some (Lookahead.FirstNbl s)) run (Some n) →
     last run = Some (Lookahead.PreviousNbl s) →
     h !! n = Some nx →
     NoDup (mjoin slots.*2 ++ run ++ [n]) →
     length slots = K → cb n ∉ slots.*1 →
     ∃ h' s' call evicted,
       Lookahead.body K cb h s (Lookahead.PreviousNbl s)
         = Some (Lookahead.Continue h' s' n [call]) ∧
       slots_append slots (Lookahead.PreviousIndex s) run
         !! ((Lookahead.PreviousIndex s + 1) mod K) = Some evicted ∧
       delivers call evicted ∧
       Lookahead.PreviousIndex s' = (Lookahead.PreviousIndex s + 1) mod K ∧
       Lookahead.FirstNbl s' = n ∧
       slots_rep K h' s'
         (<[(Lookahead.PreviousIndex s + 1) mod K := (cb n, [])]>
            (slots_append slots (Lookahead.PreviousIndex s) run))) ∧
  (∀ cb fuel h n1 n2 n3 n4 A B C,
     A ≠ B → A ≠ C → B ≠ C →
     is_chain h (Some n1) [n1; n2; n3; n4] →
     cb <$> [n1; n2; n3; n4] = [A; B; C; A] →
     4 ≤ fuel →
     ∃ h' call1 call2 call3 call4,
       NdisClassifyNblChainByValueLookahead 2 cb fuel h n1
         = Some (h', [call1; call2; call3; call4]) ∧
       delivers call1 (A, [n1]) ∧ delivers call2 (B, [n2]) ∧
       delivers call3 (C, [n3]) ∧ delivers call4 (A, [n4])).
Proof.
  split.
  - intros K cb h s slots run n nx Hrep Hpi Hrun Hlast Hn Hnd HlK Hkeys.
    destruct (Lookahead_body_spec K cb h s slots run n nx)
      as (h' & s' & calls & slots' & run' & fl & Hstep & Hbody & Hrep' & Hrun' & _ & _
          & Hfl & _); [done..|].
    unfold lookahead_step in Hstep.
    destruct (lookup_lt_is_Some_2 slots _ Hpi) as [[T l] HT]. rewrite HT in Hstep.
    assert (HTn : T ≠ cb n).
    { intros ->. apply Hkeys. apply (list_elem_of_fmap_2 fst _ _ (list_elem_of_lookup_2 _ _ _ HT)). }
    rewrite decide_True in Hstep by done.
    rewrite list_find_key_None in Hstep by (by rewrite slots_append_keys).
    rewrite decide_False in Hstep by (rewrite slots_append_length; lia).
    injection Hstep as <- HPI <- <-.
    assert (He : (Lookahead.PreviousIndex s + 1) mod K
                 < length (slots_append slots (Lookahead.PreviousIndex s) run)).
    { rewrite slots_append_length, HlK. apply Nat.mod_upper_bound. lia. }
    destruct (lookup_lt_is_Some_2 _ _ He) as [ev Hev]. rewrite Hev in Hfl. simpl in Hfl.
    apply Forall2_cons_inv_r in Hfl as (call & calls' & Hcall & Hfl & ->).
    apply Forall2_nil_inv_r in Hfl as ->.
    apply lseg_cons in Hrun' as [[= HF] _].
    exists h', s', call, ev. rewrite <- HPI. done.
  - intros cb fuel h n1 n2 n3 n4 A B C HAB HAC HBC Hl [= H1 H2 H3 H4] Hfuel.
    destruct (NdisClassifyNblChainByValueLookahead_spec 2 cb fuel h n1 _ ltac:(lia) Hl)
      as (h' & calls & -> & Hc); [done|].
    cbn [tail] in Hc. rewrite H1 in Hc.
    rewrite (lookahead_batches_eviction cb n1 n2 n3 n4 A B C) in Hc by done.
    apply Forall2_cons_inv_r in Hc as (c1 & calls1 & Hc1 & Hc & ->).
    apply Forall2_cons_inv_r in Hc as (c2 & calls2 & Hc2 & Hc & ->).
    apply Forall2_cons_inv_r in Hc as (c3 & calls3 & Hc3 & Hc & ->).
    apply Forall2_cons_inv_r in Hc as (c4 & calls4 & Hc4 & Hc & ->).
    apply Forall2_nil_inv_r in Hc as ->.
    eauto 20.
Qed.

(** C6 (amended): when the classification of the next NBL differs from that
    of the current slot, the slots are scanned in index order.  If a valid
    slot holds the classification, the first such slot is resumed, whether or
    not slots that were never used remain, and no slot is taken; only when no
    valid slot holds it and fewer than [K] slots are valid does the NBL start
    a new run, in the first slot that is not valid. *)
Theorem C6_resume_before_new_slot K cb h s slots run n nx T l :
  slots_rep K h s slots → Lookahead.PreviousIndex s < length slots →
  lseg h (Some (Lookahead.FirstNbl s)) run (Some n) →
  last run = Some (Lookahead.PreviousNbl s) →
  h !! n = Some nx →
  NoDup (mjoin slots.*2 ++ run ++ [n]) →
  slots !! Lookahead.PreviousIndex s = Some (T, l) → T ≠ cb n →
  (∀ j, slots.*1 !! j = Some (cb n) → (∀ i, i < j → slots.*1 !! i ≠ Some (cb n)) →
     ∃ h' s',
       Lookahead.body K cb h s (Lookahead.PreviousNbl s)
         = Some (Lookahead.Continue h' s' n []) ∧
       Lookahead.PreviousIndex s' = j ∧ Lookahead.FirstNbl s' = n ∧
       Lookahead.Valid s' = Lookahead.Valid s ∧
       slots_rep K h' s' (slots_append slots (Lookahead.PreviousIndex s) run)) ∧
  (cb n ∉ slots.*1 → length slots < K →
     ∃ h' s',
       Lookahead.body K cb h s (Lookahead.PreviousNbl s)
         = Some (Lookahead.Continue h' s' n []) ∧
       Lookahead.PreviousIndex s' = length slots ∧ Lookahead.FirstNbl s' = n ∧
       Lookahead.Valid s !! length slots = Some false ∧
       Lookahead.Valid s' !! length slots = Some true ∧
       slots_rep K h' s'
         (slots_append slots (Lookahead.PreviousIndex s) run ++ [(cb n, [])])).
Proof.
  intros Hrep Hpi Hrun Hlast Hn Hnd HT HTn.
  destruct (Lookahead_body_spec K cb h s slots run n nx)
    as (h' & s' & calls & slots' & run' & fl & Hstep & Hbody & Hrep' & Hrun' & _ & _
        & Hfl & _); [done..|].
  unfold lookahead_step in Hstep. rewrite HT in Hstep.
  rewrite decide_True in Hstep by done.
  split.
  - intros j Hj Hmin.
    destruct (list_find_key_Some (slots_append slots (Lookahead.PreviousIndex s) run)
                (cb n) j) as [x Hx]; [by rewrite slots_append_keys..|].
    rewrite Hx in Hstep. injection Hstep as <- HPI <- <-.
    apply Forall2_nil_inv_r in Hfl as ->.
    apply lseg_cons in Hrun' as [[= HF] _].
    exists h', s'. split; [done|]. split; [done|]. split; [done|]. split; [|done].
    rewrite (slots_rep_Valid _ _ _ _ Hrep), (slots_rep_Valid _ _ _ _ Hrep').
    by rewrite slots_append_length.
  - intros Hkeys HlK.
    rewrite list_find_key_None in Hstep by (by rewrite slots_append_keys).
    rewrite decide_True in Hstep by (by rewrite slots_append_length).
    injection Hstep as <- HPI <- <-.
    apply Forall2_nil_inv_r in Hfl as ->.
    apply lseg_cons in Hrun' as [[= HF] _].
    rewrite slots_append_length in HPI.
    exists h', s'. split; [done|]. split; [done|]. split; [done|].
    pose proof Hrep as (_ & _ & _ & _ & _ & HVf & _).
    pose proof Hrep' as (_ & _ & _ & _ & HVt' & _).
    split; [apply HVf; lia|]. split; [|done].
    apply HVt'. rewrite length_app, slots_append_length. simpl. lia.
Qed.

(** ** The counted partial classifier *)

Lemma first_run_length cb T run rest :
  length run + (if rest is n :: _ then if decide (cb n ≠ T) then 0 else 1 else 0)
  ≤ length (first_run cb T run rest).1.
Proof.
  destruct rest as [|n rest]; simpl; [lia|].
  case_decide; simpl; [lia|].
  assert (H' : ∀ rest run, length run ≤ length (first_run cb T run rest).1).
  { clear. induction rest as [|m rest IH]; intros run; simpl; [done|].
    case_decide; simpl; [done|]. etrans; [|apply IH]. rewrite length_app. simpl. lia. }
  etrans; [|apply H']. rewrite length_app. simpl. lia.
Qed.

(** C1 (evaluation of the code): [NdisPartialClassifyNblChainByValueWithCount]
    returns the queue of the uncounted routine with [NblCount] 1, whatever the
    length of the run: when the second NBL of the chain is classified as the
    first, the queue holds two NBLs or more and its count is 1. *)
Theorem C1_partial_with_count_leaves_count_at_one cb fuel h a l :
  is_chain h (Some a) l → length l ≤ fuel →
  ∃ h' rem Q key run,
    NdisPartialClassifyNblChainByValueWithCount cb fuel h (Some a)
      = Some (h', rem, Q, key) ∧
    is_queue h' (Queue Q) run ∧
    NblCount Q = 1%N ∧
    (∀ b, l !! 1 = Some b → cb b = cb a → 2 ≤ length run).
Proof.
  intros Hl Hfuel.
  destruct (NdisPartialClassifyNblChainByValue_spec cb fuel h a l)
    as (h' & rem & Q & Heq & HQ & Hrem); [done..|].
  unfold NdisPartialClassifyNblChainByValue in Heq.
  unfold NdisPartialClassifyNblChainByValueWithCount,
    NdisAppendNblChainToNblCountedQueueFast.
  simpl in *.
  destruct (NdisPartialClassifyNblChainByValue_loop cb fuel h a a (cb a))
    as [[[h1 rem1] P1]|]; simpl in *; [|done].
  destruct (NdisAppendNblChainToNblQueueFast h1 NdisInitializeNblQueue a P1)
    as [[h2 Q2]|]; simpl in *; [|done].
  injection Heq as -> -> ->.
  eexists _, _, _, _, _. split; [done|]. split; [exact HQ|]. split; [done|].
  intros b Hb Hba.
  pose proof (first_run_length cb (cb a) [a] (tail l)) as Hlen.
  destruct l as [|a' [|b' l']]; simplify_eq/=.
  rewrite decide_False in Hlen by (by intros ?). simpl in Hlen. lia.
Qed.

(** ** Examples *)

Lemma C1_partial_with_count_leaves_count_at_one_witness :
  ∃ h' rem Q key run,
    NdisPartialClassifyNblChainByValueWithCount example_same_key 2
      (chain_heap [10; 20]) (Some 10) = Some (h', rem, Q, key) ∧
    is_queue h' (Queue Q) run ∧
    NblCount Q = 1%N ∧
    (∀ b, [10; 20] !! 1 = Some b → example_same_key b = example_same_key 10 →
          2 ≤ length run).
Proof.
  apply (C1_partial_with_count_leaves_count_at_one example_same_key 2
           (chain_heap [10; 20]) 10 [10; 20]).
  - vm_compute. repeat split.
  - simpl. lia.
Defined.

(** At the failing input of C1: two NBLs of equal classification.  The queue
    holds both, [NdisNumNblsInNblChain] counts 2 from its head, and
    [NblCount] is 1. *)
Lemma C1_failing_input :
  match NdisPartialClassifyNblChainByValueWithCount example_same_key 2
          (chain_heap [10; 20]) (Some 10) with
  | Some (h', rem, Q, key) =>
    is_queue h' (Queue Q) [10; 20] ∧
    NdisNumNblsInNblChain 3 h' (First (Queue Q)) = Some 2%N ∧
    NblCount Q = 1%N ∧ rem = NULL
  | None => False
  end.
Proof. vm_compute. repeat split. Qed.

(** C6 (counterexample to the claim as stated): lookahead depth 4, NBLs
    10, 20, 30 classified 1, 2, 1.  After the second NBL the slots 0 and 1 are
    valid and the slots 2 and 3 have never been used.  The third NBL differs
    from the current slot (1, classification 2); the iteration makes slot 0
    current, a valid slot, and takes no slot: no new run is started in an
    empty slot although two exist. *)
Lemma C6_counterexample :
  match Lookahead.init 4 example_alternate 10 with
  | Some s0 =>
    match Lookahead.body 4 example_alternate (chain_heap [10; 20; 30]) s0 10 with
    | Some (Lookahead.Continue h s Nbl _) =>
      load h Nbl = Some (Some 30) ∧
      array_read (Lookahead.TargetClassification s) (Lookahead.PreviousIndex s)
        = Some 2%N ∧
      example_alternate 30 = 1%N ∧
      Lookahead.Valid s !! 2 = Some false ∧
      match Lookahead.body 4 example_alternate h s Nbl with
      | Some (Lookahead.Continue h' s' _ calls) =>
        Lookahead.PreviousIndex s' = 0 ∧
        Lookahead.Valid s !! 0 = Some true ∧
        Lookahead.Valid s' = Lookahead.Valid s ∧
        calls = [] ∧
        ¬ (Lookahead.Valid s !! Lookahead.PreviousIndex s' = Some false)
      | _ => False
      end
    | _ => False
    end
  | None => False
  end.
Proof. vm_compute. repeat split. discriminate. Qed.

Lemma C3_partial_loop_reconstructs_eager_witness :
  (∃ batches h1 calls1 h2 calls2,
    NdisClassifyNblChainByValue example_alternate 7
      (chain_heap [10; 20; 30; 40; 50; 60]) 10 = Some (h1, calls1) ∧
    ReceivePackets_loop example_alternate 7
      (chain_heap [10; 20; 30; 40; 50; 60]) (Some 10) = Some (h2, calls2) ∧
    Forall2 delivers calls1 batches ∧
    Forall2 delivers calls2 batches ∧
    mjoin batches.*2 = [10; 20; 30; 40; 50; 60]) ∧
  (∃ h' rem Q run rest,
    NdisPartialClassifyNblChainByValue example_alternate 7
      (chain_heap [10; 20; 30; 40; 50; 60]) (Some 10)
      = Some (h', rem, Q, example_alternate 10) ∧
    [10; 20; 30; 40; 50; 60] = run ++ rest ∧ run ≠ [] ∧
    Forall (λ n, example_alternate n = example_alternate 10) run ∧
    (∀ n, head rest = Some n → example_alternate n ≠ example_alternate 10) ∧
    is_queue h' Q run ∧
    is_chain h' rem rest ∧
    (rem = NULL ↔ rest = [])).
Proof.
  apply (C3_partial_loop_reconstructs_eager example_alternate 7
           (chain_heap [10; 20; 30; 40; 50; 60]) 10 [10; 20; 30; 40; 50; 60]).
  - vm_compute. repeat split.
  - simpl. lia.
Defined.

Lemma C4_lookahead_coalesces_interleaved_witness :
  ∃ h' call1 call2,
    NdisClassifyNblChainByValueLookahead NDIS_CLASSIFY_NBL_LOOKHEAD_DEPTH_default
      example_alternate 6 (chain_heap [10; 20; 30; 40; 50; 60]) 10
      = Some (h', [call1; call2]) ∧
    delivers call1 (1%N, [10; 30; 50]) ∧
    delivers call2 (2%N, [20; 40; 60]).
Proof.
  apply (C4_lookahead_coalesces_interleaved NDIS_CLASSIFY_NBL_LOOKHEAD_DEPTH_default
           example_alternate 6 (chain_heap [10; 20; 30; 40; 50; 60])
           10 20 30 40 50 60 1%N 2%N).
  - vm_compute. lia.
  - discriminate.
  - vm_compute. repeat split.
  - reflexivity.
  - lia.
Defined.

Lemma C7_eager_one_flush_per_run_witness :
  ∃ h' calls batches,
    NdisClassifyNblChainByValue example_alternate 6
      (chain_heap [10; 20; 30; 40; 50; 60]) 10 = Some (h', calls) ∧
    Forall2 delivers calls batches ∧
    mjoin batches.*2 = [10; 20; 30; 40; 50; 60] ∧
    Forall (λ kb, kb.2 ≠ [] ∧ Forall (λ n, example_alternate n = kb.1) kb.2) batches ∧
    adjacent_differ batches.*1 ∧
    (∀ A B n1 n2 n3 n4 n5 n6,
       A ≠ B → [10; 20; 30; 40; 50; 60] = [n1; n2; n3; n4; n5; n6] →
       example_alternate <$> [10; 20; 30; 40; 50; 60] = [A; B; A; B; A; B] →
       batches = [(A, [n1]); (B, [n2]); (A, [n3]); (B, [n4]); (A, [n5]); (B, [n6])]).
Proof.
  apply (C7_eager_one_flush_per_run example_alternate 6
           (chain_heap [10; 20; 30; 40; 50; 60]) 10 [10; 20; 30; 40; 50; 60]).
  - vm_compute. repeat split.
  - simpl. lia.
Defined.

Lemma C10_counted_by_index_refines_uncounted_witness :
  ∃ h' Queues',
    NdisClassifyNblChainByIndexWithCount example_index 6
      (chain_heap [10; 20; 30; 40; 50; 60]) 10
      (replicate 3 NdisInitializeNblCountedQueue) = Some (h', Queues') ∧
    NdisClassifyNblChainByIndex example_index 6
      (chain_heap [10; 20; 30; 40; 50; 60]) 10
      (Queue <$> replicate 3 NdisInitializeNblCountedQueue)
      = Some (h', Queue <$> Queues') ∧
    Forall2 (is_queue h') (Queue <$> Queues')
      (imap (λ i l0, l0 ++ filter (λ n, N.to_nat (example_index n) = i)
                             [10; 20; 30; 40; 50; 60]) (replicate 3 [])).
Proof.
  apply (C10_counted_by_index_refines_uncounted example_index 6
           (chain_heap [10; 20; 30; 40; 50; 60]) 10 [10; 20; 30; 40; 50; 60]
           (replicate 3 NdisInitializeNblCountedQueue) (replicate 3 [])).
  - vm_compute. repeat split.
  - simpl. lia.
  - repeat constructor.
  - vm_compute. compute_done.
  - repeat constructor; vm_compute; lia.
Defined.

Lemma example_locals_depth2_rep :
  slots_rep 2 example_heap_after_two example_locals_depth2 example_slots_after_two.
Proof.
  unfold slots_rep. simpl. repeat (split; [done || lia|]). split; [|split].
  - intros [|[|i]] Hi; [done | done | lia].
  - intros i Hi1 Hi2. lia.
  - intros [|[|i]] k l [=]; subst; vm_compute; eauto 10.
Defined.

Lemma example_locals_depth4_rep :
  slots_rep 4 example_heap_after_two example_locals_depth4 example_slots_after_two.
Proof.
  unfold slots_rep. simpl. repeat (split; [done || lia|]). split; [|split].
  - intros [|[|i]] Hi; [done | done | lia].
  - intros [|[|[|[|i]]]] Hi1 Hi2; (done || lia).
  - intros [|[|i]] k l [=]; subst; vm_compute; eauto 10.
Defined.

Lemma C5_eviction_is_round_robin_witness :
  (∃ h' s' call evicted,
     Lookahead.body 2 example_ABCA example_heap_after_two example_locals_depth2 20
       = Some (Lookahead.Continue h' s' 30 [call]) ∧
     slots_append example_slots_after_two 1 [20] !! ((1 + 1) mod 2) = Some evicted ∧
     delivers call evicted ∧
     Lookahead.PreviousIndex s' = (1 + 1) mod 2 ∧
     Lookahead.FirstNbl s' = 30 ∧
     slots_rep 2 h' s'
       (<[(1 + 1) mod 2 := (example_ABCA 30, [])]>
          (slots_append example_slots_after_two 1 [20]))) ∧
  (∃ h' call1 call2 call3 call4,
     NdisClassifyNblChainByValueLookahead 2 example_ABCA 4
       (chain_heap [10; 20; 30; 40]) 10 = Some (h', [call1; call2; call3; call4]) ∧
     delivers call1 (1%N, [10]) ∧ delivers call2 (2%N, [20]) ∧
     delivers call3 (3%N, [30]) ∧ delivers call4 (1%N, [40])).
Proof.
  split.
  - apply (proj1 C5_eviction_is_round_robin 2 example_ABCA example_heap_after_two
             example_locals_depth2 example_slots_after_two [20] 30 (Some 40)).
    + exact example_locals_depth2_rep.
    + simpl. lia.
    + vm_compute. repeat split.
    + reflexivity.
    + reflexivity.
    + vm_compute. compute_done.
    + reflexivity.
    + compute_done.
  - apply (proj2 C5_eviction_is_round_robin example_ABCA 4 (chain_heap [10; 20; 30; 40])
             10 20 30 40 1%N 2%N 3%N).
    + discriminate.
    + discriminate.
    + discriminate.
    + vm_compute. repeat split.
    + reflexivity.
    + lia.
Defined.

Lemma C6_resume_before_new_slot_witness :
  (∃ h' s',
     Lookahead.body 4 example_alternate example_heap_after_two example_locals_depth4 20
       = Some (Lookahead.Continue h' s' 30 []) ∧
     Lookahead.PreviousIndex s' = 0 ∧ Lookahead.FirstNbl s' = 30 ∧
     Lookahead.Valid s' = Lookahead.Valid example_locals_depth4 ∧
     slots_rep 4 h' s' (slots_append example_slots_after_two 1 [20])) ∧
  (∃ h' s',
     Lookahead.body 4 example_ABCA example_heap_after_two example_locals_depth4 20
       = Some (Lookahead.Continue h' s' 30 []) ∧
     Lookahead.PreviousIndex s' = 2 ∧ Lookahead.FirstNbl s' = 30 ∧
     Lookahead.Valid example_locals_depth4 !! 2 = Some false ∧
     Lookahead.Valid s' !! 2 = Some true ∧
     slots_rep 4 h' s'
       (slots_append example_slots_after_two 1 [20] ++ [(example_ABCA 30, [])])).
Proof.
  split.
  - apply (proj1 (C6_resume_before_new_slot 4 example_alternate example_heap_after_two
             example_locals_depth4 example_slots_after_two [20] 30 (Some 40) 2%N []
             example_locals_depth4_rep ltac:(simpl; lia)
             ltac:(vm_compute; repeat split) eq_refl eq_refl
             ltac:(vm_compute; compute_done) eq_refl
             ltac:(discriminate)) 0).
    + reflexivity.
    + intros i Hi. lia.
  - apply (proj2 (C6_resume_before_new_slot 4 example_ABCA example_heap_after_two
             example_locals_depth4 example_slots_after_two [20] 30 (Some 40) 2%N []
             example_locals_depth4_rep ltac:(simpl; lia)
             ltac:(vm_compute; repeat split) eq_refl eq_refl
             ltac:(vm_compute; compute_done) eq_refl
             ltac:(discriminate))).
    + compute_done.
    + simpl. lia.
Defined.

Lemma example_chain6_is_chain :
  is_chain (chain_heap [10; 20; 30; 40; 50; 60]) (Some 10) [10; 20; 30; 40; 50; 60].
Proof. vm_compute. repeat split. Defined.

Lemma C2_no_nbl_duplicated_or_dropped_witness :
  (∃ h' Q0' Q1' l0' l1',
     NdisClassifyNblChain2 example_index 7 (chain_heap [10; 20; 30; 40; 50; 60]) 10
       NdisInitializeNblQueue NdisInitializeNblQueue = Some (h', Q0', Q1') ∧
     is_queue h' Q0' l0' ∧ is_queue h' Q1' l1' ∧
     l0' ++ l1' ≡ₚ ([] ++ []) ++ [10; 20; 30; 40; 50; 60]) ∧
  (∃ h' Qs' Ls',
     NdisClassifyNblChainByIndex example_index 7 (chain_heap [10; 20; 30; 40; 50; 60]) 10
       (replicate 3 NdisInitializeNblQueue) = Some (h', Qs') ∧
     Forall2 (is_queue h') Qs' Ls' ∧
     mjoin Ls' ≡ₚ mjoin (replicate 3 []) ++ [10; 20; 30; 40; 50; 60]) ∧
  (∃ h' calls batches,
     NdisClassifyNblChainByValue example_index 7
       (chain_heap [10; 20; 30; 40; 50; 60]) 10 = Some (h', calls) ∧
     Forall2 delivers calls batches ∧
     mjoin batches.*2 ≡ₚ [10; 20; 30; 40; 50; 60]) ∧
  (∃ h' calls batches,
     NdisClassifyNblChainByValueLookahead 2 example_index 7
       (chain_heap [10; 20; 30; 40; 50; 60]) 10 = Some (h', calls) ∧
     Forall2 delivers calls batches ∧
     mjoin batches.*2 ≡ₚ [10; 20; 30; 40; 50; 60]) ∧
  (∃ h' rem Q key batch rest,
     NdisPartialClassifyNblChainByValue example_index 7
       (chain_heap [10; 20; 30; 40; 50; 60]) (Some 10) = Some (h', rem, Q, key) ∧
     is_queue h' Q batch ∧ is_chain h' rem rest ∧
     batch ++ rest ≡ₚ [10; 20; 30; 40; 50; 60]) ∧
  (∃ h' calls batches,
     ReceivePackets_loop example_index 7
       (chain_heap [10; 20; 30; 40; 50; 60]) (Some 10) = Some (h', calls) ∧
     Forall2 delivers calls batches ∧
     mjoin batches.*2 ≡ₚ [10; 20; 30; 40; 50; 60]).
Proof.
  destruct (C2_no_nbl_duplicated_or_dropped 2 example_index 7
              (chain_heap [10; 20; 30; 40; 50; 60]) 10 [10; 20; 30; 40; 50; 60]
              example_chain6_is_chain ltac:(simpl; lia) ltac:(lia))
    as (H2 & HN & HV & HL & HP & HR).
  split; [|split; [|split; [|split; [|split]]]]; try assumption.
  - apply (H2 NdisInitializeNblQueue NdisInitializeNblQueue [] []).
    + apply is_queue_init.
    + apply is_queue_init.
    + vm_compute. compute_done.
  - apply (HN (replicate 3 NdisInitializeNblQueue) (replicate 3 [])).
    + repeat constructor.
    + vm_compute. compute_done.
    + repeat constructor; vm_compute; lia.
Defined.

Lemma C8_stable_partition_witness :
  (∃ h' Q0' Q1' b0 b1,
     NdisClassifyNblChain2 example_index 7 (chain_heap [10; 20; 30; 40; 50; 60]) 10
       NdisInitializeNblQueue NdisInitializeNblQueue = Some (h', Q0', Q1') ∧
     is_queue h' Q0' ([] ++ b0) ∧ is_queue h' Q1' ([] ++ b1) ∧
     b0 `sublist_of` [10; 20; 30; 40; 50; 60] ∧
     b1 `sublist_of` [10; 20; 30; 40; 50; 60]) ∧
  (∃ h' Qs' Ls',
     NdisClassifyNblChainByIndex example_index 7 (chain_heap [10; 20; 30; 40; 50; 60]) 10
       (replicate 3 NdisInitializeNblQueue) = Some (h', Qs') ∧
     Forall2 (is_queue h') Qs' Ls' ∧
     Forall2 (λ l0' l0, ∃ b, l0' = l0 ++ b ∧ b `sublist_of` [10; 20; 30; 40; 50; 60])
       Ls' (replicate 3 [])) ∧
  (∃ h' calls batches,
     NdisClassifyNblChainByValue example_index 7
       (chain_heap [10; 20; 30; 40; 50; 60]) 10 = Some (h', calls) ∧
     Forall2 delivers calls batches ∧
     Forall (λ kb, kb.2 `sublist_of` [10; 20; 30; 40; 50; 60]) batches) ∧
  (∃ h' calls batches,
     NdisClassifyNblChainByValueLookahead 2 example_index 7
       (chain_heap [10; 20; 30; 40; 50; 60]) 10 = Some (h', calls) ∧
     Forall2 delivers calls batches ∧
     Forall (λ kb, kb.2 `sublist_of` [10; 20; 30; 40; 50; 60]) batches) ∧
  (∃ h' rem Q key batch,
     NdisPartialClassifyNblChainByValue example_index 7
       (chain_heap [10; 20; 30; 40; 50; 60]) (Some 10) = Some (h', rem, Q, key) ∧
     is_queue h' Q batch ∧ batch `sublist_of` [10; 20; 30; 40; 50; 60]) ∧
  (∃ h' calls batches,
     ReceivePackets_loop example_index 7
       (chain_heap [10; 20; 30; 40; 50; 60]) (Some 10) = Some (h', calls) ∧
     Forall2 delivers calls batches ∧
     Forall (λ kb, kb.2 `sublist_of` [10; 20; 30; 40; 50; 60]) batches).
Proof.
  destruct (C8_stable_partition 2 example_index 7
              (chain_heap [10; 20; 30; 40; 50; 60]) 10 [10; 20; 30; 40; 50; 60]
              example_chain6_is_chain ltac:(simpl; lia) ltac:(lia))
    as (H2 & HN & HV & HL & HP & HR).
  split; [|split; [|split; [|split; [|split]]]]; try assumption.
  - apply (H2 NdisInitializeNblQueue NdisInitializeNblQueue [] []).
    + apply is_queue_init.
    + apply is_queue_init.
    + vm_compute. compute_done.
  - apply (HN (replicate 3 NdisInitializeNblQueue) (replicate 3 [])).
    + repeat constructor.
    + vm_compute. compute_done.
    + repeat constructor; vm_compute; lia.
Defined.

(** The example states are the ones the routine reaches after its first
    iteration on the chain 10, 20, 30, 40. *)
Lemma example_locals_depth2_reached :
  (s ← Lookahead.init 2 example_ABCA 10;
   Lookahead.body 2 example_ABCA (chain_heap [10; 20; 30; 40]) s 10)
  = Some (Lookahead.Continue example_heap_after_two example_locals_depth2 20 []).
Proof. vm_compute. reflexivity. Qed.

Lemma example_locals_depth4_reached :
  (s ← Lookahead.init 4 example_alternate 10;
   Lookahead.body 4 example_alternate (chain_heap [10; 20; 30; 40]) s 10)
  = Some (Lookahead.Continue example_heap_after_two example_locals_depth4 20 []).
Proof. vm_compute. reflexivity. Qed.

(** * More of nblchain.h *)

Lemma NdisNumNblsInNblChain_loop_spec h l :
  ∀ fuel p Count,
  is_chain h p l → length l < fuel →
  NdisNumNblsInNblChain_loop fuel h p Count
  = Some ((Count + N.of_nat (length l)) mod (ULONG_MAX + 1))%N ∨
  (l = [] ∧ NdisNumNblsInNblChain_loop fuel h p Count = Some Count).
Proof.
  induction l as [|a l IH]; intros fuel p Count Hl Hfuel.
  all: destruct fuel as [|fuel]; [simpl in Hfuel; lia|].
  - unfold is_chain in Hl. simpl in Hl. subst p. right. done.
  - apply lseg_cons in Hl as [-> (nx & Hnx & Hl)]. simpl in Hfuel. left.
    simpl. unfold load. rewrite Hnx. simpl.
    destruct (IH fuel nx ((Count + 1) mod (ULONG_MAX + 1))%N Hl ltac:(lia))
      as [->|[-> ->]].
    + f_equal. rewrite N.Div0.add_mod_idemp_l. f_equal. lia.
    + f_equal.
Qed.

(** X1: [NdisNumNblsInNblChain] returns the number of NBLs of the chain,
    reduced modulo 2^32 as the ULONG counter wraps; for the empty chain
    (NULL) it returns 0. *)
Theorem X1_NdisNumNblsInNblChain_is_length fuel h p l :
  is_chain h p l → length l < fuel →
  NdisNumNblsInNblChain fuel h p = Some (N.of_nat (length l) mod (ULONG_MAX + 1))%N.
Proof.
  intros Hl Hfuel. unfold NdisNumNblsInNblChain.
  destruct (NdisNumNblsInNblChain_loop_spec h l fuel p 0%N Hl Hfuel) as [->|[-> ->]];
    [by rewrite N.add_0_l | done].
Qed.

Lemma X1_NdisNumNblsInNblChain_is_length_witness :
  NdisNumNblsInNblChain 4 (chain_heap [10; 20; 30]) (Some 10)
  = Some (N.of_nat (length [10; 20; 30]) mod (ULONG_MAX + 1))%N.
Proof.
  apply (X1_NdisNumNblsInNblChain_is_length 4 (chain_heap [10; 20; 30]) (Some 10)
           [10; 20; 30]).
  - vm_compute. repeat split.
  - simpl. lia.
Defined.

Lemma default_last_cons {A} (a b : A) (l : list A) :
  default a (last (b :: l)) = default b (last l).
Proof.
  destruct l as [|c l]; [done|]. rewrite last_cons_cons.
  destruct (last (c :: l)) eqn:E; [done|]. by apply last_None in E.
Qed.

Lemma NdisLastNblInNblChainWithCount_loop_spec h l :
  ∀ fuel a Count nx,
  lseg h nx l NULL → h !! a = Some nx → length l < fuel →
  NdisLastNblInNblChainWithCount_loop fuel h a Count
  = Some (default a (last l),
          if l is [] then Count
          else ((Count + N.of_nat (length l)) mod (SIZE_T_MAX + 1))%N).
Proof.
  induction l as [|b l IH]; intros fuel a Count nx Hl Ha Hfuel.
  all: destruct fuel as [|fuel]; [simpl in Hfuel; lia|].
  all: simpl; unfold load; rewrite Ha; simpl.
  - simpl in Hl. by subst nx.
  - apply lseg_cons in Hl as [-> (nx' & Hnx & Hl)]. simpl in Hfuel.
    rewrite (IH fuel b (SIZE_T_add Count 1) nx' Hl Hnx) by lia.
    f_equal. f_equal.
    + symmetry. apply default_last_cons.
    + unfold SIZE_T_add. destruct l as [|c l]; [done|].
      rewrite N.Div0.add_mod_idemp_l. f_equal. simpl length. lia.
Qed.

Lemma NdisLastNblInNblChain_loop_spec h l :
  ∀ fuel a nx,
  lseg h nx l NULL → h !! a = Some nx → length l < fuel →
  NdisLastNblInNblChain_loop fuel h a = Some (default a (last l)).
Proof.
  induction l as [|b l IH]; intros fuel a nx Hl Ha Hfuel.
  all: destruct fuel as [|fuel]; [simpl in Hfuel; lia|].
  all: simpl; unfold load; rewrite Ha; simpl.
  - simpl in Hl. by subst nx.
  - apply lseg_cons in Hl as [-> (nx' & Hnx & Hl)]. simpl in Hfuel.
    rewrite (IH fuel b nx' Hl Hnx) by lia.
    f_equal. symmetry. apply default_last_cons.
Qed.

Lemma NdisLastNblInNblChain_spec fuel h a l :
  is_chain h (Some a) l → length l ≤ fuel →
  ∃ t, NdisLastNblInNblChain fuel h a = Some t ∧ last l = Some t ∧ h !! t = Some NULL.
Proof.
  intros Hl Hfuel. pose proof Hl as Hl0.
  destruct l as [|a' l]; [done|].
  apply lseg_cons in Hl as [[= <-] (nx & Hnx & Hl)]. simpl in Hfuel.
  unfold NdisLastNblInNblChain.
  rewrite (NdisLastNblInNblChain_loop_spec h l fuel a nx Hl Hnx) by lia.
  eexists. split; [done|].
  assert (Hlast : last (a :: l) = Some (default a (last l))).
  { destruct (last (a :: l)) eqn:E; [|by apply last_None in E].
    f_equal. rewrite <- (default_last_cons a a l), E. done. }
  split; [done|]. eapply lseg_last; [exact Hl0 | exact Hlast].
Qed.

(** X2: on a chain of one or more NBLs [NdisLastNblInNblChain] returns the
    last NBL of the chain, the one whose [Next] is NULL. *)
Theorem X2_NdisLastNblInNblChain_is_last fuel h a l :
  is_chain h (Some a) l → length l ≤ fuel →
  ∃ t, NdisLastNblInNblChain fuel h a = Some t ∧ last l = Some t ∧ h !! t = Some NULL.
Proof. apply NdisLastNblInNblChain_spec. Qed.

Lemma X2_NdisLastNblInNblChain_is_last_witness :
  ∃ t, NdisLastNblInNblChain 3 (chain_heap [10; 20; 30]) 10 = Some t ∧
       last [10; 20; 30] = Some t ∧ chain_heap [10; 20; 30] !! t = Some NULL.
Proof.
  apply (X2_NdisLastNblInNblChain_is_last 3 (chain_heap [10; 20; 30]) 10 [10; 20; 30]).
  - vm_compute. repeat split.
  - simpl. lia.
Defined.

(** X3: on a chain of one or more NBLs [NdisLastNblInNblChainWithCount]
    returns the last NBL and stores in [*NblCount] the number of NBLs of the
    chain (modulo 2^64, the SIZE_T counter). *)
Theorem X3_NdisLastNblInNblChainWithCount_counts fuel h a l :
  is_chain h (Some a) l → length l ≤ fuel →
  ∃ t, NdisLastNblInNblChainWithCount fuel h a
       = Some (t, (N.of_nat (length l) mod (SIZE_T_MAX + 1))%N) ∧
       last l = Some t ∧
       NdisLastNblInNblChain fuel h a = Some t.
Proof.
  intros Hl Hfuel.
  destruct (NdisLastNblInNblChain_spec fuel h a l Hl Hfuel) as (t & Ht & Hlast & _).
  destruct l as [|a' l]; [done|].
  apply lseg_cons in Hl as [[= <-] (nx & Hnx & Hl)]. simpl in Hfuel.
  unfold NdisLastNblInNblChainWithCount.
  rewrite (NdisLastNblInNblChainWithCount_loop_spec h l fuel a 1%N nx Hl Hnx) by lia.
  unfold NdisLastNblInNblChain in Ht.
  rewrite (NdisLastNblInNblChain_loop_spec h l fuel a nx Hl Hnx) in Ht by lia.
  injection Ht as Ht. rewrite Ht.
  exists t. split; [|split; [done|]].
  - f_equal. f_equal. destruct l as [|b l]; [done|].
    f_equal. simpl length. lia.
  - unfold NdisLastNblInNblChain.
    rewrite (NdisLastNblInNblChain_loop_spec h l fuel a nx Hl Hnx) by lia.
    by rewrite Ht.
Qed.

Lemma X3_NdisLastNblInNblChainWithCount_counts_witness :
  ∃ t, NdisLastNblInNblChainWithCount 3 (chain_heap [10; 20; 30]) 10
       = Some (t, (N.of_nat (length [10; 20; 30]) mod (SIZE_T_MAX + 1))%N) ∧
       last [10; 20; 30] = Some t ∧
       NdisLastNblInNblChain 3 (chain_heap [10; 20; 30]) 10 = Some t.
Proof.
  apply (X3_NdisLastNblInNblChainWithCount_counts 3 (chain_heap [10; 20; 30]) 10
           [10; 20; 30]).
  - vm_compute. repeat split.
  - simpl. lia.
Defined.

(** Two NULL-terminated chains of the same memory have an NBL in common
    exactly when they end in the same NBL. *)
Lemma chains_overlap_iff_same_last h p1 p2 l1 l2 t1 t2 :
  is_chain h p1 l1 → is_chain h p2 l2 → last l1 = Some t1 → last l2 = Some t2 →
  t1 = t2 ↔ ∃ a, a ∈ l1 ∧ a ∈ l2.
Proof.
  intros H1 H2 Ht1 Ht2. split.
  - intros <-. exists t1. split; by apply last_elem_of.
  - intros (a & Ha1 & Ha2).
    apply list_elem_of_split in Ha1 as (x1 & y1 & ->).
    apply list_elem_of_split in Ha2 as (x2 & y2 & ->).
    apply lseg_app in H1 as (m1 & _ & H1). apply lseg_app in H2 as (m2 & _ & H2).
    pose proof H1 as H1'. pose proof H2 as H2'.
    apply lseg_cons in H1' as [-> _]. apply lseg_cons in H2' as [-> _].
    pose proof (is_chain_inj _ _ _ _ H1 H2) as Heq.
    rewrite last_app_cons in Ht1, Ht2. rewrite Heq in Ht1. congruence.
Qed.

(** X7: in a debug build the assertion of
    [NDIS_ASSERT_NBL_CHAINS_DO_NOT_OVERLAP], which compares only the last NBLs
    of the two chains, holds exactly when the chains have no NBL in common;
    it holds whenever one of the chains is empty. *)
Theorem X7_overlap_assertion_is_exact fuel h Chain1 Chain2 l1 l2 :
  is_chain h Chain1 l1 → is_chain h Chain2 l2 →
  length l1 ≤ fuel → length l2 ≤ fuel →
  ∃ b, NDIS_ASSERT_NBL_CHAINS_DO_NOT_OVERLAP fuel h Chain1 Chain2 = Some b ∧
       (b = true ↔ ∀ a, a ∈ l1 → a ∉ l2).
Proof.
  intros H1 H2 Hf1 Hf2. unfold NDIS_ASSERT_NBL_CHAINS_DO_NOT_OVERLAP.
  destruct l1 as [|a1 l1].
  { unfold is_chain in H1. simpl in H1. subst Chain1. exists true.
    split; [done|]. split; [|done]. intros _ a Ha. by apply elem_of_nil in Ha. }
  destruct l2 as [|a2 l2].
  { unfold is_chain in H2. simpl in H2. subst Chain2. exists true.
    split; [by destruct Chain1|]. split; [|done]. intros _ a _ Ha.
    by apply elem_of_nil in Ha. }
  pose proof H1 as H1'. pose proof H2 as H2'.
  apply lseg_cons in H1' as [-> _]. apply lseg_cons in H2' as [-> _].
  destruct (NdisLastNblInNblChain_spec fuel h a1 _ H1 Hf1) as (t1 & -> & Ht1 & _).
  destruct (NdisLastNblInNblChain_spec fuel h a2 _ H2 Hf2) as (t2 & -> & Ht2 & _).
  simpl. eexists. split; [done|].
  rewrite bool_decide_eq_true.
  pose proof (chains_overlap_iff_same_last _ _ _ _ _ _ _ H1 H2 Ht1 Ht2) as Hiff.
  split.
  - intros Hne a Ha1 Ha2. apply Hne, Hiff. eauto.
  - intros Hdis Heq. apply Hiff in Heq as (a & Ha1 & Ha2). by apply (Hdis a).
Qed.

Lemma X7_overlap_assertion_is_exact_witness :
  ∃ b, NDIS_ASSERT_NBL_CHAINS_DO_NOT_OVERLAP 4 (chain_heap [10; 20; 30; 40])
         (Some 10) (Some 30) = Some b ∧
       (b = true ↔ ∀ a, a ∈ [10; 20; 30; 40] → a ∉ [30; 40]).
Proof.
  apply (X7_overlap_assertion_is_exact 4 (chain_heap [10; 20; 30; 40])
           (Some 10) (Some 30) [10; 20; 30; 40] [30; 40]).
  - vm_compute. repeat split.
  - vm_compute. repeat split.
  - simpl. lia.
  - simpl. lia.
Defined.

(** X6: [NdisSetStatusInNblChain] sets the [Status] of every NBL of the chain
    to [NdisStatus] and leaves the [Status] of every other NBL as it was; for
    the empty chain nothing changes. *)
Theorem X6_NdisSetStatusInNblChain_sets_exactly_the_chain fuel h Status p l NdisStatus :
  is_chain h p l → length l < fuel →
  (∀ a, a ∈ l → is_Some (Status !! a)) →
  ∃ Status',
    NdisSetStatusInNblChain fuel h Status p NdisStatus = Some Status' ∧
    (∀ a, a ∈ l → Status' !! a = Some NdisStatus) ∧
    (∀ a, a ∉ l → Status' !! a = Status !! a).
Proof.
  revert fuel Status p. induction l as [|b l IH]; intros fuel Status p Hl Hfuel Hal.
  all: destruct fuel as [|fuel]; [simpl in Hfuel; lia|].
  - unfold is_chain in Hl. simpl in Hl. subst p. exists Status.
    split; [done|]. split; [|done]. intros a Ha. by apply elem_of_nil in Ha.
  - pose proof (is_chain_NoDup _ _ _ Hl) as Hnd. apply NoDup_cons in Hnd as [Hb _].
    apply lseg_cons in Hl as [-> (nx & Hnx & Hl)]. simpl in Hfuel. simpl.
    destruct (Hal b) as [x Hx]; [left|]. rewrite Hx. simpl.
    unfold load. rewrite Hnx. simpl.
    destruct (IH fuel (<[b := NdisStatus]> Status) nx Hl) as (S' & -> & Hin & Hout);
      [lia | |].
    { intros a Ha. rewrite lookup_insert. case_decide; [done|]. apply Hal. by right. }
    exists S'. split; [done|]. split.
    + intros a [->|Ha]%elem_of_cons; [|by apply Hin].
      rewrite Hout by done. apply lookup_insert_eq.
    + intros a Ha. apply not_elem_of_cons in Ha as [Hab Ha].
      rewrite Hout by done. by apply lookup_insert_ne.
Qed.

Lemma X6_NdisSetStatusInNblChain_sets_exactly_the_chain_witness :
  ∃ Status',
    NdisSetStatusInNblChain 3 (chain_heap [10; 20; 30]) example_status (Some 20) 5%N
      = Some Status' ∧
    (∀ a, a ∈ [20; 30] → Status' !! a = Some 5%N) ∧
    (∀ a, a ∉ [20; 30] → Status' !! a = example_status !! a).
Proof.
  apply (X6_NdisSetStatusInNblChain_sets_exactly_the_chain 3 (chain_heap [10; 20; 30])
           example_status (Some 20) [20; 30] 5%N).
  - vm_compute. repeat split.
  - simpl. lia.
  - intros a Ha. apply elem_of_cons in Ha as [->|Ha]; [by eexists|].
    apply elem_of_cons in Ha as [->|Ha]; [by eexists|]. by apply elem_of_nil in Ha.
Defined.

Lemma nb_chain_cons nbs p a l :
  is_nb_chain nbs p (a :: l) →
  p = Some a ∧ ∃ nb, nbs !! a = Some nb ∧ is_nb_chain nbs (NbNext nb) l.
Proof.
  unfold is_nb_chain, is_chain. intros [-> (nx & Hnx & Hl)]%lseg_cons. split; [done|].
  rewrite lookup_fmap in Hnx. apply fmap_Some in Hnx as (nb & Hnb & ->). eauto.
Qed.

Lemma NdisNumNbsInNbChain_loop_spec nbs l :
  ∀ fuel p Count,
  is_nb_chain nbs p l → length l < fuel →
  NdisNumNbsInNbChain_loop fuel nbs p Count
  = Some (if l is [] then Count
          else ((Count + N.of_nat (length l)) mod (ULONG_MAX + 1))%N).
Proof.
  induction l as [|a l IH]; intros fuel p Count Hl Hfuel.
  all: destruct fuel as [|fuel]; [simpl in Hfuel; lia|].
  - unfold is_nb_chain, is_chain in Hl. simpl in Hl. by subst p.
  - apply nb_chain_cons in Hl as [-> (nb & Hnb & Hl)]. simpl in Hfuel. simpl.
    rewrite Hnb. simpl. rewrite (IH fuel _ _ Hl) by lia.
    f_equal. destruct l as [|b l]; [done|].
    rewrite N.Div0.add_mod_idemp_l. f_equal. simpl length. lia.
Qed.

Lemma NdisNumNbsInNbChain_spec nbs l fuel p :
  is_nb_chain nbs p l → length l < fuel →
  NdisNumNbsInNbChain fuel nbs p = Some (N.of_nat (length l) mod (ULONG_MAX + 1))%N.
Proof.
  intros Hl Hfuel. unfold NdisNumNbsInNbChain.
  rewrite (NdisNumNbsInNbChain_loop_spec nbs l fuel p 0%N Hl Hfuel).
  by destruct l.
Qed.

Lemma NdisNumDataBytesInNbChain_loop_spec nbs l :
  ∀ fuel p ByteCount,
  is_nb_chain nbs p l → length l < fuel →
  NdisNumDataBytesInNbChain_loop fuel nbs p ByteCount
  = Some (if l is [] then ByteCount
          else ((ByteCount + data_bytes nbs l) mod (ULONG64_MAX + 1))%N).
Proof.
  induction l as [|a l IH]; intros fuel p ByteCount Hl Hfuel.
  all: destruct fuel as [|fuel]; [simpl in Hfuel; lia|].
  - unfold is_nb_chain, is_chain in Hl. simpl in Hl. by subst p.
  - apply nb_chain_cons in Hl as [-> (nb & Hnb & Hl)]. simpl in Hfuel. simpl.
    rewrite Hnb. simpl. rewrite (IH fuel _ _ Hl) by lia.
    f_equal. destruct l as [|b l].
    + simpl. by rewrite N.add_0_r.
    + rewrite N.Div0.add_mod_idemp_l. f_equal. lia.
Qed.

Lemma NdisNumDataBytesInNbChain_spec nbs l fuel p :
  is_nb_chain nbs p l → length l < fuel →
  NdisNumDataBytesInNbChain fuel nbs p
  = Some (data_bytes nbs l mod (ULONG64_MAX + 1))%N.
Proof.
  intros Hl Hfuel. unfold NdisNumDataBytesInNbChain.
  rewrite (NdisNumDataBytesInNbChain_loop_spec nbs l fuel p 0%N Hl Hfuel).
  by destruct l.
Qed.

Lemma data_bytes_app nbs l1 l2 :
  data_bytes nbs (l1 ++ l2) = (data_bytes nbs l1 + data_bytes nbs l2)%N.
Proof. induction l1 as [|a l1 IH]; simpl; [done|]. rewrite IH. lia. Qed.

Lemma NdisNumNbsInNblChain_loop_spec h FirstNetBuffer nbs nbls :
  ∀ fuel p nbss Count,
  is_chain h p nbls → nbl_nb_chains FirstNetBuffer nbs nbls nbss →
  length nbls + length (mjoin nbss) < fuel →
  (Count < ULONG_MAX + 1)%N →
  NdisNumNbsInNblChain_loop fuel h FirstNetBuffer nbs p Count
  = Some ((Count + N.of_nat (length (mjoin nbss))) mod (ULONG_MAX + 1))%N.
Proof.
  induction nbls as [|a nbls IH]; intros fuel p nbss Count Hl Hnb Hfuel HCount.
  all: destruct fuel as [|fuel]; [simpl in Hfuel; lia|].
  - apply Forall2_nil_inv_l in Hnb as ->.
    unfold is_chain in Hl. simpl in Hl. subst p. simpl.
    f_equal. rewrite N.add_0_r. symmetry. by apply N.mod_small.
  - apply Forall2_cons_inv_l in Hnb as (nbs0 & nbss' & (first & Hfirst & Hnbs0) & Hnb & ->).
    apply lseg_cons in Hl as [-> (nx & Hnx & Hl)].
    simpl in Hfuel. rewrite length_app in Hfuel. simpl.
    rewrite Hfirst. simpl.
    rewrite (NdisNumNbsInNbChain_spec nbs nbs0) by (done || lia). simpl.
    unfold load. rewrite Hnx. simpl.
    rewrite (IH fuel nx nbss') by (done || lia || by apply N.mod_upper_bound).
    f_equal. rewrite N.Div0.add_mod_idemp_r, N.Div0.add_mod_idemp_l.
    f_equal. rewrite length_app. lia.
Qed.

(** X4: [NdisNumNbsInNblChain] returns the number of NET_BUFFERs of all the
    NBLs of the chain together (modulo 2^32, the ULONG counter); for the empty
    chain it returns 0. *)
Theorem X4_NdisNumNbsInNblChain_is_total fuel h FirstNetBuffer nbs p nbls nbss :
  is_chain h p nbls → nbl_nb_chains FirstNetBuffer nbs nbls nbss →
  length nbls + length (mjoin nbss) < fuel →
  NdisNumNbsInNblChain fuel h FirstNetBuffer nbs p
  = Some (N.of_nat (length (mjoin nbss)) mod (ULONG_MAX + 1))%N.
Proof.
  intros Hl Hnb Hfuel. unfold NdisNumNbsInNblChain.
  by rewrite (NdisNumNbsInNblChain_loop_spec h FirstNetBuffer nbs nbls fuel p nbss 0%N).
Qed.

Lemma NdisNumDataBytesInNblChain_loop_spec h FirstNetBuffer nbs nbls :
  ∀ fuel p nbss ByteCount,
  is_chain h p nbls → nbl_nb_chains FirstNetBuffer nbs nbls nbss →
  length nbls + length (mjoin nbss) < fuel →
  (ByteCount < ULONG64_MAX + 1)%N →
  NdisNumDataBytesInNblChain_loop fuel h FirstNetBuffer nbs p ByteCount
  = Some ((ByteCount + data_bytes nbs (mjoin nbss)) mod (ULONG64_MAX + 1))%N.
Proof.
  induction nbls as [|a nbls IH]; intros fuel p nbss ByteCount Hl Hnb Hfuel HCount.
  all: destruct fuel as [|fuel]; [simpl in Hfuel; lia|].
  - apply Forall2_nil_inv_l in Hnb as ->.
    unfold is_chain in Hl. simpl in Hl. subst p. simpl.
    f_equal. rewrite N.add_0_r. symmetry. by apply N.mod_small.
  - apply Forall2_cons_inv_l in Hnb as (nbs0 & nbss' & (first & Hfirst & Hnbs0) & Hnb & ->).
    apply lseg_cons in Hl as [-> (nx & Hnx & Hl)].
    simpl in Hfuel. rewrite length_app in Hfuel. simpl.
    rewrite Hfirst. simpl.
    rewrite (NdisNumDataBytesInNbChain_spec nbs nbs0) by (done || lia). simpl.
    unfold load. rewrite Hnx. simpl.
    rewrite (IH fuel nx nbss') by (done || lia || by apply N.mod_upper_bound).
    f_equal. rewrite N.Div0.add_mod_idemp_r, N.Div0.add_mod_idemp_l.
    f_equal. rewrite data_bytes_app. lia.
Qed.

(** X5: [NdisNumDataBytesInNblChain] returns the sum of the [DataLength] of
    all the NET_BUFFERs of all the NBLs of the chain (modulo 2^64, the ULONG64
    accumulator); for the empty chain it returns 0. *)
Theorem X5_NdisNumDataBytesInNblChain_is_total fuel h FirstNetBuffer nbs p nbls nbss :
  is_chain h p nbls → nbl_nb_chains FirstNetBuffer nbs nbls nbss →
  length nbls + length (mjoin nbss) < fuel →
  NdisNumDataBytesInNblChain fuel h FirstNetBuffer nbs p
  = Some (data_bytes nbs (mjoin nbss) mod (ULONG64_MAX + 1))%N.
Proof.
  intros Hl Hnb Hfuel. unfold NdisNumDataBytesInNblChain.
  by rewrite (NdisNumDataBytesInNblChain_loop_spec h FirstNetBuffer nbs nbls fuel p
                nbss 0%N).
Qed.

Lemma X4_NdisNumNbsInNblChain_is_total_witness :
  NdisNumNbsInNblChain 7 (chain_heap [10; 20; 30]) example_FirstNetBuffer example_nbs
    (Some 10)
  = Some (N.of_nat (length (mjoin example_nbss)) mod (ULONG_MAX + 1))%N.
Proof.
  apply (X4_NdisNumNbsInNblChain_is_total 7 (chain_heap [10; 20; 30])
           example_FirstNetBuffer example_nbs (Some 10) [10; 20; 30]
           example_nbss).
  - vm_compute. repeat split.
  - repeat constructor.
    + exists (Some 100). split; [reflexivity|]. vm_compute. repeat split.
    + exists None. split; [reflexivity|]. vm_compute. repeat split.
    + exists (Some 200). split; [reflexivity|]. vm_compute. repeat split.
  - simpl. lia.
Defined.

Lemma X5_NdisNumDataBytesInNblChain_is_total_witness :
  NdisNumDataBytesInNblChain 7 (chain_heap [10; 20; 30]) example_FirstNetBuffer
    example_nbs (Some 10)
  = Some (data_bytes example_nbs (mjoin example_nbss)
          mod (ULONG64_MAX + 1))%N.
Proof.
  apply (X5_NdisNumDataBytesInNblChain_is_total 7 (chain_heap [10; 20; 30])
           example_FirstNetBuffer example_nbs (Some 10) [10; 20; 30]
           example_nbss).
  - vm_compute. repeat split.
  - repeat constructor.
    + exists (Some 100). split; [reflexivity|]. vm_compute. repeat split.
    + exists None. split; [reflexivity|]. vm_compute. repeat split.
    + exists (Some 200). split; [reflexivity|]. vm_compute. repeat split.
  - simpl. lia.
Defined.

(** * More of nblclassify.h *)

(** X8: [NdisClassifyNblChain2] appends to [Queue0] exactly the NBLs of the
    chain classified 0 and to [Queue1] all the others, also those classified
    neither 0 nor 1, each after what the queue held and in chain order. *)
Theorem X8_NdisClassifyNblChain2_splits_by_zero cb fuel h NblChain l Q0 Q1 l0 l1 :
  is_chain h (Some NblChain) l → length l ≤ fuel →
  is_queue h Q0 l0 → is_queue h Q1 l1 → NoDup (l0 ++ l1 ++ l) →
  ∃ h' Queue0 Queue1,
    NdisClassifyNblChain2 cb fuel h NblChain Q0 Q1 = Some (h', Queue0, Queue1) ∧
    is_queue h' Queue0 (l0 ++ filter (λ n, cb n = 0%N) l) ∧
    is_queue h' Queue1 (l1 ++ filter (λ n, cb n ≠ 0%N) l) ∧
    (∀ n, n ∈ l → (1 < cb n)%N → n ∈ filter (λ n, cb n ≠ 0%N) l).
Proof.
  intros Hl Hfuel HQ0 HQ1 Hnd.
  destruct (NdisClassifyNblChain2_spec cb fuel h NblChain l Q0 Q1 l0 l1)
    as (h' & Q0' & Q1' & Heq & H0 & H1); [done..|].
  exists h', Q0', Q1'. repeat (split; [done|]).
  intros n Hn Hcb. apply list_elem_of_filter. split; [lia | done].
Qed.

Lemma X8_NdisClassifyNblChain2_splits_by_zero_witness :
  ∃ h' Queue0 Queue1,
    NdisClassifyNblChain2 example_selector3 5 example_chain5 10
      NdisInitializeNblQueue NdisInitializeNblQueue = Some (h', Queue0, Queue1) ∧
    is_queue h' Queue0 ([] ++ filter (λ n, example_selector3 n = 0%N) [10; 20; 30; 40; 50]) ∧
    is_queue h' Queue1 ([] ++ filter (λ n, example_selector3 n ≠ 0%N) [10; 20; 30; 40; 50]) ∧
    (∀ n, n ∈ [10; 20; 30; 40; 50] → (1 < example_selector3 n)%N →
       n ∈ filter (λ n, example_selector3 n ≠ 0%N) [10; 20; 30; 40; 50]).
Proof.
  apply (X8_NdisClassifyNblChain2_splits_by_zero example_selector3 5 example_chain5 10
           [10; 20; 30; 40; 50] NdisInitializeNblQueue NdisInitializeNblQueue [] []).
  - vm_compute. repeat split.
  - simpl. lia.
  - apply is_queue_init.
  - apply is_queue_init.
  - vm_compute. compute_done.
Defined.

(** A two-way classification by comparing a field with a given value. *)
Lemma classify_by_field_spec (field : NET_BUFFER_LIST → PVOID) (v : PVOID) cb
    fuel h NblChain l Q0 Q1 l0 l1 :
  (∀ n, cb n = if decide (field n = v) then 1%N else 0%N) →
  is_chain h (Some NblChain) l → length l ≤ fuel →
  is_queue h Q0 l0 → is_queue h Q1 l1 → NoDup (l0 ++ l1 ++ l) →
  ∃ h' Q0' Q1',
    NdisClassifyNblChain2 cb fuel h NblChain Q0 Q1 = Some (h', Q0', Q1') ∧
    is_queue h' Q0' (l0 ++ filter (λ n, field n ≠ v) l) ∧
    is_queue h' Q1' (l1 ++ filter (λ n, field n = v) l).
Proof.
  intros Hcb Hl Hfuel HQ0 HQ1 Hnd.
  destruct (NdisClassifyNblChain2_spec cb fuel h NblChain l Q0 Q1 l0 l1)
    as (h' & Q0' & Q1' & Heq & H0 & H1); [done..|].
  exists h', Q0', Q1'. split; [done|].
  rewrite (list_filter_iff (λ n, field n ≠ v) (λ n, cb n = 0%N)).
  - rewrite (list_filter_iff (λ n, field n = v) (λ n, cb n ≠ 0%N)); [done|].
    intros n. rewrite Hcb. case_decide; naive_solver.
  - intros n. rewrite Hcb. case_decide; naive_solver.
Qed.

(** X9: [NdisClassifyNblChainByCancelId], [NdisClassifyNblChainBySourceHandle]
    and [NdisClassifyNblChainByPoolHandle] append the NBLs of the chain whose
    cancel id, source handle or pool handle equals the given value to the
    second queue and all the others to the first queue, in chain order. *)
Theorem X9_predefined_classifiers_split_by_field nbl fuel h NblChain l v Q0 Q1 l0 l1 :
  is_chain h (Some NblChain) l → length l ≤ fuel →
  is_queue h Q0 l0 → is_queue h Q1 l1 → NoDup (l0 ++ l1 ++ l) →
  (∃ h' KeepQueue CancelQueue,
     NdisClassifyNblChainByCancelId nbl fuel h NblChain v Q0 Q1
       = Some (h', KeepQueue, CancelQueue) ∧
     is_queue h' KeepQueue (l0 ++ filter (λ n, NetBufferListCancelId nbl n ≠ v) l) ∧
     is_queue h' CancelQueue (l1 ++ filter (λ n, NetBufferListCancelId nbl n = v) l)) ∧
  (∃ h' TheirQueue MyQueue,
     NdisClassifyNblChainBySourceHandle nbl fuel h NblChain v Q0 Q1
       = Some (h', TheirQueue, MyQueue) ∧
     is_queue h' TheirQueue (l0 ++ filter (λ n, SourceHandle nbl n ≠ v) l) ∧
     is_queue h' MyQueue (l1 ++ filter (λ n, SourceHandle nbl n = v) l)) ∧
  (∃ h' TheirQueue MyQueue,
     NdisClassifyNblChainByPoolHandle nbl fuel h NblChain v Q0 Q1
       = Some (h', TheirQueue, MyQueue) ∧
     is_queue h' TheirQueue (l0 ++ filter (λ n, NdisPoolHandle nbl n ≠ v) l) ∧
     is_queue h' MyQueue (l1 ++ filter (λ n, NdisPoolHandle nbl n = v) l)).
Proof.
  intros Hl Hfuel HQ0 HQ1 Hnd.
  split; [|split]; by apply classify_by_field_spec.
Qed.

Lemma X9_predefined_classifiers_split_by_field_witness :
  (∃ h' KeepQueue CancelQueue,
     NdisClassifyNblChainByCancelId example_fields 5 example_chain5 10 7%N
       NdisInitializeNblQueue NdisInitializeNblQueue = Some (h', KeepQueue, CancelQueue) ∧
     is_queue h' KeepQueue
       ([] ++ filter (λ n, NetBufferListCancelId example_fields n ≠ 7%N)
                [10; 20; 30; 40; 50]) ∧
     is_queue h' CancelQueue
       ([] ++ filter (λ n, NetBufferListCancelId example_fields n = 7%N)
                [10; 20; 30; 40; 50])) ∧
  (∃ h' TheirQueue MyQueue,
     NdisClassifyNblChainBySourceHandle example_fields 5 example_chain5 10 7%N
       NdisInitializeNblQueue NdisInitializeNblQueue = Some (h', TheirQueue, MyQueue) ∧
     is_queue h' TheirQueue
       ([] ++ filter (λ n, SourceHandle example_fields n ≠ 7%N) [10; 20; 30; 40; 50]) ∧
     is_queue h' MyQueue
       ([] ++ filter (λ n, SourceHandle example_fields n = 7%N) [10; 20; 30; 40; 50])) ∧
  (∃ h' TheirQueue MyQueue,
     NdisClassifyNblChainByPoolHandle example_fields 5 example_chain5 10 7%N
       NdisInitializeNblQueue NdisInitializeNblQueue = Some (h', TheirQueue, MyQueue) ∧
     is_queue h' TheirQueue
       ([] ++ filter (λ n, NdisPoolHandle example_fields n ≠ 7%N) [10; 20; 30; 40; 50]) ∧
     is_queue h' MyQueue
       ([] ++ filter (λ n, NdisPoolHandle example_fields n = 7%N) [10; 20; 30; 40; 50])).
Proof.
  apply (X9_predefined_classifiers_split_by_field example_fields 5 example_chain5 10
           [10; 20; 30; 40; 50] 7%N NdisInitializeNblQueue NdisInitializeNblQueue [] []).
  - vm_compute. repeat split.
  - simpl. lia.
  - apply is_queue_init.
  - apply is_queue_init.
  - vm_compute. compute_done.
Defined.

(** ** The lookahead classifier: depth 1, batches, few classifications *)

Lemma lookahead_batches_depth1 cb rest :
  ∀ T run, lookahead_batches 1 cb [(T, [])] 0 run rest = runs_from cb T run rest.
Proof.
  induction rest as [|n rest IH]; intros T run; [done|].
  cbn [lookahead_batches runs_from]. unfold lookahead_step. simpl.
  destruct (decide (T ≠ cb n)) as [Hne|Heq].
  - rewrite (decide_True (P := cb n ≠ T)) by congruence.
    rewrite decide_False by done. simpl. by rewrite IH.
  - rewrite decide_False by (intros ?; apply Heq; congruence). simpl. apply IH.
Qed.

(** X10: with a lookahead depth of 1, [NdisClassifyNblChainByValueLookahead]
    makes the flush calls of [NdisClassifyNblChainByValue]: the same
    classification results with the same batches, in the same order. *)
Theorem X10_lookahead_depth1_is_eager cb fuel h a l :
  is_chain h (Some a) l → length l ≤ fuel →
  ∃ batches h1 calls1 h2 calls2,
    NdisClassifyNblChainByValueLookahead 1 cb fuel h a = Some (h1, calls1) ∧
    NdisClassifyNblChainByValue cb fuel h a = Some (h2, calls2) ∧
    Forall2 delivers calls1 batches ∧ Forall2 delivers calls2 batches ∧
    batches = runs_from cb (cb a) [a] (tail l).
Proof.
  intros Hl Hfuel.
  destruct (NdisClassifyNblChainByValueLookahead_spec 1 cb fuel h a l)
    as (h1 & calls1 & Heq1 & H1); [lia | done | done |].
  destruct (NdisClassifyNblChainByValue_spec cb fuel h a l)
    as (h2 & calls2 & Heq2 & H2); [done..|].
  rewrite lookahead_batches_depth1 in H1. eauto 10.
Qed.

Lemma X10_lookahead_depth1_is_eager_witness :
  ∃ batches h1 calls1 h2 calls2,
    NdisClassifyNblChainByValueLookahead 1 example_alternate 6
      (chain_heap [10; 20; 30; 40; 50; 60]) 10 = Some (h1, calls1) ∧
    NdisClassifyNblChainByValue example_alternate 6
      (chain_heap [10; 20; 30; 40; 50; 60]) 10 = Some (h2, calls2) ∧
    Forall2 delivers calls1 batches ∧ Forall2 delivers calls2 batches ∧
    batches = runs_from example_alternate (example_alternate 10) [10]
                (tail [10; 20; 30; 40; 50; 60]).
Proof.
  apply (X10_lookahead_depth1_is_eager example_alternate 6
           (chain_heap [10; 20; 30; 40; 50; 60]) 10 [10; 20; 30; 40; 50; 60]).
  - vm_compute. repeat split.
  - simpl. lia.
Defined.

(** A step keeps every slot but the current one non-empty, and flushes no
    empty batch. *)
Lemma lookahead_step_nonempty K cb slots pi run n slots' pi' run' fl :
  pi < length slots → length slots ≤ K → run ≠ [] →
  (∀ i k l, slots !! i = Some (k, l) → i ≠ pi → l ≠ []) →
  lookahead_step K cb slots pi run n = (slots', pi', run', fl) →
  run' ≠ [] ∧
  (∀ i k l, slots' !! i = Some (k, l) → i ≠ pi' → l ≠ []) ∧
  Forall (λ kb, kb.2 ≠ []) fl.
Proof.
  intros Hpi HK Hrun Hne. unfold lookahead_step.
  destruct (lookup_lt_is_Some_2 slots pi Hpi) as [[T l] HT]. rewrite HT.
  assert (H1 : ∀ i k l, slots_append slots pi run !! i = Some (k, l) → l ≠ []).
  { intros i k0 l0 Hi. destruct (decide (pi = i)) as [<-|Hip].
    - rewrite (slots_append_lookup_eq _ _ _ _ _ HT) in Hi. injection Hi as <- <-.
      intros [_ ?]%app_eq_nil. done.
    - rewrite slots_append_lookup_ne in Hi by done. by eapply Hne. }
  case_decide as HTn.
  - destruct (list_find _ (slots_append slots pi run)) as [[j x]|] eqn:E.
    + intros [= <- <- <- <-]. split; [done|]. split; [|constructor].
      intros i k0 l0 Hi _. by eapply H1.
    + case_decide as HlK.
      * intros [= <- <- <- <-]. split; [done|]. split; [|constructor].
        intros i k0 l0 Hi Hil. eapply (H1 i k0).
        rewrite lookup_app_l in Hi; [done|].
        apply lookup_lt_Some in Hi. rewrite length_app in Hi. simpl in Hi. lia.
      * intros [= <- <- <- <-]. split; [done|]. split.
        -- intros i k0 l0 Hi Hie. rewrite list_lookup_insert_ne in Hi by done.
           by eapply H1.
        -- destruct (slots_append slots pi run !! ((pi + 1) mod K)) as [[ke le]|] eqn:E';
             simpl; [|constructor].
           constructor; [|constructor]. simpl. by eapply H1.
  - intros [= <- <- <- <-]. split; [|split; [done | constructor]].
    intros [? _]%app_eq_nil. done.
Qed.

Lemma lookahead_batches_nonempty K cb rest :
  ∀ slots pi run,
  pi < length slots → length slots ≤ K → run ≠ [] →
  (∀ i k l, slots !! i = Some (k, l) → i ≠ pi → l ≠ []) →
  Forall (λ kb, kb.2 ≠ []) (lookahead_batches K cb slots pi run rest).
Proof.
  induction rest as [|n rest IH]; intros slots pi run Hpi HK Hrun Hne; simpl.
  - apply Forall_forall. intros [k l] Hkl.
    apply list_elem_of_lookup in Hkl as [i Hi]. simpl.
    destruct (lookup_lt_is_Some_2 slots pi Hpi) as [[T l0] HT].
    destruct (decide (pi = i)) as [<-|Hip].
    + rewrite (slots_append_lookup_eq _ _ _ _ _ HT) in Hi. injection Hi as <- <-.
      intros [_ ?]%app_eq_nil. done.
    + rewrite slots_append_lookup_ne in Hi by done. by eapply Hne.
  - destruct (lookahead_step K cb slots pi run n) as [[[slots' pi'] run'] fl] eqn:E.
    destruct (lookahead_step_wf _ _ _ _ _ _ _ _ _ _ Hpi HK E) as (Hpi' & HK' & _).
    destruct (lookahead_step_nonempty _ _ _ _ _ _ _ _ _ _ Hpi HK Hrun Hne E)
      as (Hrun' & Hne' & Hfl).
    apply Forall_app. split; [done|]. by apply IH.
Qed.

(** X11: whatever the lookahead depth, every flush call of
    [NdisClassifyNblChainByValueLookahead] receives a queue that is not empty
    and whose NBLs are all classified as the classification result passed
    with it. *)
Theorem X11_lookahead_batches_nonempty_homogeneous K cb fuel h a l :
  is_chain h (Some a) l → length l ≤ fuel → 0 < K →
  ∃ h' calls batches,
    NdisClassifyNblChainByValueLookahead K cb fuel h a = Some (h', calls) ∧
    Forall2 delivers calls batches ∧
    Forall (λ kb, kb.2 ≠ [] ∧ Forall (λ n, cb n = kb.1) kb.2) batches.
Proof.
  intros Hl Hfuel HK.
  destruct (NdisClassifyNblChainByValueLookahead_spec K cb fuel h a l)
    as (h' & calls & Heq & Hc); [done..|].
  eexists _, _, _. split; [exact Heq|]. split; [exact Hc|].
  apply Forall_and. split.
  - apply lookahead_batches_nonempty; simpl; [lia | lia | done |].
    intros [|i] k l0 Hi Hi0; [done | done].
  - eapply Forall_impl.
    + apply (lookahead_batches_stable K cb (tail l) [a] [(cb a, [])] 0 [a]);
        [simpl; lia | simpl; lia |].
      intros [|i] k l0 Hi; [|done]. injection Hi as <- <-.
      split; [constructor|]. simpl. split; [done | by constructor].
    + intros kb [_ Hkb]. done.
Qed.

Lemma X11_lookahead_batches_nonempty_homogeneous_witness :
  ∃ h' calls batches,
    NdisClassifyNblChainByValueLookahead 2 example_ABCA 4 (chain_heap [10; 20; 30; 40]) 10
      = Some (h', calls) ∧
    Forall2 delivers calls batches ∧
    Forall (λ kb, kb.2 ≠ [] ∧ Forall (λ n, example_ABCA n = kb.1) kb.2) batches.
Proof.
  apply (X11_lookahead_batches_nonempty_homogeneous 2 example_ABCA 4
           (chain_heap [10; 20; 30; 40]) 10 [10; 20; 30; 40]).
  - vm_compute. repeat split.
  - simpl. lia.
  - lia.
Defined.

Lemma new_keys_NoDup seen ks : NoDup seen → NoDup (seen ++ new_keys seen ks).
Proof.
  revert seen. induction ks as [|k ks IH]; intros seen Hnd; simpl.
  - by rewrite app_nil_r.
  - case_decide as Hk; [by apply IH|].
    rewrite (cons_middle k seen), app_assoc. apply IH.
    apply NoDup_app. split; [done|]. split; [|apply NoDup_singleton].
    intros x Hx ->%list_elem_of_singleton. done.
Qed.

Lemma new_keys_not_seen seen ks k : NoDup seen → k ∈ new_keys seen ks → k ∉ seen.
Proof.
  intros Hnd Hk Hs. pose proof (new_keys_NoDup seen ks Hnd) as H.
  apply NoDup_app in H as (_ & H & _). by apply (H k).
Qed.

Lemma slots_extend_app cb r1 r2 slots :
  slots_extend cb r2 (slots_extend cb r1 slots) = slots_extend cb (r1 ++ r2) slots.
Proof.
  unfold slots_extend. rewrite <- list_fmap_compose. apply list_fmap_ext.
  intros i [k l] _. simpl. by rewrite filter_app, app_assoc.
Qed.

Lemma slots_extend_dist cb r (s1 s2 : slot_list) :
  slots_extend cb r (s1 ++ s2) = slots_extend cb r s1 ++ slots_extend cb r s2.
Proof. apply fmap_app. Qed.

Lemma slots_extend_skip cb T run r (slots : slot_list) :
  Forall (λ n, cb n = T) run → T ∉ slots.*1 →
  slots_extend cb (run ++ r) slots = slots_extend cb r slots.
Proof.
  intros Hrun HT. unfold slots_extend. apply list_fmap_ext.
  intros i [k l] Hi. simpl. rewrite filter_app, filter_none; [done|].
  eapply Forall_impl; [exact Hrun|]. intros n Hn Hk. simpl in *. apply HT.
  rewrite <- Hn, Hk. apply (list_elem_of_fmap_2 fst _ (k, l)).
  by eapply list_elem_of_lookup_2.
Qed.

(** Appending the run in progress to its slot, on slots with distinct
    classifications. *)
Lemma slots_append_extend cb slots pi run T l0 :
  slots !! pi = Some (T, l0) → Forall (λ n, cb n = T) run → NoDup slots.*1 →
  slots_append slots pi run = slots_extend cb run slots.
Proof.
  intros Hpi Hrun Hnd. unfold slots_extend. apply list_eq. intros i.
  rewrite list_lookup_fmap.
  destruct (decide (pi = i)) as [<-|Hne].
  - rewrite (slots_append_lookup_eq _ _ _ _ _ Hpi), Hpi. simpl.
    by rewrite filter_all.
  - rewrite slots_append_lookup_ne by done.
    destruct (slots !! i) as [[k l]|] eqn:Hi; [|done]. simpl.
    rewrite filter_none, app_nil_r; [done|].
    eapply Forall_impl; [exact Hrun|]. intros n Hn Hk. simpl in *. apply Hne.
    eapply (NoDup_lookup slots.*1 pi i T); [done|..].
    + by rewrite list_lookup_fmap, Hpi.
    + rewrite list_lookup_fmap, Hi. simpl. congruence.
Qed.

Lemma slots_extend_keys cb r slots : (slots_extend cb r slots).*1 = slots.*1.
Proof.
  unfold slots_extend. rewrite <- list_fmap_compose. by apply list_fmap_ext.
Qed.

(** When the slots suffice for all the classifications of the chain, no slot
    is ever evicted: every classification keeps its slot, and new ones take
    the next free slot. *)
Lemma lookahead_batches_no_eviction K cb rest :
  ∀ slots pi run T l0,
  slots !! pi = Some (T, l0) → Forall (λ n, cb n = T) run → NoDup slots.*1 →
  length slots + length (new_keys slots.*1 (cb <$> rest)) ≤ K →
  lookahead_batches K cb slots pi run rest =
  slots_extend cb (run ++ rest)
    (slots ++ ((λ k, (k, [])) <$> new_keys slots.*1 (cb <$> rest))).
Proof.
  induction rest as [|n rest IH]; intros slots pi run T l0 Hpi Hrun Hnd Hcap.
  - simpl. rewrite !app_nil_r. by eapply slots_append_extend.
  - cbn [lookahead_batches]. unfold lookahead_step. rewrite Hpi.
    assert (HTin : T ∈ slots.*1).
    { apply (list_elem_of_fmap_2 fst _ (T, l0)). by eapply list_elem_of_lookup_2. }
    rewrite fmap_cons in *. cbn [new_keys] in *.
    destruct (decide (T ≠ cb n)) as [HTn|HTn].
    + rewrite (slots_append_extend cb slots pi run T l0) by done.
      assert (Hskip : ∀ ks : list ULONG_PTR, (∀ k, k ∈ ks → k ∉ slots.*1) →
                slots_extend cb (n :: rest) ((λ k, (k, [])) <$> ks)
                = slots_extend cb (run ++ n :: rest) ((λ k, (k, [])) <$> ks)).
      { intros ks Hks. symmetry. eapply slots_extend_skip; [exact Hrun|].
        rewrite <- list_fmap_compose. simpl. rewrite list_fmap_id.
        intros HT. by apply (Hks T). }
      destruct (list_find _ (slots_extend cb run slots)) as [[j [kx lx]]|] eqn:E.
      * apply list_find_Some in E as (Hj & Hx & _). simpl in Hx. subst kx.
        assert (Hin : cb n ∈ slots.*1).
        { rewrite <- (slots_extend_keys cb run slots).
          apply (list_elem_of_fmap_2 fst _ (cb n, lx)). by eapply list_elem_of_lookup_2. }
        rewrite decide_True in * by done. simpl.
        rewrite (IH _ j [n] (cb n) lx); [|done|by repeat constructor|
          by rewrite slots_extend_keys|
          by rewrite slots_extend_keys; unfold slots_extend; rewrite length_fmap].
        rewrite slots_extend_keys.
        unfold slots_extend at 1 3. rewrite !fmap_app.
        fold (slots_extend cb ([n] ++ rest) (slots_extend cb run slots)).
        rewrite slots_extend_app. f_equal.
        apply Hskip. intros k Hk. by eapply new_keys_not_seen.
      * apply list_find_None in E.
        assert (Hnin : cb n ∉ slots.*1).
        { rewrite <- (slots_extend_keys cb run slots). intros Hin.
          apply list_elem_of_fmap in Hin as ([k l] & Hk & Hkl). simpl in Hk.
          rewrite Forall_forall in E. by apply (E _ Hkl). }
        rewrite decide_False in * by done. simpl in Hcap.
        assert (Hlen : length (slots_extend cb run slots) = length slots).
        { unfold slots_extend. by rewrite length_fmap. }
        rewrite decide_True by lia. simpl.
        assert (Hnd' : NoDup (slots.*1 ++ [cb n])).
        { apply NoDup_app. split; [done|]. split; [|apply NoDup_singleton].
          intros x Hx ->%list_elem_of_singleton. done. }
        rewrite (IH _ (length (slots_extend cb run slots)) [n] (cb n) []);
          [|by rewrite lookup_app_r, Nat.sub_diag by lia|by repeat constructor|
            by rewrite fmap_app, slots_extend_keys|
            rewrite fmap_app, slots_extend_keys, length_app, Hlen; simpl; lia].
        rewrite fmap_app, slots_extend_keys. simpl.
        rewrite <- app_assoc, !slots_extend_dist, slots_extend_app. f_equal.
        rewrite ?decide_False by done. rewrite <- slots_extend_dist.
        apply (Hskip (cb n :: new_keys (slots.*1 ++ [cb n]) (cb <$> rest))).
        intros k [->|Hk]%elem_of_cons; [done|].
        apply new_keys_not_seen in Hk; [|done].
        intros Hin. apply Hk. apply elem_of_app. by left.
    + assert (Hn : cb n = T) by (by apply dec_stable in HTn).
      rewrite Hn, decide_True in * by done. simpl.
      rewrite (IH slots pi (run ++ [n]) T l0); [|done| |done|done].
      * by rewrite <- app_assoc.
      * apply Forall_app. split; [done|]. by repeat constructor.
Qed.

(** X12: when the chain has at most [K] different classifications, the
    lookahead classifier of depth [K] makes one flush call per classification,
    in the order in which the classifications first appear in the chain, each
    with all the NBLs of that classification in chain order. *)
Theorem X12_lookahead_coalesces_up_to_depth K cb fuel h a l :
  is_chain h (Some a) l → length l ≤ fuel →
  length (first_seen (cb <$> l)) ≤ K →
  ∃ h' calls,
    NdisClassifyNblChainByValueLookahead K cb fuel h a = Some (h', calls) ∧
    Forall2 delivers calls (coalesced cb l).
Proof.
  intros Hl Hfuel HK. pose proof (chain_cons_tail _ _ _ Hl) as Hl'.
  rewrite Hl' in HK |- *. unfold coalesced, first_seen in *.
  rewrite fmap_cons in *. cbn [new_keys] in *.
  rewrite decide_False in * by apply not_elem_of_nil. simpl in HK.
  destruct (NdisClassifyNblChainByValueLookahead_spec K cb fuel h a l)
    as (h' & calls & Heq & Hc); [lia | done | done |].
  exists h', calls. split; [exact Heq|].
  rewrite (lookahead_batches_no_eviction K cb (tail l) [(cb a, [])] 0 [a] (cb a) [])
    in Hc; [|done|by repeat constructor|apply NoDup_singleton|simpl; lia].
  unfold slots_extend in Hc. simpl in Hc.
  rewrite <- list_fmap_compose in Hc. exact Hc.
Qed.

Lemma X12_lookahead_coalesces_up_to_depth_witness :
  ∃ h' calls,
    NdisClassifyNblChainByValueLookahead 2 example_alternate 6
      (chain_heap [10; 20; 30; 40; 50; 60]) 10 = Some (h', calls) ∧
    Forall2 delivers calls (coalesced example_alternate [10; 20; 30; 40; 50; 60]).
Proof.
  apply (X12_lookahead_coalesces_up_to_depth 2 example_alternate 6
           (chain_heap [10; 20; 30; 40; 50; 60]) 10 [10; 20; 30; 40; 50; 60]).
  - vm_compute. repeat split.
  - simpl. lia.
  - vm_compute. lia.
Defined.

(** ** The counted classifiers *)

(** Side conditions that an NBL is outside some lists. *)
Ltac not_elem_solver :=
  rewrite ?not_elem_of_app, ?not_elem_of_cons in *;
  repeat split; first [tauto | apply not_elem_of_nil].

Lemma SIZE_T_add_count (run : list NET_BUFFER_LIST) (n : NET_BUFFER_LIST) :
  SIZE_T_add (N.of_nat (length run) mod (SIZE_T_MAX + 1)) 1
  = (N.of_nat (length (run ++ [n])) mod (SIZE_T_MAX + 1))%N.
Proof.
  unfold SIZE_T_add. rewrite N.Div0.add_mod_idemp_l. f_equal.
  rewrite length_app. simpl. lia.
Qed.

Lemma is_counted_queue_start h Q l0 :
  is_queue h (Queue Q) l0 → (NblCount Q < SIZE_T_MAX + 1)%N →
  is_counted_queue h Q l0 (NblCount Q) [].
Proof.
  intros HQ Hc. split; [by rewrite app_nil_r|].
  simpl. rewrite N.add_0_r. symmetry. by apply N.mod_small.
Qed.

Lemma is_counted_queue_agree h h' Q l0 c0 b :
  (∀ a, a ∈ l0 ++ b → h' !! a = h !! a) →
  is_counted_queue h Q l0 c0 b → is_counted_queue h' Q l0 c0 b.
Proof. intros Hag [H1 H2]. split; [by eapply is_queue_agree | done]. Qed.

(** The counted append, called with the length of the segment. *)
Lemma NdisAppendNblChainToNblCountedQueueFast_spec h Q l0 c0 b f t run q Count :
  is_counted_queue h Q l0 c0 b → lseg h (Some f) run q → last run = Some t →
  NoDup ((l0 ++ b) ++ run) →
  Count = (N.of_nat (length run) mod (SIZE_T_MAX + 1))%N →
  ∃ h' Q', NdisAppendNblChainToNblCountedQueueFast h Q f t Count = Some (h', Q') ∧
    is_counted_queue h' Q' l0 c0 (b ++ run) ∧
    (∀ a, a ∉ l0 ++ b → a ∉ run → h' !! a = h !! a).
Proof.
  intros [HQ HC] Hrun Hlast Hnd ->.
  unfold NdisAppendNblChainToNblCountedQueueFast.
  destruct (NdisAppendNblChainToNblQueueFast_spec h (Queue Q) (l0 ++ b) f t run q)
    as (h' & Q' & -> & HQ' & Hfr & _); [done..|].
  simpl. eexists _, _. split; [done|]. split; [|done].
  split; simpl.
  - by rewrite app_assoc.
  - rewrite HC. unfold SIZE_T_add.
    rewrite N.Div0.add_mod_idemp_l, N.Div0.add_mod_idemp_r. f_equal.
    rewrite length_app. lia.
Qed.

Lemma NdisAppendNblChainToNblCountedQueueFast_after_cut h h1 Q f t Count :
  store h t NULL = Some h1 →
  NdisAppendNblChainToNblCountedQueueFast h1 Q f t Count
  = NdisAppendNblChainToNblCountedQueueFast h Q f t Count.
Proof.
  intros H. unfold NdisAppendNblChainToNblCountedQueueFast.
  by rewrite (NdisAppendNblChainToNblQueueFast_after_cut h h1).
Qed.

Section Classify2WithCount_correct.

Variable cb : NET_BUFFER_LIST → N.

Lemma NdisClassifyNblChain2WithCount_append_spec h cur Q0 Q1 l0 l1 c0 c1 b0 b1
    f t run q Count :
  is_counted_queue h Q0 l0 c0 b0 → is_counted_queue h Q1 l1 c1 b1 →
  lseg h (Some f) run q → last run = Some t →
  NoDup ((l0 ++ b0) ++ (l1 ++ b1) ++ run) →
  Count = (N.of_nat (length run) mod (SIZE_T_MAX + 1))%N →
  ∃ h' Q0' Q1',
    NdisClassifyNblChain2WithCount_append h cur Q0 Q1 f t Count = Some (h', Q0', Q1') ∧
    is_counted_queue h' Q0' l0 c0 (if decide (cur = 0%N) then b0 ++ run else b0) ∧
    is_counted_queue h' Q1' l1 c1 (if decide (cur = 0%N) then b1 else b1 ++ run) ∧
    (∀ a, a ∉ l0 ++ b0 → a ∉ l1 ++ b1 → a ∉ run → h' !! a = h !! a).
Proof.
  intros HQ0 HQ1 Hrun Hlast Hnd HCount.
  unfold NdisClassifyNblChain2WithCount_append. case_decide.
  - destruct (NdisAppendNblChainToNblCountedQueueFast_spec h Q0 l0 c0 b0 f t run q Count)
      as (h' & Q' & -> & HQ' & Hfr); [done..| |done|].
    { nodup_solver. }
    simpl. eexists _, _, _. split; [done|]. split; [done|]. split; [|by auto].
    eapply is_counted_queue_agree; [|exact HQ1]. intros a Ha. apply Hfr.
    all: nodup_solver.
  - destruct (NdisAppendNblChainToNblCountedQueueFast_spec h Q1 l1 c1 b1 f t run q Count)
      as (h' & Q' & -> & HQ' & Hfr); [done..| |done|].
    { nodup_solver. }
    simpl. eexists _, _, _. split; [done|]. split; [|split; [done | by auto]].
    eapply is_counted_queue_agree; [|exact HQ0]. intros a Ha. apply Hfr.
    all: nodup_solver.
Qed.

Lemma NdisClassifyNblChain2WithCount_loop_spec rest :
  ∀ fuel h Nbl F P cur Count Q0 Q1 l0 l1 c0 c1 b0 b1 run,
  length rest < fuel →
  lseg h (Some F) run Nbl → last run = Some P → is_chain h Nbl rest →
  is_counted_queue h Q0 l0 c0 b0 → is_counted_queue h Q1 l1 c1 b1 →
  NoDup ((l0 ++ b0) ++ (l1 ++ b1) ++ run ++ rest) →
  Forall (λ n, cb n = cur) run →
  Count = (N.of_nat (length run) mod (SIZE_T_MAX + 1))%N →
  ∃ h' Q0' Q1',
    NdisClassifyNblChain2WithCount_loop cb fuel h Nbl F P cur Count Q0 Q1
      = Some (h', Q0', Q1') ∧
    is_counted_queue h' Q0' l0 c0 (b0 ++ filter (λ n, cb n = 0%N) (run ++ rest)) ∧
    is_counted_queue h' Q1' l1 c1 (b1 ++ filter (λ n, cb n ≠ 0%N) (run ++ rest)) ∧
    (∀ a, a ∉ (l0 ++ b0) ++ (l1 ++ b1) ++ run ++ rest → h' !! a = h !! a).
Proof.
  induction rest as [|n rest IH]; intros fuel h Nbl F P cur Count Q0 Q1 l0 l1 c0 c1
    b0 b1 run Hfuel Hrun Hlast Hrest HQ0 HQ1 Hnd Hcur HCount.
  - destruct fuel as [|fuel]; [simpl in Hfuel; lia|].
    unfold is_chain in Hrest. simpl in Hrest. subst Nbl. simpl.
    rewrite app_nil_r in *.
    destruct (NdisClassifyNblChain2WithCount_append_spec h cur Q0 Q1 l0 l1 c0 c1 b0 b1
                F P run NULL Count)
      as (h' & Q0' & Q1' & -> & H0 & H1 & Hfr); [done..|].
    eexists _, _, _. split; [done|].
    assert (Hframe : ∀ a, a ∉ (l0 ++ b0) ++ (l1 ++ b1) ++ run → h' !! a = h !! a).
    { intros a Ha. apply Hfr; not_elem_solver. }
    case_decide; subst.
    + rewrite filter_all by done. rewrite filter_none, app_nil_r; [done|].
      eapply Forall_impl; [exact Hcur|]. naive_solver.
    + rewrite (filter_all (λ n, cb n ≠ 0%N)).
      * rewrite filter_none, app_nil_r; [done|].
        eapply Forall_impl; [exact Hcur|]. naive_solver.
      * eapply Forall_impl; [exact Hcur|]. naive_solver.
  - destruct fuel as [|fuel]; [simpl in Hfuel; lia|]. simpl in Hfuel.
    apply lseg_cons in Hrest as [-> (nx & Hnx & Hrest)]. simpl.
    assert (HP : P ∈ run) by by apply last_elem_of.
    assert (HPa : is_Some (h !! P)) by (eapply lseg_allocated; [exact Hrun | exact HP]).
    destruct (decide (cb n ≠ cur)) as [Hne|Hne].
    + rewrite store_Some by done. simpl.
      unfold NdisClassifyNblChain2WithCount_append.
      rewrite !(NdisAppendNblChainToNblCountedQueueFast_after_cut h (<[P:=NULL]> h))
        by (by apply store_Some).
      fold (NdisClassifyNblChain2WithCount_append h cur Q0 Q1 F P Count).
      destruct (NdisClassifyNblChain2WithCount_append_spec h cur Q0 Q1 l0 l1 c0 c1 b0 b1
                  F P run (Some n) Count)
        as (h' & Q0' & Q1' & -> & H0 & H1 & Hfr); [done..| |done|].
      { nodup_solver. }
      simpl. unfold load.
      assert (Hn : h' !! n = Some nx).
      { rewrite Hfr; [done|..]; nodup_solver. }
      rewrite Hn. simpl.
      odestruct (IH fuel h' nx n n (cb n) 1%N Q0' Q1' l0 l1 c0 c1 _ _ [n])
        as (h'' & Q0'' & Q1'' & -> & H0' & H1' & Hfr');
        [lia | | done | | exact H0 | exact H1 | | | done | ].
      * apply lseg_cons. split; [done|]. by exists nx.
      * eapply lseg_agree; [|exact Hrest]. intros a Ha. apply Hfr.
        all: nodup_solver.
      * eapply NoDup_Permutation_proper; [|exact Hnd].
        case_decide; solve_Permutation.
      * by constructor.
      * eexists _, _, _. split; [done|].
        assert (Hframe : ∀ a, a ∉ (l0 ++ b0) ++ (l1 ++ b1) ++ run ++ n :: rest →
                  h'' !! a = h !! a).
        { intros a Ha. rewrite Hfr'.
          - apply Hfr; not_elem_solver.
          - case_decide; not_elem_solver. }
        rewrite (cons_middle n run rest). rewrite !filter_app in *.
        case_decide; subst.
        -- rewrite (filter_all (λ n, cb n = 0%N) run) by done.
           rewrite (filter_none (λ n, cb n ≠ 0%N) run).
           ++ rewrite <- !app_assoc in H0'. done.
           ++ eapply Forall_impl; [exact Hcur|]. naive_solver.
        -- rewrite (filter_all (λ n, cb n ≠ 0%N) run).
           ++ rewrite (filter_none (λ n, cb n = 0%N) run).
              ** rewrite <- !app_assoc in H1'. done.
              ** eapply Forall_impl; [exact Hcur|]. naive_solver.
           ++ eapply Forall_impl; [exact Hcur|]. naive_solver.
    + assert (Hn : cb n = cur) by (by apply dec_stable in Hne).
      unfold load. rewrite Hnx. simpl.
      edestruct (IH fuel h nx F n cur (SIZE_T_add Count 1) Q0 Q1 l0 l1 c0 c1 b0 b1
                   (run ++ [n]))
        as (h'' & Q0'' & Q1'' & -> & H0' & H1' & Hfr');
        [lia | | apply last_snoc | done | done | done | | | | ].
      * apply lseg_snoc. done.
      * eapply NoDup_Permutation_proper; [|exact Hnd]. solve_Permutation.
      * apply Forall_app. split; [done|]. by constructor.
      * subst Count. apply SIZE_T_add_count.
      * eexists _, _, _. split; [done|]. rewrite <- !app_assoc in *. done.
Qed.

End Classify2WithCount_correct.

(** X13: [NdisClassifyNblChain2WithCount] appends to [Queue0] the NBLs of the
    chain classified 0 and to [Queue1] the others, like
    [NdisClassifyNblChain2], and adds to the count of each queue the number of
    NBLs it appended to it (modulo 2^64, the SIZE_T counter). *)
Theorem X13_NdisClassifyNblChain2WithCount_counts cb fuel h NblChain l Q0 Q1 l0 l1 :
  is_chain h (Some NblChain) l → length l ≤ fuel →
  is_queue h (Queue Q0) l0 → is_queue h (Queue Q1) l1 → NoDup (l0 ++ l1 ++ l) →
  (NblCount Q0 < SIZE_T_MAX + 1)%N → (NblCount Q1 < SIZE_T_MAX + 1)%N →
  ∃ h' Queue0 Queue1,
    NdisClassifyNblChain2WithCount cb fuel h NblChain Q0 Q1
      = Some (h', Queue0, Queue1) ∧
    is_queue h' (Queue Queue0) (l0 ++ filter (λ n, cb n = 0%N) l) ∧
    is_queue h' (Queue Queue1) (l1 ++ filter (λ n, cb n ≠ 0%N) l) ∧
    NblCount Queue0
      = ((NblCount Q0 + N.of_nat (length (filter (λ n, cb n = 0%N) l)))
         mod (SIZE_T_MAX + 1))%N ∧
    NblCount Queue1
      = ((NblCount Q1 + N.of_nat (length (filter (λ n, cb n ≠ 0%N) l)))
         mod (SIZE_T_MAX + 1))%N.
Proof.
  intros Hl Hfuel HQ0 HQ1 Hnd Hc0 Hc1.
  destruct l as [|a rest]; [done|].
  apply lseg_cons in Hl as [[= <-] (nx & Hnx & Hrest)]. simpl in Hfuel.
  unfold NdisClassifyNblChain2WithCount, load. rewrite Hnx. simpl.
  destruct (NdisClassifyNblChain2WithCount_loop_spec cb rest fuel h nx NblChain NblChain
              (cb NblChain) 1%N Q0 Q1 l0 l1 (NblCount Q0) (NblCount Q1) [] []
              [NblChain])
    as (h' & Q0' & Q1' & -> & [H0 H0c] & [H1 H1c] & _); try done.
  - apply lseg_cons. split; [done|]. by exists nx.
  - by apply is_counted_queue_start.
  - by apply is_counted_queue_start.
  - by rewrite !app_nil_r.
  - by constructor.
  - exists h', Q0', Q1'. done.
Qed.

Lemma X13_NdisClassifyNblChain2WithCount_counts_witness :
  ∃ h' Queue0 Queue1,
    NdisClassifyNblChain2WithCount example_selector 5 example_chain5 10
      NdisInitializeNblCountedQueue NdisInitializeNblCountedQueue
      = Some (h', Queue0, Queue1) ∧
    is_queue h' (Queue Queue0)
      ([] ++ filter (λ n, example_selector n = 0%N) [10; 20; 30; 40; 50]) ∧
    is_queue h' (Queue Queue1)
      ([] ++ filter (λ n, example_selector n ≠ 0%N) [10; 20; 30; 40; 50]) ∧
    NblCount Queue0
      = N.modulo
          (N.add (NblCount NdisInitializeNblCountedQueue)
             (N.of_nat (length (filter (λ n, example_selector n = 0%N)
                                  [10; 20; 30; 40; 50]))))
          (N.add SIZE_T_MAX 1) ∧
    NblCount Queue1
      = N.modulo
          (N.add (NblCount NdisInitializeNblCountedQueue)
             (N.of_nat (length (filter (λ n, example_selector n ≠ 0%N)
                                  [10; 20; 30; 40; 50]))))
          (N.add SIZE_T_MAX 1).
Proof.
  apply (X13_NdisClassifyNblChain2WithCount_counts example_selector 5 example_chain5 10
           [10; 20; 30; 40; 50] NdisInitializeNblCountedQueue
           NdisInitializeNblCountedQueue [] []).
  - vm_compute. repeat split.
  - simpl. lia.
  - apply is_queue_init.
  - apply is_queue_init.
  - vm_compute. compute_done.
  - vm_compute. reflexivity.
  - vm_compute. reflexivity.
Defined.

Section ByValueWithCount_correct.

Variable cb : NET_BUFFER_LIST → ULONG_PTR.

Lemma is_counted_queue_init h : is_counted_queue h NdisInitializeNblCountedQueue [] 0 [].
Proof. done. Qed.

Lemma NdisClassifyNblChainByValueWithCount_loop_spec rest :
  ∀ fuel h F P T run nx Count,
  length rest < fuel →
  lseg h (Some F) run nx → last run = Some P → is_chain h nx rest →
  NoDup (run ++ rest) →
  Count = (N.of_nat (length run) mod (SIZE_T_MAX + 1))%N →
  ∃ h' calls,
    NdisClassifyNblChainByValueWithCount_loop cb fuel h NdisInitializeNblCountedQueue
      F P P T Count = Some (h', calls) ∧
    Forall2 delivers_counted calls (runs_from cb T run rest) ∧
    (∀ a, a ∉ run ++ rest → h' !! a = h !! a).
Proof.
  induction rest as [|n rest IH]; intros fuel h F P T run nx Count
    Hfuel Hrun Hlast Hrest Hnd HCount.
  all: destruct fuel as [|fuel]; [simpl in Hfuel; lia|].
  all: assert (HP : P ∈ run) by by apply last_elem_of.
  all: pose proof (lseg_last _ _ _ _ _ Hrun Hlast) as HPn.
  all: simpl; unfold load; rewrite HPn; simpl.
  - unfold is_chain in Hrest. simpl in Hrest. subst nx.
    destruct (NdisAppendNblChainToNblCountedQueueFast_spec h NdisInitializeNblCountedQueue
                [] 0 [] F P run NULL Count)
      as (h' & Q' & -> & [HQ' HC'] & Hfr);
      [apply is_counted_queue_init | done | done | by rewrite app_nil_r in Hnd | done |].
    simpl. eexists _, _. split; [done|]. split.
    + constructor; [done | constructor].
    + intros a Ha. apply Hfr; not_elem_solver.
  - simpl in Hfuel.
    apply lseg_cons in Hrest as [-> (nx' & Hnx & Hrest)].
    destruct (decide (cb n = T)) as [Heq|Hne].
    + odestruct (IH fuel h F n T (run ++ [n]) nx' (SIZE_T_add Count 1))
        as (h'' & calls & -> & Hcalls & Hfr'); [lia | | apply last_snoc | done | | | ].
      * by apply lseg_snoc.
      * eapply NoDup_Permutation_proper; [|exact Hnd]. solve_Permutation.
      * subst Count. apply SIZE_T_add_count.
      * rewrite decide_False by (by intros ?).
        eexists _, _. split; [done|]. split; [done|].
        intros a Ha. apply Hfr'. by rewrite <- app_assoc.
    + rewrite store_Some by eauto. simpl.
      rewrite (NdisAppendNblChainToNblCountedQueueFast_after_cut h (<[P:=NULL]> h))
        by (apply store_Some; eauto).
      destruct (NdisAppendNblChainToNblCountedQueueFast_spec h
                  NdisInitializeNblCountedQueue [] 0 [] F P run (Some n) Count)
        as (h' & Q' & -> & [HQ' HC'] & Hfr);
        [apply is_counted_queue_init | done | done | simpl; nodup_solver | done |].
      simpl.
      odestruct (IH fuel h' n n (cb n) [n] nx' 1%N)
        as (h'' & calls & -> & Hcalls & Hfr');
        [lia | | done | | | done | ].
      * apply lseg_cons. split; [done|]. exists nx'. split; [|done].
        rewrite Hfr; [done | set_solver | nodup_solver].
      * eapply lseg_agree; [|exact Hrest]. intros a Ha.
        apply Hfr; [set_solver | nodup_solver].
      * nodup_solver.
      * simpl. rewrite decide_True by done.
        eexists _, _. split; [done|]. split.
        -- constructor; [|done]. done.
        -- intros a Ha. rewrite Hfr'; [apply Hfr|]; not_elem_solver.
Qed.

End ByValueWithCount_correct.

(** X14: [NdisClassifyNblChainByValueWithCount] makes one flush call per
    maximal run of equally classified NBLs, like
    [NdisClassifyNblChainByValue], and the count of every flushed queue is the
    number of NBLs of its batch (modulo 2^64, the SIZE_T counter). *)
Theorem X14_NdisClassifyNblChainByValueWithCount_counts_runs cb fuel h a l :
  is_chain h (Some a) l → length l ≤ fuel →
  ∃ h' calls,
    NdisClassifyNblChainByValueWithCount cb fuel h a = Some (h', calls) ∧
    Forall2 delivers_counted calls (runs_from cb (cb a) [a] (tail l)).
Proof.
  intros Hl Hfuel. pose proof (is_chain_NoDup _ _ _ Hl) as Hnd.
  destruct l as [|a' rest]; [done|].
  apply lseg_cons in Hl as [[= <-] (nx & Hnx & Hrest)]. simpl in Hfuel.
  destruct (NdisClassifyNblChainByValueWithCount_loop_spec cb rest fuel h a a
              (cb a) [a] nx 1%N) as (h' & calls & Heq & Hcalls & _); try done.
  - apply lseg_cons. split; [done|]. by exists nx.
  - eauto.
Qed.

Lemma X14_NdisClassifyNblChainByValueWithCount_counts_runs_witness :
  ∃ h' calls,
    NdisClassifyNblChainByValueWithCount example_selector 5 example_chain5 10
      = Some (h', calls) ∧
    Forall2 delivers_counted calls
      (runs_from example_selector (example_selector 10) [10]
         (tail [10; 20; 30; 40; 50])).
Proof.
  apply (X14_NdisClassifyNblChainByValueWithCount_counts_runs example_selector 5
           example_chain5 10 [10; 20; 30; 40; 50]).
  - vm_compute. repeat split.
  - simpl. lia.
Defined.

(** ** The last NET_BUFFER of a chain *)

Lemma NdisLastNbInNbChain_loop_fmap fuel nbs :
  ∀ Nb, NdisLastNbInNbChain_loop fuel nbs Nb
        = NdisLastNblInNblChain_loop fuel (NbNext <$> nbs) Nb.
Proof.
  induction fuel as [|fuel IH]; intros Nb; [done|].
  cbn [NdisLastNbInNbChain_loop NdisLastNblInNblChain_loop].
  unfold load. rewrite lookup_fmap. unfold NET_BUFFER_LIST.
  destruct (nbs !! Nb) as [nb|]; simpl; [|done].
  destruct (NbNext nb); [apply IH | done].
Qed.

Lemma NdisLastNbInNbChainWithCount_loop_fmap fuel nbs :
  ∀ Nb Count, NdisLastNbInNbChainWithCount_loop fuel nbs Nb Count
              = NdisLastNblInNblChainWithCount_loop fuel (NbNext <$> nbs) Nb Count.
Proof.
  induction fuel as [|fuel IH]; intros Nb Count; [done|].
  cbn [NdisLastNbInNbChainWithCount_loop NdisLastNblInNblChainWithCount_loop].
  unfold load. rewrite lookup_fmap. unfold NET_BUFFER_LIST.
  destruct (nbs !! Nb) as [nb|]; simpl; [|done].
  destruct (NbNext nb); [apply IH | done].
Qed.

(** X15: on a chain of one or more NET_BUFFERs [NdisLastNbInNbChain] returns
    the last NET_BUFFER, the one whose [Next] is NULL, and
    [NdisLastNbInNbChainWithCount] returns the same NET_BUFFER together with
    the number of NET_BUFFERs of the chain (modulo 2^64, the SIZE_T counter). *)
Theorem X15_NdisLastNbInNbChain_is_last fuel nbs a l :
  is_nb_chain nbs (Some a) l → length l ≤ fuel →
  ∃ t nb,
    NdisLastNbInNbChain fuel nbs a = Some t ∧
    NdisLastNbInNbChainWithCount fuel nbs a
      = Some (t, (N.of_nat (length l) mod (SIZE_T_MAX + 1))%N) ∧
    last l = Some t ∧ nbs !! t = Some nb ∧ NbNext nb = None.
Proof.
  unfold is_nb_chain. intros Hl Hfuel.
  destruct (NdisLastNblInNblChain_spec fuel _ a l Hl Hfuel) as (t & Ht & Hlast & Hnext).
  rewrite lookup_fmap in Hnext. apply fmap_Some in Hnext as (nb & Hnb & Hnone).
  exists t, nb. unfold NdisLastNbInNbChain, NdisLastNbInNbChainWithCount.
  rewrite NdisLastNbInNbChain_loop_fmap, NdisLastNbInNbChainWithCount_loop_fmap.
  split; [exact Ht|]. split; [|done].
  destruct l as [|a' l]; [done|].
  apply lseg_cons in Hl as [[= <-] (nx & Hnx & Hl)]. simpl in Hfuel.
  rewrite (NdisLastNblInNblChainWithCount_loop_spec _ l fuel a 1%N nx Hl Hnx)
    by (unfold NET_BUFFER_LIST in *; lia).
  unfold NET_BUFFER_LIST in *.
  rewrite <- (default_last_cons a a l), Hlast. simpl default.
  destruct l as [|b l]; [done|]. do 3 f_equal. simpl length. lia.
Qed.

Lemma X15_NdisLastNbInNbChain_is_last_witness :
  ∃ t nb,
    NdisLastNbInNbChain 2 example_nbs 100 = Some t ∧
    NdisLastNbInNbChainWithCount 2 example_nbs 100
      = Some (t, N.modulo (N.of_nat (length [100; 101])) (N.add SIZE_T_MAX 1)) ∧
    last [100; 101] = Some t ∧ example_nbs !! t = Some nb ∧ NbNext nb = None.
Proof.
  apply (X15_NdisLastNbInNbChain_is_last 2 example_nbs 100 [100; 101]).
  - vm_compute. repeat split.
  - simpl. lia.
Defined.

(** ** The counted classification by index *)

Section ByIndexWithCount_correct.

Variable cb : NET_BUFFER_LIST → N.

Lemma NdisClassifyNblChainByIndexWithCount_append_after_cut h h1 Qs i f t Count :
  store h t NULL = Some h1 →
  NdisClassifyNblChainByIndexWithCount_append h1 Qs i f t Count
  = NdisClassifyNblChainByIndexWithCount_append h Qs i f t Count.
Proof.
  intros H. unfold NdisClassifyNblChainByIndexWithCount_append.
  destruct (Qs !! N.to_nat i) as [Q|]; simpl; [|done].
  by rewrite (NdisAppendNblChainToNblCountedQueueFast_after_cut h h1).
Qed.

Lemma NdisClassifyNblChainByIndexWithCount_append_spec h Qs Gs c g f t run q Count :
  Forall2 (holds_counted h) Qs Gs → Gs !! N.to_nat c = Some g →
  lseg h (Some f) run q → last run = Some t →
  NoDup (mjoin Gs.*1 ++ run) →
  Count = (N.of_nat (length run) mod (SIZE_T_MAX + 1))%N →
  ∃ h' Qs',
    NdisClassifyNblChainByIndexWithCount_append h Qs c f t Count = Some (h', Qs') ∧
    Forall2 (holds_counted h') Qs'
      (<[N.to_nat c := (g.1 ++ run, (g.2 + N.of_nat (length run))%N)]> Gs) ∧
    (∀ a, a ∉ mjoin Gs.*1 → a ∉ run → h' !! a = h !! a).
Proof.
  intros HQs Hc Hrun Hlast Hnd HCount.
  destruct (Forall2_lookup_r _ _ _ _ _ HQs Hc) as (Q & HQ & HQl & HQc).
  unfold NdisClassifyNblChainByIndexWithCount_append. rewrite HQ. simpl.
  apply NoDup_app in Hnd as (HndL & Hdisj & Hndr).
  assert (Hc1 : Gs.*1 !! N.to_nat c = Some g.1) by (by rewrite list_lookup_fmap, Hc).
  destruct (NdisAppendNblChainToNblCountedQueueFast_spec h Q g.1 g.2 [] f t run q Count)
    as (h' & Q' & -> & [HQ' HC'] & Hfr); [|done|done| |done|].
  { split; [by rewrite app_nil_r | by rewrite N.add_0_r]. }
  { rewrite app_nil_r. apply NoDup_app. split; [|split; [|done]].
    - eapply is_chain_NoDup, HQl.
    - intros a Ha. apply Hdisj. by eapply join_lookup_elem_of. }
  simpl. eexists _, _. split; [done|]. split.
  - apply Forall2_lookup. intros i.
    destruct (decide (i = N.to_nat c)) as [->|Hi].
    + rewrite !list_lookup_insert_eq.
      * constructor. split; simpl; [exact HQ' | exact HC'].
      * by eapply lookup_lt_Some.
      * by eapply lookup_lt_Some.
    + rewrite !list_lookup_insert_ne by done.
      pose proof (proj1 (Forall2_lookup _ _ _) HQs i) as Hi'.
      destruct (Qs !! i) as [Qi|] eqn:EQ, (Gs !! i) as [gi|] eqn:EL;
        inversion Hi' as [? ? [Hi1 Hi2]|]; subst; constructor.
      split; [|done].
      eapply is_queue_agree; [|exact Hi1]. intros a Ha.
      assert (EL1 : Gs.*1 !! i = Some gi.1) by (by rewrite list_lookup_fmap, EL).
      apply Hfr.
      * rewrite app_nil_r.
        eapply join_lookup_disjoint; [exact HndL | exact Hi | exact EL1 | exact Hc1 | done].
      * apply Hdisj. by eapply join_lookup_elem_of.
  - intros a Ha Har. apply Hfr; [|done]. rewrite app_nil_r. intros Hl. apply Ha.
    by eapply join_lookup_elem_of.
Qed.

Lemma grow_counted_step (Gs : list (list NET_BUFFER_LIST * N)) cur g run tail :
  Gs !! N.to_nat cur = Some g → Forall (λ n, cb n = cur) run →
  imap (grow_counted cb tail)
    (<[N.to_nat cur := (g.1 ++ run, (g.2 + N.of_nat (length run))%N)]> Gs)
  = imap (grow_counted cb (run ++ tail)) Gs.
Proof.
  intros Hg Hcur. apply list_eq. intros i. rewrite !list_lookup_imap.
  unfold grow_counted.
  destruct (decide (i = N.to_nat cur)) as [->|Hi].
  - rewrite list_lookup_insert_eq by (by eapply lookup_lt_Some). rewrite Hg. simpl.
    rewrite filter_app, (filter_index_run cb run cur) by done.
    rewrite decide_True by done. rewrite length_app, app_assoc. do 2 f_equal. lia.
  - rewrite list_lookup_insert_ne by done.
    destruct (Gs !! i) as [gi|]; [|done]. simpl.
    rewrite filter_app, (filter_index_run cb run cur) by done.
    by rewrite decide_False by done.
Qed.

Lemma grow_counted_nil (Gs : list (list NET_BUFFER_LIST * N)) :
  imap (grow_counted cb []) Gs = Gs.
Proof.
  apply list_eq. intros i. rewrite list_lookup_imap.
  destruct (Gs !! i) as [[l c]|]; [|done]. simpl. unfold grow_counted. simpl.
  by rewrite filter_nil, app_nil_r, N.add_0_r.
Qed.

Lemma NdisClassifyNblChainByIndexWithCount_loop_spec rest :
  ∀ fuel h Nbl F P cur Count Qs Gs run,
  length rest < fuel →
  lseg h (Some F) run Nbl → last run = Some P → is_chain h Nbl rest →
  Forall2 (holds_counted h) Qs Gs →
  NoDup (mjoin Gs.*1 ++ run ++ rest) →
  Forall (λ n, cb n = cur) run →
  Forall (λ n, N.to_nat (cb n) < length Qs) (run ++ rest) →
  Count = (N.of_nat (length run) mod (SIZE_T_MAX + 1))%N →
  ∃ h' Qs',
    NdisClassifyNblChainByIndexWithCount_loop cb fuel h Nbl F P cur cur Count Qs
      = Some (h', Qs') ∧
    Forall2 (holds_counted h') Qs' (imap (grow_counted cb (run ++ rest)) Gs) ∧
    (∀ a, a ∉ mjoin Gs.*1 ++ run ++ rest → h' !! a = h !! a).
Proof.
  induction rest as [|n rest IH]; intros fuel h Nbl F P cur Count Qs Gs run
    Hfuel Hrun Hlast Hrest HQs Hnd Hcur Hrange HCount.
  all: destruct fuel as [|fuel]; [simpl in Hfuel; lia|].
  all: assert (HP : P ∈ run) by by apply last_elem_of.
  all: assert (Hc : N.to_nat cur < length Gs).
  1,3: (rewrite <- (Forall2_length _ _ _ HQs);
        apply Forall_app in Hrange as [Hrange _];
        rewrite Forall_forall in Hrange, Hcur;
        rewrite <- (Hcur P HP); by apply Hrange).
  all: destruct (lookup_lt_is_Some_2 _ _ Hc) as [gc Hgc].
  - unfold is_chain in Hrest. simpl in Hrest. subst Nbl. simpl.
    rewrite app_nil_r in Hnd.
    destruct (NdisClassifyNblChainByIndexWithCount_append_spec h Qs Gs cur gc F P run
                NULL Count)
      as (h' & Qs' & -> & HQs' & Hfr); [done..|].
    eexists _, _. split; [done|]. split.
    + rewrite <- (grow_counted_step Gs cur gc run []) by done.
      by rewrite grow_counted_nil.
    + intros a Ha. rewrite app_nil_r in Ha. apply Hfr; not_elem_solver.
  - simpl in Hfuel.
    apply lseg_cons in Hrest as [-> (nx & Hnx & Hrest)]. simpl.
    assert (HPa : is_Some (h !! P)) by (eapply lseg_allocated; [exact Hrun | exact HP]).
    destruct (decide (cb n ≠ cur)) as [Hne|Hne].
    + rewrite store_Some by done. simpl.
      rewrite (NdisClassifyNblChainByIndexWithCount_append_after_cut h (<[P:=NULL]> h))
        by (by apply store_Some).
      destruct (NdisClassifyNblChainByIndexWithCount_append_spec h Qs Gs cur gc F P run
                  (Some n) Count)
        as (h' & Qs' & -> & HQs' & Hfr); [done..| |done|].
      { nodup_solver. }
      simpl. unfold load.
      assert (Hn : h' !! n = Some nx).
      { rewrite Hfr; [done|..]; nodup_solver. }
      rewrite Hn. simpl.
      odestruct (IH fuel h' nx n n (cb n) 1%N _ _ [n])
        as (h'' & Qs'' & -> & HQs'' & Hfr');
        [lia | | done | | exact HQs' | | | | done | ].
      * apply lseg_cons. split; [done|]. by exists nx.
      * eapply lseg_agree; [|exact Hrest]. intros a Ha. apply Hfr; nodup_solver.
      * eapply NoDup_Permutation_proper; [|exact Hnd].
        rewrite list_fmap_insert. simpl.
        rewrite join_insert_snoc by (by rewrite list_lookup_fmap, Hgc).
        solve_Permutation.
      * by constructor.
      * rewrite (Forall2_length _ _ _ HQs'), length_insert,
          <- (Forall2_length _ _ _ HQs).
        apply Forall_app in Hrange as [_ Hrange]. done.
      * eexists _, _. split; [done|]. split.
        -- by rewrite (grow_counted_step Gs cur gc run) in HQs''.
        -- intros a Ha. rewrite Hfr'.
           ++ apply Hfr; not_elem_solver.
           ++ rewrite list_fmap_insert. simpl.
              rewrite join_insert_snoc by (by rewrite list_lookup_fmap, Hgc).
              not_elem_solver.
    + assert (Hn : cb n = cur) by (by apply dec_stable in Hne).
      rewrite Hn. unfold load. rewrite Hnx. simpl.
      odestruct (IH fuel h nx F n cur (SIZE_T_add Count 1) Qs Gs (run ++ [n]))
        as (h'' & Qs'' & -> & HQs'' & Hfr');
        [lia | | apply last_snoc | done | done | | | | | ].
      * apply lseg_snoc. done.
      * eapply NoDup_Permutation_proper; [|exact Hnd]. solve_Permutation.
      * apply Forall_app. split; [done|]. by constructor.
      * by rewrite <- app_assoc.
      * subst Count. apply SIZE_T_add_count.
      * eexists _, _. split; [done|]. rewrite <- app_assoc in HQs'', Hfr'. done.
Qed.

End ByIndexWithCount_correct.

(** X16: [NdisClassifyNblChainByIndexWithCount] appends to [Queues[i]] the
    NBLs of the chain classified [i], in chain order, and adds their number
    to the count of that queue (modulo 2^64, the SIZE_T counter); the array
    keeps its length. *)
Theorem X16_NdisClassifyNblChainByIndexWithCount_counts cb fuel h NblChain l
    (Queues : list NBL_COUNTED_QUEUE) Ls :
  is_chain h (Some NblChain) l → length l ≤ fuel →
  Forall2 (is_queue h) (Queue <$> Queues) Ls → NoDup (mjoin Ls ++ l) →
  Forall (λ n, N.to_nat (cb n) < length Queues) l →
  Forall (λ Q, (NblCount Q < SIZE_T_MAX + 1)%N) Queues →
  ∃ h' Queues',
    NdisClassifyNblChainByIndexWithCount cb fuel h NblChain Queues
      = Some (h', Queues') ∧
    length Queues' = length Queues ∧
    ∀ i Q l0, Queues !! i = Some Q → Ls !! i = Some l0 →
      ∃ Q', Queues' !! i = Some Q' ∧
        is_queue h' (Queue Q') (l0 ++ filter (λ n, N.to_nat (cb n) = i) l) ∧
        NblCount Q'
        = ((NblCount Q + N.of_nat (length (filter (λ n, N.to_nat (cb n) = i) l)))
           mod (SIZE_T_MAX + 1))%N.
Proof.
  intros Hl Hfuel HQs Hnd Hrange Hcounts.
  destruct l as [|a rest]; [done|].
  apply lseg_cons in Hl as [[= <-] (nx & Hnx & Hrest)]. simpl in Hfuel.
  unfold NdisClassifyNblChainByIndexWithCount, load. rewrite Hnx. simpl.
  set (Gs := zip Ls (NblCount <$> Queues)).
  assert (HlenL : length Ls = length Queues).
  { rewrite <- (Forall2_length _ _ _ HQs). by rewrite length_fmap. }
  assert (HG1 : Gs.*1 = Ls).
  { unfold Gs. apply fst_zip. rewrite length_fmap. lia. }
  assert (HQG : Forall2 (holds_counted h) Queues Gs).
  { apply Forall2_same_length_lookup_2.
    - unfold Gs. rewrite length_zip_with, length_fmap. lia.
    - intros i Q g HQ Hg. unfold Gs in Hg.
      apply lookup_zip_with_Some in Hg as (l0 & c0 & -> & Hl0 & Hc0).
      rewrite list_lookup_fmap, HQ in Hc0. injection Hc0 as <-.
      split; simpl.
      + eapply (Forall2_lookup_lr _ _ _ i _ _ HQs); [|done].
        by rewrite list_lookup_fmap, HQ.
      + symmetry. apply N.mod_small.
        rewrite Forall_forall in Hcounts. apply Hcounts.
        by eapply list_elem_of_lookup_2. }
  destruct (NdisClassifyNblChainByIndexWithCount_loop_spec cb rest fuel h nx NblChain
              NblChain (cb NblChain) 1%N Queues Gs [NblChain])
    as (h' & Qs' & -> & HQs' & _); try done.
  - apply lseg_cons. split; [done|]. by exists nx.
  - by rewrite HG1.
  - by constructor.
  - exists h', Qs'. split; [done|].
    pose proof (Forall2_length _ _ _ HQs') as Hlen'.
    rewrite length_imap in Hlen'. unfold Gs in Hlen'.
    rewrite length_zip_with, length_fmap in Hlen'.
    split; [lia|].
    intros i Q l0 HQ Hl0.
    assert (Hg : Gs !! i = Some (l0, NblCount Q)).
    { unfold Gs. apply lookup_zip_with_Some. exists l0, (NblCount Q).
      split; [done|]. split; [done|]. by rewrite list_lookup_fmap, HQ. }
    destruct (Forall2_lookup_r _ _ _ i (grow_counted cb (NblChain :: rest) i
                (l0, NblCount Q)) HQs') as (Q' & HQ' & HQ'1 & HQ'2).
    { by rewrite list_lookup_imap, Hg. }
    exists Q'. done.
Qed.

Lemma X16_NdisClassifyNblChainByIndexWithCount_counts_witness :
  ∃ h' Queues',
    NdisClassifyNblChainByIndexWithCount example_index 5 example_chain5 10
      example_counted_queues = Some (h', Queues') ∧
    length Queues' = length example_counted_queues ∧
    ∀ i Q l0, example_counted_queues !! i = Some Q → [[]; []; []] !! i = Some l0 →
      ∃ Q', Queues' !! i = Some Q' ∧
        is_queue h' (Queue Q')
          (l0 ++ filter (λ n, N.to_nat (example_index n) = i) [10; 20; 30; 40; 50]) ∧
        NblCount Q'
        = N.modulo
            (N.add (NblCount Q)
               (N.of_nat (length (filter (λ n, N.to_nat (example_index n) = i)
                                    [10; 20; 30; 40; 50]))))
            (N.add SIZE_T_MAX 1).
Proof.
  apply (X16_NdisClassifyNblChainByIndexWithCount_counts example_index 5 example_chain5
           10 [10; 20; 30; 40; 50] example_counted_queues [[]; []; []]).
  - vm_compute. repeat split.
  - simpl. lia.
  - repeat constructor.
  - vm_compute. compute_done.
  - vm_compute. repeat constructor.
  - repeat constructor.
Defined.

(** ** The lookahead classifier never makes more flush calls *)

Lemma lookahead_batches_length K cb rest :
  ∀ slots pi run T l0,
  slots !! pi = Some (T, l0) → length slots ≤ K →
  length (lookahead_batches K cb slots pi run rest) + 1
  ≤ length slots + length (runs_from cb T run rest).
Proof.
  induction rest as [|n rest IH]; intros slots pi run T l0 Hpi HK.
  - simpl. rewrite slots_append_length. lia.
  - cbn [lookahead_batches runs_from]. unfold lookahead_step. rewrite Hpi.
    pose proof (slots_append_length slots pi run) as Hlen.
    destruct (decide (T ≠ cb n)) as [Hne|Heq].
    + rewrite (decide_True (P := cb n ≠ T)) by congruence. simpl.
      destruct (list_find _ (slots_append slots pi run)) as [[j [kx lx]]|] eqn:E.
      * apply list_find_Some in E as (Hj & Hx & _). simpl in Hx. subst kx.
        pose proof (IH _ j [n] (cb n) lx Hj ltac:(lia)). simpl. lia.
      * case_decide as HlK.
        -- opose proof (IH (slots_append slots pi run ++ [(cb n, [])])
                         (length (slots_append slots pi run)) [n] (cb n) [] _ _) as H.
           { by rewrite lookup_app_r, Nat.sub_diag by lia. }
           { rewrite length_app. simpl. lia. }
           rewrite length_app in H. simpl in *. lia.
        -- assert (HKe : length slots = K) by lia.
           assert (He : (pi + 1) mod K < length (slots_append slots pi run)).
           { rewrite Hlen, HKe. apply Nat.mod_upper_bound.
             apply lookup_lt_Some in Hpi. lia. }
           opose proof (IH (<[(pi + 1) mod K := (cb n, [])]> (slots_append slots pi run))
                         ((pi + 1) mod K) [n] (cb n) [] _ _) as H.
           { by rewrite list_lookup_insert_eq. }
           { rewrite length_insert. lia. }
           rewrite length_insert in H. rewrite length_app.
           destruct (slots_append slots pi run !! ((pi + 1) mod K)); simpl in *; lia.
    + rewrite (decide_False (P := cb n ≠ T)) by (intros ?; apply Heq; congruence).
      simpl. by eapply IH.
Qed.

(** X17: whatever the lookahead depth, on the same chain
    [NdisClassifyNblChainByValueLookahead] makes at most as many flush calls
    as [NdisClassifyNblChainByValue]. *)
Theorem X17_lookahead_flushes_at_most_eager K cb fuel h a l :
  is_chain h (Some a) l → length l ≤ fuel → 0 < K →
  ∃ h1 calls1 h2 calls2,
    NdisClassifyNblChainByValueLookahead K cb fuel h a = Some (h1, calls1) ∧
    NdisClassifyNblChainByValue cb fuel h a = Some (h2, calls2) ∧
    length calls1 ≤ length calls2.
Proof.
  intros Hl Hfuel HK.
  destruct (NdisClassifyNblChainByValueLookahead_spec K cb fuel h a l)
    as (h1 & calls1 & Heq1 & H1); [done..|].
  destruct (NdisClassifyNblChainByValue_spec cb fuel h a l)
    as (h2 & calls2 & Heq2 & H2); [done..|].
  exists h1, calls1, h2, calls2. split; [done|]. split; [done|].
  rewrite (Forall2_length _ _ _ H1), (Forall2_length _ _ _ H2).
  pose proof (lookahead_batches_length K cb (tail l) [(cb a, [])] 0 [a] (cb a) []
                eq_refl ltac:(simpl; lia)) as H.
  simpl in H. lia.
Qed.

Lemma X17_lookahead_flushes_at_most_eager_witness :
  ∃ h1 calls1 h2 calls2,
    NdisClassifyNblChainByValueLookahead 2 example_ABCA 4 (chain_heap [10; 20; 30; 40]) 10
      = Some (h1, calls1) ∧
    NdisClassifyNblChainByValue example_ABCA 4 (chain_heap [10; 20; 30; 40]) 10
      = Some (h2, calls2) ∧
    length calls1 ≤ length calls2.
Proof.
  apply (X17_lookahead_flushes_at_most_eager 2 example_ABCA 4
           (chain_heap [10; 20; 30; 40]) 10 [10; 20; 30; 40]).
  - vm_compute. repeat split.
  - simpl. lia.
  - lia.
Defined.

(** ** Two queues by index *)

Lemma NdisClassifyNblChainByIndex_append_two (cur : N) h Q0 Q1 F P :
  (cur ≤ 1)%N →
  NdisClassifyNblChainByIndex_append h [Q0; Q1] cur F P
  = (λ r, (r.1.1, [r.1.2; r.2])) <$> NdisClassifyNblChain2_append h cur Q0 Q1 F P.
Proof.
  intros Hcur. unfold NdisClassifyNblChainByIndex_append, NdisClassifyNblChain2_append.
  destruct (decide (cur = 0%N)) as [->|Hne].
  - simpl. by destruct (NdisAppendNblChainToNblQueueFast h Q0 F P) as [[h' Q']|].
  - assert (cur = 1%N) as -> by lia. simpl.
    by destruct (NdisAppendNblChainToNblQueueFast h Q1 F P) as [[h' Q']|].
Qed.

Lemma NdisClassifyNblChainByIndex_loop_two cb fuel :
  (∀ n, (cb n ≤ 1)%N) →
  ∀ h Nbl F P cur Q0 Q1, (cur ≤ 1)%N →
  NdisClassifyNblChainByIndex_loop cb fuel h Nbl F P cur [Q0; Q1]
  = (λ r, (r.1.1, [r.1.2; r.2])) <$> NdisClassifyNblChain2_loop cb fuel h Nbl F P cur Q0 Q1.
Proof.
  intros Hcb. induction fuel as [|fuel IH]; intros h Nbl F P cur Q0 Q1 Hcur; [done|].
  simpl. destruct Nbl as [n|].
  - case_decide as Hne.
    + destruct (store h P NULL) as [h1|]; simpl; [|done].
      rewrite NdisClassifyNblChainByIndex_append_two by done.
      destruct (NdisClassifyNblChain2_append h1 cur Q0 Q1 F P) as [[[h2 Q0'] Q1']|];
        simpl; [|done].
      destruct (load h2 n) as [nx|]; simpl; [|done]. by apply IH.
    + destruct (load h n) as [nx|]; simpl; [|done]. by apply IH.
  - by apply NdisClassifyNblChainByIndex_append_two.
Qed.

(** X18: for a classification callback that only returns 0 or 1,
    [NdisClassifyNblChainByIndex] on an array of two queues does what
    [NdisClassifyNblChain2] does on the two queues: the same memory and the
    same queues result, or both fail, whatever the memory. *)
Theorem X18_by_index_on_two_queues_is_two_way cb fuel h NblChain Q0 Q1 :
  (∀ n, (cb n ≤ 1)%N) →
  NdisClassifyNblChainByIndex cb fuel h NblChain [Q0; Q1]
  = (λ r, (r.1.1, [r.1.2; r.2])) <$> NdisClassifyNblChain2 cb fuel h NblChain Q0 Q1.
Proof.
  intros Hcb. unfold NdisClassifyNblChainByIndex, NdisClassifyNblChain2.
  destruct (load h NblChain) as [nx|]; simpl; [|done].
  by apply NdisClassifyNblChainByIndex_loop_two.
Qed.

Lemma X18_by_index_on_two_queues_is_two_way_witness :
  NdisClassifyNblChainByIndex example_selector 5 example_chain5 10
    [NdisInitializeNblQueue; NdisInitializeNblQueue]
  = (λ r, (r.1.1, [r.1.2; r.2])) <$>
      NdisClassifyNblChain2 example_selector 5 example_chain5 10
        NdisInitializeNblQueue NdisInitializeNblQueue.
Proof.
  apply (X18_by_index_on_two_queues_is_two_way example_selector 5 example_chain5 10).
  intros n. unfold example_selector. case_decide; lia.
Defined.

(** ** The counted lookahead classifier in memory *)

Lemma holds_counted_append h Q l f t run q Count :
  holds_counted h Q (l, N.of_nat (length l)) →
  lseg h (Some f) run q → last run = Some t → NoDup (l ++ run) →
  Count = (N.of_nat (length run) mod (SIZE_T_MAX + 1))%N →
  ∃ h' Q', NdisAppendNblChainToNblCountedQueueFast h Q f t Count = Some (h', Q') ∧
    holds_counted h' Q' (l ++ run, N.of_nat (length (l ++ run))) ∧
    (∀ a, a ∉ l → a ∉ run → h' !! a = h !! a).
Proof.
  intros [HQ HC] Hrun Hlast Hnd HCount. simpl in *.
  destruct (NdisAppendNblChainToNblCountedQueueFast_spec h Q l (N.of_nat (length l)) []
              f t run q Count)
    as (h' & Q' & -> & [HQ' HC'] & Hfr); [|done|done| |done|].
  { split; [by rewrite app_nil_r | by rewrite N.add_0_r]. }
  { by rewrite app_nil_r. }
  exists h', Q'. split; [done|]. split.
  - split; simpl; [done|]. rewrite HC'. f_equal. simpl. rewrite length_app. lia.
  - intros a Ha Har. apply Hfr; [by rewrite app_nil_r | done].
Qed.

Lemma holds_counted_init h : holds_counted h NdisInitializeNblCountedQueue ([], 0%N).
Proof. done. Qed.

Section LookaheadWithCount_correct.

Variable K : nat.
Variable cb : NET_BUFFER_LIST → ULONG_PTR.

(** Assigning a count other than 0 to a slot in use. *)
Lemma counted_slots_rep_set_count h Q T C F P pi F' P' pi' slots j c :
  counted_slots_rep K h (LookaheadWithCount.Locals Q T C F P pi) slots →
  j < length slots → c ≠ 0%N →
  counted_slots_rep K h (LookaheadWithCount.Locals Q T (<[j := c]> C) F' P' pi') slots.
Proof.
  intros (HlQ & HlT & HlC & HlS & HCt & HCf & Hslots) Hj Hc. simpl in *.
  unfold counted_slots_rep. simpl. rewrite length_insert.
  repeat (split; [done|]). split; [|split; [|done]].
  - intros i Hi. destruct (decide (i = j)) as [->|Hne].
    + exists c. split; [|done]. apply list_lookup_insert_eq. lia.
    + rewrite list_lookup_insert_ne by done. by apply HCt.
  - intros i Hi1 Hi2. rewrite list_lookup_insert_ne by lia. by apply HCf.
Qed.

Lemma LookaheadWithCount_append_spec h s slots k l run q :
  counted_slots_rep K h s slots →
  slots !! LookaheadWithCount.PreviousIndex s = Some (k, l) →
  lseg h (Some (LookaheadWithCount.FirstNbl s)) run q →
  last run = Some (LookaheadWithCount.PreviousNbl s) →
  NoDup (mjoin slots.*2 ++ run) →
  LookaheadWithCount.Count s !! LookaheadWithCount.PreviousIndex s
    = Some (N.of_nat (length run) mod (SIZE_T_MAX + 1))%N →
  ∃ h' Q',
    LookaheadWithCount.append h s =
      Some (h', LookaheadWithCount.Locals
                  (<[LookaheadWithCount.PreviousIndex s := Some Q']>
                     (LookaheadWithCount.Queue s))
                  (LookaheadWithCount.TargetClassification s)
                  (LookaheadWithCount.Count s)
                  (LookaheadWithCount.FirstNbl s) (LookaheadWithCount.PreviousNbl s)
                  (LookaheadWithCount.PreviousIndex s)) ∧
    counted_slots_rep K h'
      (LookaheadWithCount.Locals
         (<[LookaheadWithCount.PreviousIndex s := Some Q']>
            (LookaheadWithCount.Queue s))
         (LookaheadWithCount.TargetClassification s)
         (LookaheadWithCount.Count s)
         (LookaheadWithCount.FirstNbl s) (LookaheadWithCount.PreviousNbl s)
         (LookaheadWithCount.PreviousIndex s))
      (slots_append slots (LookaheadWithCount.PreviousIndex s) run) ∧
    (∀ a, a ∉ mjoin slots.*2 → a ∉ run → h' !! a = h !! a).
Proof.
  intros (HlQ & HlT & HlC & HlS & HCt & HCf & Hslots) Hpi Hrun Hlast Hnd HCnt.
  destruct s as [Qa Ta Ca F P pi]. simpl in *.
  destruct (Hslots pi k l Hpi) as (HT & Q & HQ & HQl).
  apply NoDup_app in Hnd as (HndL & Hdisj & Hndr).
  unfold LookaheadWithCount.append. simpl. rewrite HQ. simpl. rewrite HCnt. simpl.
  destruct (holds_counted_append h Q l F P run q
              (N.of_nat (length run) mod (SIZE_T_MAX + 1))%N)
    as (h' & Q' & -> & HQ' & Hfr); [done..| |done|].
  { apply NoDup_app. split; [|split; [|done]].
    - eapply is_chain_NoDup, HQl.
    - intros a Ha. apply Hdisj. by eapply slots_lookup_elem_of. }
  simpl. rewrite array_write_Some by (by eapply array_read_lt). simpl.
  exists h', Q'. split; [done|]. split.
  - unfold counted_slots_rep. simpl. rewrite length_insert, slots_append_length.
    repeat (split; [done|]).
    intros i k' l' Hi.
    destruct (decide (pi = i)) as [<-|Hne].
    + rewrite (slots_append_lookup_eq _ _ _ _ _ Hpi) in Hi. injection Hi as <- <-.
      split; [done|]. exists Q'. split; [|done].
      apply array_read_insert_eq. by eapply array_read_lt.
    + rewrite slots_append_lookup_ne in Hi by done.
      destruct (Hslots i k' l' Hi) as (HT' & Qi & HQi & HQil & HQic).
      split; [done|]. exists Qi. split; [by rewrite array_read_insert_ne|].
      split; [|done].
      eapply is_queue_agree; [|exact HQil]. intros a Ha. apply Hfr.
      * eapply (join_lookup_disjoint slots.*2 i pi); [done | done | | | done].
        -- by rewrite list_lookup_fmap, Hi.
        -- by rewrite list_lookup_fmap, Hpi.
      * apply Hdisj. by eapply slots_lookup_elem_of.
  - intros a Ha Har. apply Hfr; [|done]. intros Hal. apply Ha.
    by eapply slots_lookup_elem_of.
Qed.

(** The final loop flushes the slots in use, in index order. *)
Lemma LookaheadWithCount_flush_all_spec h s slots :
  counted_slots_rep K h s slots →
  ∀ n i, n + i = K → i ≤ length slots →
  ∃ calls, LookaheadWithCount.flush_all n i h s = Some calls ∧
    Forall2 delivers_counted calls (drop i slots).
Proof.
  intros (HlQ & HlT & HlC & HlS & HCt & HCf & Hslots).
  induction n as [|n IH]; intros i Hni Hi.
  - exists []. split; [done|]. rewrite drop_ge by lia. constructor.
  - simpl. destruct (decide (i < length slots)) as [Hlt|Hge].
    + destruct (HCt i Hlt) as (c & -> & Hc). simpl. rewrite decide_False by done.
      destruct (lookup_lt_is_Some_2 slots i Hlt) as [[k l] Hkl].
      destruct (Hslots i k l Hkl) as (-> & Q & -> & HQl & HQc). simpl.
      destruct (IH (S i)) as (calls & -> & Hcalls); [lia | lia |].
      simpl. eexists. split; [done|].
      rewrite (drop_S _ _ _ Hkl). constructor; [|done]. split; [done|]. by split.
    + rewrite HCf by lia. simpl. exists []. split; [done|].
      rewrite drop_ge by lia. constructor.
Qed.

(** The scan of the slots in index order. *)
Lemma LookaheadWithCount_scan_spec h s slots n key :
  counted_slots_rep K h s slots →
  ∀ m i, m + i = K → i ≤ length slots →
  (∀ j x, j < i → slots !! j = Some x → x.1 ≠ key) →
  match list_find (λ x, x.1 = key) slots with
  | Some (j, _) =>
    LookaheadWithCount.scan m i s n key =
      Some (Some (LookaheadWithCount.Locals (LookaheadWithCount.Queue s)
                    (LookaheadWithCount.TargetClassification s)
                    (<[j := 1%N]> (LookaheadWithCount.Count s))
                    n (LookaheadWithCount.PreviousNbl s) j))
  | None =>
    if decide (length slots < K) then
      ∃ s', LookaheadWithCount.scan m i s n key = Some (Some s') ∧
        counted_slots_rep K h s' (slots ++ [(key, [])]) ∧
        LookaheadWithCount.FirstNbl s' = n ∧
        LookaheadWithCount.PreviousNbl s' = LookaheadWithCount.PreviousNbl s ∧
        LookaheadWithCount.PreviousIndex s' = length slots ∧
        LookaheadWithCount.Count s' !! length slots = Some 1%N
    else LookaheadWithCount.scan m i s n key = Some None
  end.
Proof.
  intros (HlQ & HlT & HlC & HlS & HCt & HCf & Hslots).
  induction m as [|m IH]; intros i Hmi Hi Hprev.
  - destruct (list_find _ slots) as [[j x]|] eqn:E.
    + apply list_find_Some in E as (Hj & Hx & _).
      exfalso. eapply (Hprev j x); [|done..].
      apply lookup_lt_Some in Hj. lia.
    + rewrite decide_False by lia. done.
  - simpl. destruct (decide (i < length slots)) as [Hlt|Hge].
    + destruct (HCt i Hlt) as (c & -> & Hc). simpl. rewrite decide_False by done.
      destruct (lookup_lt_is_Some_2 slots i Hlt) as [[k l] Hkl].
      destruct (Hslots i k l Hkl) as (-> & _). simpl.
      destruct (decide (k = key)) as [Hk|Hk].
      * assert (E : list_find (λ x, x.1 = key) slots = Some (i, (k, l))).
        { apply list_find_Some. split; [done|]. split; [done|].
          intros j y Hj Hji. by eapply Hprev. }
        rewrite E. rewrite array_write_Some by lia. done.
      * apply IH; [lia | lia |].
        intros j x Hj Hx. destruct (decide (j = i)) as [->|Hne].
        -- rewrite Hkl in Hx. by injection Hx as <-.
        -- eapply Hprev; [|done]. lia.
    + assert (i = length slots) as -> by lia.
      rewrite HCf by lia. simpl.
      assert (E : list_find (λ x, x.1 = key) slots = None).
      { apply list_find_None. apply Forall_forall. intros x Hx.
        apply list_elem_of_lookup in Hx as [j Hj].
        eapply Hprev; [|done]. by eapply lookup_lt_Some. }
      rewrite E. rewrite decide_True by lia.
      rewrite !array_write_Some by lia. simpl.
      eexists. split; [done|]. split; [|split; [done|]; split; [done|]; split; [done|]].
      * unfold counted_slots_rep. simpl. rewrite !length_insert, length_app. simpl.
        split; [done|]. split; [done|]. split; [done|]. split; [lia|].
        split; [|split].
        -- intros j Hj. destruct (decide (j = length slots)) as [->|Hne].
           ++ exists 1%N. split; [|done]. apply list_lookup_insert_eq. lia.
           ++ rewrite list_lookup_insert_ne by done. apply HCt. lia.
        -- intros j Hj1 Hj2. rewrite list_lookup_insert_ne by lia. apply HCf; lia.
        -- intros j k l Hj. destruct (decide (j = length slots)) as [->|Hne].
           ++ rewrite lookup_app_r, Nat.sub_diag in Hj by lia. injection Hj as <- <-.
              rewrite !array_read_insert_eq by lia. split; [done|].
              eexists. split; [done|]. apply holds_counted_init.
           ++ assert (j < length slots).
              { apply lookup_lt_Some in Hj. rewrite length_app in Hj. simpl in Hj. lia. }
              rewrite lookup_app_l in Hj by done.
              rewrite !array_read_insert_ne by done. by apply Hslots.
      * simpl. apply list_lookup_insert_eq. lia.
Qed.

Lemma LookaheadWithCount_append_after_cut h h1 s :
  store h (LookaheadWithCount.PreviousNbl s) NULL = Some h1 →
  LookaheadWithCount.append h1 s = LookaheadWithCount.append h s.
Proof.
  intros H. unfold LookaheadWithCount.append.
  destruct (array_read (LookaheadWithCount.Queue s) (LookaheadWithCount.PreviousIndex s));
    simpl; [|done].
  destruct (LookaheadWithCount.Count s !! LookaheadWithCount.PreviousIndex s);
    simpl; [|done].
  by rewrite (NdisAppendNblChainToNblCountedQueueFast_after_cut h h1).
Qed.

(** One iteration on a next NBL [n] does what [lookahead_step] does, and keeps
    the count of the current slot equal to the length of the run. *)
Lemma LookaheadWithCount_body_spec h s slots run n nx :
  counted_slots_rep K h s slots → LookaheadWithCount.PreviousIndex s < length slots →
  lseg h (Some (LookaheadWithCount.FirstNbl s)) run (Some n) →
  last run = Some (LookaheadWithCount.PreviousNbl s) →
  h !! n = Some nx →
  NoDup (mjoin slots.*2 ++ run ++ [n]) →
  LookaheadWithCount.Count s !! LookaheadWithCount.PreviousIndex s
    = Some (N.of_nat (length run) mod (SIZE_T_MAX + 1))%N →
  (N.of_nat (length run) + 1 < SIZE_T_MAX + 1)%N →
  ∃ h' s' calls slots' run' fl,
    lookahead_step K cb slots (LookaheadWithCount.PreviousIndex s) run n
      = (slots', LookaheadWithCount.PreviousIndex s', run', fl) ∧
    LookaheadWithCount.body K cb h s (LookaheadWithCount.PreviousNbl s)
      = Some (LookaheadWithCount.Continue h' s' n calls) ∧
    counted_slots_rep K h' s' slots' ∧
    lseg h' (Some (LookaheadWithCount.FirstNbl s')) run' nx ∧
    last run' = Some n ∧
    LookaheadWithCount.PreviousNbl s' = n ∧
    LookaheadWithCount.Count s' !! LookaheadWithCount.PreviousIndex s'
      = Some (N.of_nat (length run') mod (SIZE_T_MAX + 1))%N ∧
    length run' ≤ length run + 1 ∧
    Forall2 delivers_counted calls fl ∧
    (∀ a, a ∉ mjoin slots.*2 → a ∉ run → a ≠ n → h' !! a = h !! a).
Proof.
  intros Hrep Hpi Hrun Hlast Hn Hnd HCnt Hbound.
  pose proof Hrep as (HlQ & HlT & HlC & HlS & HCt & HCf & Hslots).
  destruct (lookup_lt_is_Some_2 slots _ Hpi) as [[T l] HT].
  destruct (Hslots _ T l HT) as (HTr & Q & HQ & HQl).
  pose proof (lseg_last _ _ _ _ _ Hrun Hlast) as HPn.
  assert (HP : LookaheadWithCount.PreviousNbl s ∈ run) by by apply last_elem_of.
  assert (Hrunlen : 0 < length run) by (destruct run; [by inversion HP | simpl; lia]).
  unfold LookaheadWithCount.body, load, lookahead_step. rewrite HPn, HT. simpl.
  rewrite HTr. simpl.
  destruct (decide (T ≠ cb n)) as [Hne|Heq].
  - rewrite (decide_False (P := T = cb n)) by done.
    rewrite store_Some by eauto. simpl.
    rewrite (LookaheadWithCount_append_after_cut h) by (apply store_Some; eauto).
    destruct (LookaheadWithCount_append_spec h s slots T l run (Some n))
      as (h' & Q' & -> & Hrep1 & Hfr); [done..| nodup_solver | done |].
    simpl.
    set (s1 := LookaheadWithCount.Locals _ _ _ _ _ _) in *.
    assert (Hn' : h' !! n = Some nx).
    { rewrite Hfr; [done|..]; nodup_solver. }
    assert (Hseg : lseg h' (Some n) [n] nx).
    { apply lseg_cons. split; [done|]. by exists nx. }
    pose proof (LookaheadWithCount_scan_spec h' s1 _ n (cb n) Hrep1 K 0) as Hscan.
    ospecialize (Hscan _ _ _); [lia | lia | intros; lia |].
    pose proof Hrep1 as (HlQ1 & HlT1 & HlC1 & HlS1 & HCt1 & HCf1 & Hslots1).
    destruct (list_find _ (slots_append _ _ run)) as [[j x]|] eqn:E.
    + rewrite Hscan. simpl.
      apply list_find_Some in E as (Hj & _). apply lookup_lt_Some in Hj.
      eexists h', (LookaheadWithCount.Locals _ _ _ _ _ _), [], _, _, _.
      split; [simpl; reflexivity|]. split; [done|]. split.
      { eapply counted_slots_rep_set_count; [exact Hrep1 | done | done]. }
      split; [exact Hseg|]. split; [done|]. split; [done|]. split.
      { simpl. apply list_lookup_insert_eq. simpl in *. lia. }
      split; [simpl; lia|]. split; [constructor|].
      intros a Ha1 Ha2 _. by apply Hfr.
    + destruct (decide (length (slots_append slots (LookaheadWithCount.PreviousIndex s)
                                  run) < K)) as [HlK|HlK].
      * destruct Hscan as (s2 & -> & Hrep2 & HF2 & HP2 & HI2 & HC2). simpl.
        eexists h', (LookaheadWithCount.Locals _ _ _ _ _ _), [], _, _, _. simpl.
        split; [reflexivity|]. split; [by rewrite HI2|]. split; [exact Hrep2|].
        rewrite HF2. split; [exact Hseg|]. split; [done|]. split; [done|].
        split; [exact HC2|]. split; [simpl; lia|].
        split; [constructor|]. intros a Ha1 Ha2 _. by apply Hfr.
      * rewrite Hscan. simpl.
        rewrite slots_append_length in HlK, HlS1.
        assert (He : (LookaheadWithCount.PreviousIndex s + 1) mod K
                     < length (slots_append slots (LookaheadWithCount.PreviousIndex s)
                                 run)).
        { rewrite slots_append_length. assert (length slots = K) as -> by lia.
          apply Nat.mod_upper_bound. lia. }
        destruct (lookup_lt_is_Some_2 _ _ He) as [[ke le] Hke].
        destruct (Hslots1 _ ke le Hke) as (HTe & Qe & HQe & HQel & HQec).
        simpl in HTe, HQe. rewrite HTe, HQe. simpl.
        rewrite slots_append_length in He.
        rewrite !array_write_Some by (simpl in *; lia). simpl.
        eexists h', (LookaheadWithCount.Locals _ _ _ _ _ _), [_], _, _, _. simpl.
        split; [reflexivity|]. split; [done|]. rewrite Hke. simpl.
        split; [|split; [exact Hseg|]; split; [done|]; split; [done|]; split;
                 [|split; [lia|]; split]].
        -- unfold counted_slots_rep. simpl.
           rewrite !length_insert, slots_append_length.
           repeat (split; [done|]). split; [|split].
           ++ intros i Hi.
              destruct (decide (i = (LookaheadWithCount.PreviousIndex s + 1) mod K))
                as [->|Hie].
              ** exists 1%N. split; [|done]. apply list_lookup_insert_eq.
                 simpl in *. lia.
              ** rewrite list_lookup_insert_ne by done. apply HCt1.
                 by rewrite slots_append_length.
           ++ intros i Hi1 Hi2. lia.
           ++ intros i k' l' Hi.
              destruct (decide (i = (LookaheadWithCount.PreviousIndex s + 1) mod K))
                as [->|Hie].
              ** rewrite list_lookup_insert_eq in Hi by (rewrite slots_append_length; lia).
                 injection Hi as <- <-.
                 rewrite !array_read_insert_eq
                   by (simpl in *; rewrite ?length_insert; lia).
                 split; [done|]. eexists. split; [done|]. apply holds_counted_init.
              ** rewrite list_lookup_insert_ne in Hi by done.
                 rewrite !array_read_insert_ne by done. by apply Hslots1.
        -- apply list_lookup_insert_eq. simpl in *. lia.
        -- constructor; [|constructor]. split; [done|]. by split.
        -- intros a Ha1 Ha2 _. by apply Hfr.
  - apply dec_stable in Heq.
    rewrite (decide_True (P := T = cb n)) by done.
    rewrite HCnt. simpl.
    rewrite array_write_Some by lia. simpl.
    eexists h, (LookaheadWithCount.Locals _ _ _ _ _ _), [], _, _, _. simpl.
    split; [reflexivity|]. split; [done|]. split.
    { destruct s as [Qa Ta Ca F P pi]. simpl in *.
      eapply counted_slots_rep_set_count; [exact Hrep | done |].
      rewrite (SIZE_T_add_count run n). rewrite N.mod_small.
      - rewrite length_app. simpl. lia.
      - rewrite length_app. simpl. lia. }
    split; [by apply lseg_snoc|]. split; [apply last_snoc|]. split; [done|].
    split.
    { rewrite list_lookup_insert_eq by lia. by rewrite (SIZE_T_add_count run n). }
    split; [rewrite length_app; simpl; lia|].
    split; [constructor|]. done.
Qed.

(** The last iteration: the run in progress joins its slot. *)
Lemma LookaheadWithCount_body_break_spec h s slots run :
  counted_slots_rep K h s slots → LookaheadWithCount.PreviousIndex s < length slots →
  lseg h (Some (LookaheadWithCount.FirstNbl s)) run NULL →
  last run = Some (LookaheadWithCount.PreviousNbl s) →
  NoDup (mjoin slots.*2 ++ run) →
  LookaheadWithCount.Count s !! LookaheadWithCount.PreviousIndex s
    = Some (N.of_nat (length run) mod (SIZE_T_MAX + 1))%N →
  ∃ h' s',
    LookaheadWithCount.body K cb h s (LookaheadWithCount.PreviousNbl s)
      = Some (LookaheadWithCount.Break h' s') ∧
    counted_slots_rep K h' s'
      (slots_append slots (LookaheadWithCount.PreviousIndex s) run).
Proof.
  intros Hrep Hpi Hrun Hlast Hnd HCnt.
  destruct (lookup_lt_is_Some_2 slots _ Hpi) as [[T l] HT].
  pose proof (lseg_last _ _ _ _ _ Hrun Hlast) as HPn.
  unfold LookaheadWithCount.body, load. rewrite HPn. simpl.
  destruct (LookaheadWithCount_append_spec h s slots T l run NULL)
    as (h' & Q' & -> & Hrep1 & Hfr); [done..|].
  simpl. eauto.
Qed.

Lemma LookaheadWithCount_loop_spec rest :
  ∀ fuel h s slots run nx,
  length rest < fuel →
  counted_slots_rep K h s slots → LookaheadWithCount.PreviousIndex s < length slots →
  lseg h (Some (LookaheadWithCount.FirstNbl s)) run nx →
  last run = Some (LookaheadWithCount.PreviousNbl s) →
  is_chain h nx rest →
  NoDup (mjoin slots.*2 ++ run ++ rest) →
  LookaheadWithCount.Count s !! LookaheadWithCount.PreviousIndex s
    = Some (N.of_nat (length run) mod (SIZE_T_MAX + 1))%N →
  (N.of_nat (length run + length rest) < SIZE_T_MAX + 1)%N →
  ∃ h' s' calls calls',
    LookaheadWithCount.loop K cb fuel h s (LookaheadWithCount.PreviousNbl s)
      = Some (h', s', calls) ∧
    LookaheadWithCount.flush_all K 0 h' s' = Some calls' ∧
    Forall2 delivers_counted (calls ++ calls')
      (lookahead_batches K cb slots (LookaheadWithCount.PreviousIndex s) run rest).
Proof.
  induction rest as [|n rest IH]; intros fuel h s slots run nx
    Hfuel Hrep Hpi Hrun Hlast Hrest Hnd HCnt Hbound.
  all: destruct fuel as [|fuel]; [simpl in Hfuel; lia|].
  all: cbn [LookaheadWithCount.loop lookahead_batches].
  - unfold is_chain in Hrest. simpl in Hrest. subst nx. rewrite app_nil_r in Hnd.
    destruct (LookaheadWithCount_body_break_spec h s slots run)
      as (h' & s' & -> & Hrep'); [done..|].
    simpl.
    destruct (LookaheadWithCount_flush_all_spec h' s' _ Hrep' K 0)
      as (calls' & Hfl & Hcalls); [lia | lia |].
    exists h', s', [], calls'. split; [done|]. split; [done|]. done.
  - simpl in Hfuel, Hbound.
    apply lseg_cons in Hrest as [-> (nx' & Hnx & Hrest)].
    destruct (LookaheadWithCount_body_spec h s slots run n nx')
      as (h1 & s1 & calls1 & slots' & run' & fl & Hstep & -> & Hrep1 & Hrun1 & Hlast1
          & HP1 & HCnt1 & Hlen1 & Hfl & Hfr); [done..| nodup_solver | done | lia |].
    rewrite Hstep.
    pose proof Hrep as (_ & _ & _ & HlS & _).
    destruct (lookahead_step_wf _ _ _ _ _ _ _ _ _ _ Hpi HlS Hstep) as (Hpi1 & _ & Hperm).
    simpl. rewrite <- HP1.
    odestruct (IH fuel h1 s1 slots' run' nx')
      as (h2 & s2 & calls2 & calls' & -> & Hfl2 & Hd);
      [lia | done | done | done | by rewrite HP1 | | | done | lia | ].
    + eapply lseg_agree; [|exact Hrest]. intros a Ha. apply Hfr; nodup_solver.
    + assert (Hnd' : NoDup (mjoin fl.*2 ++ (mjoin slots'.*2 ++ run') ++ rest)).
      { eapply NoDup_Permutation_proper; [|exact Hnd].
        rewrite !app_assoc. rewrite <- (app_assoc (mjoin fl.*2)), Hperm.
        solve_Permutation. }
      apply NoDup_app in Hnd' as (_ & _ & Hnd'). by rewrite <- app_assoc in Hnd'.
    + simpl. eexists _, _, _, _. split; [done|]. split; [done|].
      rewrite <- app_assoc. by apply Forall2_app.
Qed.

Lemma NdisClassifyNblChainByValueLookaheadWithCount_spec fuel h NblChain l :
  0 < K → is_chain h (Some NblChain) l → length l ≤ fuel →
  (N.of_nat (length l) < SIZE_T_MAX + 1)%N →
  ∃ h' calls,
    NdisClassifyNblChainByValueLookaheadWithCount K cb fuel h NblChain
      = Some (h', calls) ∧
    Forall2 delivers_counted calls
      (lookahead_batches K cb [(cb NblChain, [])] 0 [NblChain] (tail l)).
Proof.
  intros HK Hl Hfuel Hbound. pose proof (is_chain_NoDup _ _ _ Hl) as Hnd.
  destruct l as [|a rest]; [done|].
  apply lseg_cons in Hl as [[= <-] (nx & Hnx & Hrest)]. simpl in Hfuel, Hbound.
  unfold NdisClassifyNblChainByValueLookaheadWithCount, LookaheadWithCount.init.
  rewrite !array_write_Some by (rewrite length_replicate; lia). simpl.
  set (s := LookaheadWithCount.Locals _ _ _ _ _ _).
  destruct (LookaheadWithCount_loop_spec rest fuel h s [(cb NblChain, [])] [NblChain] nx)
    as (h' & s' & calls & calls' & Hloop & Hfl & Hd);
    [lia | | simpl; lia | | done | done | done | | simpl; lia | ].
  - unfold counted_slots_rep, s. simpl. rewrite !length_insert, !length_replicate.
    repeat (split; [done || lia|]). split; [|split].
    + intros i Hi. assert (i = 0) as -> by lia. exists 1%N. split; [|done].
      apply list_lookup_insert_eq. rewrite length_replicate. lia.
    + intros i Hi1 Hi2. rewrite list_lookup_insert_ne by lia.
      by apply lookup_replicate_2.
    + intros [|i] k l' Hi; [|done]. injection Hi as <- <-.
      rewrite !array_read_insert_eq by (rewrite length_replicate; lia).
      split; [done|]. eexists. split; [done|]. apply holds_counted_init.
  - apply lseg_cons. split; [done|]. by exists nx.
  - unfold s. simpl. apply list_lookup_insert_eq. rewrite length_replicate. lia.
  - simpl in Hloop. rewrite Hloop. simpl. rewrite Hfl. simpl. eauto.
Qed.

End LookaheadWithCount_correct.

(** X19: on a chain of fewer than 2^64 NBLs
    [NdisClassifyNblChainByValueLookaheadWithCount] flushes the batches of
    [NdisClassifyNblChainByValueLookahead], in the same order, and the count
    of every flushed queue is the number of NBLs of its batch. *)
Theorem X19_lookahead_with_count_counts_batches K cb fuel h a l :
  0 < K → is_chain h (Some a) l → length l ≤ fuel →
  (N.of_nat (length l) < SIZE_T_MAX + 1)%N →
  ∃ batches h1 calls1 h2 calls2,
    NdisClassifyNblChainByValueLookaheadWithCount K cb fuel h a = Some (h1, calls1) ∧
    NdisClassifyNblChainByValueLookahead K cb fuel h a = Some (h2, calls2) ∧
    Forall2 delivers_counted calls1 batches ∧
    Forall2 delivers calls2 batches.
Proof.
  intros HK Hl Hfuel Hbound.
  destruct (NdisClassifyNblChainByValueLookaheadWithCount_spec K cb fuel h a l)
    as (h1 & calls1 & Heq1 & H1); [done..|].
  destruct (NdisClassifyNblChainByValueLookahead_spec K cb fuel h a l)
    as (h2 & calls2 & Heq2 & H2); [done..|].
  eauto 10.
Qed.

Lemma X19_lookahead_with_count_counts_batches_witness :
  ∃ batches h1 calls1 h2 calls2,
    NdisClassifyNblChainByValueLookaheadWithCount 2 example_ABCA 4
      (chain_heap [10; 20; 30; 40]) 10 = Some (h1, calls1) ∧
    NdisClassifyNblChainByValueLookahead 2 example_ABCA 4
      (chain_heap [10; 20; 30; 40]) 10 = Some (h2, calls2) ∧
    Forall2 delivers_counted calls1 batches ∧
    Forall2 delivers calls2 batches.
Proof.
  apply (X19_lookahead_with_count_counts_batches 2 example_ABCA 4
           (chain_heap [10; 20; 30; 40]) 10 [10; 20; 30; 40]).
  - lia.
  - vm_compute. repeat split.
  - simpl. lia.
  - vm_compute. reflexivity.
Defined.

(** ** The counted routines and their uncounted versions *)

Lemma NdisAppendNblChainToNblCountedQueueFast_uncounted h Q f t Count :
  (λ r, (r.1, Queue r.2)) <$> NdisAppendNblChainToNblCountedQueueFast h Q f t Count
  = NdisAppendNblChainToNblQueueFast h (Queue Q) f t.
Proof.
  unfold NdisAppendNblChainToNblCountedQueueFast.
  by destruct (NdisAppendNblChainToNblQueueFast h (Queue Q) f t) as [[h' q']|].
Qed.

Lemma NdisClassifyNblChain2WithCount_append_sim h cur Q0 Q1 F P Count :
  uncounted2 (NdisClassifyNblChain2WithCount_append h cur Q0 Q1 F P Count)
  = NdisClassifyNblChain2_append h cur (Queue Q0) (Queue Q1) F P.
Proof.
  unfold NdisClassifyNblChain2WithCount_append, NdisClassifyNblChain2_append.
  case_decide.
  - rewrite <- (NdisAppendNblChainToNblCountedQueueFast_uncounted h Q0 F P Count).
    by destruct (NdisAppendNblChainToNblCountedQueueFast h Q0 F P Count) as [[h' q']|].
  - rewrite <- (NdisAppendNblChainToNblCountedQueueFast_uncounted h Q1 F P Count).
    by destruct (NdisAppendNblChainToNblCountedQueueFast h Q1 F P Count) as [[h' q']|].
Qed.

Lemma NdisClassifyNblChain2WithCount_loop_sim cb fuel :
  ∀ h Nbl F P cur Count Q0 Q1,
  uncounted2 (NdisClassifyNblChain2WithCount_loop cb fuel h Nbl F P cur Count Q0 Q1)
  = NdisClassifyNblChain2_loop cb fuel h Nbl F P cur (Queue Q0) (Queue Q1).
Proof.
  induction fuel as [|fuel IH]; intros h Nbl F P cur Count Q0 Q1; [done|].
  simpl. destruct Nbl as [n|].
  - case_decide as Hne.
    + destruct (store h P NULL) as [h1|]; simpl; [|done].
      rewrite <- (NdisClassifyNblChain2WithCount_append_sim h1 cur Q0 Q1 F P Count).
      destruct (NdisClassifyNblChain2WithCount_append h1 cur Q0 Q1 F P Count)
        as [[[h2 Q0'] Q1']|]; simpl; [|done].
      destruct (load h2 n) as [nx|]; simpl; [|done]. apply IH.
    + destruct (load h n) as [nx|]; simpl; [|done]. apply IH.
  - apply NdisClassifyNblChain2WithCount_append_sim.
Qed.

(** X20: with the counts forgotten, [NdisClassifyNblChain2WithCount] computes
    what [NdisClassifyNblChain2] computes on the queues without their counts:
    the same memory and the same head and tail of both queues, or both fail,
    whatever the memory and the callback. *)
Theorem X20_NdisClassifyNblChain2WithCount_refines_uncounted cb fuel h NblChain Q0 Q1 :
  uncounted2 (NdisClassifyNblChain2WithCount cb fuel h NblChain Q0 Q1)
  = NdisClassifyNblChain2 cb fuel h NblChain (Queue Q0) (Queue Q1).
Proof.
  unfold NdisClassifyNblChain2WithCount, NdisClassifyNblChain2.
  destruct (load h NblChain) as [nx|]; simpl; [|done].
  apply NdisClassifyNblChain2WithCount_loop_sim.
Qed.

Lemma NdisClassifyNblChainByValueWithCount_loop_sim cb fuel :
  ∀ h Q F P Nbl T Count,
  uncounted_calls (NdisClassifyNblChainByValueWithCount_loop cb fuel h Q F P Nbl T Count)
  = NdisClassifyNblChainByValue_loop cb fuel h (Queue Q) F P Nbl T.
Proof.
  induction fuel as [|fuel IH]; intros h Q F P Nbl T Count; [done|].
  simpl. destruct (load h Nbl) as [[n|]|]; simpl; [| |done].
  - destruct (decide (cb n = T)) as [Heq|Hne].
    + rewrite decide_False by (by intros ?). apply IH.
    + rewrite decide_True by done.
      destruct (store h P NULL) as [h1|]; simpl; [|done].
      rewrite <- (NdisAppendNblChainToNblCountedQueueFast_uncounted h1 Q F P Count).
      destruct (NdisAppendNblChainToNblCountedQueueFast h1 Q F P Count) as [[h2 Q2]|];
        simpl; [|done].
      pose proof (IH h2 NdisInitializeNblCountedQueue n n n (cb n) 1%N) as IH'.
      change (Queue NdisInitializeNblCountedQueue) with NdisInitializeNblQueue in IH'.
      rewrite <- IH'.
      by destruct (NdisClassifyNblChainByValueWithCount_loop cb fuel h2
                     NdisInitializeNblCountedQueue n n n (cb n) 1) as [[h3 calls]|].
  - rewrite <- (NdisAppendNblChainToNblCountedQueueFast_uncounted h Q F P Count).
    by destruct (NdisAppendNblChainToNblCountedQueueFast h Q F P Count) as [[h2 Q2]|].
Qed.

(** X21: with the counts forgotten, [NdisClassifyNblChainByValueWithCount]
    makes the flush calls of [NdisClassifyNblChainByValue]: the same
    classification results, the same queue heads and tails and the same
    memory at every call, or both fail, whatever the memory and the
    callback. *)
Theorem X21_NdisClassifyNblChainByValueWithCount_refines_uncounted cb fuel h NblChain :
  uncounted_calls (NdisClassifyNblChainByValueWithCount cb fuel h NblChain)
  = NdisClassifyNblChainByValue cb fuel h NblChain.
Proof.
  unfold NdisClassifyNblChainByValueWithCount, NdisClassifyNblChainByValue.
  apply (NdisClassifyNblChainByValueWithCount_loop_sim cb fuel h
           NdisInitializeNblCountedQueue).
Qed.

(** ** What the classifiers leave alone *)

Lemma NdisClassifyNblChain2_frame cb fuel h NblChain l Q0 Q1 l0 l1 :
  is_chain h (Some NblChain) l → length l ≤ fuel →
  is_queue h Q0 l0 → is_queue h Q1 l1 → NoDup (l0 ++ l1 ++ l) →
  ∃ h' Q0' Q1',
    NdisClassifyNblChain2 cb fuel h NblChain Q0 Q1 = Some (h', Q0', Q1') ∧
    ∀ a, a ∉ l0 ++ l1 ++ l → h' !! a = h !! a.
Proof.
  intros Hl Hfuel HQ0 HQ1 Hnd.
  pose proof (X := NdisClassifyNblChain2WithCount_loop_sim cb).
  destruct l as [|a0 rest]; [done|].
  apply lseg_cons in Hl as [[= <-] (nx & Hnx & Hrest)]. simpl in Hfuel.
  unfold NdisClassifyNblChain2, load. rewrite Hnx. simpl.
  specialize (X fuel h nx NblChain NblChain (cb NblChain) 1%N (mkCQ Q0 0) (mkCQ Q1 0)).
  simpl in X. rewrite <- X.
  destruct (NdisClassifyNblChain2WithCount_loop_spec cb rest fuel h nx NblChain NblChain
              (cb NblChain) 1%N (mkCQ Q0 0) (mkCQ Q1 0) l0 l1 0%N 0%N [] []
              [NblChain])
    as (h' & Q0' & Q1' & -> & _ & _ & Hfr);
    [lia | | done | done | | | | | done | ].
  - apply lseg_cons. split; [done|]. by exists nx.
  - split; [by rewrite app_nil_r | done].
  - split; [by rewrite app_nil_r | done].
  - by rewrite !app_nil_r.
  - by constructor.
  - simpl. eexists _, _, _. split; [done|].
    intros a Ha. apply Hfr. by rewrite !app_nil_r.
Qed.

Lemma NdisClassifyNblChainByIndex_frame cb fuel h NblChain l Qs Ls :
  is_chain h (Some NblChain) l → length l ≤ fuel →
  Forall2 (is_queue h) Qs Ls → NoDup (mjoin Ls ++ l) →
  Forall (λ n, N.to_nat (cb n) < length Qs) l →
  ∃ h' Qs',
    NdisClassifyNblChainByIndex cb fuel h NblChain Qs = Some (h', Qs') ∧
    ∀ a, a ∉ mjoin Ls ++ l → h' !! a = h !! a.
Proof.
  intros Hl Hfuel HQs Hnd Hrange.
  set (CQs := (λ Q, mkCQ Q 0) <$> Qs).
  set (Gs := (λ l0 : list NET_BUFFER_LIST, (l0, 0%N)) <$> Ls).
  assert (HCQ : Queue <$> CQs = Qs).
  { unfold CQs. rewrite <- list_fmap_compose. apply list_fmap_id. }
  assert (HG1 : Gs.*1 = Ls).
  { unfold Gs. rewrite <- list_fmap_compose. apply list_fmap_id. }
  assert (HQG : Forall2 (holds_counted h) CQs Gs).
  { unfold CQs, Gs. apply Forall2_fmap. eapply Forall2_impl; [exact HQs|].
    intros Q l0 HQ. by split. }
  pose proof (NdisClassifyNblChainByIndexWithCount_sim cb fuel h NblChain CQs) as Hsim.
  rewrite HCQ in Hsim. rewrite <- Hsim.
  destruct l as [|a0 rest]; [done|].
  apply lseg_cons in Hl as [[= <-] (nx & Hnx & Hrest)]. simpl in Hfuel.
  unfold NdisClassifyNblChainByIndexWithCount, load. rewrite Hnx. simpl.
  destruct (NdisClassifyNblChainByIndexWithCount_loop_spec cb rest fuel h nx NblChain
              NblChain (cb NblChain) 1%N CQs Gs [NblChain])
    as (h' & Qs' & -> & _ & Hfr);
    [lia | | done | done | done | | | | done | ].
  - apply lseg_cons. split; [done|]. by exists nx.
  - by rewrite HG1.
  - by constructor.
  - unfold CQs. by rewrite length_fmap.
  - simpl. eexists _, _. split; [done|]. intros a Ha. apply Hfr. by rewrite HG1.
Qed.

Lemma NdisClassifyNblChainByValue_frame cb fuel h NblChain l :
  is_chain h (Some NblChain) l → length l ≤ fuel →
  ∃ h' calls,
    NdisClassifyNblChainByValue cb fuel h NblChain = Some (h', calls) ∧
    ∀ a, a ∉ l → h' !! a = h !! a.
Proof.
  intros Hl Hfuel. pose proof (is_chain_NoDup _ _ _ Hl) as Hnd.
  pose proof (NdisClassifyNblChainByValueWithCount_loop_sim cb fuel h
                NdisInitializeNblCountedQueue NblChain NblChain NblChain
                (cb NblChain) 1%N) as Hsim.
  change (Queue NdisInitializeNblCountedQueue) with NdisInitializeNblQueue in Hsim.
  unfold NdisClassifyNblChainByValue. rewrite <- Hsim.
  destruct l as [|a0 rest]; [done|].
  apply lseg_cons in Hl as [[= <-] (nx & Hnx & Hrest)]. simpl in Hfuel.
  destruct (NdisClassifyNblChainByValueWithCount_loop_spec cb rest fuel h NblChain
              NblChain (cb NblChain) [NblChain] nx 1%N)
    as (h' & calls & -> & _ & Hfr); [lia | | done | done | done | done | ].
  - apply lseg_cons. split; [done|]. by exists nx.
  - simpl. eauto.
Qed.

(** X22: [NdisClassifyNblChain2], [NdisClassifyNblChainByIndex] and
    [NdisClassifyNblChainByValue] write only to NBLs of the chain and of the
    queues they are given: the [Next] field of every other NBL is the same
    before and after. *)
Theorem X22_classifiers_leave_other_nbls_alone cb fuel h a l :
  is_chain h (Some a) l → length l ≤ fuel →
  (∀ Q0 Q1 l0 l1,
     is_queue h Q0 l0 → is_queue h Q1 l1 → NoDup (l0 ++ l1 ++ l) →
     ∃ h' Q0' Q1',
       NdisClassifyNblChain2 cb fuel h a Q0 Q1 = Some (h', Q0', Q1') ∧
       ∀ x, x ∉ l0 ++ l1 ++ l → h' !! x = h !! x) ∧
  (∀ Qs Ls,
     Forall2 (is_queue h) Qs Ls → NoDup (mjoin Ls ++ l) →
     Forall (λ n, N.to_nat (cb n) < length Qs) l →
     ∃ h' Qs',
       NdisClassifyNblChainByIndex cb fuel h a Qs = Some (h', Qs') ∧
       ∀ x, x ∉ mjoin Ls ++ l → h' !! x = h !! x) ∧
  (∃ h' calls,
     NdisClassifyNblChainByValue cb fuel h a = Some (h', calls) ∧
     ∀ x, x ∉ l → h' !! x = h !! x).
Proof.
  intros Hl Hfuel. split; [|split].
  - intros Q0 Q1 l0 l1 HQ0 HQ1 Hnd. by eapply NdisClassifyNblChain2_frame.
  - intros Qs Ls HQs Hnd Hr. by eapply NdisClassifyNblChainByIndex_frame.
  - by eapply NdisClassifyNblChainByValue_frame.
Qed.

Lemma X22_classifiers_leave_other_nbls_alone_witness :
  (∀ Q0 Q1 l0 l1,
     is_queue example_chain5 Q0 l0 → is_queue example_chain5 Q1 l1 →
     NoDup (l0 ++ l1 ++ [10; 20; 30; 40; 50]) →
     ∃ h' Q0' Q1',
       NdisClassifyNblChain2 example_selector 5 example_chain5 10 Q0 Q1
         = Some (h', Q0', Q1') ∧
       ∀ x, x ∉ l0 ++ l1 ++ [10; 20; 30; 40; 50] → h' !! x = example_chain5 !! x) ∧
  (∀ Qs Ls,
     Forall2 (is_queue example_chain5) Qs Ls →
     NoDup (mjoin Ls ++ [10; 20; 30; 40; 50]) →
     Forall (λ n, N.to_nat (example_selector n) < length Qs) [10; 20; 30; 40; 50] →
     ∃ h' Qs',
       NdisClassifyNblChainByIndex example_selector 5 example_chain5 10 Qs
         = Some (h', Qs') ∧
       ∀ x, x ∉ mjoin Ls ++ [10; 20; 30; 40; 50] → h' !! x = example_chain5 !! x) ∧
  (∃ h' calls,
     NdisClassifyNblChainByValue example_selector 5 example_chain5 10
       = Some (h', calls) ∧
     ∀ x, x ∉ [10; 20; 30; 40; 50] → h' !! x = example_chain5 !! x).
Proof.
  apply (X22_classifiers_leave_other_nbls_alone example_selector 5 example_chain5 10
           [10; 20; 30; 40; 50]).
  - vm_compute. repeat split.
  - simpl. lia.
Defined.

(** * mdl.h *)

Lemma mdl_chain_cons mdls p a l :
  is_mdl_chain mdls p (a :: l) →
  p = Some a ∧ ∃ m, mdls !! a = Some m ∧ is_mdl_chain mdls (MdlNext m) l.
Proof.
  unfold is_mdl_chain, is_chain. intros [-> (nx & Hnx & Hl)]%lseg_cons. split; [done|].
  rewrite lookup_fmap in Hnx. apply fmap_Some in Hnx as (m & Hm & ->). eauto.
Qed.

Lemma mdl_byte_count_lookup mdls a m :
  mdls !! a = Some m → mdl_byte_count mdls a = ByteCount m.
Proof. intros H. unfold mdl_byte_count. by rewrite H. Qed.

Lemma length_buffer_bytes a o n : length (buffer_bytes a o n) = N.to_nat n.
Proof. unfold buffer_bytes. by rewrite length_fmap, length_seq. Qed.

Lemma buffer_bytes_lookup a o n i :
  i < N.to_nat n → buffer_bytes a o n !! i = Some (a, (o + N.of_nat i)%N).
Proof.
  intros Hi. unfold buffer_bytes. rewrite list_lookup_fmap, lookup_seq_lt by done. done.
Qed.

Lemma chain_bytes_cons mdls a l :
  chain_bytes mdls (a :: l)
  = buffer_bytes a 0 (mdl_byte_count mdls a) ++ chain_bytes mdls l.
Proof. done. Qed.

Lemma SIZE_T_sub_small a b :
  (b ≤ a)%N → (a < SIZE_T_MAX + 1)%N → SIZE_T_sub a b = (a - b)%N.
Proof.
  intros Hb Ha. unfold SIZE_T_sub.
  replace (a + (SIZE_T_MAX + 1) - b)%N with ((a - b) + 1 * (SIZE_T_MAX + 1))%N by lia.
  rewrite N.Div0.mod_add. apply N.mod_small. lia.
Qed.

Section MdlIterate_correct.

Context {C : Type}.
Variable Operator : C → MDL_SPAN → NTSTATUS * C.
Variable mdls : gmap nat MDL.

Lemma MdlChainIterateBuffers_spec l :
  ∀ fuel p ctx,
  is_mdl_chain mdls p l → length l < fuel →
  MdlChainIterateBuffers Operator fuel mdls p ctx
  = Some (run_operator Operator ctx (whole_spans mdls l)).
Proof.
  induction l as [|a l IH]; intros fuel p ctx Hl Hfuel.
  all: destruct fuel as [|fuel]; [simpl in Hfuel; lia|].
  - unfold is_mdl_chain, is_chain in Hl. simpl in Hl. by subst p.
  - apply mdl_chain_cons in Hl as [-> (m & Hm & Hl)]. simpl in Hfuel.
    cbn [MdlChainIterateBuffers]. rewrite Hm. simpl.
    unfold whole_spans. rewrite filter_cons.
    rewrite (mdl_byte_count_lookup _ _ _ Hm). unfold MmGetMdlByteCount.
    destruct (decide (0 < ByteCount m)%N) as [Hpos|Hzero].
    + rewrite fmap_cons. cbn [run_operator].
      rewrite (mdl_byte_count_lookup _ _ _ Hm).
      destruct (Operator ctx _) as [st ctx'].
      case_decide; [done|]. apply IH; [done | lia].
    + apply IH; [done | lia].
Qed.

End MdlIterate_correct.

Lemma whole_spans_bytes mdls l :
  mjoin (span_bytes <$> whole_spans mdls l) = chain_bytes mdls l.
Proof.
  induction l as [|a l IH]; [done|].
  rewrite chain_bytes_cons. unfold whole_spans in *. rewrite filter_cons.
  case_decide as Hb.
  - rewrite !fmap_cons. simpl. by rewrite IH.
  - rewrite IH. assert (mdl_byte_count mdls a = 0%N) as -> by lia. done.
Qed.

Lemma whole_spans_in_buffer mdls l :
  Forall (span_in_buffer mdls) (whole_spans mdls l).
Proof.
  unfold whole_spans. apply Forall_fmap, Forall_forall.
  intros a [Ha _]%list_elem_of_filter. exists a. simpl. split; [done|]. split; [done|lia].
Qed.

(** X23: [MdlChainIterateBuffers] calls the operator on the whole buffer of
    every MDL of the chain that is not empty, in chain order and with the
    context the previous call left, until a call returns a status other than
    [STATUS_SUCCESS], which it returns; the buffers handed over are together
    the payload of the chain. *)
Theorem X23_MdlChainIterateBuffers_visits_nonempty_buffers {C : Type}
    (Operator : C → MDL_SPAN → NTSTATUS * C) fuel mdls MdlChain l ctx :
  is_mdl_chain mdls MdlChain l → length l < fuel →
  ∃ spans,
    MdlChainIterateBuffers Operator fuel mdls MdlChain ctx
      = Some (run_operator Operator ctx spans) ∧
    spans = whole_spans mdls l ∧
    Forall (span_in_buffer mdls) spans ∧
    mjoin (span_bytes <$> spans) = chain_bytes mdls l.
Proof.
  intros Hl Hfuel. exists (whole_spans mdls l).
  split; [by apply MdlChainIterateBuffers_spec|]. split; [done|].
  split; [apply whole_spans_in_buffer | apply whole_spans_bytes].
Qed.

Lemma X23_MdlChainIterateBuffers_visits_nonempty_buffers_witness :
  ∃ spans,
    MdlChainIterateBuffers (example_operator 3) 4 example_mdls (Some 1) []
      = Some (run_operator (example_operator 3) [] spans) ∧
    spans = whole_spans example_mdls [1; 2; 3] ∧
    Forall (span_in_buffer example_mdls) spans ∧
    mjoin (span_bytes <$> spans) = chain_bytes example_mdls [1; 2; 3].
Proof.
  apply (X23_MdlChainIterateBuffers_visits_nonempty_buffers (example_operator 3) 4
           example_mdls (Some 1) [1; 2; 3] []).
  - vm_compute. repeat split.
  - simpl. lia.
Defined.

(** The seek operator on the whole buffers of a chain. *)
Lemma run_SeekOperator mdls l :
  ∀ rem found, (rem < SIZE_T_MAX + 1)%N →
  run_operator SeekOperator (mkSeek rem found) (whole_spans mdls l)
  = match chain_bytes mdls l !! N.to_nat rem with
    | Some (a, k) => (STATUS_STOP_ITERATION, mkSeek k (Some a))
    | None =>
      (STATUS_SUCCESS, mkSeek (rem - N.of_nat (length (chain_bytes mdls l))) found)
    end.
Proof.
  induction l as [|a l IH]; intros rem found Hrem.
  - simpl. by rewrite N.sub_0_r.
  - rewrite chain_bytes_cons. unfold whole_spans in *. rewrite filter_cons.
    set (b := mdl_byte_count mdls a).
    rewrite length_app, length_buffer_bytes.
    destruct (decide (0 < b)%N) as [Hb|Hb].
    + rewrite fmap_cons. cbn [run_operator]. unfold SeekOperator at 1. simpl.
      fold b. destruct (decide (b ≤ rem)%N) as [Hle|Hgt].
      * rewrite decide_False by (intros H; by apply H).
        rewrite SIZE_T_sub_small by done.
        rewrite IH by lia.
        rewrite lookup_app_r by (rewrite length_buffer_bytes; lia).
        rewrite length_buffer_bytes.
        replace (N.to_nat rem - N.to_nat b) with (N.to_nat (rem - b)) by lia.
        destruct (chain_bytes mdls l !! N.to_nat (rem - b)) as [[a' k]|]; [done|].
        do 2 f_equal. lia.
      * rewrite decide_True by (unfold STATUS_SUCCESS, STATUS_STOP_ITERATION; lia).
        rewrite lookup_app_l by (rewrite length_buffer_bytes; lia).
        rewrite buffer_bytes_lookup by lia.
        do 2 f_equal. lia.
    + assert (b = 0%N) as -> by lia.
      rewrite IH by done. done.
Qed.

Lemma MdlChainAdvanceBytes_spec fuel mdls MdlChain l AdvanceOffset :
  is_mdl_chain mdls MdlChain l → length l < fuel →
  (AdvanceOffset < SIZE_T_MAX + 1)%N →
  MdlChainAdvanceBytes fuel mdls MdlChain AdvanceOffset
  = Some (byte_position mdls l AdvanceOffset).
Proof.
  intros Hl Hfuel Hoff. unfold MdlChainAdvanceBytes, byte_position.
  rewrite (MdlChainIterateBuffers_spec SeekOperator mdls l) by done.
  rewrite run_SeekOperator by done. simpl.
  destruct (chain_bytes mdls l !! N.to_nat AdvanceOffset) as [[a k]|] eqn:E; [done|].
  simpl. apply lookup_ge_None in E.
  destruct (decide (AdvanceOffset = N.of_nat (length (chain_bytes mdls l)))) as [->|Hne].
  - rewrite N.sub_diag. done.
  - rewrite decide_False; [done|]. intros [_ H]. lia.
Qed.

Lemma chain_bytes_in_buffer mdls l i a k :
  chain_bytes mdls l !! i = Some (a, k) → a ∈ l ∧ (k < mdl_byte_count mdls a)%N.
Proof.
  revert i. induction l as [|a0 l IH]; intros i Hi; [done|].
  rewrite chain_bytes_cons in Hi.
  destruct (decide (i < N.to_nat (mdl_byte_count mdls a0))) as [Hlt|Hge].
  - rewrite lookup_app_l in Hi by (by rewrite length_buffer_bytes).
    rewrite buffer_bytes_lookup in Hi by done. injection Hi as <- <-.
    split; [left | lia].
  - rewrite lookup_app_r in Hi by (rewrite length_buffer_bytes; lia).
    destruct (IH _ Hi) as [H1 H2]. split; [by right | done].
Qed.

Lemma byte_position_normal mdls p l off q :
  is_mdl_chain mdls p l → byte_position mdls l off = Returns q → is_normal mdls q.
Proof.
  intros Hl. unfold byte_position.
  destruct (chain_bytes mdls l !! N.to_nat off) as [[a k]|] eqn:E.
  - intros [= <-]. right. destruct (chain_bytes_in_buffer _ _ _ _ _ E) as [Ha Hk].
    destruct (lseg_allocated _ _ _ _ _ Hl Ha) as [nx Hnx].
    rewrite lookup_fmap in Hnx. apply fmap_Some in Hnx as (m & Hm & _).
    exists a, m. simpl. rewrite (mdl_byte_count_lookup _ _ _ Hm) in Hk. done.
  - case_decide; [|done]. intros [= <-]. by left.
Qed.

(** X25: [MdlChainAdvanceBytes] returns the MDL whose buffer holds the byte at
    [AdvanceOffset] of the payload of the chain, with the offset of that byte
    in the buffer; NULL and 0 when [AdvanceOffset] is the length of the
    payload; and it ends in [ReportFatalOverflow] when [AdvanceOffset] is
    greater.  A pointer it returns is in normal form. *)
Theorem X25_MdlChainAdvanceBytes_finds_the_byte fuel mdls MdlChain l AdvanceOffset :
  is_mdl_chain mdls MdlChain l → length l < fuel →
  (AdvanceOffset < SIZE_T_MAX + 1)%N →
  MdlChainAdvanceBytes fuel mdls MdlChain AdvanceOffset
    = Some (byte_position mdls l AdvanceOffset) ∧
  (∀ a k, chain_bytes mdls l !! N.to_nat AdvanceOffset = Some (a, k) →
     byte_position mdls l AdvanceOffset = Returns (mkPointer (Some a) k)) ∧
  (AdvanceOffset = N.of_nat (length (chain_bytes mdls l)) →
     byte_position mdls l AdvanceOffset = Returns (mkPointer None 0)) ∧
  ((N.of_nat (length (chain_bytes mdls l)) < AdvanceOffset)%N →
     byte_position mdls l AdvanceOffset = FatalOverflow) ∧
  (∀ q, byte_position mdls l AdvanceOffset = Returns q → is_normal mdls q).
Proof.
  intros Hl Hfuel Hoff. split; [by apply MdlChainAdvanceBytes_spec|].
  unfold byte_position. split; [|split; [|split]].
  - intros a k ->. done.
  - intros ->. rewrite Nat2N.id.
    rewrite (lookup_ge_None_2 _ (length _)) by done. by rewrite decide_True.
  - intros Hgt. rewrite lookup_ge_None_2 by lia. rewrite decide_False by lia. done.
  - intros q. by eapply byte_position_normal.
Qed.

Lemma X25_MdlChainAdvanceBytes_finds_the_byte_witness :
  MdlChainAdvanceBytes 4 example_mdls (Some 1) 7
    = Some (byte_position example_mdls example_mdl_chain 7) ∧
  (∀ a k, chain_bytes example_mdls example_mdl_chain !! N.to_nat 7 = Some (a, k) →
     byte_position example_mdls example_mdl_chain 7 = Returns (mkPointer (Some a) k)) ∧
  (7%N = N.of_nat (length (chain_bytes example_mdls example_mdl_chain)) →
     byte_position example_mdls example_mdl_chain 7 = Returns (mkPointer None 0)) ∧
  ((N.of_nat (length (chain_bytes example_mdls example_mdl_chain)) < 7)%N →
     byte_position example_mdls example_mdl_chain 7 = FatalOverflow) ∧
  (∀ q, byte_position example_mdls example_mdl_chain 7 = Returns q →
     is_normal example_mdls q).
Proof.
  apply (X25_MdlChainAdvanceBytes_finds_the_byte 4 example_mdls (Some 1)
           example_mdl_chain 7).
  - vm_compute. repeat split.
  - simpl. lia.
  - vm_compute. reflexivity.
Defined.

(** ** Pointers into a chain *)

Lemma byte_position_in_first mdls a l off :
  (off < mdl_byte_count mdls a)%N →
  byte_position mdls (a :: l) off = Returns (mkPointer (Some a) off).
Proof.
  intros Hoff. unfold byte_position. rewrite chain_bytes_cons.
  rewrite lookup_app_l by (rewrite length_buffer_bytes; lia).
  rewrite buffer_bytes_lookup by lia. do 2 f_equal. lia.
Qed.

(** X26: for a pointer into a chain, [MdlPointerNormalize] returns the
    pointer in normal form to the same byte of the payload, and
    [MdlPointerAdvanceBytes] the pointer in normal form to the byte [Delta]
    further; both return the NULL pointer at the end of the payload and end
    in [ReportFatalOverflow] beyond it. *)
Theorem X26_MdlPointerNormalize_and_AdvanceBytes fuel mdls a l off Delta :
  is_mdl_chain mdls (Some a) l → length l < fuel →
  (off + Delta < SIZE_T_MAX + 1)%N →
  MdlPointerNormalize fuel mdls (mkPointer (Some a) off)
    = Some (byte_position mdls l off) ∧
  MdlPointerAdvanceBytes fuel mdls (mkPointer (Some a) off) Delta
    = Some (byte_position mdls l (off + Delta)) ∧
  (∀ q, byte_position mdls l off = Returns q → is_normal mdls q) ∧
  (∀ q, byte_position mdls l (off + Delta) = Returns q → is_normal mdls q).
Proof.
  intros Hl Hfuel Hbound.
  pose proof (chain_cons_tail _ _ _ Hl) as Hl'.
  pose proof Hl as Hl0. rewrite Hl' in Hl0.
  apply mdl_chain_cons in Hl0 as [_ (m & Hm & _)].
  pose proof (mdl_byte_count_lookup _ _ _ Hm) as Hb.
  split; [|split; [|split]].
  - unfold MdlPointerNormalize. simpl. rewrite Hm. simpl. unfold MmGetMdlByteCount.
    case_decide as Hle.
    + apply MdlChainAdvanceBytes_spec; [done | done | lia].
    + rewrite Hl'. rewrite byte_position_in_first by (rewrite Hb; lia). done.
  - unfold MdlPointerAdvanceBytes. simpl. rewrite Hm. simpl. unfold MmGetMdlByteCount.
    assert (Hadd : SIZE_T_add Delta off = (off + Delta)%N).
    { unfold SIZE_T_add. rewrite N.mod_small by lia. lia. }
    assert (Hadd' : SIZE_T_add off Delta = (off + Delta)%N).
    { unfold SIZE_T_add. by rewrite N.mod_small by lia. }
    rewrite Hadd, Hadd'. case_decide as Hlt.
    + rewrite Hl'. rewrite byte_position_in_first by (rewrite Hb; lia). done.
    + apply MdlChainAdvanceBytes_spec; [done | done | lia].
  - intros q. by eapply byte_position_normal.
  - intros q. by eapply byte_position_normal.
Qed.

Lemma X26_MdlPointerNormalize_and_AdvanceBytes_witness :
  MdlPointerNormalize 4 example_mdls (mkPointer (Some 1) 5)
    = Some (byte_position example_mdls example_mdl_chain 5) ∧
  MdlPointerAdvanceBytes 4 example_mdls (mkPointer (Some 1) 5) 3
    = Some (byte_position example_mdls example_mdl_chain (N.add 5 3)) ∧
  (∀ q, byte_position example_mdls example_mdl_chain 5 = Returns q →
     is_normal example_mdls q) ∧
  (∀ q, byte_position example_mdls example_mdl_chain (N.add 5 3) = Returns q →
     is_normal example_mdls q).
Proof.
  apply (X26_MdlPointerNormalize_and_AdvanceBytes 4 example_mdls 1 example_mdl_chain
           5 3).
  - vm_compute. repeat split.
  - simpl. lia.
  - vm_compute. reflexivity.
Defined.

(** ** Spans of a chain *)

Lemma buffer_bytes_take_drop a b o n :
  (o + n ≤ b)%N →
  take (N.to_nat n) (drop (N.to_nat o) (buffer_bytes a 0 b)) = buffer_bytes a o n.
Proof.
  intros Hle. apply list_eq. intros i.
  destruct (decide (i < N.to_nat n)) as [Hi|Hi].
  - rewrite lookup_take_lt by done. rewrite lookup_drop.
    rewrite !buffer_bytes_lookup by lia. do 2 f_equal. lia.
  - rewrite lookup_take_ge by lia. symmetry. apply lookup_ge_None.
    rewrite length_buffer_bytes. lia.
Qed.

Lemma subspans_in_buffer mdls l :
  ∀ off len, (0 < len)%N → Forall (span_in_buffer mdls) (subspans mdls l off len).
Proof.
  induction l as [|a l IH]; intros off len Hlen; simpl; [constructor|].
  case_decide as Hoff.
  - constructor.
    + exists a. simpl. split; [done|]. split; lia.
    + case_decide; [constructor|]. apply IH. lia.
  - by apply IH.
Qed.

Lemma subspans_bytes mdls l :
  ∀ off len, (0 < len)%N →
  (off + len ≤ N.of_nat (length (chain_bytes mdls l)))%N →
  mjoin (span_bytes <$> subspans mdls l off len)
  = take (N.to_nat len) (drop (N.to_nat off) (chain_bytes mdls l)).
Proof.
  induction l as [|a l IH]; intros off len Hlen Hfit.
  - simpl in Hfit. lia.
  - rewrite chain_bytes_cons in *. rewrite length_app, length_buffer_bytes in Hfit.
    cbn [subspans]. set (b := mdl_byte_count mdls a) in *.
    rewrite drop_app, take_app, length_buffer_bytes, length_drop, length_buffer_bytes.
    destruct (decide (off < b)%N) as [Hoff|Hoff].
    + rewrite fmap_cons. cbn [mjoin list_join]. unfold span_bytes at 1. simpl.
      replace (N.to_nat off - N.to_nat b) with 0 by lia. rewrite drop_0.
      destruct (decide (len - N.min (b - off) len = 0)%N) as [Hz|Hnz].
      * assert (N.min (b - off) len = len) as -> by lia.
        rewrite buffer_bytes_take_drop by lia.
        replace (N.to_nat len - (N.to_nat b - N.to_nat off)) with 0 by lia.
        by rewrite take_0.
      * assert (N.min (b - off) len = (b - off)%N) as -> by lia.
        rewrite IH by lia.
        rewrite <- (buffer_bytes_take_drop a b off (b - off)) by lia.
        rewrite (take_ge (drop _ _)) by (rewrite length_drop, length_buffer_bytes; lia).
        rewrite (take_ge (drop _ (buffer_bytes _ _ _)))
          by (rewrite length_drop, length_buffer_bytes; lia).
        simpl. rewrite drop_0. do 2 f_equal. lia.
    + rewrite (drop_ge (buffer_bytes _ _ _)) by (rewrite length_buffer_bytes; lia).
      rewrite take_nil. simpl.
      rewrite IH by lia. f_equal; [lia|]. f_equal. lia.
Qed.

Section MdlSpanIterate_correct.

Context {C : Type}.
Variable Operator : C → MDL_SPAN → NTSTATUS * C.
Variable mdls : gmap nat MDL.

Lemma MdlSpanIterateBuffers_loop_spec l :
  ∀ fuel p off len ctx,
  is_mdl_chain mdls p l → length l < fuel →
  (0 < len)%N → (off < SIZE_T_MAX + 1)%N → (len < SIZE_T_MAX + 1)%N →
  Forall (λ a, (mdl_byte_count mdls a < SIZE_T_MAX + 1)%N) l →
  MdlSpanIterateBuffers_loop Operator fuel mdls p off len ctx
  = Some (if decide ((N.of_nat (length (chain_bytes mdls l)) < off + len)%N ∧
                     (run_operator Operator ctx (subspans mdls l off len)).1
                     = STATUS_SUCCESS)
          then FatalOverflow
          else Returns (run_operator Operator ctx (subspans mdls l off len))).
Proof.
  induction l as [|a l IH]; intros fuel p off len ctx Hl Hfuel Hlen Hoff Hlen' Hbytes.
  all: destruct fuel as [|fuel]; [simpl in Hfuel; lia|].
  - unfold is_mdl_chain, is_chain in Hl. simpl in Hl. subst p. simpl.
    rewrite decide_True by done. rewrite decide_True; [done|]. split; [lia | done].
  - apply mdl_chain_cons in Hl as [-> (m & Hm & Hl)]. simpl in Hfuel.
    apply Forall_cons in Hbytes as [Hb Hbytes].
    cbn [MdlSpanIterateBuffers_loop subspans]. rewrite Hm. cbn [mbind option_bind].
    rewrite chain_bytes_cons, length_app, length_buffer_bytes.
    rewrite (mdl_byte_count_lookup _ _ _ Hm) in *. unfold MmGetMdlByteCount.
    set (b := ByteCount m) in *.
    destruct (N.lt_ge_cases off b) as [Hlt|Hge].
    + assert (MinSizeT off b = off) as -> by (unfold MinSizeT; by rewrite decide_True).
      rewrite !(decide_True (P := (off < b)%N)) by done.
      rewrite (SIZE_T_sub_small off off) by lia. rewrite N.sub_diag.
      rewrite (SIZE_T_sub_small b off) by lia.
      assert (Hmin : MinSizeT (b - off) len = N.min (b - off) len).
      { unfold MinSizeT. case_decide; lia. }
      rewrite Hmin. cbn [run_operator].
      destruct (Operator ctx _) as [st ctx'].
      destruct (decide (STATUS_SUCCESS ≠ st)) as [Hst|Hst].
      * rewrite decide_False; [done|]. simpl. intros [_ H]. by apply Hst.
      * rewrite (SIZE_T_sub_small len) by lia.
        destruct (decide (len - N.min (b - off) len = 0)%N) as [Hz|Hnz].
        -- rewrite decide_True by lia. simpl.
           rewrite decide_False; [done|]. intros [H _]. lia.
        -- rewrite decide_False by lia.
           rewrite IH by (done || lia).
           assert (N.min (b - off) len = (b - off)%N) as Hm' by lia.
           f_equal. destruct (decide (_ ∧ _)) as [[H1 H2]|Hn].
           ++ rewrite decide_True; [done|]. split; [lia | done].
           ++ rewrite decide_False; [done|]. intros [H1 H2]. apply Hn.
              split; [lia | done].
    + assert (MinSizeT off b = b) as -> by (unfold MinSizeT; rewrite decide_False; lia).
      rewrite (decide_False (P := (off < b)%N)) by lia.
      rewrite (decide_False (P := (b < b)%N)) by lia.
      rewrite (SIZE_T_sub_small off b) by lia.
      rewrite IH by (done || lia).
      f_equal. destruct (decide (_ ∧ _)) as [[H1 H2]|Hn].
      * rewrite decide_True; [done|]. split; [lia | done].
      * rewrite decide_False; [done|]. intros [H1 H2]. apply Hn. split; [lia | done].
Qed.

End MdlSpanIterate_correct.

(** X24: for a span of [len] bytes at offset [off] that fits in the payload
    of the chain, [MdlSpanIterateBuffers] calls the operator on parts of the
    buffers that are not empty, each inside the buffer of its MDL, that are
    together exactly the bytes [off, off + len) of the payload, in order,
    until a call returns a status other than [STATUS_SUCCESS]; for a span
    that does not fit it ends in [ReportFatalOverflow] unless the operator
    stops the iteration before. *)
Theorem X24_MdlSpanIterateBuffers_covers_the_span {C : Type}
    (Operator : C → MDL_SPAN → NTSTATUS * C) fuel mdls p l off len ctx :
  is_mdl_chain mdls p l → length l < fuel →
  (0 < len)%N → (off < SIZE_T_MAX + 1)%N → (len < SIZE_T_MAX + 1)%N →
  Forall (λ a, (mdl_byte_count mdls a < SIZE_T_MAX + 1)%N) l →
  ∃ spans,
    Forall (span_in_buffer mdls) spans ∧
    ((off + len ≤ N.of_nat (length (chain_bytes mdls l)))%N →
       MdlSpanIterateBuffers Operator fuel mdls (mkSpan (mkPointer p off) len) ctx
         = Some (Returns (run_operator Operator ctx spans)) ∧
       mjoin (span_bytes <$> spans)
         = take (N.to_nat len) (drop (N.to_nat off) (chain_bytes mdls l))) ∧
    ((N.of_nat (length (chain_bytes mdls l)) < off + len)%N →
       MdlSpanIterateBuffers Operator fuel mdls (mkSpan (mkPointer p off) len) ctx
         = Some (if decide ((run_operator Operator ctx spans).1 = STATUS_SUCCESS)
                 then FatalOverflow
                 else Returns (run_operator Operator ctx spans))).
Proof.
  intros Hl Hfuel Hlen Hoff Hlen' Hbytes.
  exists (subspans mdls l off len).
  split; [by apply subspans_in_buffer|].
  unfold MdlSpanIterateBuffers. simpl. rewrite decide_False by lia.
  rewrite (MdlSpanIterateBuffers_loop_spec Operator mdls l) by done.
  split.
  - intros Hfit. split; [|by apply subspans_bytes].
    rewrite decide_False; [done|]. intros [H _]. lia.
  - intros Hover. f_equal. destruct (decide (_ = _)) as [Hs|Hs].
    + by rewrite decide_True.
    + rewrite decide_False; [done|]. by intros [_ ?].
Qed.

Lemma X24_MdlSpanIterateBuffers_covers_the_span_witness :
  ∃ spans,
    Forall (span_in_buffer example_mdls) spans ∧
    ((N.add 2 5 ≤ N.of_nat (length (chain_bytes example_mdls example_mdl_chain)))%N →
       MdlSpanIterateBuffers (example_operator 0) 4 example_mdls
         (mkSpan (mkPointer (Some 1) 2) 5) []
         = Some (Returns (run_operator (example_operator 0) [] spans)) ∧
       mjoin (span_bytes <$> spans)
         = take (N.to_nat 5) (drop (N.to_nat 2)
                                (chain_bytes example_mdls example_mdl_chain))) ∧
    ((N.of_nat (length (chain_bytes example_mdls example_mdl_chain)) < N.add 2 5)%N →
       MdlSpanIterateBuffers (example_operator 0) 4 example_mdls
         (mkSpan (mkPointer (Some 1) 2) 5) []
         = Some (if decide ((run_operator (example_operator 0) [] spans).1
                            = STATUS_SUCCESS)
                 then FatalOverflow
                 else Returns (run_operator (example_operator 0) [] spans))).
Proof.
  apply (X24_MdlSpanIterateBuffers_covers_the_span (example_operator 0) 4 example_mdls
           (Some 1) example_mdl_chain 2 5 []).
  - vm_compute. repeat split.
  - simpl. lia.
  - vm_compute. reflexivity.
  - vm_compute. reflexivity.
  - vm_compute. reflexivity.
  - repeat (constructor; [vm_compute; reflexivity|]). constructor.
Defined.

(** ** The routines that write and read the buffers *)

Lemma elem_of_buffer_addresses buffer_of a o n x :
  x ∈ byte_address buffer_of <$> buffer_bytes a o n
  ↔ (buffer_of (Some a) + o ≤ x < buffer_of (Some a) + o + n)%N.
Proof.
  unfold buffer_bytes. rewrite <- list_fmap_compose, list_elem_of_fmap. split.
  - intros (k & -> & Hk%elem_of_seq). unfold byte_address. simpl. lia.
  - intros Hx. exists (N.to_nat (x - (buffer_of (Some a) + o))). split.
    + unfold byte_address. simpl. lia.
    + apply elem_of_seq. lia.
Qed.

Lemma length_buffer_addresses buffer_of a o n :
  length (byte_address buffer_of <$> buffer_bytes a o n) = N.to_nat n.
Proof. by rewrite length_fmap, length_buffer_bytes. Qed.

Lemma subspans_mdl_in mdls l :
  ∀ off len, Forall (λ s, ∃ a, Mdl (Start s) = Some a ∧ a ∈ l) (subspans mdls l off len).
Proof.
  induction l as [|a l IH]; intros off len; simpl; [constructor|].
  assert (Hmono : ∀ o n, Forall (λ s, ∃ a0, Mdl (Start s) = Some a0 ∧ a0 ∈ a :: l)
                           (subspans mdls l o n)).
  { intros o n. eapply Forall_impl; [apply IH|]. intros s (a0 & H1 & H2).
    exists a0. split; [done | by right]. }
  case_decide.
  - constructor; [exists a; split; [done | left]|]. case_decide; [constructor | apply Hmono].
  - apply Hmono.
Qed.

(** [MdlSpanIterateBuffers] on a span that fits in the payload. *)
Lemma MdlSpanIterateBuffers_fits {C : Type} (Operator : C → MDL_SPAN → NTSTATUS * C)
    fuel mdls p l off len ctx :
  is_mdl_chain mdls p l → length l < fuel →
  (off < SIZE_T_MAX + 1)%N → (len < SIZE_T_MAX + 1)%N →
  Forall (λ a, (mdl_byte_count mdls a < SIZE_T_MAX + 1)%N) l →
  (off + len ≤ N.of_nat (length (chain_bytes mdls l)))%N →
  ∃ spans,
    MdlSpanIterateBuffers Operator fuel mdls (mkSpan (mkPointer p off) len) ctx
      = Some (Returns (run_operator Operator ctx spans)) ∧
    Forall (λ s, ∃ a, Mdl (Start s) = Some a ∧ a ∈ l) spans ∧
    mjoin (span_bytes <$> spans)
      = take (N.to_nat len) (drop (N.to_nat off) (chain_bytes mdls l)).
Proof.
  intros Hl Hfuel Hoff Hlen Hbytes Hfit.
  unfold MdlSpanIterateBuffers. simpl.
  destruct (decide (0 = len)%N) as [<-|Hpos].
  - exists []. split; [done|]. split; [constructor|]. by rewrite take_0.
  - exists (subspans mdls l off len).
    rewrite (MdlSpanIterateBuffers_loop_spec Operator mdls l) by (done || lia).
    rewrite decide_False by (intros [H _]; lia).
    split; [done|]. split; [apply subspans_mdl_in|]. apply subspans_bytes; [lia | done].
Qed.

Section FillLike.

Variable buffer_of : option nat → N.
Variable v : N.
Variable Op : MEMORY → MDL_SPAN → NTSTATUS * MEMORY.
Hypothesis HOp : ∀ mem s, Op mem s = FillOperator buffer_of v mem s.

Lemma run_fill_like spans : ∀ mem,
  Forall (λ s, ∃ a, Mdl (Start s) = Some a ∧ buffer_of (Some a) ≠ 0%N) spans →
  ∃ mem', run_operator Op mem spans = (STATUS_SUCCESS, mem') ∧
    ∀ x, mem' x = if decide (x ∈ byte_address buffer_of <$> mjoin (span_bytes <$> spans))
                  then (v mod 256)%N else mem x.
Proof.
  induction spans as [|s spans IH]; intros mem Hmap.
  - exists mem. split; [done|]. intros x. rewrite decide_False; [done|]. apply not_elem_of_nil.
  - apply Forall_cons in Hmap as [(a & Ha & Hmap) Hrest].
    cbn [run_operator]. rewrite HOp. unfold FillOperator.
    destruct s as [[p o] n]. simpl in Ha. subst p. cbn [Mdl Start Offset Length].
    rewrite (decide_False (P := (buffer_of (Some a) = 0%N))) by done.
    rewrite decide_False by (intros H; by apply H).
    destruct (IH (RtlFillMemory mem (buffer_of (Some a) + o) n (v mod 256)) Hrest)
      as (mem' & Hrun & Hmem).
    exists mem'. split; [done|]. intros x. rewrite Hmem.
    rewrite fmap_cons. cbn [mjoin list_join]. rewrite fmap_app.
    unfold span_bytes at 2. cbn [Mdl Start Offset Length].
    destruct (decide (x ∈ byte_address buffer_of <$> mjoin (span_bytes <$> spans)))
      as [Hin|Hnin].
    + rewrite decide_True; [done|]. apply elem_of_app. by right.
    + unfold RtlFillMemory.
      destruct (decide (buffer_of (Some a) + o ≤ x < buffer_of (Some a) + o + n)%N)
        as [Hr|Hr].
      * rewrite decide_True; [done|]. apply elem_of_app. left.
        by apply elem_of_buffer_addresses.
      * rewrite decide_False; [done|].
        intros [H1|H2]%elem_of_app; [|done]. by apply elem_of_buffer_addresses in H1.
Qed.

Lemma run_fill_like_chain mdls l : ∀ mem,
  ∃ mem', run_operator Op mem (whole_spans mdls l)
          = (if decide (mapped_prefix buffer_of mdls l = l) then STATUS_SUCCESS
             else STATUS_INSUFFICIENT_RESOURCES, mem') ∧
    ∀ x, mem' x
         = if decide (x ∈ byte_address buffer_of <$>
                            chain_bytes mdls (mapped_prefix buffer_of mdls l))
           then (v mod 256)%N else mem x.
Proof.
  induction l as [|a l IH]; intros mem.
  - exists mem. split; [done|]. intros x. rewrite decide_False; [done|]. apply not_elem_of_nil.
  - unfold whole_spans in *. rewrite filter_cons. cbn [mapped_prefix].
    destruct (decide (0 < mdl_byte_count mdls a)%N) as [Hb|Hb].
    + rewrite fmap_cons. cbn [run_operator]. rewrite HOp. unfold FillOperator.
      cbn [Mdl Start Offset Length].
      destruct (decide (buffer_of (Some a) = 0%N)) as [Hz|Hnz].
      * rewrite (decide_True (P := (STATUS_SUCCESS ≠ _)))
          by (unfold STATUS_SUCCESS, STATUS_INSUFFICIENT_RESOURCES; lia).
        rewrite (decide_True (P := (_ ∧ _))) by done.
        exists mem. rewrite decide_False by done. split; [done|]. intros x.
        rewrite decide_False; [done|]. apply not_elem_of_nil.
      * rewrite decide_False by (intros H; by apply H).
        rewrite (decide_False (P := (_ ∧ _))) by (by intros [_ ?]).
        destruct (IH (RtlFillMemory mem (buffer_of (Some a) + 0)
                        (mdl_byte_count mdls a) (v mod 256))) as (mem' & Hrun & Hmem).
        exists mem'. split.
        -- rewrite Hrun. f_equal.
           destruct (decide (mapped_prefix buffer_of mdls l = l)) as [He|Hne].
           ++ rewrite decide_True; [done|]. by rewrite He.
           ++ rewrite decide_False; [done|]. intros [= He]. done.
        -- intros x. rewrite Hmem. rewrite chain_bytes_cons, fmap_app.
           destruct (decide (x ∈ byte_address buffer_of <$>
                       chain_bytes mdls (mapped_prefix buffer_of mdls l))) as [Hin|Hnin].
           ++ rewrite decide_True; [done|]. apply elem_of_app. by right.
           ++ unfold RtlFillMemory.
              destruct (decide (buffer_of (Some a) + 0 ≤ x
                                < buffer_of (Some a) + 0 + mdl_byte_count mdls a)%N)
                as [Hr|Hr].
              ** rewrite decide_True; [done|]. apply elem_of_app. left.
                 by apply elem_of_buffer_addresses.
              ** rewrite decide_False; [done|].
                 intros [H1|H2]%elem_of_app; [|done].
                 by apply elem_of_buffer_addresses in H1.
    + rewrite (decide_False (P := (_ ∧ _))) by (by intros [? _]).
      destruct (IH mem) as (mem' & Hrun & Hmem).
      exists mem'. split.
      * rewrite Hrun. f_equal.
        destruct (decide (mapped_prefix buffer_of mdls l = l)) as [He|Hne].
        -- rewrite decide_True; [done|]. by rewrite He.
        -- rewrite decide_False; [done|]. intros [= He]. done.
      * intros x. rewrite Hmem. rewrite chain_bytes_cons.
        assert (mdl_byte_count mdls a = 0%N) as -> by lia. done.
Qed.

End FillLike.

Lemma ZeroOperator_is_fill buffer_of ctx mem s :
  ZeroOperator buffer_of ctx mem s = FillOperator buffer_of 0%N mem s.
Proof. reflexivity. Qed.

Lemma run_MapOperator buffer_of mdls l mem :
  run_operator (MapOperator buffer_of 0%N) mem (whole_spans mdls l)
  = (if decide (mapped_prefix buffer_of mdls l = l) then STATUS_SUCCESS
     else STATUS_INSUFFICIENT_RESOURCES, mem).
Proof.
  induction l as [|a l IH]; [done|].
  unfold whole_spans in *. rewrite filter_cons. cbn [mapped_prefix].
  destruct (decide (0 < mdl_byte_count mdls a)%N) as [Hb|Hb].
  - rewrite fmap_cons. cbn [run_operator]. unfold MapOperator at 1.
    cbn [Mdl Start Offset Length]. rewrite (decide_True (P := (0 < _)%N)) by done.
    destruct (decide (buffer_of (Some a) = 0%N)) as [Hz|Hnz].
    + rewrite (decide_True (P := (STATUS_SUCCESS ≠ _)))
        by (unfold STATUS_SUCCESS, STATUS_INSUFFICIENT_RESOURCES; lia).
      rewrite (decide_True (P := (_ ∧ _))) by done.
      by rewrite decide_False.
    + rewrite decide_False by (intros H; by apply H).
      rewrite (decide_False (P := (_ ∧ _))) by (by intros [_ ?]).
      rewrite IH. f_equal.
      destruct (decide (mapped_prefix buffer_of mdls l = l)) as [He|Hne].
      * rewrite decide_True; [done|]. by rewrite He.
      * rewrite decide_False; [done|]. intros [= He]. done.
  - rewrite (decide_False (P := (_ ∧ _))) by (by intros [? _]).
    rewrite IH. f_equal.
    destruct (decide (mapped_prefix buffer_of mdls l = l)) as [He|Hne].
    + rewrite decide_True; [done|]. by rewrite He.
    + rewrite decide_False; [done|]. intros [= He]. done.
Qed.

Lemma mapped_prefix_prefix buffer_of mdls l :
  mapped_prefix buffer_of mdls l `prefix_of` l.
Proof.
  induction l as [|a l IH]; [done|]. simpl. case_decide.
  - apply prefix_nil.
  - by apply prefix_cons.
Qed.

Lemma mapped_prefix_all buffer_of mdls l :
  mapped_prefix buffer_of mdls l = l
  ↔ Forall (λ a, (0 < mdl_byte_count mdls a)%N → buffer_of (Some a) ≠ 0%N) l.
Proof.
  induction l as [|a l IH]; [done|]. simpl. rewrite Forall_cons. case_decide as H.
  - split; [done|]. intros [Ha _]. destruct H as [H1 H2]. by apply Ha in H1.
  - split.
    + intros [= He]. split; [|by apply IH]. intros Hb Hz. by apply H.
    + intros [_ Hl]. f_equal. by apply IH.
Qed.

(** X27: when every MDL of the chain can be mapped and the [len] bytes at
    offset [off] fit in the payload, [MdlChainZeroBuffersAtOffset] and
    [MdlChainFillBuffersAtOffset] (and so [MdlSpanZeroBuffers] and
    [MdlSpanFillBuffers]) return [STATUS_SUCCESS] and leave the memory as it
    was except at the addresses of the bytes [off, off + len) of the payload,
    which hold 0 and the fill byte. *)
Theorem X27_zero_and_fill_write_exactly_the_span buffer_of fuel mdls MdlChain l
    off len FillByte mem :
  is_mdl_chain mdls MdlChain l → length l < fuel →
  (off < SIZE_T_MAX + 1)%N → (len < SIZE_T_MAX + 1)%N →
  Forall (λ a, (mdl_byte_count mdls a < SIZE_T_MAX + 1)%N) l →
  (off + len ≤ N.of_nat (length (chain_bytes mdls l)))%N →
  Forall (λ a, buffer_of (Some a) ≠ 0%N) l →
  (FillByte < 256)%N →
  ∃ mem0 memF,
    MdlChainZeroBuffersAtOffset buffer_of fuel mdls MdlChain off len mem
      = Some (Returns (STATUS_SUCCESS, mem0)) ∧
    (∀ x, mem0 x = if decide (x ∈ span_addresses buffer_of mdls l off len)
                   then 0%N else mem x) ∧
    MdlChainFillBuffersAtOffset buffer_of fuel mdls MdlChain off len FillByte mem
      = Some (Returns (STATUS_SUCCESS, memF)) ∧
    (∀ x, memF x = if decide (x ∈ span_addresses buffer_of mdls l off len)
                   then FillByte else mem x).
Proof.
  intros Hl Hfuel Hoff Hlen Hbytes Hfit Hmap Hbyte.
  assert (Hmapped : ∀ spans,
            Forall (λ s, ∃ a, Mdl (Start s) = Some a ∧ a ∈ l) spans →
            Forall (λ s, ∃ a, Mdl (Start s) = Some a ∧ buffer_of (Some a) ≠ 0%N) spans).
  { intros spans Hs. eapply Forall_impl; [exact Hs|].
    intros s (a & Ha & Hin). exists a. split; [done|].
    by apply (proj1 (Forall_forall _ _) Hmap). }
  destruct (MdlSpanIterateBuffers_fits (ZeroOperator buffer_of 0%N) fuel mdls MdlChain l
              off len mem) as (spans0 & Hrun0 & Hin0 & Hb0); [done..|].
  destruct (run_fill_like buffer_of 0%N (ZeroOperator buffer_of 0%N)
              (ZeroOperator_is_fill buffer_of 0%N) spans0 mem (Hmapped _ Hin0))
    as (mem0 & Hr0 & Hm0).
  destruct (MdlSpanIterateBuffers_fits (FillOperator buffer_of FillByte) fuel mdls
              MdlChain l off len mem) as (spansF & HrunF & HinF & HbF); [done..|].
  destruct (run_fill_like buffer_of FillByte (FillOperator buffer_of FillByte)
              (λ _ _, eq_refl) spansF mem (Hmapped _ HinF))
    as (memF & HrF & HmF).
  exists mem0, memF.
  unfold MdlChainZeroBuffersAtOffset, MdlSpanZeroBuffers,
    MdlChainFillBuffersAtOffset, MdlSpanFillBuffers, span_addresses.
  rewrite Hrun0, Hr0, HrunF, HrF. split; [done|]. split; [|split; [done|]].
  - intros x. rewrite Hm0, Hb0. done.
  - intros x. rewrite HmF, HbF. by rewrite N.mod_small.
Qed.

Lemma X27_zero_and_fill_write_exactly_the_span_witness :
  ∃ mem0 memF,
    MdlChainZeroBuffersAtOffset example_buffer_of 4 example_mdls (Some 1) 2 5
      example_memory = Some (Returns (STATUS_SUCCESS, mem0)) ∧
    (∀ x, mem0 x
          = if decide (x ∈ span_addresses example_buffer_of example_mdls
                             example_mdl_chain 2 5)
            then 0%N else example_memory x) ∧
    MdlChainFillBuffersAtOffset example_buffer_of 4 example_mdls (Some 1) 2 5 170
      example_memory = Some (Returns (STATUS_SUCCESS, memF)) ∧
    (∀ x, memF x
          = if decide (x ∈ span_addresses example_buffer_of example_mdls
                             example_mdl_chain 2 5)
            then 170%N else example_memory x).
Proof.
  apply (X27_zero_and_fill_write_exactly_the_span example_buffer_of 4 example_mdls
           (Some 1) example_mdl_chain 2 5 170 example_memory).
  - vm_compute. repeat split.
  - simpl. lia.
  - vm_compute. reflexivity.
  - vm_compute. reflexivity.
  - repeat (constructor; [vm_compute; reflexivity|]). constructor.
  - vm_compute. intros H. discriminate H.
  - repeat (constructor; [vm_compute; discriminate|]). constructor.
  - vm_compute. reflexivity.
Defined.

(** X28: the routines on a whole chain stop at the first MDL whose buffer is
    not empty and cannot be mapped.  [MdlChainEnsureMappedSystemAddress],
    [MdlChainZeroBuffers] and [MdlChainFillBuffers] return [STATUS_SUCCESS]
    when there is none, which is when every MDL with a buffer that is not
    empty can be mapped, and [STATUS_INSUFFICIENT_RESOURCES] otherwise; the
    first leaves the memory as it was, the others have then written the
    buffers of the MDLs before that one, and nothing else. *)
Theorem X28_chain_routines_stop_at_unmapped_mdl buffer_of fuel mdls MdlChain l
    FillByte mem :
  is_mdl_chain mdls MdlChain l → length l < fuel → (FillByte < 256)%N →
  let done := mapped_prefix buffer_of mdls l in
  let status := if decide (done = l) then STATUS_SUCCESS
                else STATUS_INSUFFICIENT_RESOURCES in
  done `prefix_of` l ∧
  (done = l ↔
   Forall (λ a, (0 < mdl_byte_count mdls a)%N → buffer_of (Some a) ≠ 0%N) l) ∧
  MdlChainEnsureMappedSystemAddress buffer_of fuel mdls MdlChain mem
    = Some (status, mem) ∧
  (∃ mem0,
     MdlChainZeroBuffers buffer_of fuel mdls MdlChain mem = Some (status, mem0) ∧
     ∀ x, mem0 x = if decide (x ∈ byte_address buffer_of <$> chain_bytes mdls done)
                   then 0%N else mem x) ∧
  (∃ memF,
     MdlChainFillBuffers buffer_of fuel mdls MdlChain FillByte mem
       = Some (status, memF) ∧
     ∀ x, memF x = if decide (x ∈ byte_address buffer_of <$> chain_bytes mdls done)
                   then FillByte else mem x).
Proof.
  intros Hl Hfuel Hbyte done status.
  split; [apply mapped_prefix_prefix|]. split; [apply mapped_prefix_all|].
  unfold MdlChainEnsureMappedSystemAddress, MdlChainZeroBuffers, MdlChainFillBuffers.
  rewrite !(MdlChainIterateBuffers_spec _ mdls l) by done.
  rewrite run_MapOperator. split; [done|]. split.
  - destruct (run_fill_like_chain buffer_of 0%N (ZeroOperator buffer_of 0%N)
                (ZeroOperator_is_fill buffer_of 0%N) mdls l mem) as (mem0 & Hr & Hm).
    exists mem0. rewrite Hr. split; [done|]. intros x. rewrite Hm. done.
  - destruct (run_fill_like_chain buffer_of FillByte (FillOperator buffer_of FillByte)
                (λ _ _, eq_refl) mdls l mem) as (memF & Hr & Hm).
    exists memF. rewrite Hr. split; [done|]. intros x. rewrite Hm.
    by rewrite N.mod_small.
Qed.

Lemma X28_chain_routines_stop_at_unmapped_mdl_witness :
  let done := mapped_prefix example_buffer_of' example_mdls example_mdl_chain in
  let status := if decide (done = example_mdl_chain) then STATUS_SUCCESS
                else STATUS_INSUFFICIENT_RESOURCES in
  done `prefix_of` example_mdl_chain ∧
  (done = example_mdl_chain ↔
   Forall (λ a, (0 < mdl_byte_count example_mdls a)%N →
                example_buffer_of' (Some a) ≠ 0%N) example_mdl_chain) ∧
  MdlChainEnsureMappedSystemAddress example_buffer_of' 4 example_mdls (Some 1)
    example_memory = Some (status, example_memory) ∧
  (∃ mem0,
     MdlChainZeroBuffers example_buffer_of' 4 example_mdls (Some 1) example_memory
       = Some (status, mem0) ∧
     ∀ x, mem0 x
          = if decide (x ∈ byte_address example_buffer_of' <$>
                             chain_bytes example_mdls done)
            then 0%N else example_memory x) ∧
  (∃ memF,
     MdlChainFillBuffers example_buffer_of' 4 example_mdls (Some 1) 170 example_memory
       = Some (status, memF) ∧
     ∀ x, memF x
          = if decide (x ∈ byte_address example_buffer_of' <$>
                             chain_bytes example_mdls done)
            then 170%N else example_memory x).
Proof.
  apply (X28_chain_routines_stop_at_unmapped_mdl example_buffer_of' 4 example_mdls
           (Some 1) example_mdl_chain 170 example_memory).
  - vm_compute. repeat split.
  - simpl. lia.
  - vm_compute. reflexivity.
Defined.

(** ** Copies between a flat buffer and the buffers of a chain *)

Lemma buffer_addresses_lookup buffer_of a o n i x :
  (byte_address buffer_of <$> buffer_bytes a o n) !! i = Some x →
  i < N.to_nat n ∧ x = (buffer_of (Some a) + (o + N.of_nat i))%N.
Proof.
  intros Hi. pose proof (lookup_lt_Some _ _ _ Hi) as Hlt.
  rewrite length_buffer_addresses in Hlt. split; [done|].
  rewrite list_lookup_fmap, buffer_bytes_lookup in Hi by done.
  by injection Hi as <-.
Qed.

Lemma span_bytes_mk a o n :
  span_bytes (mkSpan (mkPointer (Some a) o) n) = buffer_bytes a o n.
Proof. done. Qed.

Lemma run_ReadOperator buffer_of spans : ∀ D mem,
  Forall (λ s, ∃ a, Mdl (Start s) = Some a ∧ buffer_of (Some a) ≠ 0%N) spans →
  Forall (λ x, ¬ (D ≤ x < D + N.of_nat (length (mjoin (span_bytes <$> spans))))%N)
    (byte_address buffer_of <$> mjoin (span_bytes <$> spans)) →
  ∃ mem',
    run_operator (ReadOperator buffer_of) (mkCopy D mem) spans
      = (STATUS_SUCCESS,
         mkCopy (D + N.of_nat (length (mjoin (span_bytes <$> spans)))) mem') ∧
    (∀ i x, (byte_address buffer_of <$> mjoin (span_bytes <$> spans)) !! i = Some x →
       mem' (D + N.of_nat i)%N = mem x) ∧
    (∀ x, ¬ (D ≤ x < D + N.of_nat (length (mjoin (span_bytes <$> spans))))%N →
       mem' x = mem x).
Proof.
  induction spans as [|s spans IH]; intros D mem Hmap Hdis.
  - exists mem. simpl. rewrite N.add_0_r. split; [done|]. split; [|done].
    intros i x Hi. by rewrite lookup_nil in Hi.
  - apply Forall_cons in Hmap as [(a & Ha & Hmap) Hrest].
    destruct s as [[p o] n]. simpl in Ha. subst p.
    rewrite fmap_cons in *. cbn [mjoin list_join] in *.
    rewrite !span_bytes_mk in *.
    set (Br := mjoin (span_bytes <$> spans)) in *.
    rewrite fmap_app in *. rewrite length_app, length_buffer_bytes in *.
    apply Forall_app in Hdis as [Hdis1 Hdis2].
    cbn [run_operator]. unfold ReadOperator at 1. cbn [Mdl Start Offset Length FlatBuffer
      CopyMemory].
    rewrite (decide_False (P := (buffer_of (Some a) = 0%N))) by done.
    rewrite decide_False by (intros H; by apply H).
    destruct (IH (D + n)%N (RtlCopyMemory mem D (buffer_of (Some a) + o) n) Hrest)
      as (mem' & Hrun & Hcopied & Hother).
    { eapply Forall_impl; [exact Hdis2|]. intros x Hx. simpl in *. lia. }
    exists mem'. split; [|split].
    + rewrite Hrun. do 2 f_equal. lia.
    + intros i x Hi. destruct (decide (i < N.to_nat n)) as [Hlt|Hge].
      * rewrite lookup_app_l in Hi by (by rewrite length_buffer_addresses).
        apply buffer_addresses_lookup in Hi as [_ ->].
        rewrite Hother by lia. unfold RtlCopyMemory.
        rewrite decide_True by lia. f_equal. lia.
      * rewrite lookup_app_r in Hi by (rewrite length_buffer_addresses; lia).
        rewrite length_buffer_addresses in Hi.
        pose proof (Hcopied _ _ Hi) as Hc.
        replace (D + n + N.of_nat (i - N.to_nat n))%N with (D + N.of_nat i)%N in Hc by lia.
        rewrite Hc. unfold RtlCopyMemory.
        apply list_elem_of_lookup_2 in Hi.
        pose proof (proj1 (Forall_forall _ _) Hdis2 _ Hi) as Hx. simpl in Hx.
        rewrite decide_False by lia. done.
    + intros x Hx. rewrite Hother by lia. unfold RtlCopyMemory.
      rewrite decide_False by lia. done.
Qed.

Lemma run_WriteOperator buffer_of spans : ∀ S mem,
  Forall (λ s, ∃ a, Mdl (Start s) = Some a ∧ buffer_of (Some a) ≠ 0%N) spans →
  NoDup (byte_address buffer_of <$> mjoin (span_bytes <$> spans)) →
  Forall (λ x, ¬ (S ≤ x < S + N.of_nat (length (mjoin (span_bytes <$> spans))))%N)
    (byte_address buffer_of <$> mjoin (span_bytes <$> spans)) →
  ∃ mem',
    run_operator (WriteOperator buffer_of) (mkCopy S mem) spans
      = (STATUS_SUCCESS,
         mkCopy (S + N.of_nat (length (mjoin (span_bytes <$> spans)))) mem') ∧
    (∀ i x, (byte_address buffer_of <$> mjoin (span_bytes <$> spans)) !! i = Some x →
       mem' x = mem (S + N.of_nat i)%N) ∧
    (∀ x, x ∉ byte_address buffer_of <$> mjoin (span_bytes <$> spans) → mem' x = mem x).
Proof.
  induction spans as [|s spans IH]; intros S mem Hmap Hnd Hdis.
  - exists mem. simpl. rewrite N.add_0_r. split; [done|]. split; [|done].
    intros i x Hi. by rewrite lookup_nil in Hi.
  - apply Forall_cons in Hmap as [(a & Ha & Hmap) Hrest].
    destruct s as [[p o] n]. simpl in Ha. subst p.
    rewrite fmap_cons in *. cbn [mjoin list_join] in *.
    rewrite !span_bytes_mk in *.
    set (Br := mjoin (span_bytes <$> spans)) in *.
    rewrite fmap_app in *. rewrite length_app, length_buffer_bytes in *.
    apply Forall_app in Hdis as [Hdis1 Hdis2].
    apply NoDup_app in Hnd as (Hnd1 & Hnd12 & Hnd2).
    cbn [run_operator]. unfold WriteOperator at 1. cbn [Mdl Start Offset Length FlatBuffer
      CopyMemory].
    rewrite (decide_False (P := (buffer_of (Some a) = 0%N))) by done.
    rewrite decide_False by (intros H; by apply H).
    destruct (IH (S + n)%N (RtlCopyMemory mem (buffer_of (Some a) + o) S n) Hrest Hnd2)
      as (mem' & Hrun & Hcopied & Hother).
    { eapply Forall_impl; [exact Hdis2|]. intros x Hx. simpl in *. lia. }
    exists mem'. split; [|split].
    + rewrite Hrun. do 2 f_equal. lia.
    + intros i x Hi. destruct (decide (i < N.to_nat n)) as [Hlt|Hge].
      * rewrite lookup_app_l in Hi by (by rewrite length_buffer_addresses).
        pose proof (list_elem_of_lookup_2 _ _ _ Hi) as Hin.
        apply buffer_addresses_lookup in Hi as [_ ->].
        rewrite Hother by (by apply Hnd12). unfold RtlCopyMemory.
        rewrite decide_True by lia. f_equal. lia.
      * rewrite lookup_app_r in Hi by (rewrite length_buffer_addresses; lia).
        rewrite length_buffer_addresses in Hi.
        pose proof (lookup_lt_Some _ _ _ Hi) as Hlen. rewrite length_fmap in Hlen.
        rewrite (Hcopied _ _ Hi). unfold RtlCopyMemory.
        destruct (decide (buffer_of (Some a) + o ≤ S + n + N.of_nat (i - N.to_nat n)
                          < buffer_of (Some a) + o + n)%N) as [Hr|Hr].
        -- apply elem_of_buffer_addresses in Hr.
           pose proof (proj1 (Forall_forall _ _) Hdis1 _ Hr) as Hx. simpl in Hx. lia.
        -- f_equal. lia.
    + intros x Hx. apply not_elem_of_app in Hx as [Hx1 Hx2].
      rewrite Hother by done. unfold RtlCopyMemory.
      rewrite decide_False; [done|]. intros Hr. by apply elem_of_buffer_addresses in Hr.
Qed.

(** X29: when every MDL of the chain can be mapped, the [len] bytes at offset
    [off] fit in the payload and their addresses are distinct and outside the
    flat buffer, [MdlCopyFlatBufferToMdlChainAtOffset] makes byte [off + i] of
    the payload the byte [i] of the flat buffer and changes no other byte of
    the memory, and [MdlCopyMdlChainAtOffsetToFlatBuffer] makes byte [i] of
    the flat buffer the byte [off + i] of the payload and changes nothing
    outside the flat buffer; both return [STATUS_SUCCESS] and leave the
    pointer into the flat buffer at its end. *)
Theorem X29_flat_buffer_copies_follow_the_payload buffer_of fuel mdls MdlChain l
    off len Flat mem :
  is_mdl_chain mdls MdlChain l → length l < fuel →
  (off < SIZE_T_MAX + 1)%N → (len < SIZE_T_MAX + 1)%N →
  Forall (λ a, (mdl_byte_count mdls a < SIZE_T_MAX + 1)%N) l →
  (off + len ≤ N.of_nat (length (chain_bytes mdls l)))%N →
  Forall (λ a, buffer_of (Some a) ≠ 0%N) l →
  NoDup (span_addresses buffer_of mdls l off len) →
  Forall (λ x, ¬ (Flat ≤ x < Flat + len)%N) (span_addresses buffer_of mdls l off len) →
  (∃ memW,
     MdlCopyFlatBufferToMdlChainAtOffset buffer_of fuel mdls MdlChain off Flat len mem
       = Some (Returns (STATUS_SUCCESS, mkCopy (Flat + len) memW)) ∧
     (∀ i x, span_addresses buffer_of mdls l off len !! i = Some x →
        memW x = mem (Flat + N.of_nat i)%N) ∧
     (∀ x, x ∉ span_addresses buffer_of mdls l off len → memW x = mem x)) ∧
  (∃ memR,
     MdlCopyMdlChainAtOffsetToFlatBuffer buffer_of fuel mdls Flat MdlChain off len mem
       = Some (Returns (STATUS_SUCCESS, mkCopy (Flat + len) memR)) ∧
     (∀ i x, span_addresses buffer_of mdls l off len !! i = Some x →
        memR (Flat + N.of_nat i)%N = mem x) ∧
     (∀ x, ¬ (Flat ≤ x < Flat + len)%N → memR x = mem x)).
Proof.
  intros Hl Hfuel Hoff Hlen Hbytes Hfit Hmap Hnd Hdis.
  assert (Hmapped : ∀ spans,
            Forall (λ s, ∃ a, Mdl (Start s) = Some a ∧ a ∈ l) spans →
            Forall (λ s, ∃ a, Mdl (Start s) = Some a ∧ buffer_of (Some a) ≠ 0%N) spans).
  { intros spans Hs. eapply Forall_impl; [exact Hs|].
    intros s (a & Ha & Hin). exists a. split; [done|].
    by apply (proj1 (Forall_forall _ _) Hmap). }
  assert (Hlength : N.of_nat (length (take (N.to_nat len)
                      (drop (N.to_nat off) (chain_bytes mdls l)))) = len).
  { rewrite length_take, length_drop. lia. }
  unfold span_addresses in *. split.
  - destruct (MdlSpanIterateBuffers_fits (WriteOperator buffer_of) fuel mdls MdlChain l
                off len (mkCopy Flat mem)) as (spans & Hrun & Hin & Hb); [done..|].
    destruct (run_WriteOperator buffer_of spans Flat mem (Hmapped _ Hin))
      as (memW & Hr & Hcopied & Hother).
    { by rewrite Hb. }
    { by rewrite Hb, Hlength. }
    rewrite Hb in *. rewrite Hlength in Hr. exists memW.
    unfold MdlCopyFlatBufferToMdlChainAtOffset, MdlCopyFlatBufferToMdlSpan.
    by rewrite Hrun, Hr.
  - destruct (MdlSpanIterateBuffers_fits (ReadOperator buffer_of) fuel mdls MdlChain l
                off len (mkCopy Flat mem)) as (spans & Hrun & Hin & Hb); [done..|].
    destruct (run_ReadOperator buffer_of spans Flat mem (Hmapped _ Hin))
      as (memR & Hr & Hcopied & Hother).
    { by rewrite Hb, Hlength. }
    rewrite Hb in *. rewrite Hlength in Hr, Hother. exists memR.
    unfold MdlCopyMdlChainAtOffsetToFlatBuffer, MdlCopyMdlSpanToFlatBuffer.
    by rewrite Hrun, Hr.
Qed.

Lemma X29_flat_buffer_copies_follow_the_payload_witness :
  (∃ memW,
     MdlCopyFlatBufferToMdlChainAtOffset example_buffer_of 4 example_mdls (Some 1) 2
       5000 5 example_memory
       = Some (Returns (STATUS_SUCCESS, mkCopy (N.add 5000 5) memW)) ∧
     (∀ i x, span_addresses example_buffer_of example_mdls example_mdl_chain 2 5 !! i
             = Some x →
        memW x = example_memory (N.add 5000 (N.of_nat i))) ∧
     (∀ x, x ∉ span_addresses example_buffer_of example_mdls example_mdl_chain 2 5 →
        memW x = example_memory x)) ∧
  (∃ memR,
     MdlCopyMdlChainAtOffsetToFlatBuffer example_buffer_of 4 example_mdls 5000 (Some 1)
       2 5 example_memory
       = Some (Returns (STATUS_SUCCESS, mkCopy (N.add 5000 5) memR)) ∧
     (∀ i x, span_addresses example_buffer_of example_mdls example_mdl_chain 2 5 !! i
             = Some x →
        memR (N.add 5000 (N.of_nat i)) = example_memory x) ∧
     (∀ x, ¬ (5000 ≤ x < N.add 5000 5)%N → memR x = example_memory x)).
Proof.
  apply (X29_flat_buffer_copies_follow_the_payload example_buffer_of 4 example_mdls
           (Some 1) example_mdl_chain 2 5 5000 example_memory).
  - vm_compute. repeat split.
  - simpl. lia.
  - vm_compute. reflexivity.
  - vm_compute. reflexivity.
  - repeat (constructor; [vm_compute; reflexivity|]). constructor.
  - vm_compute. intros H. discriminate H.
  - repeat (constructor; [vm_compute; discriminate|]). constructor.
  - compute_done.
  - match goal with
    | |- Forall ?P ?L => let L' := eval vm_compute in L in change (Forall P L')
    end.
    repeat (constructor; [lia|]). constructor.
Defined.

(** ** Iteration over two chains *)

Lemma pair_spans_cons mdls a1 t1 o1 l2 o2 len :
  pair_spans mdls (a1 :: t1) o1 l2 o2 len
  = if decide (len = 0%N) then []
    else if decide (mdl_byte_count mdls a1 ≤ o1)%N
    then pair_spans mdls t1 (o1 - mdl_byte_count mdls a1)%N l2 o2 len
    else
      match l2 with
      | [] => []
      | a2 :: t2 =>
        if decide (mdl_byte_count mdls a2 ≤ o2)%N
        then pair_spans mdls (a1 :: t1) o1 t2 (o2 - mdl_byte_count mdls a2)%N len
        else
          let c := N.min len (N.min (mdl_byte_count mdls a1 - o1)
                                     (mdl_byte_count mdls a2 - o2)) in
          (mkPointer (Some a1) o1, mkPointer (Some a2) o2, c) ::
            (if decide (o1 + c = mdl_byte_count mdls a1)%N
             then pair_spans mdls t1 0%N (a2 :: t2) (o2 + c)%N (len - c)%N
             else pair_spans mdls (a1 :: t1) (o1 + c)%N t2 0%N (len - c)%N)
      end.
Proof. destruct l2; reflexivity. Qed.

Lemma pair_spans_0 mdls l1 o1 l2 o2 : pair_spans mdls l1 o1 l2 o2 0 = [].
Proof. destruct l1; [done|]. rewrite pair_spans_cons. by rewrite decide_True. Qed.

Lemma byte_position_skip mdls a l o :
  (mdl_byte_count mdls a ≤ o)%N →
  byte_position mdls (a :: l) o = byte_position mdls l (o - mdl_byte_count mdls a).
Proof.
  intros Hle. unfold byte_position.
  rewrite chain_bytes_cons, length_app, length_buffer_bytes.
  rewrite lookup_app_r by (rewrite length_buffer_bytes; lia).
  rewrite length_buffer_bytes.
  replace (N.to_nat o - N.to_nat (mdl_byte_count mdls a))
    with (N.to_nat (o - mdl_byte_count mdls a)) by lia.
  destruct (chain_bytes mdls l !! _) as [[a' k]|]; [done|].
  destruct (decide (o = _)), (decide ((o - _)%N = _)); (done || lia).
Qed.

Lemma byte_position_fits mdls l o :
  (o ≤ N.of_nat (length (chain_bytes mdls l)))%N → ∃ Q, byte_position mdls l o = Returns Q.
Proof.
  intros Hle. unfold byte_position.
  destruct (chain_bytes mdls l !! N.to_nat o) as [[a k]|] eqn:E; [eauto|].
  apply lookup_ge_None in E. rewrite decide_True by lia. eauto.
Qed.

Lemma drop_payload_skip mdls a t o :
  (mdl_byte_count mdls a ≤ o)%N →
  drop (N.to_nat o) (chain_bytes mdls (a :: t))
  = drop (N.to_nat (o - mdl_byte_count mdls a)) (chain_bytes mdls t).
Proof.
  intros Hle. rewrite chain_bytes_cons.
  rewrite drop_app_ge by (rewrite length_buffer_bytes; lia).
  rewrite length_buffer_bytes. f_equal. lia.
Qed.

Lemma take_drop_payload_head mdls a t o c len :
  (o + c ≤ mdl_byte_count mdls a)%N → (c ≤ len)%N →
  take (N.to_nat len) (drop (N.to_nat o) (chain_bytes mdls (a :: t)))
  = buffer_bytes a o c ++
    take (N.to_nat (len - c)) (drop (N.to_nat (o + c)) (chain_bytes mdls (a :: t))).
Proof.
  intros Hc Hlen.
  replace (N.to_nat len) with (N.to_nat c + N.to_nat (len - c)) by lia.
  rewrite <- take_take_drop, drop_drop.
  replace (N.to_nat o + N.to_nat c) with (N.to_nat (o + c)) by lia. f_equal.
  rewrite chain_bytes_cons.
  rewrite drop_app_le by (rewrite length_buffer_bytes; lia).
  rewrite take_app_le by (rewrite length_drop, length_buffer_bytes; lia).
  apply buffer_bytes_take_drop. lia.
Qed.

Lemma MinSizeT_min a b : MinSizeT a b = N.min a b.
Proof. unfold MinSizeT. case_decide; lia. Qed.

Lemma mjoin_cons {A : Type} (x : list A) (xs : list (list A)) :
  mjoin (x :: xs) = x ++ mjoin xs.
Proof. done. Qed.

Lemma pair_spans_spec mdls n :
  ∀ l1 o1 l2 o2 len,
  length l1 + length l2 ≤ n →
  (o1 + len ≤ N.of_nat (length (chain_bytes mdls l1)))%N →
  (o2 + len ≤ N.of_nat (length (chain_bytes mdls l2)))%N →
  Forall (pair_in_buffers mdls) (pair_spans mdls l1 o1 l2 o2 len) ∧
  mjoin (pair_bytes1 <$> pair_spans mdls l1 o1 l2 o2 len)
    = take (N.to_nat len) (drop (N.to_nat o1) (chain_bytes mdls l1)) ∧
  mjoin (pair_bytes2 <$> pair_spans mdls l1 o1 l2 o2 len)
    = take (N.to_nat len) (drop (N.to_nat o2) (chain_bytes mdls l2)).
Proof.
  assert (Hzero : ∀ l1 o1 l2 o2,
    Forall (pair_in_buffers mdls) (pair_spans mdls l1 o1 l2 o2 0) ∧
    mjoin (pair_bytes1 <$> pair_spans mdls l1 o1 l2 o2 0)
      = take (N.to_nat 0) (drop (N.to_nat o1) (chain_bytes mdls l1)) ∧
    mjoin (pair_bytes2 <$> pair_spans mdls l1 o1 l2 o2 0)
      = take (N.to_nat 0) (drop (N.to_nat o2) (chain_bytes mdls l2))).
  { intros. rewrite pair_spans_0. split; [constructor|]. by rewrite !take_0. }
  induction n as [|n IH]; intros l1 o1 l2 o2 len Hn Hfit1 Hfit2.
  all: destruct (decide (len = 0%N)) as [->|Hlen]; [apply Hzero|].
  { destruct l1; [simpl in Hfit1; lia | simpl in Hn; lia]. }
  destruct l1 as [|a1 t1]; [simpl in Hfit1; lia|].
  rewrite pair_spans_cons. rewrite decide_False by done.
  pose proof Hfit1 as Hfit1'.
  rewrite chain_bytes_cons, length_app, length_buffer_bytes in Hfit1'.
  simpl in Hn.
  destruct (decide (mdl_byte_count mdls a1 ≤ o1)%N) as [Hs1|Hs1].
  { rewrite drop_payload_skip by done. apply IH; [lia | lia | done]. }
  destruct l2 as [|a2 t2]; [simpl in Hfit2; lia|].
  pose proof Hfit2 as Hfit2'.
  rewrite chain_bytes_cons, length_app, length_buffer_bytes in Hfit2'.
  simpl in Hn.
  destruct (decide (mdl_byte_count mdls a2 ≤ o2)%N) as [Hs2|Hs2].
  { rewrite (drop_payload_skip mdls a2) by done.
    apply IH; [simpl; lia | done | lia]. }
  cbv zeta.
  set (b1 := mdl_byte_count mdls a1) in *. set (b2 := mdl_byte_count mdls a2) in *.
  set (c := N.min len (N.min (b1 - o1) (b2 - o2))).
  assert (Hc : (0 < c ∧ c ≤ len ∧ o1 + c ≤ b1 ∧ o2 + c ≤ b2)%N) by lia.
  rewrite (take_drop_payload_head mdls a1 t1 o1 c len) by (fold b1; lia).
  rewrite (take_drop_payload_head mdls a2 t2 o2 c len) by (fold b2; lia).
  assert (Hhead : pair_in_buffers mdls
            (mkPointer (Some a1) o1, mkPointer (Some a2) o2, c)).
  { split; [exists a1 | exists a2]; simpl; (split; [done|]); split; (fold b1 || fold b2); lia. }
  rewrite !fmap_cons, !mjoin_cons.
  unfold pair_bytes1 at 1, pair_bytes2 at 1. cbn [fst snd]. rewrite !span_bytes_mk.
  destruct (decide (len - c = 0)%N) as [Hz|Hnz].
  { rewrite Hz. rewrite !pair_spans_0. destruct (decide (o1 + c = b1)%N).
    all: split; [constructor; [done | constructor]|]; by rewrite !take_0. }
  destruct (decide (o1 + c = b1)%N) as [He|Hne].
  - destruct (IH t1 0%N (a2 :: t2) (o2 + c)%N (len - c)%N) as (H1 & H2 & H3);
      [simpl; lia | lia | lia |].
    split; [by constructor|]. rewrite H2, H3. split; [|done].
    do 2 f_equal. rewrite He. rewrite drop_payload_skip by (fold b1; lia).
    fold b1. by rewrite N.sub_diag.
  - destruct (IH (a1 :: t1) (o1 + c)%N t2 0%N (len - c)%N) as (H1 & H2 & H3);
      [simpl; lia | lia | lia |].
    split; [by constructor|]. rewrite H2, H3. split; [done|].
    do 2 f_equal. assert (o2 + c = b2)%N as -> by lia.
    rewrite drop_payload_skip by (fold b2; lia).
    fold b2. by rewrite N.sub_diag.
Qed.

Lemma MdlPointerNormalize_spec fuel mdls a l off :
  is_mdl_chain mdls (Some a) l → length l < fuel → (off < SIZE_T_MAX + 1)%N →
  MdlPointerNormalize fuel mdls (mkPointer (Some a) off)
  = Some (byte_position mdls l off).
Proof.
  intros Hl Hfuel Hbound.
  pose proof (chain_cons_tail _ _ _ Hl) as Hl'.
  pose proof Hl as Hl0. rewrite Hl' in Hl0.
  apply mdl_chain_cons in Hl0 as [_ (m & Hm & _)].
  pose proof (mdl_byte_count_lookup _ _ _ Hm) as Hb.
  unfold MdlPointerNormalize. simpl. rewrite Hm. simpl. unfold MmGetMdlByteCount.
  case_decide as Hle.
  - apply MdlChainAdvanceBytes_spec; [done | done | lia].
  - rewrite Hl'. rewrite byte_position_in_first by (rewrite Hb; lia). done.
Qed.

Lemma MdlPointerAdvanceBytes_spec fuel mdls a l off Delta :
  is_mdl_chain mdls (Some a) l → length l < fuel → (off + Delta < SIZE_T_MAX + 1)%N →
  MdlPointerAdvanceBytes fuel mdls (mkPointer (Some a) off) Delta
  = Some (byte_position mdls l (off + Delta)).
Proof.
  intros Hl Hfuel Hbound.
  pose proof (chain_cons_tail _ _ _ Hl) as Hl'.
  pose proof Hl as Hl0. rewrite Hl' in Hl0.
  apply mdl_chain_cons in Hl0 as [_ (m & Hm & _)].
  pose proof (mdl_byte_count_lookup _ _ _ Hm) as Hb.
  unfold MdlPointerAdvanceBytes. simpl. rewrite Hm. simpl. unfold MmGetMdlByteCount.
  assert (Hadd : SIZE_T_add Delta off = (off + Delta)%N).
  { unfold SIZE_T_add. rewrite N.mod_small by lia. lia. }
  assert (Hadd' : SIZE_T_add off Delta = (off + Delta)%N).
  { unfold SIZE_T_add. by rewrite N.mod_small by lia. }
  rewrite Hadd, Hadd'. case_decide as Hlt.
  - rewrite Hl'. rewrite byte_position_in_first by (rewrite Hb; lia). done.
  - apply MdlChainAdvanceBytes_spec; [done | done | lia].
Qed.

Section MdlPairwise_correct.

Context {C : Type}.
Variable Operator : C → MDL_POINTER → MDL_POINTER → N → NTSTATUS * C.
Variable mdls : gmap nat MDL.

Lemma MdlPairwiseIterateBuffersUpdateInputs_loop_spec n :
  ∀ fuel l1 o1 l2 o2 rem ctx p1 p2 P1 P2,
  length l1 + length l2 ≤ n → length l1 + length l2 < fuel →
  is_mdl_chain mdls p1 l1 → is_mdl_chain mdls p2 l2 →
  byte_position mdls l1 o1 = Returns P1 → byte_position mdls l2 o2 = Returns P2 →
  Forall (λ a, (mdl_byte_count mdls a < SIZE_T_MAX + 1)%N) l1 →
  Forall (λ a, (mdl_byte_count mdls a < SIZE_T_MAX + 1)%N) l2 →
  (rem < SIZE_T_MAX + 1)%N →
  (o1 + rem ≤ N.of_nat (length (chain_bytes mdls l1)))%N →
  (o2 + rem ≤ N.of_nat (length (chain_bytes mdls l2)))%N →
  ∃ P1' P2',
    MdlPairwiseIterateBuffersUpdateInputs_loop Operator fuel mdls P1 P2 rem ctx
    = Some (Returns
        ((run_pairwise_operator Operator ctx (pair_spans mdls l1 o1 l2 o2 rem)).1,
         P1', P2',
         (run_pairwise_operator Operator ctx (pair_spans mdls l1 o1 l2 o2 rem)).2)) ∧
    ((run_pairwise_operator Operator ctx (pair_spans mdls l1 o1 l2 o2 rem)).1
     = STATUS_SUCCESS →
     byte_position mdls l1 (o1 + rem) = Returns P1' ∧
     byte_position mdls l2 (o2 + rem) = Returns P2').
Proof.
  assert (Hzero : ∀ fuel l1 o1 l2 o2 ctx P1 P2,
    0 < fuel →
    byte_position mdls l1 o1 = Returns P1 → byte_position mdls l2 o2 = Returns P2 →
    ∃ P1' P2',
      MdlPairwiseIterateBuffersUpdateInputs_loop Operator fuel mdls P1 P2 0 ctx
      = Some (Returns
          ((run_pairwise_operator Operator ctx (pair_spans mdls l1 o1 l2 o2 0)).1,
           P1', P2',
           (run_pairwise_operator Operator ctx (pair_spans mdls l1 o1 l2 o2 0)).2)) ∧
      ((run_pairwise_operator Operator ctx (pair_spans mdls l1 o1 l2 o2 0)).1
       = STATUS_SUCCESS →
       byte_position mdls l1 (o1 + 0) = Returns P1' ∧
       byte_position mdls l2 (o2 + 0) = Returns P2')).
  { intros fuel l1 o1 l2 o2 ctx P1 P2 Hfuel HP1 HP2.
    destruct fuel as [|fuel]; [lia|]. rewrite pair_spans_0. simpl.
    exists P1, P2. split; [done|]. intros _. by rewrite !N.add_0_r. }
  induction n as [|n IH];
    intros fuel l1 o1 l2 o2 rem ctx p1 p2 P1 P2 Hn Hfuel Hl1 Hl2 HP1 HP2 Hb1 Hb2 Hrem
      Hfit1 Hfit2.
  all: destruct (decide (rem = 0%N)) as [->|Hpos]; [apply Hzero; (done || lia)|].
  { destruct l1; [simpl in Hfit1; lia | simpl in Hn; lia]. }
  destruct l1 as [|a1 t1]; [simpl in Hfit1; lia|].
  pose proof Hl1 as Hl1'. apply mdl_chain_cons in Hl1' as [-> (m1 & Hm1 & Hl1')].
  pose proof Hb1 as Hb1'. apply Forall_cons in Hb1' as [Hba1 Hb1'].
  rewrite pair_spans_cons. rewrite decide_False by done.
  pose proof Hfit1 as Hfit1'.
  rewrite chain_bytes_cons, length_app, length_buffer_bytes in Hfit1'.
  simpl in Hn, Hfuel.
  destruct (decide (mdl_byte_count mdls a1 ≤ o1)%N) as [Hs1|Hs1].
  { rewrite byte_position_skip in HP1 by done.
    destruct (IH fuel t1 (o1 - mdl_byte_count mdls a1)%N l2 o2 rem ctx (MdlNext m1) p2 P1 P2)
      as (P1' & P2' & Hrun & Hfin); [lia | lia | done.. | lia | done |].
    exists P1', P2'. split; [done|]. intros Hs. destruct (Hfin Hs) as [H1 H2].
    split; [|done]. rewrite byte_position_skip by lia. rewrite <- H1. f_equal. lia. }
  destruct l2 as [|a2 t2]; [simpl in Hfit2; lia|].
  pose proof Hl2 as Hl2'. apply mdl_chain_cons in Hl2' as [-> (m2 & Hm2 & Hl2')].
  pose proof Hb2 as Hb2'. apply Forall_cons in Hb2' as [Hba2 Hb2'].
  pose proof Hfit2 as Hfit2'.
  rewrite chain_bytes_cons, length_app, length_buffer_bytes in Hfit2'.
  simpl in Hn, Hfuel.
  destruct (decide (mdl_byte_count mdls a2 ≤ o2)%N) as [Hs2|Hs2].
  { rewrite byte_position_skip in HP2 by done.
    destruct (IH fuel (a1 :: t1) o1 t2 (o2 - mdl_byte_count mdls a2)%N rem ctx (Some a1)
                (MdlNext m2) P1 P2)
      as (P1' & P2' & Hrun & Hfin); [simpl; lia | simpl; lia | done.. | lia |].
    exists P1', P2'. split; [done|]. intros Hs. destruct (Hfin Hs) as [H1 H2].
    split; [done|]. rewrite byte_position_skip by lia. rewrite <- H2. f_equal. lia. }
  cbv zeta.
  rewrite byte_position_in_first in HP1 by lia. injection HP1 as <-.
  rewrite byte_position_in_first in HP2 by lia. injection HP2 as <-.
  pose proof (mdl_byte_count_lookup _ _ _ Hm1) as Hc1.
  pose proof (mdl_byte_count_lookup _ _ _ Hm2) as Hc2.
  set (b1 := mdl_byte_count mdls a1) in *. set (b2 := mdl_byte_count mdls a2) in *.
  set (c := N.min rem (N.min (b1 - o1) (b2 - o2))).
  assert (Hc : (0 < c ∧ c ≤ rem ∧ o1 + c ≤ b1 ∧ o2 + c ≤ b2)%N) by lia.
  destruct fuel as [|fuel]; [lia|].
  cbn [MdlPairwiseIterateBuffersUpdateInputs_loop].
  rewrite decide_True by lia. cbn [Mdl Offset mbind option_bind].
  rewrite Hm1. cbn [mbind option_bind]. rewrite Hm2. cbn [mbind option_bind].
  unfold MmGetMdlByteCount. rewrite <- Hc1, <- Hc2.
  rewrite (SIZE_T_sub_small b1 o1) by lia. rewrite (SIZE_T_sub_small b2 o2) by lia.
  rewrite !MinSizeT_min. fold c.
  cbn [run_pairwise_operator fst snd].
  destruct (Operator ctx _ _ c) as [st ctx'].
  destruct (decide (STATUS_SUCCESS ≠ st)) as [Hst|Hst].
  { exists (mkPointer (Some a1) o1), (mkPointer (Some a2) o2). split; [done|].
    simpl. intros Hs. by destruct Hst. }
  rewrite (MdlPointerAdvanceBytes_spec fuel mdls a1 (a1 :: t1)) by (done || simpl; lia).
  destruct (byte_position_fits mdls (a1 :: t1) (o1 + c)) as [Q1 HQ1];
    [rewrite chain_bytes_cons, length_app, length_buffer_bytes; fold b1; lia|].
  rewrite HQ1. cbn [mdl_bind].
  rewrite (MdlPointerAdvanceBytes_spec fuel mdls a2 (a2 :: t2)) by (done || simpl; lia).
  destruct (byte_position_fits mdls (a2 :: t2) (o2 + c)) as [Q2 HQ2];
    [rewrite chain_bytes_cons, length_app, length_buffer_bytes; fold b2; lia|].
  rewrite HQ2. cbn [mdl_bind].
  rewrite (SIZE_T_sub_small rem c) by lia.
  destruct (decide (rem - c = 0)%N) as [Hz|Hnz].
  { rewrite Hz. rewrite !pair_spans_0.
    destruct fuel as [|fuel]; [simpl in Hfuel; lia|].
    assert (rem = c) as Hrc by lia. rewrite Hrc.
    exists Q1, Q2. destruct (decide (o1 + c = b1)%N); (split; [done|]); intros _; done. }
  destruct (decide (o1 + c = b1)%N) as [He|Hne].
  - rewrite byte_position_skip in HQ1 by (fold b1; lia). fold b1 in HQ1.
    replace (o1 + c - b1)%N with 0%N in HQ1 by lia.
    destruct (IH fuel t1 0%N (a2 :: t2) (o2 + c)%N (rem - c)%N ctx' (MdlNext m1) (Some a2)
                Q1 Q2)
      as (P1' & P2' & Hrun & Hfin);
      [simpl; lia | simpl; lia | done.. | lia | lia | lia |].
    exists P1', P2'. split; [done|]. intros Hs. destruct (Hfin Hs) as [H1 H2].
    split.
    + rewrite byte_position_skip by (fold b1; lia). rewrite <- H1. f_equal.
      fold b1. lia.
    + rewrite <- H2. f_equal. lia.
  - assert (o2 + c = b2)%N as He by lia.
    rewrite byte_position_skip in HQ2 by (fold b2; lia). fold b2 in HQ2.
    replace (o2 + c - b2)%N with 0%N in HQ2 by lia.
    destruct (IH fuel (a1 :: t1) (o1 + c)%N t2 0%N (rem - c)%N ctx' (Some a1) (MdlNext m2)
                Q1 Q2)
      as (P1' & P2' & Hrun & Hfin);
      [simpl; lia | simpl; lia | done.. | lia | lia | lia |].
    exists P1', P2'. split; [done|]. intros Hs. destruct (Hfin Hs) as [H1 H2].
    split.
    + rewrite <- H1. f_equal. lia.
    + rewrite byte_position_skip by (fold b2; lia). rewrite <- H2. f_equal.
      fold b2. lia.
Qed.

End MdlPairwise_correct.

(** X30: for two pointers into chains and a length that fits in both
    payloads, [MdlPairwiseIterateBuffers] calls the operator on pairs of parts
    of buffers of the same length, not empty and each inside the buffer of its
    MDL, whose first parts are together exactly the [len] bytes of the first
    payload from the first pointer on and whose second parts are the [len]
    bytes of the second payload from the second pointer on, in order, until a
    call returns a status other than [STATUS_SUCCESS], which it returns.
    [MdlPairwiseIterateBuffersUpdateInputs] makes the same calls, and when
    every call succeeded it leaves both pointers, in normal form, [len] bytes
    further. *)
Theorem X30_MdlPairwiseIterateBuffers_pairs_the_payloads {C : Type}
    (Operator : C → MDL_POINTER → MDL_POINTER → N → NTSTATUS * C)
    fuel mdls a1 l1 off1 a2 l2 off2 len ctx :
  is_mdl_chain mdls (Some a1) l1 → is_mdl_chain mdls (Some a2) l2 →
  length l1 + length l2 < fuel →
  Forall (λ a, (mdl_byte_count mdls a < SIZE_T_MAX + 1)%N) l1 →
  Forall (λ a, (mdl_byte_count mdls a < SIZE_T_MAX + 1)%N) l2 →
  (off1 < SIZE_T_MAX + 1)%N → (off2 < SIZE_T_MAX + 1)%N → (len < SIZE_T_MAX + 1)%N →
  (off1 + len ≤ N.of_nat (length (chain_bytes mdls l1)))%N →
  (off2 + len ≤ N.of_nat (length (chain_bytes mdls l2)))%N →
  ∃ calls,
    calls = pair_spans mdls l1 off1 l2 off2 len ∧
    Forall (pair_in_buffers mdls) calls ∧
    mjoin (pair_bytes1 <$> calls)
      = take (N.to_nat len) (drop (N.to_nat off1) (chain_bytes mdls l1)) ∧
    mjoin (pair_bytes2 <$> calls)
      = take (N.to_nat len) (drop (N.to_nat off2) (chain_bytes mdls l2)) ∧
    MdlPairwiseIterateBuffers Operator fuel mdls (mkPointer (Some a1) off1)
      (mkPointer (Some a2) off2) len ctx
      = Some (Returns (run_pairwise_operator Operator ctx calls)) ∧
    ∃ P1' P2',
      MdlPairwiseIterateBuffersUpdateInputs Operator fuel mdls (mkPointer (Some a1) off1)
        (mkPointer (Some a2) off2) len ctx
        = Some (Returns ((run_pairwise_operator Operator ctx calls).1, P1', P2',
                         (run_pairwise_operator Operator ctx calls).2)) ∧
      ((run_pairwise_operator Operator ctx calls).1 = STATUS_SUCCESS →
       byte_position mdls l1 (off1 + len) = Returns P1' ∧
       byte_position mdls l2 (off2 + len) = Returns P2').
Proof.
  intros Hl1 Hl2 Hfuel Hb1 Hb2 Hoff1 Hoff2 Hlen Hfit1 Hfit2.
  exists (pair_spans mdls l1 off1 l2 off2 len). split; [done|].
  destruct (pair_spans_spec mdls (length l1 + length l2) l1 off1 l2 off2 len)
    as (Hin & Hbytes1 & Hbytes2); [done..|].
  split; [done|]. split; [done|]. split; [done|].
  destruct (byte_position_fits mdls l1 off1) as [Q1 HQ1]; [lia|].
  destruct (byte_position_fits mdls l2 off2) as [Q2 HQ2]; [lia|].
  destruct (MdlPairwiseIterateBuffersUpdateInputs_loop_spec Operator mdls
              (length l1 + length l2) fuel l1 off1 l2 off2 len ctx (Some a1) (Some a2)
              Q1 Q2) as (P1' & P2' & Hrun & Hfin); [done..|].
  assert (Hupdate :
    MdlPairwiseIterateBuffersUpdateInputs Operator fuel mdls (mkPointer (Some a1) off1)
      (mkPointer (Some a2) off2) len ctx
    = Some (Returns
        ((run_pairwise_operator Operator ctx (pair_spans mdls l1 off1 l2 off2 len)).1,
         P1', P2',
         (run_pairwise_operator Operator ctx (pair_spans mdls l1 off1 l2 off2 len)).2))).
  { unfold MdlPairwiseIterateBuffersUpdateInputs.
    rewrite (MdlPointerNormalize_spec fuel mdls a1 l1) by (done || lia).
    rewrite HQ1. cbn [mdl_bind].
    rewrite (MdlPointerNormalize_spec fuel mdls a2 l2) by (done || lia).
    rewrite HQ2. cbn [mdl_bind]. done. }
  split; [|by exists P1', P2'].
  unfold MdlPairwiseIterateBuffers. destruct (decide (0 = len)%N) as [<-|Hpos].
  - by rewrite pair_spans_0.
  - rewrite Hupdate. cbn [mdl_bind fst snd].
    by destruct (run_pairwise_operator Operator ctx _).
Qed.

Lemma X30_MdlPairwiseIterateBuffers_pairs_the_payloads_witness :
  ∃ calls,
    calls = pair_spans example_mdls_pair example_mdl_chain 1 example_mdl_chain2 2 7 ∧
    Forall (pair_in_buffers example_mdls_pair) calls ∧
    mjoin (pair_bytes1 <$> calls)
      = take (N.to_nat 7) (drop (N.to_nat 1)
                             (chain_bytes example_mdls_pair example_mdl_chain)) ∧
    mjoin (pair_bytes2 <$> calls)
      = take (N.to_nat 7) (drop (N.to_nat 2)
                             (chain_bytes example_mdls_pair example_mdl_chain2)) ∧
    MdlPairwiseIterateBuffers example_pairwise_operator 6 example_mdls_pair
      (mkPointer (Some 1) 1) (mkPointer (Some 4) 2) 7 []
      = Some (Returns (run_pairwise_operator example_pairwise_operator [] calls)) ∧
    ∃ P1' P2',
      MdlPairwiseIterateBuffersUpdateInputs example_pairwise_operator 6
        example_mdls_pair (mkPointer (Some 1) 1) (mkPointer (Some 4) 2) 7 []
        = Some (Returns ((run_pairwise_operator example_pairwise_operator [] calls).1,
                         P1', P2',
                         (run_pairwise_operator example_pairwise_operator [] calls).2)) ∧
      ((run_pairwise_operator example_pairwise_operator [] calls).1 = STATUS_SUCCESS →
       byte_position example_mdls_pair example_mdl_chain (N.add 1 7) = Returns P1' ∧
       byte_position example_mdls_pair example_mdl_chain2 (N.add 2 7) = Returns P2').
Proof.
  apply (X30_MdlPairwiseIterateBuffers_pairs_the_payloads example_pairwise_operator 6
           example_mdls_pair 1 example_mdl_chain 1 4 example_mdl_chain2 2 7 []).
  - vm_compute. repeat split.
  - vm_compute. repeat split.
  - simpl. lia.
  - repeat (constructor; [vm_compute; reflexivity|]). constructor.
  - repeat (constructor; [vm_compute; reflexivity|]). constructor.
  - vm_compute. reflexivity.
  - vm_compute. reflexivity.
  - vm_compute. reflexivity.
  - vm_compute. intros H. discriminate H.
  - vm_compute. intros H. discriminate H.
Defined.
